(** * HOMRDataset: the TFRecord loader and the edit-distance evaluator

    A shallow embedding of [labs/12/homr_dataset.py]: the record framing and
    the tagged feature decoder of [HOMRDataset._load_data], the two
    materialisation modes of [HOMRDataset.Dataset], and the metric of
    [HOMRDataset.EditDistanceMetric] / [HOMRDataset.evaluate].

    Conventions.
    - A Python [bytes] object is a [list Z] of values in [0, 256); it has
      fewer than [2^63] elements.
    - A Python [str] is the list of its code points.
    - [np.int64] is a [Z] kept in [-2^63, 2^63) by [wrap64]. The scalar
      semantics are those of NumPy 2: arithmetic and shifts on [np.int64]
      wrap silently, a Python integer combined with an [np.int64] is
      converted to [np.int64], and raises [OverflowError] when it does not
      fit.
    - The host is little-endian, as the platforms the dataset is used on.
    - [assert] statements are enabled and raise [AssertionError].
    - Memory suffices for the objects made from bytes that exist: the file's
      content and what is decoded from it. The one request that can exceed
      them, [file.read(length)] with a length taken from a record header, is
      served or refused as the environment decides ([Allocator]).
    - A computation ends with a result ([Done]), with an exception
      ([Raised]) or not at all ([Timeout], when the fuel of a loop without
      a bound runs out). [Done] and [Raised] carry the state they end in,
      so that what a failed call has and has not touched can be stated. *)

From Stdlib Require Import ZArith List Lia Bool QArith Qcanon.
From stdpp Require Import base numbers option list strings sorting gmap.

Local Open Scope Z_scope.

(** ** Exceptions and the state-and-exception monad *)

Inductive value_error : Type :=
| UnsupportedDataTag (tag : Z)   (* "Unsupported data tag {}" *)
| NotMultipleOfItemSize          (* array.frombytes *)
| BufferOffset                   (* np.frombuffer / torch.frombuffer: bad offset *)
| BufferTooSmall                 (* frombuffer: fewer bytes than requested *)
| BufferNotMultiple              (* frombuffer: size not a multiple of the element *)
| BufferEmpty.                   (* torch.frombuffer: empty buffer or count 0 *)

Inductive exn : Type :=
| AssertionError
| IndexError
| KeyError
| AttributeError
| OverflowError
| UnicodeDecodeError
| ValueError (why : value_error)
| RuntimeError
| MemoryError.

Inductive outcome (S A : Type) : Type :=
| Done (a : A) (s : S)
| Raised (e : exn) (s : S)
| Timeout.
Arguments Done {S A} a s.
Arguments Raised {S A} e s.
Arguments Timeout {S A}.

Definition M (S A : Type) : Type := S -> outcome S A.

Definition ret {S A} (a : A) : M S A := fun s => Done a s.
Definition raise {S A} (e : exn) : M S A := fun s => Raised e s.
Definition bind {S A B} (m : M S A) (k : A -> M S B) : M S B :=
  fun s => match m s with
           | Done a s' => k a s'
           | Raised e s' => Raised e s'
           | Timeout => Timeout
           end.
Definition gets {S A} (f : S -> A) : M S A := fun s => Done (f s) s.
Definition modify {S} (f : S -> S) : M S unit := fun s => Done tt (f s).
Definition py_assert {S} (b : bool) : M S unit :=
  if b then ret tt else raise AssertionError.
Definition lift_option {S A} (e : exn) (o : option A) : M S A :=
  match o with Some a => ret a | None => raise e end.

Notation "'let*' x ':=' m 'in' k" := (bind m (fun x => k))
  (at level 10, x name, m at level 100, k at level 200).

(** ** Python sequences *)

Definition bytes := list Z.
Definition str := list Z.

(** [l[i]]: negative indices count from the end. *)
Definition py_getitem {A} (l : list A) (i : Z) : option A :=
  let n := Z.of_nat (length l) in
  if (0 <=? i) && (i <? n) then l !! Z.to_nat i
  else if (- n <=? i) && (i <? 0) then l !! Z.to_nat (n + i)
  else None.

(** [l[lo:hi]]: bounds are clamped, never an error. *)
Definition py_clamp (n i : Z) : Z :=
  if i <? 0 then Z.max 0 (i + n) else Z.min i n.
Definition py_slice {A} (l : list A) (lo hi : Z) : list A :=
  let n := Z.of_nat (length l) in
  let a := py_clamp n lo in
  let b := py_clamp n hi in
  take (Z.to_nat (b - a)) (drop (Z.to_nat a) l).

Definition len {A} (l : list A) : Z := Z.of_nat (length l).

(** Little-endian integers, as [struct.unpack("<Q", _)] and the buffers of
    [array.array] read and write them. *)
Fixpoint le_decode (bs : bytes) : Z :=
  match bs with
  | [] => 0
  | b :: r => b + 256 * le_decode r
  end.
Fixpoint le_encode (n : nat) (v : Z) : bytes :=
  match n with
  | O => []
  | S n' => v mod 256 :: le_encode n' (v / 256)
  end.

(** [bytes.decode("utf-8")], strict: overlong forms, surrogates and code
    points above U+10FFFF are rejected. *)
Definition is_cont (b : Z) : bool := (0x80 <=? b) && (b <=? 0xBF).
Definition in_range (lo hi b : Z) : bool := (lo <=? b) && (b <=? hi).

Fixpoint utf8_decode (bs : bytes) : option str :=
  match bs with
  | [] => Some []
  | b0 :: r0 =>
    if in_range 0 0x7F b0 then cons b0 <$> utf8_decode r0
    else if in_range 0xC2 0xDF b0 then
      match r0 with
      | b1 :: r1 =>
        if is_cont b1
        then cons ((b0 - 0xC0) * 64 + (b1 - 0x80)) <$> utf8_decode r1
        else None
      | _ => None
      end
    else if in_range 0xE0 0xEF b0 then
      match r0 with
      | b1 :: b2 :: r2 =>
        if in_range (if b0 =? 0xE0 then 0xA0 else 0x80)
                    (if b0 =? 0xED then 0x9F else 0xBF) b1 && is_cont b2
        then cons ((b0 - 0xE0) * 4096 + (b1 - 0x80) * 64 + (b2 - 0x80))
               <$> utf8_decode r2
        else None
      | _ => None
      end
    else if in_range 0xF0 0xF4 b0 then
      match r0 with
      | b1 :: b2 :: b3 :: r3 =>
        if in_range (if b0 =? 0xF0 then 0x90 else 0x80)
                    (if b0 =? 0xF4 then 0x8F else 0xBF) b1
           && is_cont b2 && is_cont b3
        then cons ((b0 - 0xF0) * 262144 + (b1 - 0x80) * 4096
                   + (b2 - 0x80) * 64 + (b3 - 0x80))
               <$> utf8_decode r3
        else None
      | _ => None
      end
    else None
  end.

(** ** NumPy 64-bit scalars *)

Definition wrap64 (z : Z) : Z := (z + 2^63) mod 2^64 - 2^63.
Definition fits_int64 (z : Z) : bool := (- 2^63 <=? z) && (z <? 2^63).

(** [np.left_shift] on int64: a count outside [0, 64) gives 0. *)
Definition np_lshift (a k : Z) : Z :=
  if (0 <=? k) && (k <? 64) then wrap64 (Z.shiftl a k) else 0.

(** ** [array.array] *)

Inductive typecode : Type := TC_B | TC_q | TC_f.

Definition itemsize (t : typecode) : Z :=
  match t with TC_B => 1 | TC_q => 8 | TC_f => 4 end.

(** The array's buffer is kept as raw bytes (native little-endian). *)
Record pyarray : Type := mkArray { tcode : typecode; raw : bytes }.

Definition array_len (a : pyarray) : Z := len (raw a) / itemsize (tcode a).

Definition array_frombytes (a : pyarray) (bs : bytes) : option pyarray :=
  if len bs mod itemsize (tcode a) =? 0
  then Some (mkArray (tcode a) (raw a ++ bs))
  else None.

(** C conversion of an integer to [float]: through [double], each step
    rounding to nearest, ties to even. [round_sig p m] keeps the [p] leading
    bits of [m > 0]. *)
Definition round_sig (p m : Z) : Z :=
  let e := Z.log2 m in
  if e <? p then m
  else
    let sh := e - p + 1 in
    let q := Z.shiftr m sh in
    let r := Z.land m (Z.ones sh) in
    let half := Z.shiftl 1 (sh - 1) in
    let q' := if (half <? r) || ((r =? half) && Z.odd q) then q + 1 else q in
    Z.shiftl q' sh.

Definition float32_bits_of_int (v : Z) : Z :=
  if v =? 0 then 0
  else
    let m := round_sig 24 (round_sig 53 (Z.abs v)) in
    let e := Z.log2 m in
    let frac := (if e <=? 23 then Z.shiftl m (23 - e) else Z.shiftr m (e - 23))
                - 2^23 in
    (if v <? 0 then 2^31 else 0) + Z.shiftl (e + 127) 23 + frac.

(** [a.append(v)] for an [np.int64] [v]. *)
Definition array_append (a : pyarray) (v : Z) : option pyarray :=
  match tcode a with
  | TC_B => if (0 <=? v) && (v <=? 255)
            then Some (mkArray TC_B (raw a ++ [v])) else None
  | TC_q => Some (mkArray TC_q (raw a ++ le_encode 8 (v mod 2^64)))
  | TC_f => Some (mkArray TC_f (raw a ++ le_encode 4 (float32_bits_of_int v)))
  end.

(** [{0x0A: "B", 0x1A: "q", 0x12: "f"}.get(b, "B")] *)
Definition typecode_of_tag (b : Z) : typecode :=
  if b =? 0x0A then TC_B
  else if b =? 0x1A then TC_q
  else if b =? 0x12 then TC_f
  else TC_B.

(** ** The decoder's closure state

    [_load_data] keeps [offset] in a closure variable shared with
    [get_value] and [get_value_of_kind], next to the two dictionaries.
    [offset] starts every payload as the Python integer [0] and becomes an
    [np.int64] at the first [offset += length]; [offset_np] records which. *)

Record dstate : Type := mkState {
  offset : Z;
  offset_np : bool;
  arrays : gmap str pyarray;
  indices : gmap str (list Z)
}.

Definition set_offset (o : Z) (np : bool) (s : dstate) : dstate :=
  mkState o np (arrays s) (indices s).

(** [offset + z] for a Python integer [z]. *)
Definition off_plus (s : dstate) (z : Z) : Z :=
  if offset_np s then wrap64 (offset s + z) else offset s + z.

(** [offset += z] for a Python integer [z]: the type of [offset] is kept. *)
Definition advance (z : Z) (s : dstate) : dstate :=
  set_offset (off_plus s z) (offset_np s) s.

(** [offset += length] for an [np.int64] [length]: the result is an
    [np.int64]. (A Python [offset] is at most [len(data)] and so converts.) *)
Definition add_length (length : Z) (s : dstate) : dstate :=
  set_offset (wrap64 (offset s + length)) true s.

Definition data_at (data : bytes) (i : Z) : M dstate Z :=
  lift_option IndexError (py_getitem data i).

(** [value | ((b & 0x7F) << (7 * k))] with [k = offset - start]. With an
    [np.int64] offset the shift is a wrapping [np.int64] operation; with a
    Python offset the shifted operand is a Python integer, which must fit
    [int64] to be combined with [value]. *)
Definition or_shifted (np : bool) (value b k : Z) : option Z :=
  if np then
    Some (Z.lor value (np_lshift (Z.land b 0x7F) (wrap64 (7 * wrap64 k))))
  else
    let x := Z.shiftl (Z.land b 0x7F) (7 * k) in
    if fits_int64 x then Some (Z.lor value x) else None.

(** The [while] loop of [get_value]. *)
Fixpoint get_value_loop (fuel : nat) (data : bytes) (start value : Z)
  : M dstate Z :=
  match fuel with
  | O => fun _ => Timeout
  | S fuel' =>
    let* prev_at := gets (fun s => off_plus s (-1)) in
    let* prev := data_at data prev_at in
    if Z.land prev 0x80 =? 0 then ret value
    else
      let* o := gets offset in
      let* np := gets offset_np in
      let* b := data_at data o in
      let* value' := lift_option OverflowError (or_shifted np value b (o - start)) in
      let* _ := modify (advance 1) in
      get_value_loop fuel' data start value'
  end.

(** Every iteration reads one more byte at a valid index, of which there are
    fewer than [2 * len(data)] (negative indices included). *)
Definition varint_fuel (data : bytes) : nat := 2 * length data + 1.

Definition get_value (data : bytes) : M dstate Z :=
  let* start := gets offset in
  let* b := data_at data start in
  let value := Z.land b 0x7F in
  let* _ := modify (advance 1) in
  get_value_loop (varint_fuel data) data start value.

Definition get_value_of_kind (data : bytes) (kind : Z) : M dstate Z :=
  let* o := gets offset in
  let* b := data_at data o in
  let* _ := py_assert (b =? kind) in
  let* _ := modify (advance 1) in
  get_value data.

(** [get_value_of_kind(kind) and get_value_of_kind(0x0A)]: the second call
    is made only when the first value is non-zero. *)
Definition get_length (data : bytes) (kind : Z) : M dstate Z :=
  let* v := get_value_of_kind data kind in
  if v =? 0 then ret v else get_value_of_kind data 0x0A.

(** [if key not in arrays: ...] *)
Definition ensure_key (data : bytes) (key : str) : M dstate unit :=
  let* known := gets (fun s => arrays s !! key) in
  match known with
  | Some _ => ret tt
  | None =>
    let* o := gets offset in
    let* b := data_at data o in
    modify (fun s => mkState (offset s) (offset_np s)
                       (<[key := mkArray (typecode_of_tag b) []]> (arrays s))
                       (<[key := [0]]> (indices s)))
  end.

(** [arrays[key].method(...)], where the method fails with [e]. *)
Definition update_array (key : str) (f : pyarray -> option pyarray) (e : exn)
  : M dstate unit :=
  fun s =>
    match arrays s !! key with
    | None => Raised KeyError s
    | Some a =>
      match f a with
      | Some a' => Done tt (mkState (offset s) (offset_np s)
                              (<[key := a']> (arrays s)) (indices s))
      | None => Raised e s
      end
    end.

(** [while offset < target_offset: arrays[key].append(get_value())] *)
Fixpoint append_values (fuel : nat) (data : bytes) (key : str) (target : Z)
  : M dstate unit :=
  match fuel with
  | O => fun _ => Timeout
  | S fuel' =>
    let* o := gets offset in
    if o <? target then
      let* v := get_value data in
      let* _ := update_array key (fun a => array_append a v) OverflowError in
      append_values fuel' data key target
    else ret tt
  end.

(** [np.frombuffer(data, "<f4", count, off).astype(np.float32).tobytes()] on
    a little-endian host: the selected bytes, unchanged. A negative count
    means "up to the end of the buffer". *)
Definition np_frombuffer_f4 (data : bytes) (count off : Z)
  : value_error + bytes :=
  let ts := len data in
  if (off <? 0) || (ts <? off) then inl BufferOffset
  else
    let s := ts - off in
    if count <? 0 then
      if s mod 4 =? 0 then inr (drop (Z.to_nat off) data)
      else inl BufferNotMultiple
    else if s <? count * 4 then inl BufferTooSmall
    else inr (take (Z.to_nat (count * 4)) (drop (Z.to_nat off) data)).

(** [indices[key].append(len(arrays[key]))] *)
Definition close_example (key : str) : M dstate unit :=
  fun s =>
    match arrays s !! key, indices s !! key with
    | Some a, Some ix =>
      Done tt (mkState (offset s) (offset_np s) (arrays s)
                 (<[key := ix ++ [array_len a]]> (indices s)))
    | _, _ => Raised KeyError s
    end.

(** Lines 120-133: the dispatch on the tag byte [b = data[offset]]. *)
Definition store_branch (data : bytes) (key : str) (b : Z) : M dstate unit :=
  if b =? 0x0A then
    let* length := get_length data 0x0A in
    let* o := gets offset in
    let* _ := update_array key
                (fun a => array_frombytes a (py_slice data o (wrap64 (o + length))))
                (ValueError NotMultipleOfItemSize) in
    modify (add_length length)
  else if b =? 0x1A then
    let* length := get_length data 0x1A in
    let* o := gets offset in
    append_values (varint_fuel data) data key (wrap64 (o + length))
  else if b =? 0x12 then
    let* length := get_length data 0x12 in
    let* o := gets offset in
    match np_frombuffer_f4 data (Z.shiftr length 2) o with
    | inl why => raise (ValueError why)
    | inr bs =>
      let* _ := update_array key (fun a => array_frombytes a bs)
                  (ValueError NotMultipleOfItemSize) in
      modify (add_length length)
    end
  else raise (ValueError (UnsupportedDataTag b)).

(** Lines 116-134: the value of one feature. *)
Definition store_value (data : bytes) (key : str) : M dstate unit :=
  let* _ := ensure_key data key in
  let* o := gets offset in
  let* b := data_at data o in
  let* _ := store_branch data key b in
  close_example key.

(** Lines 112-134: one pass of the [while] body. The key is returned so that
    statements can refer to it; the Python loop body yields nothing. *)
Definition decode_entry (data : bytes) : M dstate str :=
  let* _ := get_value_of_kind data 0x0A in
  let* length := get_value_of_kind data 0x0A in
  let* o := gets offset in
  let* key := lift_option UnicodeDecodeError
                (utf8_decode (py_slice data o (wrap64 (o + length)))) in
  let* _ := modify (add_length length) in
  let* _ := get_value_of_kind data 0x12 in
  let* _ := store_value data key in
  ret key.

(** [while offset < len(data): ...]; the loop need not terminate, hence the
    fuel. The result lists the keys in the order they were processed. *)
Fixpoint decode_entries (fuel : nat) (data : bytes) : M dstate (list str) :=
  match fuel with
  | O => fun _ => Timeout
  | S fuel' =>
    let* o := gets offset in
    if o <? len data then
      let* key := decode_entry data in
      let* keys := decode_entries fuel' data in
      ret (key :: keys)
    else ret []
  end.

(** Lines 108-134: one payload. *)
Definition decode_payload (fuel : nat) (data : bytes) : M dstate (list str) :=
  let* _ := modify (set_offset 0 false) in
  let* length := get_value_of_kind data 0x0A in
  let* o := gets offset in
  let* _ := py_assert (len data - o =? length) in
  decode_entries fuel data.

(** ** The file and the record loop *)

Record lstate : Type := mkLoad {
  file : bytes;                       (* what is left to read *)
  l_arrays : gmap str pyarray;
  l_indices : gmap str (list Z)
}.

(** The environment of a load: what making a [bytes] object of [n] bytes
    raises when the memory for it cannot be had ([MemoryError]; CPython
    raises [OverflowError] for sizes next to [2^63]), [None] when it can. *)
Class Allocator : Type := alloc_failure : Z -> option exn.

(** The environment of the concrete runs: every request is served. *)
#[global] Instance generous : Allocator := fun _ => None.

(** [file.read(n)] on a buffered binary file. An [n] of [2^63] or more is
    not a C [ssize_t] and raises [OverflowError]. Otherwise the result
    object is made, for [n] bytes, before anything is read: a request of
    more than 8 bytes that is also more than the file still holds may be
    refused, and the exception of the allocator leaves the file where it
    was. A request that is served returns up to [n] bytes. *)
Definition file_read `{Allocator} (n : Z) : M lstate bytes :=
  fun s =>
    if 2^63 <=? n then Raised OverflowError s
    else
      match (if n <=? Z.max 8 (len (file s)) then None else alloc_failure n) with
      | Some e => Raised e s
      | None =>
        Done (take (Z.to_nat n) (file s))
          (mkLoad (drop (Z.to_nat n) (file s)) (l_arrays s) (l_indices s))
      end.

(** Lines 102-106: the framing of one record. *)
Definition read_record `{Allocator} : M lstate bytes :=
  let* length := file_read 8 in
  let* _ := py_assert (len length =? 8) in
  let length := le_decode length in
  let* crc := file_read 4 in
  let* _ := py_assert (len crc =? 4) in
  let* data := file_read length in
  let* _ := py_assert (len data =? length) in
  let* crc := file_read 4 in
  let* _ := py_assert (len crc =? 4) in
  ret data.

(** Runs the decoder of one payload on the dictionaries of the load. *)
Definition with_decoder {A} (m : M dstate A) : M lstate A :=
  fun s =>
    match m (mkState 0 false (l_arrays s) (l_indices s)) with
    | Done a d => Done a (mkLoad (file s) (arrays d) (indices d))
    | Raised e d => Raised e (mkLoad (file s) (arrays d) (indices d))
    | Timeout => Timeout
    end.

(** [for _ in range(items): ...]; the result lists, per record, the keys
    processed. *)
Fixpoint load_records `{Allocator} (fuel : nat) (items : nat)
  : M lstate (list (list str)) :=
  match items with
  | O => ret []
  | S items' =>
    let* data := read_record in
    let* keys := with_decoder (decode_payload fuel data) in
    let* rest := load_records fuel items' in
    ret (keys :: rest)
  end.

Definition _load_data `{Allocator} (fuel : nat) (content : bytes) (items : Z)
  : outcome lstate (gmap str pyarray * gmap str (list Z)) :=
  (let* _ := load_records fuel (Z.to_nat items) in
   gets (fun s => (l_arrays s, l_indices s))) (mkLoad content ∅ ∅).

(** ** [HOMRDataset.Dataset] *)

Definition str_of_string (s : string) : str :=
  (fun a => Z.of_N (Ascii.N_of_ascii a)) <$> String.list_ascii_of_string s.

(** Drops the state of a finished call. *)
Definition forget {S A : Type} (o : outcome S A) : M unit A :=
  fun _ => match o with
           | Done a _ => Done a tt
           | Raised e _ => Raised e tt
           | Timeout => Timeout
           end.

Fixpoint mapM {S A B : Type} (f : A -> M S B) (l : list A) : M S (list B) :=
  match l with
  | [] => ret []
  | a :: l' =>
    let* b := f a in
    let* bs := mapM f l' in
    ret (b :: bs)
  end.

(** [torch.frombuffer(buf, dtype=..., offset=..., count=...)] for an element
    size [elsize]: the bytes of the tensor's elements. *)
Definition torch_frombuffer (buf : bytes) (elsize off count : Z)
  : value_error + bytes :=
  let n := len buf in
  if (n <=? 0) || (count =? 0) then inl BufferEmpty
  else if (off <? 0) || (n <=? off) then inl BufferOffset
  else if (count <? 0) && negb ((n - off) mod elsize =? 0)
       then inl BufferNotMultiple
  else
    let actual := if count <? 0 then (n - off) / elsize else count in
    if n <? off + actual * elsize then inl BufferTooSmall
    else inr (take (Z.to_nat (actual * elsize)) (drop (Z.to_nat off) buf)).

Definition from_sum {S A : Type} (r : value_error + A) : M S A :=
  match r with inl why => raise (ValueError why) | inr a => ret a end.

(** The elements of an [int64] tensor over a byte buffer. *)
Fixpoint int64_elements (n : nat) (bs : bytes) : list Z :=
  match n with
  | O => []
  | S n' => wrap64 (le_decode (take 8 bs)) :: int64_elements n' (drop 8 bs)
  end.

Section Dataset.
(** [torchvision.io.decode_image(_, GRAY).permute(1, 2, 0)] is an external
    collaborator: any function from the encoded bytes to a tensor or a
    failure. *)
Variable image : Type.
Variable decode_image : bytes -> exn + image.

Record Element : Type := mkElement { elt_image : image; elt_marks : list Z }.

(** An instance: [_data] is [None] or the cached list; [_arrays] and
    [_indices] are attributes that exist in on-demand mode only. *)
Record Dataset : Type := mkDataset {
  _size : Z;
  _data : option (list Element);
  _arrays : option (gmap str pyarray);
  _indices : option (gmap str (list Z))
}.

Definition _decode {S : Type} (data : gmap str pyarray) (indices : gmap str (list Z))
    (index : Z) : M S Element :=
  let* image_buf := lift_option KeyError (data !! str_of_string "image") in
  let* ix := lift_option KeyError (indices !! str_of_string "image") in
  let* off := lift_option IndexError (py_getitem (py_slice ix 0 (-1)) index) in
  let* hi := lift_option IndexError (py_getitem (py_slice ix 1 (len ix)) index) in
  let* lo := lift_option IndexError (py_getitem (py_slice ix 0 (-1)) index) in
  let* encoded := from_sum (torch_frombuffer (raw image_buf) 1 off (hi - lo)) in
  let* img := match decode_image encoded with
              | inl e => raise e
              | inr img => ret img
              end in
  let* mix := lift_option KeyError (indices !! str_of_string "marks") in
  let* mhi := lift_option IndexError (py_getitem (py_slice mix 1 (len mix)) index) in
  let* mlo := lift_option IndexError (py_getitem (py_slice mix 0 (-1)) index) in
  let count := mhi - mlo in
  let* marks :=
    if count =? 0 then ret []
    else
      let* marks_buf := lift_option KeyError (data !! str_of_string "marks") in
      let* mix := lift_option KeyError (indices !! str_of_string "marks") in
      let* moff := lift_option IndexError (py_getitem (py_slice mix 0 (-1)) index) in
      let* bs := from_sum (torch_frombuffer (raw marks_buf) 8
                             (Z.shiftl moff 3) count) in
      ret (int64_elements (Z.to_nat count) bs) in
  ret (mkElement img marks).

Definition __init__ `{Allocator} (fuel : nat) (content : bytes) (size : Z)
    (decode_on_demand : bool) : M unit Dataset :=
  let* loaded := forget (_load_data fuel content size) in
  let '(arrays, indices) := loaded in
  if decode_on_demand then
    ret (mkDataset size None (Some arrays) (Some indices))
  else
    let* data := mapM (_decode arrays indices) (seqZ 0 size) in
    ret (mkDataset size (Some data) None None).

Definition __len__ (self : Dataset) : Z := _size self.

(** [if self._data:] holds for a non-empty list only. *)
Definition __getitem__ {S : Type} (self : Dataset) (index : Z) : M S Element :=
  match _data self with
  | Some (e :: es) => lift_option IndexError (py_getitem (e :: es) index)
  | _ =>
    let* arrays := lift_option AttributeError (_arrays self) in
    let* indices := lift_option AttributeError (_indices self) in
    _decode arrays indices index
  end.

(** [for example in gold_dataset]: the class has no [__iter__], so the
    loop calls [__getitem__] with 0, 1, ... until [IndexError]. *)
Fixpoint iterate {S : Type} (fuel : nat) (self : Dataset) (index : Z)
  : M S (list Element) :=
  match fuel with
  | O => fun _ => Timeout
  | S fuel' =>
    fun s =>
      match __getitem__ self index s with
      | Done e s' =>
        (let* es := iterate fuel' self (index + 1) in ret (e :: es)) s'
      | Raised IndexError s' => Done [] s'
      | Raised e s' => Raised e s'
      | Timeout => Timeout
      end
  end.
End Dataset.

Arguments mkElement {image} _ _.
Arguments elt_image {image} _.
Arguments elt_marks {image} _.
Arguments mkDataset {image} _ _ _ _.
Arguments _size {image} _.
Arguments _data {image} _.
Arguments _arrays {image} _.
Arguments _indices {image} _.
Arguments __len__ {image} _.
Arguments __getitem__ {image} decode_image {S} _ _.
Arguments iterate {image} decode_image {S} _ _ _.
Arguments _decode {image} decode_image {S} _ _ _.
Arguments __init__ {image} decode_image {_} _ _ _ _.

(** ** The edit-distance metric *)

Definition Qc_of_nat (n : nat) : Qc := Q2Qc (inject_Z (Z.of_nat n)).

Section EditDistance.
Context {T : Type} `{EqDecision T}.

(** Modelled from the spec: [torchaudio.functional.edit_distance] is a
    library function, not part of the source. It is the Levenshtein
    distance (substitution, insertion and deletion at cost 1) computed row
    by row: [dold] is the previous row, [edit_row] fills the next one from
    left to right, [left] being the entry just written. *)
Fixpoint edit_row (x : T) (seq2 : list T) (dold : list nat) (left : nat)
  : list nat :=
  match seq2, dold with
  | y :: seq2', diag :: ((up :: _) as dold') =>
    let d := if decide (x = y) then diag
             else Nat.min (Nat.min (diag + 1) (left + 1)) (up + 1) in
    d :: edit_row x seq2' dold' d
  | _, _ => []
  end.

Fixpoint edit_rows (i : nat) (seq1 seq2 : list T) (dold : list nat)
  : list nat :=
  match seq1 with
  | [] => dold
  | x :: seq1' => edit_rows (S i) seq1' seq2 (S i :: edit_row x seq2 dold (S i))
  end.

Definition edit_distance (seq1 seq2 : list T) : nat :=
  List.last (edit_rows 0 seq1 seq2 (seq 0 (length seq2 + 1))) 0%nat.

(** The Levenshtein distance by its recursive definition, on the heads of
    the two sequences: equal heads cost nothing, otherwise one operation and
    the cheapest of a substitution, an insertion and a deletion. *)
Fixpoint levenshtein (s t : list T) {struct s} : nat :=
  match s with
  | [] => length t
  | x :: s' =>
    (fix against (u : list T) : nat :=
       match u with
       | [] => length s
       | y :: u' =>
         if decide (x = y) then levenshtein s' u'
         else S (Nat.min (Nat.min (levenshtein s' u') (against u'))
                         (levenshtein s' u))
       end) t
  end.

Definition subst_cost (x y : T) : nat := if decide (x = y) then 0 else 1.

(** A row of the table of distances: from [sp] to [tp], to [tp] with one
    more element of [ts], and so on up to [tp ++ ts]. *)
Fixpoint lev_row (sp tp ts : list T) : list nat :=
  levenshtein sp tp ::
  match ts with
  | [] => []
  | y :: ts' => lev_row sp (tp ++ [y]) ts'
  end.

(** Modelled from the spec: [torchmetrics.MeanMetric] is a library class,
    not part of the source. Its state is the running sum of the values and
    the number of values; [compute] divides the one by the other, which is
    NaN (here [None]) before any value was recorded. Floating-point
    numbers are modelled as exact rationals. *)
Record EditDistanceMetric : Type := mkMetric {
  _ignore_index : option T;
  mean_value : Qc;
  weight : Qc
}.

Definition EditDistanceMetric_init (ignore_index : option T)
  : EditDistanceMetric :=
  mkMetric ignore_index 0%Qc 0%Qc.

Definition Qc_sum (l : list Qc) : Qc := foldr Qcplus 0%Qc l.

Definition MeanMetric_update (values : list Qc) (self : EditDistanceMetric)
  : EditDistanceMetric :=
  mkMetric (_ignore_index self)
           (mean_value self + Qc_sum values)%Qc
           (weight self + Qc_of_nat (length values))%Qc.

Definition compute (self : EditDistanceMetric) : option Qc :=
  if decide (weight self = 0%Qc) then None
  else Some (mean_value self / weight self)%Qc.

(** [[y for y in ys if y != self._ignore_index]], when one is set. *)
Definition drop_ignored (ignore_index : option T) (ys : list T) : list T :=
  match ignore_index with
  | Some ig => List.filter (fun y => negb (bool_decide (y = ig))) ys
  | None => ys
  end.

(** [len(y_true) or 1] *)
Definition len_or_1 (ys : list T) : nat :=
  if Nat.eqb (length ys) 0 then 1%nat else length ys.

(** One pass of the loop body of [update]. *)
Definition example_score (ignore_index : option T) (y_pred y_true : list T)
  : Qc :=
  let y_true := drop_ignored ignore_index y_true in
  let y_pred := drop_ignored ignore_index y_pred in
  (Qc_of_nat (edit_distance y_pred y_true) / Qc_of_nat (len_or_1 y_true))%Qc.

(** [for y_pred, y_true in zip(y_preds, y_trues)] *)
Fixpoint edit_distances (ignore_index : option T)
    (y_preds y_trues : list (list T)) : list Qc :=
  match y_preds, y_trues with
  | y_pred :: y_preds', y_true :: y_trues' =>
    example_score ignore_index y_pred y_true
      :: edit_distances ignore_index y_preds' y_trues'
  | _, _ => []
  end.

Definition update (y_preds y_trues : list (list T))
    (self : EditDistanceMetric) : EditDistanceMetric :=
  MeanMetric_update (edit_distances (_ignore_index self) y_preds y_trues) self.
End EditDistance.

(** ** [HOMRDataset.evaluate] *)

Definition MARKS : list str := str_of_string <$> [
    "<pad>"; "barline"; "clef-C1"; "clef-C2"; "clef-C3"; "clef-C4"; "clef-C5";
    "clef-F3"; "clef-F4"; "clef-G1"; "clef-G2"; "keySignature-AM";
    "keySignature-AbM"; "keySignature-BM"; "keySignature-BbM";
    "keySignature-C#M"; "keySignature-CM"; "keySignature-DM";
    "keySignature-DbM"; "keySignature-EM"; "keySignature-EbM";
    "keySignature-F#M"; "keySignature-FM"; "keySignature-GM";
    "keySignature-GbM"; "note-A#2_eighth"; "note-A#2_half";
    "note-A#2_quarter"; "note-A#2_quarter."; "note-A#2_sixteenth";
    "note-A#2_sixteenth."; "note-A#3_eighth"; "note-A#3_eighth.";
    "note-A#3_half"; "note-A#3_quarter"; "note-A#3_quarter.";
    "note-A#3_sixteenth"; "note-A#3_sixteenth."; "note-A#3_thirty_second";
    "note-A#3_whole"; "note-A#4_eighth"; "note-A#4_eighth."; "note-A#4_half";
    "note-A#4_half."; "note-A#4_quarter"; "note-A#4_quarter.";
    "note-A#4_sixteenth"; "note-A#4_sixteenth."; "note-A#4_thirty_second";
    "note-A#4_whole"; "note-A#4_whole."; "note-A#5_eighth";
    "note-A#5_eighth."; "note-A#5_half"; "note-A#5_half."; "note-A#5_quarter";
    "note-A#5_quarter."; "note-A#5_sixteenth"; "note-A#5_thirty_second";
    "note-A1_sixteenth"; "note-A2_eighth"; "note-A2_eighth."; "note-A2_half";
    "note-A2_half."; "note-A2_quarter"; "note-A2_quarter.";
    "note-A2_sixteenth"; "note-A2_sixteenth."; "note-A2_thirty_second";
    "note-A2_whole"; "note-A2_whole."; "note-A3_eighth"; "note-A3_eighth.";
    "note-A3_half"; "note-A3_half."; "note-A3_quarter"; "note-A3_quarter.";
    "note-A3_sixteenth"; "note-A3_sixteenth."; "note-A3_thirty_second";
    "note-A3_whole"; "note-A3_whole."; "note-A4_eighth"; "note-A4_eighth.";
    "note-A4_eighth.."; "note-A4_half"; "note-A4_half."; "note-A4_quarter";
    "note-A4_quarter."; "note-A4_quarter.."; "note-A4_sixteenth";
    "note-A4_sixteenth."; "note-A4_thirty_second"; "note-A4_whole";
    "note-A4_whole."; "note-A5_eighth"; "note-A5_eighth."; "note-A5_eighth..";
    "note-A5_half"; "note-A5_half."; "note-A5_quarter"; "note-A5_quarter.";
    "note-A5_quarter.."; "note-A5_sixteenth"; "note-A5_sixteenth.";
    "note-A5_thirty_second"; "note-A5_thirty_second."; "note-A5_whole";
    "note-A5_whole."; "note-Ab2_eighth"; "note-Ab2_eighth."; "note-Ab2_half";
    "note-Ab2_quarter"; "note-Ab2_quarter."; "note-Ab2_sixteenth";
    "note-Ab2_thirty_second"; "note-Ab2_whole"; "note-Ab3_eighth";
    "note-Ab3_eighth."; "note-Ab3_half"; "note-Ab3_half."; "note-Ab3_quarter";
    "note-Ab3_quarter."; "note-Ab3_quarter.."; "note-Ab3_sixteenth";
    "note-Ab3_sixteenth."; "note-Ab3_thirty_second"; "note-Ab3_whole";
    "note-Ab4_eighth"; "note-Ab4_eighth."; "note-Ab4_half"; "note-Ab4_half.";
    "note-Ab4_quarter"; "note-Ab4_quarter."; "note-Ab4_quarter..";
    "note-Ab4_sixteenth"; "note-Ab4_sixteenth."; "note-Ab4_thirty_second";
    "note-Ab4_whole"; "note-Ab4_whole."; "note-Ab5_eighth";
    "note-Ab5_eighth."; "note-Ab5_eighth.."; "note-Ab5_half";
    "note-Ab5_half."; "note-Ab5_quarter"; "note-Ab5_quarter.";
    "note-Ab5_sixteenth"; "note-Ab5_sixteenth."; "note-Ab5_thirty_second";
    "note-Ab5_whole"; "note-B#2_eighth"; "note-B#2_half"; "note-B#2_quarter";
    "note-B#2_sixteenth"; "note-B#3_eighth"; "note-B#3_eighth.";
    "note-B#3_half"; "note-B#3_half."; "note-B#3_quarter";
    "note-B#3_quarter."; "note-B#3_sixteenth"; "note-B#3_thirty_second";
    "note-B#3_whole"; "note-B#4_eighth"; "note-B#4_eighth."; "note-B#4_half";
    "note-B#4_half."; "note-B#4_quarter"; "note-B#4_quarter.";
    "note-B#4_sixteenth"; "note-B#4_sixteenth."; "note-B#4_thirty_second";
    "note-B#4_whole"; "note-B#5_eighth"; "note-B#5_quarter";
    "note-B#5_sixteenth"; "note-B2_eighth"; "note-B2_eighth."; "note-B2_half";
    "note-B2_half."; "note-B2_quarter"; "note-B2_quarter.";
    "note-B2_sixteenth"; "note-B2_sixteenth."; "note-B2_thirty_second";
    "note-B2_whole"; "note-B2_whole."; "note-B3_eighth"; "note-B3_eighth.";
    "note-B3_half"; "note-B3_half."; "note-B3_quarter"; "note-B3_quarter.";
    "note-B3_quarter.."; "note-B3_sixteenth"; "note-B3_sixteenth.";
    "note-B3_thirty_second"; "note-B3_whole"; "note-B3_whole.";
    "note-B4_eighth"; "note-B4_eighth."; "note-B4_eighth.."; "note-B4_half";
    "note-B4_half."; "note-B4_quarter"; "note-B4_quarter.";
    "note-B4_quarter.."; "note-B4_sixteenth"; "note-B4_sixteenth.";
    "note-B4_thirty_second"; "note-B4_whole"; "note-B4_whole.";
    "note-B5_eighth"; "note-B5_eighth."; "note-B5_eighth.."; "note-B5_half";
    "note-B5_half."; "note-B5_quarter"; "note-B5_quarter.";
    "note-B5_quarter.."; "note-B5_sixteenth"; "note-B5_sixteenth.";
    "note-B5_thirty_second"; "note-B5_whole"; "note-Bb1_half";
    "note-Bb2_eighth"; "note-Bb2_eighth."; "note-Bb2_half"; "note-Bb2_half.";
    "note-Bb2_quarter"; "note-Bb2_quarter."; "note-Bb2_sixteenth";
    "note-Bb2_sixteenth."; "note-Bb2_thirty_second"; "note-Bb2_whole";
    "note-Bb2_whole."; "note-Bb3_eighth"; "note-Bb3_eighth."; "note-Bb3_half";
    "note-Bb3_half."; "note-Bb3_quarter"; "note-Bb3_quarter.";
    "note-Bb3_quarter.."; "note-Bb3_sixteenth"; "note-Bb3_sixteenth.";
    "note-Bb3_thirty_second"; "note-Bb3_whole"; "note-Bb3_whole.";
    "note-Bb4_eighth"; "note-Bb4_eighth."; "note-Bb4_eighth..";
    "note-Bb4_half"; "note-Bb4_half."; "note-Bb4_quarter";
    "note-Bb4_quarter."; "note-Bb4_quarter.."; "note-Bb4_sixteenth";
    "note-Bb4_sixteenth."; "note-Bb4_thirty_second"; "note-Bb4_whole";
    "note-Bb4_whole."; "note-Bb5_eighth"; "note-Bb5_eighth."; "note-Bb5_half";
    "note-Bb5_half."; "note-Bb5_quarter"; "note-Bb5_quarter.";
    "note-Bb5_quarter.."; "note-Bb5_sixteenth"; "note-Bb5_sixteenth.";
    "note-Bb5_thirty_second"; "note-Bb5_thirty_second."; "note-Bb5_whole";
    "note-C#2_eighth"; "note-C#2_quarter"; "note-C#2_quarter.";
    "note-C#2_sixteenth"; "note-C#2_whole"; "note-C#3_eighth";
    "note-C#3_eighth."; "note-C#3_half"; "note-C#3_half."; "note-C#3_quarter";
    "note-C#3_quarter."; "note-C#3_sixteenth"; "note-C#3_sixteenth.";
    "note-C#3_thirty_second"; "note-C#3_whole"; "note-C#4_eighth";
    "note-C#4_eighth."; "note-C#4_eighth.."; "note-C#4_half";
    "note-C#4_half."; "note-C#4_quarter"; "note-C#4_quarter.";
    "note-C#4_sixteenth"; "note-C#4_sixteenth."; "note-C#4_thirty_second";
    "note-C#4_whole"; "note-C#4_whole."; "note-C#5_eighth";
    "note-C#5_eighth."; "note-C#5_eighth.."; "note-C#5_half";
    "note-C#5_half."; "note-C#5_quarter"; "note-C#5_quarter.";
    "note-C#5_quarter.."; "note-C#5_sixteenth"; "note-C#5_sixteenth.";
    "note-C#5_thirty_second"; "note-C#5_whole"; "note-C#5_whole.";
    "note-C#6_eighth"; "note-C#6_eighth."; "note-C#6_half"; "note-C#6_half.";
    "note-C#6_quarter"; "note-C#6_quarter."; "note-C#6_quarter..";
    "note-C#6_sixteenth"; "note-C#6_sixteenth."; "note-C#6_thirty_second";
    "note-C2_eighth"; "note-C2_eighth."; "note-C2_half"; "note-C2_quarter";
    "note-C2_quarter."; "note-C2_sixteenth"; "note-C2_thirty_second";
    "note-C2_whole"; "note-C3_eighth"; "note-C3_eighth."; "note-C3_half";
    "note-C3_half."; "note-C3_quarter"; "note-C3_quarter.";
    "note-C3_sixteenth"; "note-C3_sixteenth."; "note-C3_thirty_second";
    "note-C3_whole"; "note-C3_whole."; "note-C4_eighth"; "note-C4_eighth.";
    "note-C4_eighth.."; "note-C4_half"; "note-C4_half."; "note-C4_quarter";
    "note-C4_quarter."; "note-C4_quarter.."; "note-C4_sixteenth";
    "note-C4_sixteenth."; "note-C4_thirty_second"; "note-C4_whole";
    "note-C4_whole."; "note-C5_eighth"; "note-C5_eighth."; "note-C5_eighth..";
    "note-C5_half"; "note-C5_half."; "note-C5_quarter"; "note-C5_quarter.";
    "note-C5_quarter.."; "note-C5_sixteenth"; "note-C5_sixteenth.";
    "note-C5_thirty_second"; "note-C5_thirty_second."; "note-C5_whole";
    "note-C5_whole."; "note-C6_eighth"; "note-C6_eighth."; "note-C6_eighth..";
    "note-C6_half"; "note-C6_half."; "note-C6_half.."; "note-C6_quarter";
    "note-C6_quarter."; "note-C6_quarter.."; "note-C6_sixteenth";
    "note-C6_sixteenth."; "note-C6_thirty_second"; "note-C6_whole";
    "note-Cb3_eighth"; "note-Cb3_quarter"; "note-Cb3_thirty_second";
    "note-Cb4_eighth"; "note-Cb4_quarter."; "note-Cb4_sixteenth";
    "note-Cb5_eighth"; "note-Cb5_eighth."; "note-Cb5_half"; "note-Cb5_half.";
    "note-Cb5_quarter"; "note-Cb5_quarter."; "note-Cb5_sixteenth";
    "note-Cb5_thirty_second"; "note-Cb5_whole"; "note-Cb6_eighth";
    "note-Cb6_half"; "note-Cb6_quarter"; "note-Cb6_sixteenth";
    "note-D#2_quarter"; "note-D#2_sixteenth"; "note-D#3_eighth";
    "note-D#3_eighth."; "note-D#3_half"; "note-D#3_quarter";
    "note-D#3_sixteenth"; "note-D#3_sixteenth."; "note-D#3_thirty_second";
    "note-D#3_whole"; "note-D#4_eighth"; "note-D#4_eighth."; "note-D#4_half";
    "note-D#4_half."; "note-D#4_quarter"; "note-D#4_quarter.";
    "note-D#4_sixteenth"; "note-D#4_sixteenth."; "note-D#4_thirty_second";
    "note-D#4_whole"; "note-D#5_eighth"; "note-D#5_eighth."; "note-D#5_half";
    "note-D#5_half."; "note-D#5_quarter"; "note-D#5_quarter.";
    "note-D#5_quarter.."; "note-D#5_sixteenth"; "note-D#5_sixteenth.";
    "note-D#5_thirty_second"; "note-D#5_whole"; "note-D#6_eighth";
    "note-D#6_eighth.."; "note-D#6_half"; "note-D#6_quarter";
    "note-D#6_sixteenth"; "note-D#6_thirty_second"; "note-D2_eighth";
    "note-D2_eighth."; "note-D2_half"; "note-D2_half."; "note-D2_quarter";
    "note-D2_quarter."; "note-D2_sixteenth"; "note-D2_thirty_second";
    "note-D2_whole"; "note-D3_eighth"; "note-D3_eighth."; "note-D3_half";
    "note-D3_half."; "note-D3_quarter"; "note-D3_quarter.";
    "note-D3_sixteenth"; "note-D3_sixteenth."; "note-D3_thirty_second";
    "note-D3_whole"; "note-D3_whole."; "note-D4_eighth"; "note-D4_eighth.";
    "note-D4_half"; "note-D4_half."; "note-D4_quarter"; "note-D4_quarter.";
    "note-D4_quarter.."; "note-D4_sixteenth"; "note-D4_sixteenth.";
    "note-D4_thirty_second"; "note-D4_whole"; "note-D4_whole.";
    "note-D5_eighth"; "note-D5_eighth."; "note-D5_eighth.."; "note-D5_half";
    "note-D5_half."; "note-D5_quarter"; "note-D5_quarter.";
    "note-D5_quarter.."; "note-D5_sixteenth"; "note-D5_sixteenth.";
    "note-D5_thirty_second"; "note-D5_thirty_second."; "note-D5_whole";
    "note-D5_whole."; "note-D6_eighth"; "note-D6_eighth."; "note-D6_eighth..";
    "note-D6_half"; "note-D6_half."; "note-D6_half.."; "note-D6_quarter";
    "note-D6_quarter."; "note-D6_quarter.."; "note-D6_sixteenth";
    "note-D6_sixteenth."; "note-D6_thirty_second"; "note-D6_whole";
    "note-D6_whole."; "note-Db3_eighth"; "note-Db3_half"; "note-Db3_half.";
    "note-Db3_quarter"; "note-Db3_quarter."; "note-Db3_thirty_second";
    "note-Db4_eighth"; "note-Db4_eighth."; "note-Db4_half"; "note-Db4_half.";
    "note-Db4_quarter"; "note-Db4_quarter."; "note-Db4_sixteenth";
    "note-Db4_sixteenth."; "note-Db4_thirty_second"; "note-Db4_whole";
    "note-Db5_eighth"; "note-Db5_eighth."; "note-Db5_half"; "note-Db5_half.";
    "note-Db5_quarter"; "note-Db5_quarter."; "note-Db5_quarter..";
    "note-Db5_sixteenth"; "note-Db5_sixteenth."; "note-Db5_thirty_second";
    "note-Db5_whole"; "note-Db5_whole."; "note-Db6_eighth";
    "note-Db6_eighth."; "note-Db6_half"; "note-Db6_quarter";
    "note-Db6_quarter."; "note-Db6_sixteenth"; "note-Db6_thirty_second";
    "note-E#3_eighth"; "note-E#3_eighth."; "note-E#3_half";
    "note-E#3_sixteenth"; "note-E#4_eighth"; "note-E#4_eighth.";
    "note-E#4_half"; "note-E#4_quarter"; "note-E#4_quarter.";
    "note-E#4_sixteenth"; "note-E#4_whole"; "note-E#4_whole.";
    "note-E#5_eighth"; "note-E#5_eighth."; "note-E#5_half"; "note-E#5_half.";
    "note-E#5_quarter"; "note-E#5_quarter."; "note-E#5_sixteenth";
    "note-E#5_sixteenth."; "note-E#5_thirty_second"; "note-E#6_sixteenth";
    "note-E2_eighth"; "note-E2_eighth."; "note-E2_half"; "note-E2_half.";
    "note-E2_quarter"; "note-E2_sixteenth"; "note-E2_thirty_second";
    "note-E2_whole"; "note-E3_eighth"; "note-E3_eighth."; "note-E3_half";
    "note-E3_half."; "note-E3_quarter"; "note-E3_quarter.";
    "note-E3_sixteenth"; "note-E3_sixteenth."; "note-E3_thirty_second";
    "note-E3_whole"; "note-E3_whole."; "note-E4_eighth"; "note-E4_eighth.";
    "note-E4_eighth.."; "note-E4_half"; "note-E4_half."; "note-E4_quarter";
    "note-E4_quarter."; "note-E4_quarter.."; "note-E4_sixteenth";
    "note-E4_sixteenth."; "note-E4_thirty_second"; "note-E4_whole";
    "note-E4_whole."; "note-E5_eighth"; "note-E5_eighth."; "note-E5_eighth..";
    "note-E5_half"; "note-E5_half."; "note-E5_half.."; "note-E5_quarter";
    "note-E5_quarter."; "note-E5_quarter.."; "note-E5_sixteenth";
    "note-E5_sixteenth."; "note-E5_thirty_second"; "note-E5_whole";
    "note-E5_whole."; "note-E6_eighth"; "note-E6_eighth."; "note-E6_eighth..";
    "note-E6_half"; "note-E6_half."; "note-E6_quarter"; "note-E6_quarter.";
    "note-E6_sixteenth"; "note-E6_sixteenth."; "note-E6_thirty_second";
    "note-Eb2_eighth"; "note-Eb2_half"; "note-Eb2_quarter";
    "note-Eb2_quarter."; "note-Eb2_sixteenth"; "note-Eb2_sixteenth.";
    "note-Eb2_thirty_second"; "note-Eb2_whole"; "note-Eb3_eighth";
    "note-Eb3_eighth."; "note-Eb3_half"; "note-Eb3_half."; "note-Eb3_quarter";
    "note-Eb3_quarter."; "note-Eb3_sixteenth"; "note-Eb3_sixteenth.";
    "note-Eb3_thirty_second"; "note-Eb3_whole"; "note-Eb3_whole.";
    "note-Eb4_eighth"; "note-Eb4_eighth."; "note-Eb4_half"; "note-Eb4_half.";
    "note-Eb4_quarter"; "note-Eb4_quarter."; "note-Eb4_quarter..";
    "note-Eb4_sixteenth"; "note-Eb4_sixteenth."; "note-Eb4_thirty_second";
    "note-Eb4_whole"; "note-Eb4_whole."; "note-Eb5_eighth";
    "note-Eb5_eighth."; "note-Eb5_eighth.."; "note-Eb5_half";
    "note-Eb5_half."; "note-Eb5_quarter"; "note-Eb5_quarter.";
    "note-Eb5_quarter.."; "note-Eb5_sixteenth"; "note-Eb5_sixteenth.";
    "note-Eb5_thirty_second"; "note-Eb5_whole"; "note-Eb5_whole.";
    "note-Eb6_eighth"; "note-Eb6_eighth."; "note-Eb6_eighth..";
    "note-Eb6_half"; "note-Eb6_half."; "note-Eb6_quarter";
    "note-Eb6_quarter."; "note-Eb6_sixteenth"; "note-Eb6_sixteenth.";
    "note-Eb6_thirty_second"; "note-F#2_eighth"; "note-F#2_eighth.";
    "note-F#2_half"; "note-F#2_half."; "note-F#2_quarter";
    "note-F#2_quarter."; "note-F#2_sixteenth"; "note-F#2_whole";
    "note-F#3_eighth"; "note-F#3_eighth."; "note-F#3_half"; "note-F#3_half.";
    "note-F#3_quarter"; "note-F#3_quarter."; "note-F#3_sixteenth";
    "note-F#3_sixteenth."; "note-F#3_thirty_second"; "note-F#3_whole";
    "note-F#3_whole."; "note-F#4_eighth"; "note-F#4_eighth."; "note-F#4_half";
    "note-F#4_half."; "note-F#4_quarter"; "note-F#4_quarter.";
    "note-F#4_quarter.."; "note-F#4_sixteenth"; "note-F#4_sixteenth.";
    "note-F#4_thirty_second"; "note-F#4_whole"; "note-F#4_whole.";
    "note-F#5_eighth"; "note-F#5_eighth."; "note-F#5_half"; "note-F#5_half.";
    "note-F#5_quarter"; "note-F#5_quarter."; "note-F#5_quarter..";
    "note-F#5_sixteenth"; "note-F#5_sixteenth."; "note-F#5_thirty_second";
    "note-F#5_whole"; "note-F#5_whole."; "note-F#6_eighth";
    "note-F#6_eighth."; "note-F#6_half"; "note-F#6_quarter";
    "note-F#6_quarter."; "note-F#6_sixteenth"; "note-F#6_thirty_second";
    "note-F#6_whole"; "note-F2_eighth"; "note-F2_eighth."; "note-F2_half";
    "note-F2_half."; "note-F2_quarter"; "note-F2_quarter.";
    "note-F2_quarter.."; "note-F2_sixteenth"; "note-F2_sixteenth.";
    "note-F2_thirty_second"; "note-F2_whole"; "note-F2_whole.";
    "note-F3_eighth"; "note-F3_eighth."; "note-F3_half"; "note-F3_half.";
    "note-F3_quarter"; "note-F3_quarter."; "note-F3_quarter..";
    "note-F3_sixteenth"; "note-F3_sixteenth."; "note-F3_thirty_second";
    "note-F3_whole"; "note-F3_whole."; "note-F4_eighth"; "note-F4_eighth.";
    "note-F4_eighth.."; "note-F4_half"; "note-F4_half."; "note-F4_quarter";
    "note-F4_quarter."; "note-F4_quarter.."; "note-F4_sixteenth";
    "note-F4_sixteenth."; "note-F4_thirty_second"; "note-F4_whole";
    "note-F4_whole."; "note-F5_eighth"; "note-F5_eighth."; "note-F5_half";
    "note-F5_half."; "note-F5_quarter"; "note-F5_quarter.";
    "note-F5_quarter.."; "note-F5_sixteenth"; "note-F5_sixteenth.";
    "note-F5_thirty_second"; "note-F5_whole"; "note-F5_whole.";
    "note-F6_eighth"; "note-F6_eighth."; "note-F6_half"; "note-F6_half.";
    "note-F6_quarter"; "note-F6_quarter."; "note-F6_sixteenth";
    "note-F6_sixteenth."; "note-F6_thirty_second"; "note-Fb3_half";
    "note-Fb3_sixteenth"; "note-Fb3_thirty_second"; "note-Fb4_eighth";
    "note-Fb4_quarter."; "note-Fb4_sixteenth"; "note-Fb4_thirty_second";
    "note-Fb5_eighth"; "note-Fb5_half"; "note-G#2_eighth"; "note-G#2_eighth.";
    "note-G#2_half"; "note-G#2_half."; "note-G#2_quarter";
    "note-G#2_quarter."; "note-G#2_sixteenth"; "note-G#3_eighth";
    "note-G#3_eighth."; "note-G#3_half"; "note-G#3_half."; "note-G#3_quarter";
    "note-G#3_quarter."; "note-G#3_sixteenth"; "note-G#3_sixteenth.";
    "note-G#3_thirty_second"; "note-G#3_whole"; "note-G#4_eighth";
    "note-G#4_eighth."; "note-G#4_eighth.."; "note-G#4_half";
    "note-G#4_half."; "note-G#4_quarter"; "note-G#4_quarter.";
    "note-G#4_sixteenth"; "note-G#4_sixteenth."; "note-G#4_thirty_second";
    "note-G#4_whole"; "note-G#4_whole."; "note-G#5_eighth";
    "note-G#5_eighth."; "note-G#5_half"; "note-G#5_half."; "note-G#5_quarter";
    "note-G#5_quarter."; "note-G#5_quarter.."; "note-G#5_sixteenth";
    "note-G#5_sixteenth."; "note-G#5_thirty_second"; "note-G#5_whole";
    "note-G#5_whole."; "note-G2_eighth"; "note-G2_eighth."; "note-G2_half";
    "note-G2_half."; "note-G2_quarter"; "note-G2_quarter.";
    "note-G2_sixteenth"; "note-G2_sixteenth."; "note-G2_thirty_second";
    "note-G2_whole"; "note-G2_whole."; "note-G3_eighth"; "note-G3_eighth.";
    "note-G3_half"; "note-G3_half."; "note-G3_quarter"; "note-G3_quarter.";
    "note-G3_quarter.."; "note-G3_sixteenth"; "note-G3_sixteenth.";
    "note-G3_thirty_second"; "note-G3_whole"; "note-G3_whole.";
    "note-G4_eighth"; "note-G4_eighth."; "note-G4_eighth.."; "note-G4_half";
    "note-G4_half."; "note-G4_quarter"; "note-G4_quarter.";
    "note-G4_quarter.."; "note-G4_sixteenth"; "note-G4_sixteenth.";
    "note-G4_thirty_second"; "note-G4_whole"; "note-G4_whole.";
    "note-G5_eighth"; "note-G5_eighth."; "note-G5_eighth.."; "note-G5_half";
    "note-G5_half."; "note-G5_half.."; "note-G5_quarter"; "note-G5_quarter.";
    "note-G5_quarter.."; "note-G5_sixteenth"; "note-G5_sixteenth.";
    "note-G5_thirty_second"; "note-G5_whole"; "note-G5_whole.";
    "note-Gb3_eighth"; "note-Gb3_eighth."; "note-Gb3_half";
    "note-Gb3_quarter"; "note-Gb3_quarter.."; "note-Gb3_thirty_second";
    "note-Gb4_eighth"; "note-Gb4_eighth."; "note-Gb4_half"; "note-Gb4_half.";
    "note-Gb4_quarter"; "note-Gb4_quarter."; "note-Gb4_sixteenth";
    "note-Gb4_thirty_second"; "note-Gb4_whole"; "note-Gb5_eighth";
    "note-Gb5_eighth."; "note-Gb5_half"; "note-Gb5_half."; "note-Gb5_quarter";
    "note-Gb5_quarter."; "note-Gb5_sixteenth"; "note-Gb5_whole";
    "rest-eighth"; "rest-eighth."; "rest-half"; "rest-half.";
    "rest-quadruple_whole"; "rest-quarter"; "rest-quarter."; "rest-quarter..";
    "rest-sixteenth"; "rest-sixteenth."; "rest-whole"; "tie";
    "timeSignature-1/2"; "timeSignature-1/4"; "timeSignature-2/1";
    "timeSignature-2/2"; "timeSignature-2/3"; "timeSignature-2/4";
    "timeSignature-2/8"; "timeSignature-3/1"; "timeSignature-3/2";
    "timeSignature-3/4"; "timeSignature-3/6"; "timeSignature-3/8";
    "timeSignature-4/2"; "timeSignature-4/4"; "timeSignature-4/8";
    "timeSignature-5/4"; "timeSignature-5/8"; "timeSignature-6/2";
    "timeSignature-6/4"; "timeSignature-6/8"; "timeSignature-7/4";
    "timeSignature-8/2"; "timeSignature-8/4"; "timeSignature-8/8";
    "timeSignature-9/4"; "timeSignature-9/8"; "timeSignature-C";
    "timeSignature-C/"
  ]%string.

Section Evaluate.
Variable image : Type.
Variable decode_image : bytes -> exn + image.

(** [[HOMRDataset.MARKS[mark] for mark in np.array(example["marks"])]] *)
Definition gold_sentence {S : Type} (example : Element image) : M S (list str) :=
  mapM (fun mark => lift_option IndexError (py_getitem MARKS mark))
       (elt_marks example).

(** [for gold_sentence, prediction in zip(gold, predictions):
       edit_distance([prediction], [gold_sentence])] *)
Fixpoint score_all (gold predictions : list (list str))
    (metric : EditDistanceMetric (T := str)) : EditDistanceMetric :=
  match gold, predictions with
  | gold_sentence :: gold', prediction :: predictions' =>
    score_all gold' predictions' (update [prediction] [gold_sentence] metric)
  | _, _ => metric
  end.

(** The result is the percentage, [None] standing for NaN. *)
Definition evaluate (fuel : nat) (gold_dataset : Dataset image)
    (predictions : list (list str)) : M unit (option Qc) :=
  let* examples := iterate decode_image fuel gold_dataset 0 in
  let* gold := mapM gold_sentence examples in
  if negb (len predictions =? len gold) then raise RuntimeError
  else
    let edit_distance := score_all gold predictions
                           (EditDistanceMetric_init None) in
    ret ((fun m => Qc_of_nat 100 * m)%Qc <$> compute edit_distance).
End Evaluate.

Arguments gold_sentence {image S} _.
Arguments evaluate {image} decode_image _ _ _.

(** ** The writer's side of the format

    The source only reads. These definitions follow the spec's description
    of the wire format and serve to state what the reader does on well-formed
    input. *)

(** The base-128 continuation-bit scheme: seven bits per byte, least
    significant group first, the high bit set on every byte but the last.
    Ten bytes hold any unsigned 64-bit value. *)
Fixpoint encode_varint_aux (n : nat) (v : Z) : bytes :=
  match n with
  | O => []
  | S n' =>
    if v <? 128 then [v]
    else (v mod 128 + 128) :: encode_varint_aux n' (v / 128)
  end.

Definition encode_varint (v : Z) : bytes := encode_varint_aux 10 v.

(** "Encoding [v] and then decoding it yields [v] exactly": wherever the
    encoding sits in a payload, [get_value] started on its first byte
    returns [v] and leaves [offset] just behind it. *)
Definition varint_roundtrip (np : bool) (v : Z) : Prop :=
  forall (pre rest : bytes) (A : gmap str pyarray) (I : gmap str (list Z)),
    len (pre ++ encode_varint v ++ rest) < 2^63 ->
    get_value (pre ++ encode_varint v ++ rest) (mkState (len pre) np A I)
    = Done v (mkState (len pre + len (encode_varint v)) np A I).

(** What the reader makes of the encoding of an unsigned 64-bit [v]: the
    value itself below [2^63]; above, its two's-complement reading when
    [offset] is an [np.int64], and an overflow at the tenth byte (at offset
    [tenth]) while [offset] is still a Python integer. *)
Definition decoded (np : bool) (v tenth final : Z)
    (A : gmap str pyarray) (I : gmap str (list Z)) : outcome dstate Z :=
  if v <? 2^63 then Done v (mkState final np A I)
  else if np then Done (v - 2^64) (mkState final np A I)
  else Raised OverflowError (mkState tenth np A I).

(** ** Vocabulary of the statements *)

(** Partial correctness of a computation, with a postcondition for normal
    completion and one for a raise. *)
Definition wp {S A : Type} (m : M S A) (s : S)
    (Q : A -> S -> Prop) (E : exn -> S -> Prop) : Prop :=
  match m s with
  | Done a s' => Q a s'
  | Raised e s' => E e s'
  | Timeout => True
  end.

(** Total correctness: the run of [m] from [s] comes to an end, and when it
    ends with a result, [Q] holds of it. *)
Definition finishes {S A : Type} (m : M S A) (s : S) (Q : A -> S -> Prop)
  : Prop :=
  match m s with
  | Done a s' => Q a s'
  | Raised _ _ => True
  | Timeout => False
  end.

(** [m] comes to an end from every state. *)
Definition total {S A : Type} (m : M S A) : Prop :=
  forall s, finishes m s (fun _ _ => True).

(** Where a cursor operation leaves the cursor: not before where it was, and
    within the payload if it was. *)
Definition moved_on (data : bytes) (s s' : dstate) : Prop :=
  offset s <= offset s' /\ (offset s <= len data -> offset s' <= len data).

(** Every run of [m] from [s], finished or failed, ends in a state related
    to [s]. *)
Definition steps {S A : Type} (R : relation S) (m : M S A) : Prop :=
  forall s, wp m s (fun _ => R s) (fun _ => R s).

(** [a'] is [a] with elements added behind. *)
Definition array_extends (a a' : pyarray) : Prop :=
  tcode a' = tcode a /\ raw a `prefix_of` raw a'.

(** Nothing already stored under a key has changed: buffers and indices
    have only grown at the end. *)
Definition store_extends (A : gmap str pyarray) (I : gmap str (list Z))
    (A' : gmap str pyarray) (I' : gmap str (list Z)) : Prop :=
  (forall key a, A !! key = Some a ->
     exists a', A' !! key = Some a' /\ array_extends a a') /\
  (forall key ix, I !! key = Some ix ->
     exists ix', I' !! key = Some ix' /\ ix `prefix_of` ix').

(** The index of a buffer: starts at 0, non-decreasing, and within the
    buffer's current element count. *)
Definition index_ok (a : pyarray) (ix : list Z) : Prop :=
  ix !! 0%nat = Some 0 /\ Sorted Z.le ix /\ Forall (fun x => x <= array_len a) ix.

(** Buffers and indices come in pairs, each index fitting its buffer. *)
Definition store_ok (A : gmap str pyarray) (I : gmap str (list Z)) : Prop :=
  forall key,
    match A !! key, I !! key with
    | Some a, Some ix => index_ok a ix
    | None, None => True
    | _, _ => False
    end.

(** The length of a key's index, counting the initial [0] that a key not
    seen yet will get. *)
Definition index_length (I : gmap str (list Z)) (key : str) : nat :=
  match I !! key with
  | Some ix => length ix
  | None => 1
  end.

(** On the decoder's state. *)
Definition same_store : relation dstate :=
  fun s s' => arrays s' = arrays s /\ indices s' = indices s.
Definition same_indices : relation dstate :=
  fun s s' => indices s' = indices s.
Definition grows : relation dstate :=
  fun s s' =>
    store_ok (arrays s) (indices s) ->
    store_extends (arrays s) (indices s) (arrays s') (indices s') /\
    store_ok (arrays s') (indices s').
Definition l_grows : relation lstate :=
  fun s s' =>
    store_ok (l_arrays s) (l_indices s) ->
    store_extends (l_arrays s) (l_indices s) (l_arrays s') (l_indices s') /\
    store_ok (l_arrays s') (l_indices s').

(** How many of the processed entries carried [key]. *)
Definition occurrences (key : str) (keys : list str) : nat :=
  length (filter (fun k => k = key) keys).

(** The index of [key] has one more entry, the others are as long as before. *)
Definition counted (key : str) (I I' : gmap str (list Z)) : Prop :=
  forall k, index_length I' k
            = (index_length I k + if decide (key = k) then 1 else 0)%nat.

(** ** The writer's side, continued: fields, entries, payloads, records *)

(** A length-delimited field: the tag, the length as a varint, the body. *)
Definition tagged (tag : Z) (body : bytes) : bytes :=
  tag :: encode_varint (len body) ++ body.

(** A value holding one byte string, a packed list of integers, and the
    empty value of either kind. *)
Definition bytes_value (bs : bytes) : bytes := tagged 0x0A (tagged 0x0A bs).
Definition int64_value (vs : list Z) : bytes :=
  tagged 0x1A (tagged 0x0A (concat (encode_varint <$> vs))).
Definition empty_value (tag : Z) : bytes := tagged tag [].

(** One feature: the entry header, the key, the value union. *)
Definition entry (key value : bytes) : bytes :=
  tagged 0x0A (tagged 0x0A key ++ tagged 0x12 value).

Definition payload (entries : list bytes) : bytes :=
  tagged 0x0A (concat entries).

(** One record of the file; the two 4-byte fields are not looked at. *)
Definition frame (data : bytes) : bytes :=
  le_encode 8 (len data) ++ [0; 0; 0; 0] ++ data ++ [0; 0; 0; 0].

(** C1 as stated: after a successful load of [items] records, every index
    has [items + 1] entries, starts at 0 and is non-decreasing. *)
Definition one_index_entry_per_record `{Allocator} (fuel : nat) (content : bytes)
    (items : Z) : Prop :=
  forall A I s,
    _load_data fuel content items = Done (A, I) s ->
    forall key ix,
      I !! key = Some ix ->
      length ix = S (Z.to_nat items) /\ ix !! 0%nat = Some 0 /\ Sorted Z.le ix.

(** [a.append(v)] for each [v] in turn; [None] when one does not fit. *)
Fixpoint array_extend (a : pyarray) (vs : list Z) : option pyarray :=
  match vs with
  | [] => Some a
  | v :: vs' =>
    match array_append a v with
    | Some a' => array_extend a' vs'
    | None => None
    end
  end.

(** C4 as stated: whatever the first header of a value declares, a second
    header is read before the value data. *)
Definition two_headers_consumed (data : bytes) (t : Z) (s : dstate) : Prop :=
  forall L s',
    get_length data t s = Done L s' ->
    exists v1 s1,
      get_value_of_kind data t s = Done v1 s1 /\
      get_value_of_kind data 0x0A s1 = Done L s'.

(** A record as it lies in the file: an 8-byte little-endian length, four
    bytes, the payload of that length, four bytes. *)
Definition is_frame (record data : bytes) : Prop :=
  exists h c1 c2,
    record = h ++ c1 ++ data ++ c2 /\
    len h = 8 /\ len c1 = 4 /\ len c2 = 4 /\ le_decode h = len data.

(** C8 as stated, in its second clause: when no whole record lies at the
    head of the file, a load of one record or more fails with
    [AssertionError], the [TruncatedStream] of the four length
    assertions. *)
Definition truncated_stream_asserts `{Allocator} (fuel : nat) (content : bytes)
    (items : Z) : Prop :=
  0 < items ->
  (forall record data rest, content = record ++ rest -> ~ is_frame record data) ->
  exists s, _load_data fuel content items = Raised AssertionError s.

(** The payloads decoded one after the other into the same store. *)
Fixpoint decode_all (fuel : nat) (payloads : list bytes)
  : M lstate (list (list str)) :=
  match payloads with
  | [] => ret []
  | data :: payloads' =>
    let* keys := with_decoder (decode_payload fuel data) in
    let* rest := decode_all fuel payloads' in
    ret (keys :: rest)
  end.

(** The run ended, finished or failed, in the state [s']. *)
Definition ends_in {S A : Type} (o : outcome S A) (s' : S) : Prop :=
  match o with
  | Done _ s => s = s'
  | Raised _ s => s = s'
  | Timeout => False
  end.

(** C3 as stated, on files of two records that carry the same key, first
    with a byte string and then with packed integers: the load fails. *)
Definition mixed_kinds_rejected `{Allocator} (fuel : nat) (kb bs : bytes) (vs : list Z)
  : Prop :=
  exists e s,
    _load_data fuel
      (frame (payload [entry kb (bytes_value bs)])
       ++ frame (payload [entry kb (int64_value vs)])) 2
    = Raised e s.

(** ** Sample inputs *)

(** A header that declares a payload of [2^63] bytes, the four bytes after
    it, and nothing more. *)
Definition oversized_header_file : bytes := le_encode 8 (2^63) ++ [0; 0; 0; 0].

(** Two records, the first with the feature [a] only, the second with the
    feature [b] only, both values empty. *)
Definition two_keys_file : bytes :=
  frame (payload [entry [97] (empty_value 0x0A)])
  ++ frame (payload [entry [98] (empty_value 0x0A)]).

Definition two_keys_arrays : gmap str pyarray :=
  {[ [97] := mkArray TC_B []; [98] := mkArray TC_B [] ]}.
Definition two_keys_indices : gmap str (list Z) :=
  {[ [97] := [0; 0]; [98] := [0; 0] ]}.


(** A payload on which the loop over the entries does not end. The second
    header of the value of its one entry, [a], announces the length
    [2^64 - 20], which the decoder reads as [-20]: adding it takes the
    cursor from the end of the 20-byte entry back to its start. *)
Definition looping_value : bytes :=
  tagged 0x0A (0x0A :: encode_varint (2^64 - 20)).
Definition looping_payload : bytes := payload [entry [97] looping_value].

(** Two records with an image and marks: the marks 3, 1, 4 in the first and
    none in the second; and a stand-in for the image decoder that returns
    the encoded bytes. *)
Definition two_examples_file : bytes :=
  frame (payload [entry (str_of_string "image") (bytes_value [1; 2; 3]);
                  entry (str_of_string "marks") (int64_value [3; 1; 4])])
  ++ frame (payload [entry (str_of_string "image") (bytes_value [9]);
                     entry (str_of_string "marks") (empty_value 0x1A)]).

Definition raw_image (encoded : bytes) : exn + bytes := inr encoded.

Definition two_examples_eager : Dataset bytes :=
  mkDataset 2 (Some [mkElement [1; 2; 3] [3; 1; 4]; mkElement [9] []]) None None.

(** C5 as stated, in its last but one clause: with an empty gold sequence,
    a non-empty prediction scores its own length. *)
Definition empty_gold_scores_length (ignore_index : option Z)
    (y_pred : list Z) : Prop :=
  y_pred <> [] ->
  example_score ignore_index y_pred [] = Qc_of_nat (length y_pred).

(** * The rest of the module

    ** [HOMRDataset.evaluate_file] *)

(** [c.isspace()] for one character: where [str.split()] splits. *)
Definition is_whitespace (c : Z) : bool :=
  ((9 <=? c) && (c <=? 13)) || ((28 <=? c) && (c <=? 32))
  || (c =? 0x85) || (c =? 0xA0) || (c =? 0x1680)
  || ((0x2000 <=? c) && (c <=? 0x200A))
  || (c =? 0x2028) || (c =? 0x2029) || (c =? 0x202F) || (c =? 0x205F)
  || (c =? 0x3000).

(** [line.rstrip(chars)]: the characters of [chars] at the end are dropped. *)
Fixpoint str_rstrip (chars : list Z) (line : str) : str :=
  match line with
  | [] => []
  | c :: line' =>
    match str_rstrip chars line' with
    | [] => if existsb (Z.eqb c) chars then [] else [c]
    | rest => c :: rest
    end
  end.

(** [line.split()]: the maximal runs of characters that are not whitespace;
    [word] is the run being read. *)
Fixpoint split_from (word : str) (line : str) : list str :=
  match line with
  | [] => match word with [] => [] | _ => [word] end
  | c :: line' =>
    if is_whitespace c then
      match word with
      | [] => split_from [] line'
      | _ => word :: split_from [] line'
      end
    else split_from (word ++ [c]) line'
  end.

Definition str_split (line : str) : list str := split_from [] line.

Section EvaluateFile.
Variable image : Type.
Variable decode_image : bytes -> exn + image.

(** [predictions_file] is given by the lines that iterating over it yields. *)
Definition evaluate_file (fuel : nat) (gold_dataset : Dataset image)
    (predictions_file : list str) : M unit (option Qc) :=
  let predictions :=
    (fun line => str_split (str_rstrip [10] line)) <$> predictions_file in
  evaluate decode_image fuel gold_dataset predictions.
End EvaluateFile.

Arguments evaluate_file {image} decode_image _ _ _.

(** The writer's side: a prediction as a line of the file,
    [" ".join(tokens) + "\n"], and the tokens that such a line can carry:
    not empty and free of whitespace. *)
Fixpoint join_space (tokens : list str) : str :=
  match tokens with
  | [] => []
  | [token] => token
  | token :: tokens' => token ++ 32 :: join_space tokens'
  end.

Definition prediction_line (tokens : list str) : str := join_space tokens ++ [10].

Definition no_whitespace (s : str) : bool :=
  forallb (fun c => negb (is_whitespace c)) s.

Definition is_token (token : str) : bool :=
  match token with
  | [] => false
  | _ => no_whitespace token
  end.

(** ** [HOMRDataset.TransformedDataset] *)

(** [len(x)] for an object whose [__len__] returns [n]. *)
Inductive len_error : Type :=
| NegativeLength     (* ValueError: __len__() should return >= 0 *)
| LengthOverflow.    (* OverflowError: cannot fit 'int' into an index-sized integer *)

Definition py_len (n : Z) : len_error + Z :=
  if n <? 0 then inl NegativeLength
  else if 2^63 <=? n then inl LengthOverflow
  else inr n.

Section Transformed.
Variable image : Type.
Variable decode_image : bytes -> exn + image.

(** The values that pass through transforms: the elements of a dataset,
    tuples of values, and values of any other kind. *)
Variable other : Type.

(** What calling a transform may change. *)
Variable S : Type.

#[warnings="-register-all"] Inductive item : Type :=
| Example (element : Element image)
| Tuple (items : list item)
| Other (value : other).

(** A callable, applied to the list of its positional arguments. *)
Definition callable : Type := list item -> M S item.

(** A dataset as [transform] takes it: a [Dataset], or a
    [TransformedDataset] with its [_dataset] and [_transform]. *)
Inductive AnyDataset : Type :=
| Plain (dataset : Dataset image)
| TransformedDataset (_dataset : AnyDataset) (_transform : callable).

(** [Dataset.transform] and [TransformedDataset.transform]. *)
Definition transform (self : AnyDataset) (transform : callable) : AnyDataset :=
  TransformedDataset self transform.

(** [self._transform( *item) if isinstance(item, tuple)
     else self._transform(item)] *)
Definition call_transform (_transform : callable) (value : item) : M S item :=
  match value with
  | Tuple items => _transform items
  | _ => _transform [value]
  end.

(** [dataset[index]] *)
Fixpoint getitem (self : AnyDataset) (index : Z) : M S item :=
  match self with
  | Plain dataset =>
    let* element := __getitem__ decode_image dataset index in
    ret (Example element)
  | TransformedDataset _dataset _transform =>
    let* value := getitem _dataset index in
    call_transform _transform value
  end.

(** [len(dataset)]: both classes define [__len__], and
    [TransformedDataset.__len__] is [len(self._dataset)]. *)
Fixpoint dataset_len (self : AnyDataset) : len_error + Z :=
  match self with
  | Plain dataset => py_len (__len__ dataset)
  | TransformedDataset _dataset _ =>
    match dataset_len _dataset with
    | inl e => inl e
    | inr n => py_len n
    end
  end.

(** The transforms of a chain applied one after the other to a value. *)
Fixpoint call_transforms (transforms : list callable) (value : item)
  : M S item :=
  match transforms with
  | [] => ret value
  | f :: transforms' =>
    let* value' := call_transform f value in
    call_transforms transforms' value'
  end.
End Transformed.

Arguments Example {image other} _.
Arguments Tuple {image other} _.
Arguments Other {image other} _.
Arguments Plain {image other S} _.
Arguments TransformedDataset {image other S} _ _.
Arguments transform {image other S} _ _.
Arguments call_transform {image other S} _ _.
Arguments getitem {image} decode_image {other S} _ _.
Arguments dataset_len {image other S} _.
Arguments call_transforms {image other S} _ _.

(** ** The writer's side: a dataset file *)

(** An example as a record of the file: the encoded image and the marks. *)
Definition example_record (example : bytes * list Z) : bytes :=
  frame (payload [entry (str_of_string "image") (bytes_value example.1);
                  entry (str_of_string "marks") (int64_value example.2)]).

Definition dataset_file (examples : list (bytes * list Z)) : bytes :=
  concat (example_record <$> examples).

(** The index of a buffer filled with values of the given sizes: the
    running totals, starting with [start]. *)
Fixpoint running_totals (start : Z) (sizes : list Z) : list Z :=
  start ::
  match sizes with
  | [] => []
  | n :: sizes' => running_totals (start + n) sizes'
  end.

(** The buffer of an [int64] array holding [values]. *)
Definition int64_bytes (values : list Z) : bytes :=
  concat ((fun v => le_encode 8 (v mod 2^64)) <$> values).

(** What loading [two_examples_file] leaves in the store. *)
Definition two_examples_arrays : gmap str pyarray :=
  {[ str_of_string "image" := mkArray TC_B [1; 2; 3; 9];
     str_of_string "marks" := mkArray TC_q (int64_bytes [3; 1; 4]) ]}.
Definition two_examples_indices : gmap str (list Z) :=
  {[ str_of_string "image" := [0; 3; 4]; str_of_string "marks" := [0; 3; 3] ]}.

(** ** Vocabulary of the further statements *)

(** Under the keys other than [key], the store is as it was. *)
Definition elsewhere (key : str) : relation dstate :=
  fun s s' =>
    forall k, k <> key ->
      arrays s' !! k = arrays s !! k /\ indices s' !! k = indices s !! k.

(** Every index ends with the number of elements of its buffer: the last
    example of each key ends where the buffer ends. *)
Definition closed (A : gmap str pyarray) (I : gmap str (list Z)) : Prop :=
  forall key a ix,
    A !! key = Some a -> I !! key = Some ix -> last ix = Some (array_len a).

(** A value in the bytes branch whose second header holds [2^64 - n], which
    the decoder reads as the length [-n]; and an entry under the key [kb]
    with such a value, [n] being the length of the entry itself. *)
Definition rewinding_value (n : Z) : bytes :=
  tagged 0x0A (0x0A :: encode_varint (2^64 - n)).

Definition rewinding_entry (kb : bytes) : bytes :=
  entry kb (rewinding_value (len (entry kb (rewinding_value 1)))).

(** The store after the examples of a dataset file have been loaded: the
    images one behind the other in a byte buffer, the marks in an [int64]
    buffer, and the running totals of their sizes in the two indices. A key
    that is not there yet counts as its empty buffer and the index [[0]]. *)
Definition holds_examples (examples : list (bytes * list Z))
    (A : gmap str pyarray) (I : gmap str (list Z)) : Prop :=
  default (mkArray TC_B []) (A !! str_of_string "image")
  = mkArray TC_B (concat examples.*1) /\
  default [0] (I !! str_of_string "image")
  = running_totals 0 (len <$> examples.*1) /\
  default (mkArray TC_q []) (A !! str_of_string "marks")
  = mkArray TC_q (int64_bytes (concat examples.*2)) /\
  default [0] (I !! str_of_string "marks")
  = running_totals 0 (len <$> examples.*2) /\
  (A !! str_of_string "image" = None <-> I !! str_of_string "image" = None) /\
  (A !! str_of_string "marks" = None <-> I !! str_of_string "marks" = None) /\
  (examples <> [] ->
   is_Some (A !! str_of_string "image") /\ is_Some (A !! str_of_string "marks")).

(** An example that a dataset file can carry and give back: an image that
    is not empty, and marks that fit 63 bits. *)
Definition storable (example : bytes * list Z) : Prop :=
  example.1 <> [] /\ Forall (fun v => 0 <= v < 2^63) example.2.

(** * Properties *)

(** ** Bytes and bits *)

Lemma wrap64_id z : - 2^63 <= z < 2^63 -> wrap64 z = z.
Proof. intros H. unfold wrap64. rewrite Z.mod_small; lia. Qed.

Lemma wrap64_range z : - 2^63 <= wrap64 z < 2^63.
Proof.
  unfold wrap64. pose proof (Z.mod_pos_bound (z + 2^63) (2^64)). lia.
Qed.

Lemma land_7F b : Z.land b 0x7F = b mod 128.
Proof. change 0x7F with (Z.ones 7). rewrite Z.land_ones by lia. reflexivity. Qed.

Lemma testbit7 b : 0 <= b < 256 -> Z.testbit b 7 = (128 <=? b).
Proof.
  intros H. destruct (Z.leb_spec 128 b).
  - apply Z.testbit_true; [lia|]. change (2^7) with 128.
    replace (b / 128) with 1; [reflexivity|].
    apply Z.div_unique with (b - 128); lia.
  - apply Z.testbit_false; [lia|]. change (2^7) with 128.
    rewrite Z.div_small by lia. reflexivity.
Qed.

Lemma land_80 b : 0 <= b < 256 -> (Z.land b 0x80 =? 0) = (b <? 128).
Proof.
  intros H. pose proof (testbit7 b H) as Hb.
  destruct (Z.ltb_spec b 128) as [Hlt|Hge].
  - apply Z.eqb_eq. apply Z.bits_inj'. intros n Hn.
    rewrite Z.land_spec, Z.bits_0. change 0x80 with (2^7).
    rewrite Z.pow2_bits_eqb by lia.
    destruct (Z.eqb_spec 7 n) as [<-|]; [|apply andb_false_r].
    rewrite Hb. destruct (Z.leb_spec 128 b); [lia|reflexivity].
  - apply Z.eqb_neq. intros Hz.
    assert (Z.testbit (Z.land b 0x80) 7 = true) as Ht.
    { rewrite Z.land_spec, Hb. destruct (Z.leb_spec 128 b); [reflexivity|lia]. }
    rewrite Hz, Z.bits_0 in Ht. discriminate.
Qed.

(** Or-ing in a group above the bits already collected adds it. *)
Lemma lor_shiftl_add a b s :
  0 <= s -> 0 <= a < 2^s -> Z.lor a (Z.shiftl b s) = a + b * 2^s.
Proof.
  intros Hs Ha.
  assert (Z.land a (Z.shiftl b s) = 0) as Hdisj.
  { apply Z.bits_inj'. intros n Hn. rewrite Z.land_spec, Z.bits_0.
    destruct (Z.ltb_spec n s).
    - rewrite Z.shiftl_spec_low by lia. apply andb_false_r.
    - destruct (Z.eqb_spec a 0) as [->|Hnz]; [rewrite Z.bits_0; reflexivity|].
      rewrite (Z.bits_above_log2 a n); [reflexivity|lia|].
      apply Z.lt_le_trans with s; [|lia]. apply Z.log2_lt_pow2; lia. }
  rewrite <- Z.lxor_lor by exact Hdisj.
  rewrite <- Z.add_nocarry_lxor by exact Hdisj.
  rewrite Z.shiftl_mul_pow2 by lia. reflexivity.
Qed.

(** The sign bit of an [np.int64]. *)
Lemma lor_sign_bit a : 0 <= a < 2^63 -> Z.lor a (- 2^63) = a - 2^63.
Proof.
  intros Ha.
  replace (- 2^63) with (Z.shiftl (-1) 63) by reflexivity.
  rewrite lor_shiftl_add by lia. lia.
Qed.

(** ** Indexing *)

Lemma len_app {A} (l1 l2 : list A) : len (l1 ++ l2) = len l1 + len l2.
Proof. unfold len. rewrite length_app. lia. Qed.

Lemma len_cons {A} (x : A) (l : list A) : len (x :: l) = 1 + len l.
Proof. unfold len. cbn [length]. lia. Qed.

Lemma len_nonneg {A} (l : list A) : 0 <= len l.
Proof. unfold len. lia. Qed.

Lemma py_getitem_nonneg {A} (l : list A) (i : Z) :
  0 <= i < len l -> py_getitem l i = l !! Z.to_nat i.
Proof.
  intros H. unfold py_getitem, len in *.
  destruct (Z.leb_spec 0 i); [|lia].
  destruct (Z.ltb_spec i (Z.of_nat (length l))); [reflexivity|lia].
Qed.

Lemma py_getitem_middle {A} (pre : list A) (x : A) (rest : list A) :
  py_getitem (pre ++ x :: rest) (len pre) = Some x.
Proof.
  rewrite py_getitem_nonneg.
  - unfold len. rewrite Nat2Z.id. apply list_lookup_middle. reflexivity.
  - rewrite len_app, len_cons. pose proof (len_nonneg pre).
    pose proof (len_nonneg rest). lia.
Qed.

Lemma py_getitem_at {A} (pre : list A) (x : A) (rest : list A) (i : Z) :
  i = len pre -> py_getitem (pre ++ x :: rest) i = Some x.
Proof. intros ->. apply py_getitem_middle. Qed.

(** ** Reading varints *)

Ltac run :=
  repeat (progress (unfold bind, gets, modify, ret, raise, py_assert,
                      lift_option, data_at, advance, add_length, set_offset,
                      off_plus;
                    cbn [offset offset_np arrays indices])).

Lemma encode_varint_aux_head n w :
  exists b tl, encode_varint_aux (S n) w = b :: tl /\
    (0 <= w -> 0 <= b < 256) /\ b mod 128 = w mod 128 /\
    ((w <? 128) = true -> b = w /\ tl = []) /\
    ((w <? 128) = false ->
       b = w mod 128 + 128 /\ tl = encode_varint_aux n (w / 128)).
Proof.
  cbn [encode_varint_aux]. destruct (Z.ltb_spec w 128) as [Hlt|Hge].
  - exists w, []. repeat split; try lia; discriminate.
  - exists (w mod 128 + 128), (encode_varint_aux n (w / 128)).
    pose proof (Z.mod_pos_bound w 128).
    repeat split; try lia; try discriminate.
    replace (w mod 128 + 128) with (w mod 128 + 1 * 128) by lia.
    rewrite Z.mod_add by lia. apply Z.mod_mod. lia.
Qed.

Lemma off_minus_1 (o : Z) (np : bool) :
  - 2^63 < o < 2^63 -> (if np then wrap64 (o + 1 + -1) else o + 1 + -1) = o.
Proof.
  intros H. replace (o + 1 + -1) with o by lia.
  destruct np; [apply wrap64_id; lia|reflexivity].
Qed.

Lemma off_plus_1 (o : Z) (np : bool) :
  - 2^63 <= o + 1 < 2^63 -> (if np then wrap64 (o + 1) else o + 1) = o + 1.
Proof. intros H. destruct np; [apply wrap64_id; lia|reflexivity]. Qed.

(** The loop on the rest of an encoding: [k] bytes are behind the byte just
    read, [vlow] is what they contributed, and [w] is what the byte just
    read and its successors encode. *)
Lemma get_value_loop_encoded (n : nat) :
  forall (k w vlow start : Z) (pre rest : bytes) (np : bool)
         (A : gmap str pyarray) (I : gmap str (list Z)) (fuel : nat),
    0 <= k -> k + Z.of_nat n = 8 ->
    0 <= w -> w * 2^(7 * k) < 2^64 ->
    0 <= vlow < 2^(7 * k) ->
    0 <= start -> len pre = start + k ->
    len (pre ++ encode_varint_aux (S (S n)) w ++ rest) < 2^63 ->
    (length (encode_varint_aux (S (S n)) w) <= fuel)%nat ->
    get_value_loop fuel (pre ++ encode_varint_aux (S (S n)) w ++ rest) start
      (vlow + w mod 128 * 2^(7 * k)) (mkState (len pre + 1) np A I)
    = decoded np (vlow + w * 2^(7 * k)) (start + 9)
        (len pre + len (encode_varint_aux (S (S n)) w)) A I.
Proof.
  induction n as [|n IH];
    intros k w vlow start pre rest np A I fuel Hk Hkn Hw Hwk Hvlow Hstart
      Hpre Hlen Hfuel.
  all: match type of Hfuel with
       | (length (encode_varint_aux (S ?m) ?x) <= _)%nat =>
         destruct (encode_varint_aux_head m x)
           as (b & tl & Henc & Hb & Hbmod & Hsmall & Hbig)
       end;
       rewrite Henc in *; specialize (Hb Hw);
       assert (0 < 2^(7 * k)) as HP by (apply Z.pow_pos_nonneg; lia);
       assert (2^(7 * (k + 1)) = 128 * 2^(7 * k)) as HP1
         by (replace (7 * (k + 1)) with (7 + 7 * k) by lia;
             rewrite Z.pow_add_r by lia; reflexivity);
       pose proof (Z.mod_pos_bound w 128 ltac:(lia)) as Hwm;
       pose proof (Z.div_mod w 128 ltac:(lia)) as Hwd;
       pose proof (len_nonneg pre) as Hpre0;
       rewrite !len_app, len_cons in Hlen;
       pose proof (len_nonneg tl) as Htl0; pose proof (len_nonneg rest) as Hr0;
       destruct fuel as [|fuel]; [cbn [length] in Hfuel; lia|];
       cbn [get_value_loop]; run;
       rewrite (off_minus_1 (len pre) np) by lia;
       cbn [app]; rewrite py_getitem_middle; run;
       rewrite (land_80 b Hb);
       destruct (Z.ltb_spec w 128) as [Hlt|Hge].
  - (* k = 8, a single byte left *)
    destruct (Hsmall eq_refl) as [-> ->]. clear Hbig.
    destruct (Z.ltb_spec w 128); [|lia]. run.
    unfold decoded. rewrite Z.mod_small by lia.
    replace k with 8 in * by lia. change (2^(7 * 8)) with (2^56) in *.
    destruct (Z.ltb_spec (vlow + w * 2^56) (2^63)); [|lia].
    rewrite len_cons. change (len []) with 0. do 2 f_equal; lia.
  - (* k = 8, the tenth byte carries bit 63 *)
    destruct (Hbig eq_refl) as [-> ->]. clear Hsmall.
    destruct (Z.ltb_spec (w mod 128 + 128) 128); [lia|]. run.
    replace k with 8 in * by lia. change (2^(7 * 8)) with (2^56) in *.
    assert (w / 128 = 1) as Hw1 by lia.
    cbn [encode_varint_aux] in *. rewrite Hw1 in *.
    change (1 <? 128) with true in *. cbn [app length] in *.
    change (len [1]) with 1 in *.
    replace (pre ++ (w mod 128 + 128) :: 1 :: rest)
      with ((pre ++ [w mod 128 + 128]) ++ 1 :: rest)
      by (rewrite <- app_assoc; reflexivity).
    assert (len (pre ++ [w mod 128 + 128]) = len pre + 1) as Hpre1
      by (rewrite len_app, len_cons; reflexivity).
    rewrite (py_getitem_at (pre ++ [w mod 128 + 128])) by lia. run.
    unfold decoded.
    destruct (Z.ltb_spec (vlow + w * 2^56) (2^63)); [lia|].
    unfold or_shifted. rewrite land_7F. change (1 mod 128) with 1.
    replace (len pre + 1 - start) with 9 by lia.
    destruct np.
    + change (np_lshift 1 (wrap64 (7 * wrap64 9))) with (- 2^63).
      rewrite lor_sign_bit by lia. run.
      rewrite wrap64_id by lia.
      destruct fuel as [|fuel]; [lia|].
      cbn [get_value_loop]; run.
      rewrite wrap64_id by lia.
      rewrite (py_getitem_at (pre ++ [w mod 128 + 128])) by lia. run. change (Z.land 1 128 =? 0) with true.
      cbn.
      rewrite !len_cons. change (len []) with 0.
      f_equal; [lia|f_equal; lia].
    + change (fits_int64 (Z.shiftl 1 (7 * 9))) with false. cbn.
      do 2 f_equal; lia.
  - (* an earlier last byte *)
    destruct (Hsmall eq_refl) as [-> ->]. clear Hbig.
    destruct (Z.ltb_spec w 128); [|lia]. run.
    unfold decoded. rewrite Z.mod_small by lia.
    assert (2^(7 * k) <= 2^56) by (apply Z.pow_le_mono_r; lia).
    destruct (Z.ltb_spec (vlow + w * 2^(7 * k)) (2^63)); [|nia].
    rewrite len_cons. change (len []) with 0. do 2 f_equal; lia.
  - (* a continuation byte, and at most eight bytes behind the next one *)
    destruct (Hbig eq_refl) as [-> ->]. clear Hsmall.
    destruct (Z.ltb_spec (w mod 128 + 128) 128); [lia|]. run.
    destruct (encode_varint_aux_head (S n) (w / 128))
      as (b' & tl' & Henc' & Hb' & Hbmod' & _ & _).
    assert (0 <= w / 128) as Hw' by (apply Z.div_pos; lia).
    specialize (Hb' Hw').
    assert (1 <= len (encode_varint_aux (S (S n)) (w / 128))) as Htl1
      by (rewrite Henc', len_cons; pose proof (len_nonneg tl'); lia).
    replace (pre ++ (w mod 128 + 128) :: encode_varint_aux (S (S n)) (w / 128) ++ rest)
      with ((pre ++ [w mod 128 + 128]) ++ encode_varint_aux (S (S n)) (w / 128) ++ rest)
      by (rewrite <- app_assoc; reflexivity).
    assert (len (pre ++ [w mod 128 + 128]) = len pre + 1) as Hpre1
      by (rewrite len_app, len_cons; reflexivity).
    rewrite Henc'. cbn [app].
    rewrite (py_getitem_at (pre ++ [w mod 128 + 128])) by lia.
    change (b' :: tl' ++ rest) with ((b' :: tl') ++ rest).
    rewrite <- Henc'. run.
    assert (2^(7 * k) <= 2^49) as HP49 by (apply Z.pow_le_mono_r; lia).
    pose proof (Z.mod_pos_bound (w / 128) 128 ltac:(lia)) as Hwm'.
    assert (or_shifted np (vlow + w mod 128 * 2^(7 * k)) b' (len pre + 1 - start)
            = Some (vlow + w mod 128 * 2^(7 * k)
                    + (w / 128) mod 128 * 2^(7 * (k + 1)))) as ->.
    { unfold or_shifted. rewrite land_7F, Hbmod'.
      replace (len pre + 1 - start) with (k + 1) by lia.
      assert (0 <= Z.shiftl ((w / 128) mod 128) (7 * (k + 1)) < 2^63) as Hx.
      { rewrite Z.shiftl_mul_pow2 by lia. rewrite HP1. nia. }
      destruct np.
      - rewrite (wrap64_id (k + 1)) by lia.
        rewrite (wrap64_id (7 * (k + 1))) by lia.
        unfold np_lshift.
        destruct (Z.leb_spec 0 (7 * (k + 1))); [|lia].
        destruct (Z.ltb_spec (7 * (k + 1)) 64); [|lia]. cbn [andb].
        rewrite wrap64_id by lia.
        rewrite lor_shiftl_add by (rewrite ?HP1; nia). reflexivity.
      - unfold fits_int64.
        destruct (Z.leb_spec (- 2^63) (Z.shiftl ((w / 128) mod 128) (7 * (k + 1))));
          [|lia].
        destruct (Z.ltb_spec (Z.shiftl ((w / 128) mod 128) (7 * (k + 1))) (2^63));
          [|lia].
        cbn [andb]. rewrite lor_shiftl_add by (rewrite ?HP1; nia). reflexivity. }
    run. rewrite (off_plus_1 (len pre + 1) np) by lia.
    specialize (IH (k + 1) (w / 128) (vlow + w mod 128 * 2^(7 * k)) start
                  (pre ++ [w mod 128 + 128]) rest np A I fuel).
    rewrite Hpre1 in IH. rewrite IH; try lia.
    + rewrite HP1, len_cons. f_equal; nia.
    + rewrite HP1. nia.
    + repeat (rewrite len_app || rewrite len_cons). change (len []) with 0. lia.
    + cbn [length] in Hfuel. lia.
Qed.

Lemma encode_varint_aux_length_le n v : (length (encode_varint_aux n v) <= n)%nat.
Proof.
  revert v. induction n as [|n IH]; intros v; cbn [encode_varint_aux length].
  - lia.
  - destruct (v <? 128); cbn [length]; [lia|]. specialize (IH (v / 128)). lia.
Qed.

Lemma encode_varint_aux_short n :
  forall (v : Z) (m : nat),
    (1 <= m)%nat -> 0 <= v < 2^(7 * Z.of_nat m) ->
    (length (encode_varint_aux n v) <= m)%nat.
Proof.
  induction n as [|n IH]; intros v m Hm Hv; cbn [encode_varint_aux length].
  - lia.
  - destruct (Z.ltb_spec v 128) as [Hlt|Hge]; cbn [length]; [lia|].
    destruct m as [|[|m]]; [lia|change (2^(7 * Z.of_nat 1)) with 128 in Hv; lia|].
    specialize (IH (v / 128) (S m) ltac:(lia)).
    assert (2^(7 * Z.of_nat (S (S m))) = 128 * 2^(7 * Z.of_nat (S m))) as Hp.
    { replace (7 * Z.of_nat (S (S m))) with (7 + 7 * Z.of_nat (S m)) by lia.
      rewrite Z.pow_add_r by lia. reflexivity. }
    assert (0 <= v / 128 < 2^(7 * Z.of_nat (S m))) as Hd.
    { split; [apply Z.div_pos; lia|]. apply Z.div_lt_upper_bound; lia. }
    specialize (IH Hd). lia.
Qed.

Lemma encode_varint_aux_long n :
  forall (v : Z) (m : nat),
    (m < n)%nat -> 2^(7 * Z.of_nat m) <= v ->
    (m < length (encode_varint_aux n v))%nat.
Proof.
  induction n as [|n IH]; intros v m Hm Hv; [lia|].
  cbn [encode_varint_aux].
  destruct m as [|m].
  - destruct (v <? 128); cbn [length]; lia.
  - assert (2^(7 * Z.of_nat (S m)) = 128 * 2^(7 * Z.of_nat m)) as Hp.
    { replace (7 * Z.of_nat (S m)) with (7 + 7 * Z.of_nat m) by lia.
      rewrite Z.pow_add_r by lia. reflexivity. }
    assert (0 < 2^(7 * Z.of_nat m)) by (apply Z.pow_pos_nonneg; lia).
    destruct (Z.ltb_spec v 128) as [Hlt|Hge]; [lia|]. cbn [length].
    specialize (IH (v / 128) m ltac:(lia)).
    assert (2^(7 * Z.of_nat m) <= v / 128) as Hd
      by (apply Z.div_le_lower_bound; lia).
    specialize (IH Hd). lia.
Qed.

(** Ten bytes are needed exactly from [2^63] on. *)
Lemma encode_varint_ten_bytes v :
  0 <= v -> (length (encode_varint v) = 10%nat <-> 2^63 <= v).
Proof.
  intros Hv. unfold encode_varint. split.
  - intros Hlen. destruct (Z.lt_ge_cases v (2^63)) as [Hlt|]; [|assumption].
    pose proof (encode_varint_aux_short 10 v 9 ltac:(lia)) as Hs.
    change (2^(7 * Z.of_nat 9)) with (2^63) in Hs. specialize (Hs ltac:(lia)). lia.
  - intros Hge.
    pose proof (encode_varint_aux_long 10 v 9 ltac:(lia)) as Hl.
    change (2^(7 * Z.of_nat 9)) with (2^63) in Hl. specialize (Hl Hge).
    pose proof (encode_varint_aux_length_le 10 v). lia.
Qed.

(** [get_value] on the encoding of any unsigned 64-bit value. *)
Lemma get_value_encoded (v : Z) (np : bool) (pre rest : bytes)
    (A : gmap str pyarray) (I : gmap str (list Z)) :
  0 <= v < 2^64 ->
  len (pre ++ encode_varint v ++ rest) < 2^63 ->
  get_value (pre ++ encode_varint v ++ rest) (mkState (len pre) np A I)
  = decoded np v (len pre + 9) (len pre + len (encode_varint v)) A I.
Proof.
  intros Hv Hlen. unfold encode_varint in *.
  pose proof (get_value_loop_encoded 8 0 v 0 (len pre) pre rest np A I
                (varint_fuel (pre ++ encode_varint_aux 10 v ++ rest))) as Hloop.
  change (2^(7 * 0)) with 1 in Hloop.
  rewrite !Z.mul_1_r, !Z.add_0_l in Hloop.
  destruct (encode_varint_aux_head 9 v) as (b & tl & Henc & Hb & Hbmod & _ & _).
  pose proof (len_nonneg pre).
  assert (py_getitem (pre ++ encode_varint_aux 10 v ++ rest) (len pre) = Some b)
    as Hget by (rewrite Henc; apply py_getitem_middle).
  unfold get_value. run. rewrite Hget. run. rewrite land_7F, Hbmod.
  assert (len pre + 1 < 2^63) as Hp1.
  { rewrite Henc in Hlen. repeat (rewrite len_app in Hlen || rewrite len_cons in Hlen).
    pose proof (len_nonneg tl). pose proof (len_nonneg rest). lia. }
  rewrite (off_plus_1 (len pre) np) by lia.
  apply Hloop; try lia.
  unfold varint_fuel. rewrite !length_app. lia.
Qed.

(** ** Reasoning about computations *)

Section Wp.
Context {S : Type}.

Lemma wp_bind {A B} (m : M S A) (k : A -> M S B) s Q E :
  wp m s (fun a s' => wp (k a) s' Q E) E -> wp (bind m k) s Q E.
Proof. unfold wp, bind. destruct (m s); auto. Qed.

Lemma wp_mono {A} (m : M S A) s (Q Q' : A -> S -> Prop) (E E' : exn -> S -> Prop) :
  wp m s Q E -> (forall a s', Q a s' -> Q' a s') ->
  (forall e s', E e s' -> E' e s') -> wp m s Q' E'.
Proof. unfold wp. destruct (m s); auto. Qed.

Lemma wp_ret {A} (a : A) s (Q : A -> S -> Prop) E : Q a s -> wp (ret a) s Q E.
Proof. auto. Qed.

Lemma wp_raise {A} e s (Q : A -> S -> Prop) (E : exn -> S -> Prop) :
  E e s -> wp (raise e) s Q E.
Proof. auto. Qed.

Lemma wp_gets {A} (f : S -> A) s (Q : A -> S -> Prop) E :
  Q (f s) s -> wp (gets f) s Q E.
Proof. auto. Qed.

Lemma wp_modify (f : S -> S) s (Q : unit -> S -> Prop) E :
  Q tt (f s) -> wp (modify f) s Q E.
Proof. auto. Qed.

Lemma wp_lift_option {A} e (o : option A) s (Q : A -> S -> Prop)
    (E : exn -> S -> Prop) :
  (forall a, o = Some a -> Q a s) -> (o = None -> E e s) ->
  wp (lift_option e o) s Q E.
Proof. destruct o; cbn; auto. Qed.

Lemma wp_py_assert (b : bool) s (Q : unit -> S -> Prop) (E : exn -> S -> Prop) :
  (b = true -> Q tt s) -> (b = false -> E AssertionError s) ->
  wp (py_assert b) s Q E.
Proof. destruct b; cbn; auto. Qed.

Context (R : relation S) `{!PreOrder R}.

Lemma steps_bind {A B} (m : M S A) (k : A -> M S B) :
  steps R m -> (forall a, steps R (k a)) -> steps R (bind m k).
Proof.
  intros Hm Hk s. apply wp_bind. specialize (Hm s). unfold wp in *.
  destruct (m s) as [a s'|e s'|]; [|assumption|exact Logic.I].
  specialize (Hk a s'). unfold wp in Hk.
  destruct (k a s'); [| |exact Logic.I]; etransitivity; eassumption.
Qed.

Lemma steps_ret {A} (a : A) : steps R (ret a).
Proof. intros s. apply wp_ret. reflexivity. Qed.

Lemma steps_raise {A} e : steps R (@raise S A e).
Proof. intros s. apply wp_raise. reflexivity. Qed.

Lemma steps_gets {A} (f : S -> A) : steps R (gets f).
Proof. intros s. apply wp_gets. reflexivity. Qed.

Lemma steps_lift_option {A} e (o : option A) : steps R (lift_option e o).
Proof. destruct o; [apply steps_ret|apply steps_raise]. Qed.

Lemma steps_py_assert b : steps R (py_assert b).
Proof. destruct b; [apply steps_ret|apply steps_raise]. Qed.

Lemma steps_modify (f : S -> S) : (forall s, R s (f s)) -> steps R (modify f).
Proof. intros Hf s. apply wp_modify. apply Hf. Qed.

Lemma steps_timeout {A} : steps R (fun _ : S => @Timeout S A).
Proof. intros s. exact Logic.I. Qed.

Lemma steps_if {A} (b : bool) (m1 m2 : M S A) :
  steps R m1 -> steps R m2 -> steps R (if b then m1 else m2).
Proof. destruct b; auto. Qed.
End Wp.

Lemma steps_weaken {S A} (R R' : relation S) (m : M S A) :
  (forall s s', R s s' -> R' s s') -> steps R m -> steps R' m.
Proof. intros HR Hm s. eapply wp_mono; [apply Hm| |]; cbn beta; auto. Qed.

(** ** The relations on the decoder's state *)

Global Instance same_store_preorder : PreOrder same_store.
Proof.
  split.
  - intros s. split; reflexivity.
  - intros s1 s2 s3 [H1 H2] [H3 H4]. split; congruence.
Qed.

Global Instance same_indices_preorder : PreOrder same_indices.
Proof.
  split.
  - intros s. reflexivity.
  - intros s1 s2 s3 H1 H2. unfold same_indices in *. congruence.
Qed.

Lemma array_extends_refl a : array_extends a a.
Proof. split; reflexivity. Qed.

Lemma array_extends_trans a1 a2 a3 :
  array_extends a1 a2 -> array_extends a2 a3 -> array_extends a1 a3.
Proof. intros [H1 H2] [H3 H4]. split; [congruence|etransitivity; eauto]. Qed.

Lemma store_extends_refl A I : store_extends A I A I.
Proof.
  split; intros key x Hx; exists x; split; auto using array_extends_refl.
Qed.

Lemma store_extends_trans A1 I1 A2 I2 A3 I3 :
  store_extends A1 I1 A2 I2 -> store_extends A2 I2 A3 I3 ->
  store_extends A1 I1 A3 I3.
Proof.
  intros [Ha Hi] [Ha' Hi']. split.
  - intros key a H. destruct (Ha key a H) as (a2 & H2 & He).
    destruct (Ha' key a2 H2) as (a3 & H3 & He').
    exists a3. split; [assumption|]. eapply array_extends_trans; eauto.
  - intros key ix H. destruct (Hi key ix H) as (ix2 & H2 & He).
    destruct (Hi' key ix2 H2) as (ix3 & H3 & He').
    exists ix3. split; [assumption|]. etransitivity; eauto.
Qed.

Global Instance grows_preorder : PreOrder grows.
Proof.
  split.
  - intros s Hok. split; [apply store_extends_refl|assumption].
  - intros s1 s2 s3 H1 H2 Hok. destruct (H1 Hok) as [He1 Hok2].
    destruct (H2 Hok2) as [He2 Hok3].
    split; [eapply store_extends_trans; eauto|assumption].
Qed.

Global Instance l_grows_preorder : PreOrder l_grows.
Proof.
  split.
  - intros s Hok. split; [apply store_extends_refl|assumption].
  - intros s1 s2 s3 H1 H2 Hok. destruct (H1 Hok) as [He1 Hok2].
    destruct (H2 Hok2) as [He2 Hok3].
    split; [eapply store_extends_trans; eauto|assumption].
Qed.

Lemma same_store_grows s s' : same_store s s' -> grows s s'.
Proof.
  intros [Ha Hi] Hok. rewrite Ha, Hi.
  split; [apply store_extends_refl|assumption].
Qed.

Lemma same_store_same_indices s s' : same_store s s' -> same_indices s s'.
Proof. intros [_ Hi]. exact Hi. Qed.

(** ** What each step of the decoder does to the store *)

Ltac steps_auto :=
  repeat match goal with
    | |- PreOrder _ => apply _
    | |- forall _, steps _ _ => intros ?
    | |- steps _ (bind _ _) => apply steps_bind
    | |- steps _ (ret _) => apply steps_ret
    | |- steps _ (raise _) => apply steps_raise
    | |- steps _ (gets _) => apply steps_gets
    | |- steps _ (lift_option _ _) => apply steps_lift_option
    | |- steps _ (py_assert _) => apply steps_py_assert
    | |- steps _ (fun _ => Timeout) => apply steps_timeout
    | |- steps _ (if _ then _ else _) => apply steps_if
    end.

Section Cursor.
Context (R : relation dstate) `{!PreOrder R}.
Hypothesis R_cursor : forall s o np, R s (set_offset o np s).

Lemma steps_data_at data i : steps R (data_at data i).
Proof. apply steps_lift_option; assumption. Qed.

Lemma steps_advance z : steps R (modify (advance z)).
Proof. apply steps_modify. intros s. apply R_cursor. Qed.

Lemma steps_add_length l : steps R (modify (add_length l)).
Proof. apply steps_modify. intros s. apply R_cursor. Qed.

Lemma steps_get_value_loop fuel data start value :
  steps R (get_value_loop fuel data start value).
Proof.
  revert value. induction fuel as [|fuel IH]; intros value;
    cbn [get_value_loop]; [apply steps_timeout; assumption|].
  steps_auto; try assumption; auto using steps_data_at, steps_advance.
Qed.

Lemma steps_get_value data : steps R (get_value data).
Proof.
  unfold get_value. steps_auto; try assumption;
    auto using steps_data_at, steps_advance, steps_get_value_loop.
Qed.

Lemma steps_get_value_of_kind data kind : steps R (get_value_of_kind data kind).
Proof.
  unfold get_value_of_kind. steps_auto; try assumption;
    auto using steps_data_at, steps_advance, steps_get_value.
Qed.

Lemma steps_get_length data kind : steps R (get_length data kind).
Proof.
  unfold get_length. steps_auto; try assumption;
    auto using steps_get_value_of_kind.
Qed.
End Cursor.

Lemma same_store_cursor s o np : same_store s (set_offset o np s).
Proof. split; reflexivity. Qed.

Lemma same_indices_cursor s o np : same_indices s (set_offset o np s).
Proof. reflexivity. Qed.

Lemma grows_cursor s o np : grows s (set_offset o np s).
Proof. apply same_store_grows, same_store_cursor. Qed.

Ltac steps_cursor :=
  repeat match goal with
    | |- PreOrder _ => apply _
    | |- forall s o np, _ s (set_offset o np s) =>
      first [ apply grows_cursor | apply same_indices_cursor
            | apply same_store_cursor ]
    | |- forall _, steps _ _ => intros ?
    | |- steps _ (bind _ _) => apply steps_bind
    | |- steps _ (ret _) => apply steps_ret
    | |- steps _ (raise _) => apply steps_raise
    | |- steps _ (gets _) => apply steps_gets
    | |- steps _ (lift_option _ _) => apply steps_lift_option
    | |- steps _ (py_assert _) => apply steps_py_assert
    | |- steps _ (fun _ => Timeout) => apply steps_timeout
    | |- steps _ (if _ then _ else _) => apply steps_if
    | |- steps _ (get_length _ _) => apply steps_get_length
    | |- steps _ (get_value_of_kind _ _) => apply steps_get_value_of_kind
    | |- steps _ (get_value _) => apply steps_get_value
    | |- steps _ (data_at _ _) => apply steps_data_at
    | |- steps _ (modify (advance _)) => apply steps_advance
    | |- steps _ (modify (add_length _)) => apply steps_add_length
    | |- steps _ (modify (set_offset _ _)) =>
      apply steps_modify; intros ?
    | |- _ ?s (set_offset _ _ ?s) =>
      first [ apply grows_cursor | apply same_indices_cursor
            | apply same_store_cursor ]
    end.

(** *** Arrays only grow *)

Lemma itemsize_pos t : 0 < itemsize t.
Proof. destruct t; reflexivity. Qed.

Lemma array_frombytes_extends a bs a' :
  array_frombytes a bs = Some a' -> array_extends a a'.
Proof.
  unfold array_frombytes. destruct (_ =? _); [|discriminate].
  intros [= <-]. split; [reflexivity|]. cbn. apply prefix_app_r. reflexivity.
Qed.

Lemma array_append_extends a v a' :
  array_append a v = Some a' -> array_extends a a'.
Proof.
  unfold array_append. destruct a as [t r]. cbn [tcode raw].
  destruct t; [destruct (_ && _); [|discriminate]| |];
    intros [= <-]; (split; [reflexivity|]); cbn;
    apply prefix_app_r; reflexivity.
Qed.

Lemma array_extends_len a a' : array_extends a a' -> array_len a <= array_len a'.
Proof.
  intros [Ht Hp]. unfold array_len. rewrite Ht.
  apply Z.div_le_mono; [apply itemsize_pos|].
  unfold len. apply prefix_length in Hp. lia.
Qed.

Lemma index_ok_extends a a' ix :
  array_extends a a' -> index_ok a ix -> index_ok a' ix.
Proof.
  intros He (H0 & Hs & Hb). split; [assumption|]. split; [assumption|].
  apply array_extends_len in He.
  eapply Forall_impl; [exact Hb|]. cbn beta. intros x Hx. lia.
Qed.

Lemma TlRel_Forall {A} (R : relation A) (x : A) (l : list A) :
  Forall (fun y => R y x) l -> TlRel R x l.
Proof.
  destruct l as [|z l _] using rev_ind; intros H; [constructor|].
  apply Forall_app in H as [_ H]. inversion H; subst.
  constructor. assumption.
Qed.

Lemma index_ok_close a ix : index_ok a ix -> index_ok a (ix ++ [array_len a]).
Proof.
  intros (H0 & Hs & Hb). split; [|split].
  - apply lookup_app_l_Some. exact H0.
  - apply Sorted_snoc; [exact Hs|]. apply TlRel_Forall. exact Hb.
  - apply Forall_app. split; [exact Hb|]. constructor; [lia|constructor].
Qed.

Lemma index_ok_new t : index_ok (mkArray t []) [0].
Proof.
  split; [reflexivity|]. split; [repeat constructor|].
  constructor; [|constructor]. destruct t; cbv; discriminate.
Qed.

(** *** The steps that touch the store *)

Lemma store_ok_insert_new (A : gmap str pyarray) (I : gmap str (list Z))
    (key : str) (t : typecode) :
  store_ok A I -> A !! key = None ->
  store_ok (<[key := mkArray t []]> A) (<[key := [0]]> I).
Proof.
  intros Hok Hkey k. destruct (decide (key = k)) as [<-|Hne].
  - rewrite !lookup_insert_eq. apply index_ok_new.
  - rewrite !lookup_insert_ne by assumption. apply Hok.
Qed.

Lemma steps_ensure_key data key : steps grows (ensure_key data key).
Proof.
  intros s. unfold ensure_key. apply wp_bind, wp_gets.
  destruct (arrays s !! key) as [a|] eqn:Hkey; [apply wp_ret; reflexivity|].
  apply wp_bind, wp_gets. apply wp_bind.
  apply wp_lift_option; [|intros _; cbn beta; reflexivity].
  intros b _. apply wp_modify. cbn beta. intros Hok.
  cbn [arrays indices].
  assert (indices s !! key = None) as Hix.
  { specialize (Hok key). rewrite Hkey in Hok.
    destruct (indices s !! key); [contradiction|reflexivity]. }
  split.
  - split.
    + intros k a Hk. exists a. split; [|apply array_extends_refl].
      rewrite lookup_insert_ne; [exact Hk|]. intros ->. congruence.
    + intros k ix Hk. exists ix. split; [|reflexivity].
      rewrite lookup_insert_ne; [exact Hk|]. intros ->. congruence.
  - intros k. destruct (decide (key = k)) as [<-|Hne].
    + rewrite !lookup_insert_eq. apply index_ok_new.
    + rewrite !lookup_insert_ne by assumption. apply Hok.
Qed.

Lemma steps_update_array_grows key f e :
  (forall a a', f a = Some a' -> array_extends a a') ->
  steps grows (update_array key f e).
Proof.
  intros Hf s. unfold wp, update_array.
  destruct (arrays s !! key) as [a|] eqn:Hkey; [|reflexivity].
  destruct (f a) as [a'|] eqn:Hfa; [|reflexivity].
  specialize (Hf a a' Hfa). intros Hok. cbn [arrays indices]. split.
  - split.
    + intros k a0 Hk. destruct (decide (key = k)) as [<-|Hne].
      * rewrite lookup_insert_eq. exists a'. split; [reflexivity|]. congruence.
      * rewrite lookup_insert_ne by assumption. exists a0.
        split; [assumption|apply array_extends_refl].
    + intros k ix Hk. exists ix. split; [assumption|reflexivity].
  - intros k. specialize (Hok k). destruct (decide (key = k)) as [<-|Hne].
    + rewrite lookup_insert_eq. rewrite Hkey in Hok.
      destruct (indices s !! key); [|contradiction].
      eapply index_ok_extends; eauto.
    + rewrite lookup_insert_ne by assumption. exact Hok.
Qed.

Lemma steps_update_array_indices key f e :
  steps same_indices (update_array key f e).
Proof.
  intros s. unfold wp, update_array.
  destruct (arrays s !! key) as [a|]; [|reflexivity].
  destruct (f a); reflexivity.
Qed.

Lemma steps_close_example key : steps grows (close_example key).
Proof.
  intros s. unfold wp, close_example.
  destruct (arrays s !! key) as [a|] eqn:Hkey; [|reflexivity].
  destruct (indices s !! key) as [ix|] eqn:Hix; [|reflexivity].
  intros Hok. cbn [arrays indices]. split.
  - split.
    + intros k a0 Hk. exists a0. split; [assumption|apply array_extends_refl].
    + intros k ix0 Hk. destruct (decide (key = k)) as [<-|Hne].
      * rewrite lookup_insert_eq. exists (ix ++ [array_len a]).
        split; [reflexivity|]. replace ix0 with ix by congruence.
        apply prefix_app_r. reflexivity.
      * rewrite lookup_insert_ne by assumption. exists ix0.
        split; [assumption|reflexivity].
  - intros k. specialize (Hok k). destruct (decide (key = k)) as [<-|Hne].
    + rewrite lookup_insert_eq. rewrite Hkey in *. rewrite Hix in Hok.
      apply index_ok_close. exact Hok.
    + rewrite lookup_insert_ne by assumption. exact Hok.
Qed.

Lemma steps_append_values_grows fuel data key target :
  steps grows (append_values fuel data key target).
Proof.
  induction fuel as [|fuel IH]; cbn [append_values]; steps_cursor;
    [|exact IH].
  apply steps_update_array_grows. intros ? ?. apply array_append_extends.
Qed.

Lemma steps_append_values_indices fuel data key target :
  steps same_indices (append_values fuel data key target).
Proof.
  induction fuel as [|fuel IH]; cbn [append_values]; steps_cursor;
    [|exact IH].
  apply steps_update_array_indices.
Qed.

Lemma steps_store_branch_grows data key b : steps grows (store_branch data key b).
Proof.
  unfold store_branch. steps_cursor.
  - apply steps_update_array_grows. intros ? ?. apply array_frombytes_extends.
  - apply steps_append_values_grows.
  - destruct (np_frombuffer_f4 _ _ _); steps_cursor.
    apply steps_update_array_grows. intros ? ?. apply array_frombytes_extends.
Qed.

Lemma steps_store_branch_indices data key b :
  steps same_indices (store_branch data key b).
Proof.
  unfold store_branch. steps_cursor.
  - apply steps_update_array_indices.
  - apply steps_append_values_indices.
  - destruct (np_frombuffer_f4 _ _ _); steps_cursor.
    apply steps_update_array_indices.
Qed.

Lemma steps_store_value data key : steps grows (store_value data key).
Proof.
  unfold store_value. steps_cursor.
  - apply steps_ensure_key.
  - apply steps_store_branch_grows.
  - apply steps_close_example.
Qed.

Lemma steps_decode_entry data : steps grows (decode_entry data).
Proof. unfold decode_entry. steps_cursor. apply steps_store_value. Qed.

Lemma steps_decode_entries fuel data : steps grows (decode_entries fuel data).
Proof.
  induction fuel as [|fuel IH]; cbn [decode_entries]; steps_cursor.
  - apply steps_decode_entry.
  - exact IH.
Qed.

Lemma steps_decode_payload fuel data : steps grows (decode_payload fuel data).
Proof. unfold decode_payload. steps_cursor. apply steps_decode_entries. Qed.

(** *** The record loop *)

Lemma steps_file_read {mem : Allocator} n : steps l_grows (file_read n).
Proof.
  intros s. unfold wp, file_read.
  destruct (2^63 <=? n);
    [|destruct (if n <=? Z.max 8 (len (file s)) then None else alloc_failure n)];
    intros Hok; cbn; (split; [apply store_extends_refl|exact Hok]).
Qed.

Lemma steps_read_record {mem : Allocator} : steps l_grows read_record.
Proof. unfold read_record. steps_auto; apply steps_file_read. Qed.

Lemma steps_with_decoder {A} (m : M dstate A) :
  steps grows m -> steps l_grows (with_decoder m).
Proof.
  intros Hm s. specialize (Hm (mkState 0 false (l_arrays s) (l_indices s))).
  unfold wp, with_decoder in *.
  destruct (m _) as [a d|e d|]; [exact Hm|exact Hm|exact Logic.I].
Qed.

Lemma steps_load_records {mem : Allocator} fuel items : steps l_grows (load_records fuel items).
Proof.
  induction items as [|items IH]; cbn [load_records]; steps_auto.
  - apply steps_read_record.
  - apply steps_with_decoder, steps_decode_payload.
  - exact IH.
Qed.

(** *** Counting the index entries *)

Lemma wp_steps_bind {S A B} (R : relation S) (m : M S A) (k : A -> M S B) s
    (Q : B -> S -> Prop) (E : exn -> S -> Prop) :
  steps R m ->
  (forall a s1, R s s1 -> wp (k a) s1 Q E) ->
  (forall e s1, R s s1 -> E e s1) ->
  wp (bind m k) s Q E.
Proof.
  intros Hm Hk He. apply wp_bind. eapply wp_mono; [apply Hm| |]; cbn beta; auto.
Qed.

Lemma wp_and {S A} (m : M S A) s (Q1 Q2 : A -> S -> Prop)
    (E1 E2 : exn -> S -> Prop) :
  wp m s Q1 E1 -> wp m s Q2 E2 ->
  wp m s (fun a s' => Q1 a s' /\ Q2 a s') (fun e s' => E1 e s' /\ E2 e s').
Proof. unfold wp. destruct (m s); auto. Qed.

Lemma occurrences_nil key : occurrences key [] = 0%nat.
Proof. reflexivity. Qed.

Lemma occurrences_cons key k keys :
  occurrences key (k :: keys)
  = ((if decide (k = key) then 1 else 0) + occurrences key keys)%nat.
Proof.
  unfold occurrences. rewrite filter_cons.
  destruct (decide (k = key)); reflexivity.
Qed.

Lemma occurrences_app key keys1 keys2 :
  occurrences key (keys1 ++ keys2)
  = (occurrences key keys1 + occurrences key keys2)%nat.
Proof. unfold occurrences. rewrite filter_app, length_app. reflexivity. Qed.

Lemma ensure_key_count data key s :
  store_ok (arrays s) (indices s) ->
  wp (ensure_key data key) s
    (fun _ s1 => forall k, index_length (indices s1) k = index_length (indices s) k)
    (fun _ _ => True).
Proof.
  intros Hok. unfold ensure_key. apply wp_bind, wp_gets.
  destruct (arrays s !! key) as [a|] eqn:Hkey; [apply wp_ret; reflexivity|].
  apply wp_bind, wp_gets. apply wp_bind.
  apply wp_lift_option; [|intros _; exact Logic.I].
  intros b _. apply wp_modify. cbn [indices]. intros k.
  unfold index_length. destruct (decide (key = k)) as [<-|Hne].
  - rewrite lookup_insert_eq. specialize (Hok key). rewrite Hkey in Hok.
    destruct (indices s !! key); [contradiction|reflexivity].
  - rewrite lookup_insert_ne by assumption. reflexivity.
Qed.

Lemma close_example_count key s :
  wp (close_example key) s
    (fun _ s' => counted key (indices s) (indices s')) (fun _ _ => True).
Proof.
  unfold wp, close_example.
  destruct (arrays s !! key) as [a|]; [|exact Logic.I].
  destruct (indices s !! key) as [ix|] eqn:Hix; [|exact Logic.I].
  cbn [indices]. intros k. unfold index_length.
  destruct (decide (key = k)) as [<-|Hne].
  - rewrite lookup_insert_eq, Hix, length_app. reflexivity.
  - rewrite lookup_insert_ne by assumption. lia.
Qed.

Lemma store_value_count data key s :
  store_ok (arrays s) (indices s) ->
  wp (store_value data key) s
    (fun _ s' => counted key (indices s) (indices s')) (fun _ _ => True).
Proof.
  intros Hok. unfold store_value. apply wp_bind.
  eapply wp_mono; [apply ensure_key_count; exact Hok| |auto].
  cbn beta. intros _ s1 H1.
  apply (wp_steps_bind same_indices); [steps_cursor| |auto].
  intros o s2 H2.
  apply (wp_steps_bind same_indices); [steps_cursor| |auto].
  intros b s3 H3.
  apply (wp_steps_bind same_indices);
    [apply steps_store_branch_indices| |auto].
  intros _ s4 H4.
  eapply wp_mono; [apply close_example_count| |auto].
  cbn beta. intros _ s5 H5 k. rewrite H5.
  unfold same_indices in *. rewrite H4, H3, H2, H1. reflexivity.
Qed.

Lemma decode_entry_count data s :
  store_ok (arrays s) (indices s) ->
  wp (decode_entry data) s
    (fun key s' => counted key (indices s) (indices s')) (fun _ _ => True).
Proof.
  intros Hok. unfold decode_entry.
  apply (wp_steps_bind same_store); [steps_cursor| |auto]. intros _ s1 [Ha1 Hi1].
  apply (wp_steps_bind same_store); [steps_cursor| |auto]. intros length s2 [Ha2 Hi2].
  apply (wp_steps_bind same_store); [steps_cursor| |auto]. intros o s3 [Ha3 Hi3].
  apply (wp_steps_bind same_store); [steps_cursor| |auto]. intros key s4 [Ha4 Hi4].
  apply (wp_steps_bind same_store); [steps_cursor| |auto]. intros _ s5 [Ha5 Hi5].
  apply (wp_steps_bind same_store); [steps_cursor| |auto]. intros _ s6 [Ha6 Hi6].
  apply wp_bind.
  eapply wp_mono; [apply store_value_count| |auto].
  - rewrite Ha6, Ha5, Ha4, Ha3, Ha2, Ha1, Hi6, Hi5, Hi4, Hi3, Hi2, Hi1. exact Hok.
  - cbn beta. intros _ s7 H7. apply wp_ret.
    rewrite Hi6, Hi5, Hi4, Hi3, Hi2, Hi1 in H7. exact H7.
Qed.

Lemma decode_entries_count fuel data :
  forall s, store_ok (arrays s) (indices s) ->
  wp (decode_entries fuel data) s
    (fun keys s' => forall k,
       index_length (indices s') k
       = (index_length (indices s) k + occurrences k keys)%nat)
    (fun _ _ => True).
Proof.
  induction fuel as [|fuel IH]; intros s Hok; cbn [decode_entries];
    [exact Logic.I|].
  apply wp_bind, wp_gets. destruct (offset s <? len data).
  - apply wp_bind.
    eapply wp_mono;
      [exact (wp_and _ _ _ _ _ _ (decode_entry_count data s Hok)
                (steps_decode_entry data s))| |auto].
    cbn beta. intros key s1 [Hcount Hgrows].
    destruct (Hgrows Hok) as [_ Hok1].
    apply wp_bind. eapply wp_mono; [apply IH; exact Hok1| |auto].
    cbn beta. intros keys s2 H2. apply wp_ret. intros k.
    rewrite H2, Hcount, occurrences_cons.
    destruct (decide (key = k)); lia.
  - apply wp_ret. intros k. rewrite occurrences_nil. lia.
Qed.

Lemma decode_payload_count fuel data s :
  store_ok (arrays s) (indices s) ->
  wp (decode_payload fuel data) s
    (fun keys s' => forall k,
       index_length (indices s') k
       = (index_length (indices s) k + occurrences k keys)%nat)
    (fun _ _ => True).
Proof.
  intros Hok. unfold decode_payload.
  apply (wp_steps_bind same_store); [steps_cursor| |auto]. intros _ s1 [Ha1 Hi1].
  apply (wp_steps_bind same_store); [steps_cursor| |auto]. intros length s2 [Ha2 Hi2].
  apply (wp_steps_bind same_store); [steps_cursor| |auto]. intros o s3 [Ha3 Hi3].
  apply (wp_steps_bind same_store); [steps_cursor| |auto]. intros _ s4 [Ha4 Hi4].
  eapply wp_mono; [apply decode_entries_count| |auto].
  - rewrite Ha4, Ha3, Ha2, Ha1, Hi4, Hi3, Hi2, Hi1. exact Hok.
  - cbn beta. intros keys s5 H5 k. rewrite H5, Hi4, Hi3, Hi2, Hi1. reflexivity.
Qed.

Lemma read_record_store {mem : Allocator} s :
  wp read_record s
    (fun _ s' => l_arrays s' = l_arrays s /\ l_indices s' = l_indices s)
    (fun _ _ => True).
Proof.
  unfold read_record, wp, bind, file_read, py_assert, ret, raise.
  cbn [file l_arrays l_indices].
  repeat match goal with
         | |- context [match (if ?b then _ else _) with _ => _ end] => destruct b
         | |- context [match alloc_failure ?n with _ => _ end] =>
           destruct (alloc_failure n)
         | |- context [if ?b then _ else _] => destruct b
         end; cbn; auto.
Qed.

Lemma load_records_count {mem : Allocator} fuel items :
  forall s, store_ok (l_arrays s) (l_indices s) ->
  wp (load_records fuel items) s
    (fun log s' =>
       length log = items /\
       forall k, index_length (l_indices s') k
                 = (index_length (l_indices s) k + occurrences k (concat log))%nat)
    (fun _ _ => True).
Proof.
  induction items as [|items IH]; intros s Hok; cbn [load_records].
  - apply wp_ret. split; [reflexivity|]. intros k. cbn. lia.
  - apply wp_bind. eapply wp_mono; [apply read_record_store| |auto].
    cbn beta. intros data s1 [Ha1 Hi1]. apply wp_bind.
    assert (store_ok (l_arrays s1) (l_indices s1)) as Hok1
      by (rewrite Ha1, Hi1; exact Hok).
    pose proof (decode_payload_count fuel data
                  (mkState 0 false (l_arrays s1) (l_indices s1)) Hok1) as Hc.
    pose proof (steps_decode_payload fuel data
                  (mkState 0 false (l_arrays s1) (l_indices s1))) as Hg.
    unfold wp at 1. unfold with_decoder. unfold wp in Hc, Hg.
    destruct (decode_payload fuel data _) as [keys d|e d|]; [|exact Logic.I..].
    cbn [arrays indices] in Hc, Hg.
    destruct (Hg Hok1) as [_ Hok2].
    apply wp_bind. eapply wp_mono; [apply IH; exact Hok2| |auto].
    cbn beta. cbn [l_arrays l_indices]. intros log s3 [Hlen H3].
    apply wp_ret. split; [cbn; lia|]. intros k.
    rewrite H3, Hc, Hi1. cbn [concat]. rewrite occurrences_app. lia.
Qed.

(** ** The reader on what the writer produces *)

Lemma length_len {A} (l : list A) : Z.to_nat (len l) = length l.
Proof. unfold len. apply Nat2Z.id. Qed.

Lemma py_clamp_id n i : 0 <= i <= n -> py_clamp n i = i.
Proof.
  intros H. unfold py_clamp. destruct (Z.ltb_spec i 0); lia.
Qed.

Lemma py_slice_middle {A} (pre mid rest : list A) :
  py_slice (pre ++ mid ++ rest) (len pre) (len pre + len mid) = mid.
Proof.
  unfold py_slice. fold (len (pre ++ mid ++ rest)).
  rewrite !len_app.
  pose proof (len_nonneg pre). pose proof (len_nonneg mid).
  pose proof (len_nonneg rest).
  rewrite !py_clamp_id by lia.
  replace (len pre + len mid - len pre) with (len mid) by lia.
  rewrite !length_len. rewrite drop_app_length, take_app_length. reflexivity.
Qed.

Lemma encode_varint_nonempty v : 1 <= len (encode_varint v).
Proof.
  unfold encode_varint.
  destruct (encode_varint_aux_head 9 v) as (b & tl & -> & _).
  rewrite len_cons. pose proof (len_nonneg tl). lia.
Qed.

Lemma encode_varint_zero : encode_varint 0 = [0].
Proof. reflexivity. Qed.

Lemma get_value_small (v : Z) (np : bool) (pre rest : bytes)
    (A : gmap str pyarray) (I : gmap str (list Z)) :
  0 <= v < 2^63 ->
  len (pre ++ encode_varint v ++ rest) < 2^63 ->
  get_value (pre ++ encode_varint v ++ rest) (mkState (len pre) np A I)
  = Done v (mkState (len pre + len (encode_varint v)) np A I).
Proof.
  intros Hv Hlen. rewrite get_value_encoded by (assumption || lia).
  unfold decoded. destruct (Z.ltb_spec v (2^63)); [reflexivity|lia].
Qed.

Lemma get_value_of_kind_encoded (t v : Z) (np : bool) (pre rest : bytes)
    (A : gmap str pyarray) (I : gmap str (list Z)) :
  0 <= v < 2^63 ->
  len (pre ++ t :: encode_varint v ++ rest) < 2^63 ->
  get_value_of_kind (pre ++ t :: encode_varint v ++ rest) t
    (mkState (len pre) np A I)
  = Done v (mkState (len pre + 1 + len (encode_varint v)) np A I).
Proof.
  intros Hv Hlen.
  pose proof (py_getitem_middle pre t (encode_varint v ++ rest)) as Hget.
  pose proof (len_nonneg pre). pose proof (encode_varint_nonempty v).
  pose proof (len_nonneg rest).
  unfold get_value_of_kind. run. rewrite Hget. run.
  rewrite Z.eqb_refl. run.
  rewrite !len_app, !len_cons, !len_app in Hlen.
  rewrite (off_plus_1 (len pre) np) by lia.
  replace (pre ++ t :: encode_varint v ++ rest)
    with ((pre ++ [t]) ++ encode_varint v ++ rest)
    by (rewrite <- app_assoc; reflexivity).
  replace (len pre + 1) with (len (pre ++ [t]))
    by (rewrite len_app, len_cons; reflexivity).
  apply get_value_small; [assumption|].
  rewrite <- app_assoc. cbn [app].
  repeat (rewrite len_app || rewrite len_cons). lia.
Qed.

(** The length of a value: both headers when the first is non-zero. *)
Lemma get_length_two_headers (t v1 v2 : Z) (np : bool) (pre rest : bytes)
    (A : gmap str pyarray) (I : gmap str (list Z)) :
  0 < v1 < 2^63 -> 0 <= v2 < 2^63 ->
  len (pre ++ t :: encode_varint v1 ++ 0x0A :: encode_varint v2 ++ rest) < 2^63 ->
  get_length (pre ++ t :: encode_varint v1 ++ 0x0A :: encode_varint v2 ++ rest) t
    (mkState (len pre) np A I)
  = Done v2 (mkState (len pre + 1 + len (encode_varint v1)
                      + 1 + len (encode_varint v2)) np A I).
Proof.
  intros Hv1 Hv2 Hlen. unfold get_length.
  unfold bind at 1.
  rewrite get_value_of_kind_encoded by (assumption || lia).
  destruct (Z.eqb_spec v1 0); [lia|].
  replace (pre ++ t :: encode_varint v1 ++ 0x0A :: encode_varint v2 ++ rest)
    with ((pre ++ t :: encode_varint v1) ++ 0x0A :: encode_varint v2 ++ rest)
    in * by (rewrite <- app_assoc; reflexivity).
  replace (len pre + 1 + len (encode_varint v1))
    with (len (pre ++ t :: encode_varint v1))
    by (rewrite len_app, len_cons; lia).
  rewrite get_value_of_kind_encoded by assumption. reflexivity.
Qed.

(** ... and the first header alone when it is zero. *)
Lemma get_length_one_header (t : Z) (np : bool) (pre rest : bytes)
    (A : gmap str pyarray) (I : gmap str (list Z)) :
  len (pre ++ t :: 0 :: rest) < 2^63 ->
  get_length (pre ++ t :: 0 :: rest) t (mkState (len pre) np A I)
  = Done 0 (mkState (len pre + 2) np A I).
Proof.
  intros Hlen. unfold get_length. unfold bind at 1.
  change (t :: 0 :: rest) with (t :: encode_varint 0 ++ rest) in *.
  rewrite get_value_of_kind_encoded by (assumption || lia).
  change (len (encode_varint 0)) with 1.
  change (0 =? 0) with true. cbn iota. unfold ret. do 2 f_equal; lia.
Qed.

Lemma tagged_app (t : Z) (body rest : bytes) :
  tagged t body ++ rest = t :: encode_varint (len body) ++ body ++ rest.
Proof. unfold tagged. cbn [app]. rewrite <- app_assoc. reflexivity. Qed.

Lemma len_tagged (t : Z) (body : bytes) :
  len (tagged t body) = 1 + len (encode_varint (len body)) + len body.
Proof. unfold tagged. rewrite len_cons, len_app. lia. Qed.

Lemma wrap64_len_add (o l total : Z) :
  0 <= o -> 0 <= l -> o + l <= total -> total < 2^63 -> wrap64 (o + l) = o + l.
Proof. intros. apply wrap64_id. lia. Qed.

(** The bytes branch: both headers, then the slice they announce. *)
Lemma store_branch_bytes (key : str) (bs pre rest : bytes) (np : bool)
    (A : gmap str pyarray) (I : gmap str (list Z)) (a : pyarray) :
  A !! key = Some a ->
  len (pre ++ bytes_value bs ++ rest) < 2^63 ->
  store_branch (pre ++ bytes_value bs ++ rest) key 0x0A (mkState (len pre) np A I)
  = match array_frombytes a bs with
    | Some a' =>
      Done tt (mkState (len pre + len (bytes_value bs)) true (<[key := a']> A) I)
    | None =>
      Raised (ValueError NotMultipleOfItemSize)
        (mkState (len pre + len (bytes_value bs) - len bs) np A I)
    end.
Proof.
  intros Hkey Hlen. unfold bytes_value in *.
  rewrite (tagged_app 0x0A (tagged 0x0A bs)) in *.
  rewrite (tagged_app 0x0A bs) in *.
  pose proof (len_nonneg pre). pose proof (len_nonneg bs).
  pose proof (len_nonneg rest).
  pose proof (encode_varint_nonempty (len (tagged 10 bs))).
  pose proof (encode_varint_nonempty (len bs)).
  pose proof (len_tagged 10 bs) as Ht. pose proof (len_tagged 10 (tagged 10 bs)) as Htt.
  assert (len pre + (1 + (len (encode_varint (len (tagged 10 bs)))
          + (1 + (len (encode_varint (len bs)) + (len bs + len rest))))) < 2^63)
    as Hlen' by (repeat (rewrite len_app in Hlen || rewrite len_cons in Hlen); exact Hlen).
  unfold store_branch. change (10 =? 10) with true. cbn iota.
  unfold bind at 1. rewrite get_length_two_headers by (assumption || lia).
  unfold bind at 1. unfold gets at 1. cbn [offset].
  set (p := len pre + 1 + len (encode_varint (len (tagged 10 bs))) + 1
            + len (encode_varint (len bs))).
  assert (py_slice (pre ++ 10 :: encode_varint (len (tagged 10 bs))
                    ++ 10 :: encode_varint (len bs) ++ bs ++ rest)
            p (wrap64 (p + len bs)) = bs) as ->.
  { rewrite wrap64_id by (subst p; lia).
    replace (pre ++ 10 :: encode_varint (len (tagged 10 bs))
             ++ 10 :: encode_varint (len bs) ++ bs ++ rest)
      with ((pre ++ 10 :: encode_varint (len (tagged 10 bs))
             ++ 10 :: encode_varint (len bs)) ++ bs ++ rest)
      by (rewrite <- !app_assoc; cbn [app]; rewrite <- !app_assoc; reflexivity).
    replace p with (len (pre ++ 10 :: encode_varint (len (tagged 10 bs))
                         ++ 10 :: encode_varint (len bs)))
      by (subst p; repeat (rewrite len_app || rewrite len_cons); lia).
    apply py_slice_middle. }
  unfold bind, update_array. cbn [arrays indices offset offset_np]. rewrite Hkey.
  destruct (array_frombytes a bs) as [a'|].
  - unfold modify, add_length, set_offset. cbn [arrays indices offset offset_np].
    rewrite wrap64_id by (subst p; lia). do 2 f_equal. subst p. lia.
  - do 2 f_equal. subst p. lia.
Qed.

(** Packed varints: one [get_value] and one [append] per element. *)
Lemma append_values_encoded (key : str) (rest : bytes) (np : bool)
    (I : gmap str (list Z)) :
  forall (vs : list Z) (pre : bytes) (A : gmap str pyarray) (a a' : pyarray)
         (fuel : nat),
    A !! key = Some a ->
    Forall (fun v => 0 <= v < 2^63) vs ->
    array_extend a vs = Some a' ->
    (length vs < fuel)%nat ->
    len (pre ++ concat (encode_varint <$> vs) ++ rest) < 2^63 ->
    append_values fuel (pre ++ concat (encode_varint <$> vs) ++ rest) key
      (len pre + len (concat (encode_varint <$> vs))) (mkState (len pre) np A I)
    = Done tt (mkState (len pre + len (concat (encode_varint <$> vs))) np
                 (<[key := a']> A) I).
Proof.
  induction vs as [|v vs IH]; intros pre A a a' fuel Hkey Hvs Hext Hfuel Hlen;
    (destruct fuel as [|fuel]; [cbn [length] in Hfuel; lia|]);
    cbn [append_values]; unfold bind at 1; unfold gets at 1; cbn [offset].
  - rewrite fmap_nil. cbn [concat]. change (len []) with 0.
    rewrite Z.add_0_r, Z.ltb_irrefl. unfold ret.
    injection Hext as <-. rewrite insert_id by exact Hkey. reflexivity.
  - rewrite fmap_cons in *. cbn [concat] in *.
    inversion Hvs as [|? ? Hv Hvs']; subst.
    cbn [array_extend] in Hext.
    destruct (array_append a v) as [a1|] eqn:Ha1; [|discriminate].
    pose proof (encode_varint_nonempty v).
    pose proof (len_nonneg (concat (encode_varint <$> vs))).
    pose proof (len_nonneg pre). pose proof (len_nonneg rest).
    rewrite len_app.
    destruct (Z.ltb_spec (len pre)
                (len pre + (len (encode_varint v)
                            + len (concat (encode_varint <$> vs)))));
      [|lia].
    rewrite <- app_assoc in *.
    unfold bind at 1. rewrite get_value_small by assumption.
    unfold bind at 1. unfold update_array at 1. cbn [arrays indices offset offset_np].
    rewrite Hkey, Ha1.
    replace (pre ++ encode_varint v
             ++ concat (encode_varint <$> vs) ++ rest)
      with ((pre ++ encode_varint v)
            ++ concat (encode_varint <$> vs) ++ rest) in *
      by (rewrite <- app_assoc; reflexivity).
    replace (len pre + len (encode_varint v)) with (len (pre ++ encode_varint v))
      by (rewrite len_app; reflexivity).
    replace (len pre + (len (encode_varint v)
                        + len (concat (encode_varint <$> vs))))
      with (len (pre ++ encode_varint v)
            + len (concat (encode_varint <$> vs)))
      by (rewrite len_app; lia).
    rewrite (IH (pre ++ encode_varint v) (<[key := a1]> A) a1 a' fuel);
      try assumption.
    + rewrite insert_insert_eq. reflexivity.
    + apply lookup_insert_eq.
    + cbn [length] in Hfuel. lia.
Qed.

Lemma length_concat_encode (vs : list Z) :
  (length vs <= length (concat (encode_varint <$> vs)))%nat.
Proof.
  induction vs as [|v vs IH]; [reflexivity|].
  rewrite fmap_cons. cbn [concat length]. rewrite length_app.
  pose proof (encode_varint_nonempty v) as Hv. unfold len in Hv. lia.
Qed.

(** The packed-varint branch. *)
Lemma store_branch_ints (key : str) (vs : list Z) (pre rest : bytes) (np : bool)
    (A : gmap str pyarray) (I : gmap str (list Z)) (a a' : pyarray) :
  A !! key = Some a ->
  Forall (fun v => 0 <= v < 2^63) vs ->
  array_extend a vs = Some a' ->
  len (pre ++ int64_value vs ++ rest) < 2^63 ->
  store_branch (pre ++ int64_value vs ++ rest) key 0x1A (mkState (len pre) np A I)
  = Done tt (mkState (len pre + len (int64_value vs)) np (<[key := a']> A) I).
Proof.
  intros Hkey Hvs Hext Hlen. unfold int64_value in *.
  set (packed := concat (encode_varint <$> vs)) in *.
  pose proof (length_concat_encode vs) as Hn. fold packed in Hn.
  rewrite (tagged_app 0x1A (tagged 0x0A packed)) in *.
  rewrite (tagged_app 0x0A packed) in *.
  pose proof (len_nonneg pre). pose proof (len_nonneg packed).
  pose proof (len_nonneg rest).
  pose proof (encode_varint_nonempty (len (tagged 10 packed))).
  pose proof (encode_varint_nonempty (len packed)).
  pose proof (len_tagged 10 packed) as Ht.
  pose proof (len_tagged 26 (tagged 10 packed)) as Htt.
  assert (len pre + (1 + (len (encode_varint (len (tagged 10 packed)))
          + (1 + (len (encode_varint (len packed)) + (len packed + len rest)))))
          < 2^63)
    as Hlen' by (repeat (rewrite len_app in Hlen || rewrite len_cons in Hlen); exact Hlen).
  unfold store_branch. change (26 =? 10) with false. change (26 =? 26) with true.
  cbn iota.
  unfold bind at 1. rewrite get_length_two_headers by (assumption || lia).
  unfold bind at 1. unfold gets at 1. cbn [offset].
  set (p := len pre + 1 + len (encode_varint (len (tagged 10 packed))) + 1
            + len (encode_varint (len packed))).
  rewrite wrap64_id by (subst p; lia).
  set (pre' := pre ++ 26 :: encode_varint (len (tagged 10 packed))
               ++ 10 :: encode_varint (len packed)).
  assert (pre ++ 26 :: encode_varint (len (tagged 10 packed))
          ++ 10 :: encode_varint (len packed) ++ packed ++ rest
          = pre' ++ packed ++ rest) as Hdata
    by (subst pre'; rewrite <- !app_assoc; cbn [app]; rewrite <- !app_assoc;
        reflexivity).
  assert (p = len pre') as Hp
    by (subst p pre'; repeat (rewrite len_app || rewrite len_cons); lia).
  rewrite Hdata in *. rewrite Hp. subst packed.
  rewrite (append_values_encoded key rest np I vs pre' A a a'); try assumption.
  - do 2 f_equal. rewrite <- Hp. subst p. lia.
  - unfold varint_fuel. rewrite !length_app. lia.
Qed.

(** [store_value] is the dispatch followed by [close_example], on a store
    that has the key. *)
Lemma store_value_present (data : bytes) (key : str) (o b : Z) (np : bool)
    (A : gmap str pyarray) (I : gmap str (list Z)) (a : pyarray) :
  A !! key = Some a ->
  py_getitem data o = Some b ->
  store_value data key (mkState o np A I)
  = bind (store_branch data key b) (fun _ => close_example key)
      (mkState o np A I).
Proof.
  intros Hkey Hb. unfold store_value, ensure_key.
  unfold bind at 1. unfold bind at 1. unfold gets at 1. cbn [arrays].
  rewrite Hkey. unfold ret at 1.
  unfold bind at 1. unfold gets at 1. cbn [offset].
  unfold bind at 1. unfold data_at. rewrite Hb. reflexivity.
Qed.

Lemma store_value_absent (data : bytes) (key : str) (o b : Z) (np : bool)
    (A : gmap str pyarray) (I : gmap str (list Z)) :
  A !! key = None ->
  py_getitem data o = Some b ->
  store_value data key (mkState o np A I)
  = bind (store_branch data key b) (fun _ => close_example key)
      (mkState o np (<[key := mkArray (typecode_of_tag b) []]> A)
         (<[key := [0]]> I)).
Proof.
  intros Hkey Hb. unfold store_value, ensure_key.
  unfold bind at 1. unfold bind at 1. unfold gets at 1. cbn [arrays].
  rewrite Hkey.
  unfold bind at 1. unfold gets at 1. cbn [offset].
  unfold bind at 1. unfold data_at at 1. rewrite Hb. unfold lift_option, ret at 1.
  unfold modify at 1. cbn [offset offset_np arrays indices].
  unfold bind at 1. unfold gets at 1. cbn [offset].
  unfold bind at 1. unfold data_at. rewrite Hb. reflexivity.
Qed.

(** The three headers and the key in front of a value. *)
Lemma decode_entry_header (kb : bytes) (key : str) (e u : Z) (pre rest : bytes)
    (np : bool) (A : gmap str pyarray) (I : gmap str (list Z)) :
  utf8_decode kb = Some key ->
  0 <= e < 2^63 -> 0 <= u < 2^63 ->
  len (pre ++ 0x0A :: encode_varint e ++ tagged 0x0A kb
       ++ 0x12 :: encode_varint u ++ rest) < 2^63 ->
  decode_entry (pre ++ 0x0A :: encode_varint e ++ tagged 0x0A kb
                ++ 0x12 :: encode_varint u ++ rest) (mkState (len pre) np A I)
  = bind (store_value (pre ++ 0x0A :: encode_varint e ++ tagged 0x0A kb
                       ++ 0x12 :: encode_varint u ++ rest) key)
      (fun _ => ret key)
      (mkState (len pre + (1 + len (encode_varint e)) + len (tagged 0x0A kb)
                + (1 + len (encode_varint u))) true A I).
Proof.
  intros Hkey He Hu Hlen.
  set (data := pre ++ 0x0A :: encode_varint e ++ tagged 0x0A kb
               ++ 0x12 :: encode_varint u ++ rest) in *.
  pose proof (len_nonneg pre). pose proof (len_nonneg kb).
  pose proof (len_nonneg rest).
  pose proof (encode_varint_nonempty e). pose proof (encode_varint_nonempty u).
  pose proof (encode_varint_nonempty (len kb)).
  pose proof (len_tagged 10 kb) as Ht.
  assert (len data = len pre + (1 + len (encode_varint e)) + len (tagged 10 kb)
                     + (1 + len (encode_varint u)) + len rest) as Hdata
    by (subst data; repeat (rewrite len_app || rewrite len_cons); lia).
  (* the entry header *)
  pose proof (get_value_of_kind_encoded 10 e np pre
                (tagged 10 kb ++ 18 :: encode_varint u ++ rest) A I He Hlen)
    as G1.
  fold data in G1.
  (* the key header *)
  set (pre1 := pre ++ 10 :: encode_varint e).
  assert (data = pre1 ++ 10 :: encode_varint (len kb)
                 ++ kb ++ 18 :: encode_varint u ++ rest) as Hd1
    by (subst data pre1; rewrite (tagged_app 10 kb); rewrite <- !app_assoc;
        reflexivity).
  assert (len pre + 1 + len (encode_varint e) = len pre1) as Hp1
    by (subst pre1; rewrite len_app, len_cons; lia).
  pose proof (get_value_of_kind_encoded 10 (len kb) np pre1
                (kb ++ 18 :: encode_varint u ++ rest) A I ltac:(lia)) as G2.
  rewrite <- Hd1 in G2. specialize (G2 ltac:(lia)).
  (* the key *)
  set (pre2 := pre1 ++ 10 :: encode_varint (len kb)).
  assert (data = pre2 ++ kb ++ 18 :: encode_varint u ++ rest) as Hd2
    by (rewrite Hd1; subst pre2; rewrite <- !app_assoc; reflexivity).
  assert (len pre1 + 1 + len (encode_varint (len kb)) = len pre2) as Hp2
    by (subst pre2; rewrite len_app, len_cons; lia).
  pose proof (py_slice_middle pre2 kb (18 :: encode_varint u ++ rest)) as G3.
  rewrite <- Hd2 in G3.
  (* the value header *)
  set (pre3 := pre2 ++ kb).
  assert (data = pre3 ++ 18 :: encode_varint u ++ rest) as Hd3
    by (rewrite Hd2; subst pre3; rewrite <- !app_assoc; reflexivity).
  assert (len pre2 + len kb = len pre3) as Hp3
    by (subst pre3; rewrite len_app; lia).
  pose proof (get_value_of_kind_encoded 18 u true pre3 rest A I Hu) as G4.
  rewrite <- Hd3 in G4. specialize (G4 ltac:(lia)).
  unfold decode_entry.
  unfold bind at 1. rewrite G1, Hp1.
  unfold bind at 1. rewrite G2, Hp2.
  unfold bind at 1. unfold gets at 1. cbn [offset].
  rewrite wrap64_id by lia. rewrite G3, Hkey.
  unfold bind at 1. unfold lift_option, ret at 1.
  unfold bind at 1. unfold modify at 1. unfold add_length, set_offset.
  cbn [offset offset_np arrays indices].
  rewrite wrap64_id by lia. rewrite Hp3.
  unfold bind at 1. rewrite G4.
  f_equal. f_equal. lia.
Qed.

(** A byte string stored under a key the store has, whatever the kind of its
    buffer. *)
Lemma store_value_bytes (key : str) (bs pre rest : bytes) (np : bool)
    (A : gmap str pyarray) (I : gmap str (list Z)) (a : pyarray) (ix : list Z) :
  A !! key = Some a -> I !! key = Some ix ->
  len (pre ++ bytes_value bs ++ rest) < 2^63 ->
  store_value (pre ++ bytes_value bs ++ rest) key (mkState (len pre) np A I)
  = match array_frombytes a bs with
    | Some a' =>
      Done tt (mkState (len pre + len (bytes_value bs)) true
                 (<[key := a']> A) (<[key := ix ++ [array_len a']]> I))
    | None =>
      Raised (ValueError NotMultipleOfItemSize)
        (mkState (len pre + len (bytes_value bs) - len bs) np A I)
    end.
Proof.
  intros Hkey Hix Hlen.
  rewrite (store_value_present _ key _ 0x0A np A I a Hkey)
    by (unfold bytes_value; rewrite tagged_app; apply py_getitem_middle).
  unfold bind. rewrite (store_branch_bytes key bs pre rest np A I a Hkey Hlen).
  destruct (array_frombytes a bs) as [a'|]; [|reflexivity].
  unfold close_example. cbn [arrays indices offset offset_np].
  rewrite lookup_insert_eq, Hix. reflexivity.
Qed.

(** Packed integers stored under a key the store has, whatever the kind of
    its buffer. *)
Lemma store_value_ints (key : str) (vs : list Z) (pre rest : bytes) (np : bool)
    (A : gmap str pyarray) (I : gmap str (list Z)) (a a' : pyarray)
    (ix : list Z) :
  A !! key = Some a -> I !! key = Some ix ->
  Forall (fun v => 0 <= v < 2^63) vs ->
  array_extend a vs = Some a' ->
  len (pre ++ int64_value vs ++ rest) < 2^63 ->
  store_value (pre ++ int64_value vs ++ rest) key (mkState (len pre) np A I)
  = Done tt (mkState (len pre + len (int64_value vs)) np
               (<[key := a']> A) (<[key := ix ++ [array_len a']]> I)).
Proof.
  intros Hkey Hix Hvs Hext Hlen.
  rewrite (store_value_present _ key _ 0x1A np A I a Hkey)
    by (unfold int64_value; rewrite tagged_app; apply py_getitem_middle).
  unfold bind.
  rewrite (store_branch_ints key vs pre rest np A I a a' Hkey Hvs Hext Hlen).
  unfold close_example. cbn [arrays indices offset offset_np].
  rewrite lookup_insert_eq, Hix. reflexivity.
Qed.

(** ** Framing *)

Lemma take_len_le {A} (n : Z) (l : list A) : len (take (Z.to_nat n) l) <= len l.
Proof. unfold len. rewrite length_take. lia. Qed.

Lemma take_app_len {A} (l1 l2 : list A) (n : Z) :
  n = len l1 -> take (Z.to_nat n) (l1 ++ l2) = l1.
Proof. intros ->. rewrite length_len. apply take_app_length. Qed.

Lemma drop_app_len {A} (l1 l2 : list A) (n : Z) :
  n = len l1 -> drop (Z.to_nat n) (l1 ++ l2) = l2.
Proof. intros ->. rewrite length_len. apply drop_app_length. Qed.

(** A request of at most 8 bytes, or of no more than the file holds, is
    served. *)
Lemma file_read_served {mem : Allocator} (n : Z) (f : bytes)
    (A : gmap str pyarray) (I : gmap str (list Z)) :
  n < 2^63 -> n <= 8 \/ n <= len f ->
  file_read n (mkLoad f A I)
  = Done (take (Z.to_nat n) f) (mkLoad (drop (Z.to_nat n) f) A I).
Proof.
  intros Hn Hserved. unfold file_read. cbn [file l_arrays l_indices].
  destruct (Z.leb_spec (2^63) n); [lia|].
  destruct (Z.leb_spec n (Z.max 8 (len f))); [reflexivity|lia].
Qed.

Lemma file_read_eq {mem : Allocator} (n : Z) (f : bytes)
    (A : gmap str pyarray) (I : gmap str (list Z)) :
  file_read n (mkLoad f A I)
  = if 2^63 <=? n then Raised OverflowError (mkLoad f A I)
    else
      match (if n <=? Z.max 8 (len f) then None else alloc_failure n) with
      | Some e => Raised e (mkLoad f A I)
      | None => Done (take (Z.to_nat n) f) (mkLoad (drop (Z.to_nat n) f) A I)
      end.
Proof. reflexivity. Qed.

(** The four reads of a record, one after the other. *)
Lemma read_record_eq {mem : Allocator} (f : bytes) (A : gmap str pyarray)
    (I : gmap str (list Z)) :
  read_record (mkLoad f A I)
  = let h := take 8 f in
    let f1 := drop 8 f in
    let c1 := take 4 f1 in
    let f2 := drop 4 f1 in
    let data := take (Z.to_nat (le_decode h)) f2 in
    let f3 := drop (Z.to_nat (le_decode h)) f2 in
    let c2 := take 4 f3 in
    let f4 := drop 4 f3 in
    if len h =? 8 then
      if len c1 =? 4 then
        if 2^63 <=? le_decode h then Raised OverflowError (mkLoad f2 A I)
        else
          match (if le_decode h <=? Z.max 8 (len f2) then None
                 else alloc_failure (le_decode h)) with
          | Some e => Raised e (mkLoad f2 A I)
          | None =>
            if len data =? le_decode h then
              if len c2 =? 4 then Done data (mkLoad f4 A I)
              else Raised AssertionError (mkLoad f4 A I)
            else Raised AssertionError (mkLoad f3 A I)
          end
      else Raised AssertionError (mkLoad f2 A I)
    else Raised AssertionError (mkLoad f1 A I).
Proof.
  unfold read_record. cbv zeta.
  unfold bind at 1. rewrite file_read_served by (left + idtac; lia).
  change (Z.to_nat 8) with 8%nat.
  unfold bind at 1, py_assert at 1.
  destruct (len (take 8 f) =? 8); [|reflexivity]. unfold ret at 1.
  unfold bind at 1. rewrite file_read_served by (left + idtac; lia).
  change (Z.to_nat 4) with 4%nat.
  unfold bind at 1, py_assert at 1.
  destruct (len (take 4 (drop 8 f)) =? 4); [|reflexivity]. unfold ret at 1.
  unfold bind at 1. rewrite file_read_eq.
  destruct (2^63 <=? le_decode (take 8 f)); [reflexivity|].
  destruct (if le_decode (take 8 f) <=? Z.max 8 (len (drop 4 (drop 8 f)))
            then None else alloc_failure (le_decode (take 8 f))); [reflexivity|].
  unfold bind at 1, py_assert at 1.
  destruct (len (take (Z.to_nat (le_decode (take 8 f))) (drop 4 (drop 8 f)))
            =? le_decode (take 8 f)); [|reflexivity]. unfold ret at 1.
  unfold bind at 1. rewrite file_read_served by (left + idtac; lia).
  change (Z.to_nat 4) with 4%nat.
  unfold bind at 1, py_assert at 1.
  destruct (len (take 4 (drop (Z.to_nat (le_decode (take 8 f)))
                           (drop 4 (drop 8 f)))) =? 4); reflexivity.
Qed.

(** A well-formed record is read whole, and nothing more. *)
Lemma read_record_frame {mem : Allocator} (h c1 data c2 rest : bytes)
    (A : gmap str pyarray) (I : gmap str (list Z)) :
  len h = 8 -> len c1 = 4 -> len c2 = 4 -> le_decode h = len data ->
  len data < 2^63 ->
  read_record (mkLoad (h ++ c1 ++ data ++ c2 ++ rest) A I)
  = Done data (mkLoad rest A I).
Proof.
  intros Hh Hc1 Hc2 HL Hfits. rewrite read_record_eq. cbv zeta.
  change 8%nat with (Z.to_nat 8). change 4%nat with (Z.to_nat 4).
  rewrite (take_app_len h), (drop_app_len h) by (symmetry; exact Hh).
  rewrite (take_app_len c1), (drop_app_len c1) by (symmetry; exact Hc1).
  rewrite HL, (take_app_len data), (drop_app_len data) by reflexivity.
  rewrite (take_app_len c2), (drop_app_len c2) by (symmetry; exact Hc2).
  rewrite Hh, Hc1, Hc2, !Z.eqb_refl.
  destruct (Z.leb_spec (2^63) (len data)); [lia|].
  rewrite len_app. pose proof (len_nonneg (c2 ++ rest)).
  destruct (Z.leb_spec (len data) (Z.max 8 (len data + len (c2 ++ rest))));
    [reflexivity|lia].
Qed.

(** The record at the head of a file, when there is one. *)
Lemma frame_at_head (f record d rest : bytes) :
  f = record ++ rest -> is_frame record d ->
  len (take 8 f) = 8 /\ len (take 4 (drop 8 f)) = 4 /\
  le_decode (take 8 f) = len d /\
  take (Z.to_nat (le_decode (take 8 f))) (drop 4 (drop 8 f)) = d /\
  len (take 4 (drop (Z.to_nat (le_decode (take 8 f))) (drop 4 (drop 8 f)))) = 4 /\
  drop 4 (drop (Z.to_nat (le_decode (take 8 f))) (drop 4 (drop 8 f))) = rest.
Proof.
  intros Hrec (h' & c1' & c2' & -> & Hh' & Hc1' & Hc2' & HL').
  rewrite <- !app_assoc in Hrec. subst f.
  change 8%nat with (Z.to_nat 8). change 4%nat with (Z.to_nat 4).
  rewrite (take_app_len h'), (drop_app_len h') by (symmetry; exact Hh').
  rewrite (take_app_len c1'), (drop_app_len c1') by (symmetry; exact Hc1').
  rewrite HL', (take_app_len d), (drop_app_len d) by reflexivity.
  rewrite (take_app_len c2'), (drop_app_len c2') by (symmetry; exact Hc2').
  repeat split; assumption || reflexivity.
Qed.

(** A record is returned only when one lies at the head of the file. *)
Lemma read_record_done {mem : Allocator} (s s' : lstate) (data : bytes) :
  read_record s = Done data s' ->
  exists record rest,
    file s = record ++ rest /\ is_frame record data /\ len data < 2^63 /\
    s' = mkLoad rest (l_arrays s) (l_indices s).
Proof.
  destruct s as [f A I]. cbn [file l_arrays l_indices].
  rewrite read_record_eq. cbv zeta.
  set (h := take 8 f). set (f1 := drop 8 f).
  set (c1 := take 4 f1). set (f2 := drop 4 f1).
  set (d := take (Z.to_nat (le_decode h)) f2).
  set (f3 := drop (Z.to_nat (le_decode h)) f2).
  set (c2 := take 4 f3). set (f4 := drop 4 f3).
  assert (f = h ++ c1 ++ d ++ c2 ++ f4) as Hf
    by (subst h f1 c1 f2 d f3 c2 f4; rewrite !take_drop; reflexivity).
  destruct (Z.eqb_spec (len h) 8) as [Hh|]; [|discriminate].
  destruct (Z.eqb_spec (len c1) 4) as [Hc1|]; [|discriminate].
  destruct (Z.leb_spec (2^63) (le_decode h)); [discriminate|].
  destruct (if le_decode h <=? Z.max 8 (len f2) then None
            else alloc_failure (le_decode h)); [discriminate|].
  destruct (Z.eqb_spec (len d) (le_decode h)) as [HL|]; [|discriminate].
  destruct (Z.eqb_spec (len c2) 4) as [Hc2|]; [|discriminate].
  intros Hdone. injection Hdone as <- <-.
  exists (h ++ c1 ++ d ++ c2), f4.
  split; [rewrite <- !app_assoc; exact Hf|].
  split; [exists h, c1, c2; auto|]. split; [lia|reflexivity].
Qed.

(** Whatever the file holds, reading a record either finds one at the head
    of the file or raises, and touches nothing but the file position. *)
Lemma read_record_cases {mem : Allocator} (s : lstate) :
  (exists record data rest,
     file s = record ++ rest /\ is_frame record data /\ len data < 2^63 /\
     read_record s = Done data (mkLoad rest (l_arrays s) (l_indices s))) \/
  ((forall record data rest,
      file s = record ++ rest -> is_frame record data -> 2^63 <= len data) /\
   exists e rest,
     read_record s = Raised e (mkLoad rest (l_arrays s) (l_indices s))).
Proof.
  destruct (read_record s) as [data s'|e s'|] eqn:Hread.
  - left. destruct (read_record_done s s' data Hread)
      as (record & rest & Hfile & Hframe & Hfits & ->).
    exists record, data, rest. auto.
  - right. destruct s as [f A I]. cbn [file l_arrays l_indices].
    rewrite read_record_eq in Hread. cbv zeta in Hread. split.
    + intros record d rest Hrec Hframe.
      destruct (frame_at_head f record d rest Hrec Hframe)
        as (Hh & Hc1 & HL & Hd & Hc2 & _).
      rewrite Hh, Hc1, Hd, Hc2, HL, !Z.eqb_refl in Hread.
      destruct (Z.leb_spec (2^63) (len d)); [assumption|].
      exfalso.
      assert (len d <= len (drop 4 (drop 8 f))) as Hle
        by (rewrite <- Hd at 1; rewrite HL; apply take_len_le).
      destruct (Z.leb_spec (len d) (Z.max 8 (len (drop 4 (drop 8 f)))));
        [discriminate|lia].
    + repeat match type of Hread with
             | context [if ?b then _ else _] => destruct b
             | context [match alloc_failure ?n with _ => _ end] =>
               destruct (alloc_failure n)
             end;
        try discriminate; injection Hread as <- <-; eexists _, _; reflexivity.
  - exfalso. destruct s as [f A I]. rewrite read_record_eq in Hread.
    cbv zeta in Hread.
    repeat match type of Hread with
           | context [if ?b then _ else _] => destruct b
           | context [match alloc_failure ?n with _ => _ end] =>
             destruct (alloc_failure n)
           end; discriminate.
Qed.

(** Which exception a record cut short raises, by the field that is short:
    the header or the first four bytes; the payload; the last four
    bytes. *)
Lemma read_record_short_header {mem : Allocator} (f : bytes)
    (A : gmap str pyarray) (I : gmap str (list Z)) :
  len f < 12 ->
  read_record (mkLoad f A I) = Raised AssertionError (mkLoad [] A I).
Proof.
  intros Hf. rewrite read_record_eq. cbv zeta. unfold len in *.
  destruct (Z.eqb_spec (Z.of_nat (length (take 8 f))) 8) as [Hh|Hh].
  - rewrite length_take in Hh.
    destruct (Z.eqb_spec (Z.of_nat (length (take 4 (drop 8 f)))) 4) as [Hc|Hc].
    + rewrite length_take, length_drop in Hc. lia.
    + rewrite drop_ge by (rewrite length_drop; lia). reflexivity.
  - rewrite length_take in Hh. rewrite drop_ge by lia. reflexivity.
Qed.

Lemma read_record_short_payload {mem : Allocator} (h c1 f2 : bytes)
    (A : gmap str pyarray) (I : gmap str (list Z)) :
  len h = 8 -> len c1 = 4 -> len f2 < le_decode h \/ 2^63 <= le_decode h ->
  read_record (mkLoad (h ++ c1 ++ f2) A I)
  = if 2^63 <=? le_decode h then Raised OverflowError (mkLoad f2 A I)
    else
      match (if le_decode h <=? 8 then None else alloc_failure (le_decode h)) with
      | Some e => Raised e (mkLoad f2 A I)
      | None => Raised AssertionError (mkLoad [] A I)
      end.
Proof.
  intros Hh Hc1 Hshort. rewrite read_record_eq. cbv zeta.
  change 8%nat with (Z.to_nat 8). change 4%nat with (Z.to_nat 4).
  rewrite (take_app_len h), (drop_app_len h) by (symmetry; exact Hh).
  rewrite (take_app_len c1), (drop_app_len c1) by (symmetry; exact Hc1).
  rewrite Hh, Hc1, !Z.eqb_refl.
  destruct (Z.leb_spec (2^63) (le_decode h)); [reflexivity|].
  assert (len f2 < le_decode h) as Hlt by lia. clear Hshort.
  pose proof (len_nonneg f2).
  replace (le_decode h <=? Z.max 8 (len f2)) with (le_decode h <=? 8)
    by (destruct (Z.leb_spec (le_decode h) 8),
          (Z.leb_spec (le_decode h) (Z.max 8 (len f2))); lia || reflexivity).
  destruct (if le_decode h <=? 8 then None else alloc_failure (le_decode h));
    [reflexivity|].
  assert (Hen : (length f2 <= Z.to_nat (le_decode h))%nat) by (unfold len in *; lia).
  rewrite take_ge, drop_ge by exact Hen.
  destruct (Z.eqb_spec (len f2) (le_decode h)); [lia|reflexivity].
Qed.

Lemma read_record_short_trailer {mem : Allocator} (h c1 data c2 : bytes)
    (A : gmap str pyarray) (I : gmap str (list Z)) :
  len h = 8 -> len c1 = 4 -> le_decode h = len data -> len data < 2^63 ->
  len c2 < 4 ->
  read_record (mkLoad (h ++ c1 ++ data ++ c2) A I)
  = Raised AssertionError (mkLoad [] A I).
Proof.
  intros Hh Hc1 HL Hfits Hc2. rewrite read_record_eq. cbv zeta.
  change 8%nat with (Z.to_nat 8). change 4%nat with (Z.to_nat 4).
  rewrite (take_app_len h), (drop_app_len h) by (symmetry; exact Hh).
  rewrite (take_app_len c1), (drop_app_len c1) by (symmetry; exact Hc1).
  rewrite HL, (take_app_len data), (drop_app_len data) by reflexivity.
  rewrite Hh, Hc1, !Z.eqb_refl.
  destruct (Z.leb_spec (2^63) (len data)); [lia|].
  rewrite len_app. pose proof (len_nonneg c2).
  destruct (Z.leb_spec (len data) (Z.max 8 (len data + len c2))); [|lia].
  assert (Hen : (length c2 <= Z.to_nat 4)%nat) by (unfold len in *; lia).
  rewrite take_ge, drop_ge by exact Hen.
  destruct (Z.eqb_spec (len c2) 4); [lia|reflexivity].
Qed.

(** A raise in the framing or in the decoder leaves the record loop as it
    is. *)
Lemma load_records_raise_read {mem : Allocator} (fuel items : nat) (s s1 : lstate) (e : exn) :
  read_record s = Raised e s1 ->
  load_records fuel (S items) s = Raised e s1.
Proof. intros H. cbn [load_records]. unfold bind. rewrite H. reflexivity. Qed.

Lemma load_records_raise_decode {mem : Allocator} (fuel items : nat) (s s1 : lstate)
    (data : bytes) (e : exn) (d : dstate) :
  read_record s = Done data s1 ->
  decode_payload fuel data (mkState 0 false (l_arrays s1) (l_indices s1))
  = Raised e d ->
  load_records fuel (S items) s
  = Raised e (mkLoad (file s1) (arrays d) (indices d)).
Proof.
  intros Hr Hd. cbn [load_records]. unfold bind at 1. rewrite Hr.
  unfold bind at 1. unfold with_decoder. rewrite Hd. reflexivity.
Qed.

(** A finished load has read as many frames as asked, one behind the other,
    and decoded their payloads in that order. *)
Lemma load_records_frames {mem : Allocator} (fuel items : nat) :
  forall (s s' : lstate) (log : list (list str)),
    load_records fuel items s = Done log s' ->
    exists records : list (bytes * bytes),
      length records = items /\
      file s = concat (fst <$> records) ++ file s' /\
      Forall (fun r => is_frame (fst r) (snd r)) records /\
      exists s0,
        decode_all fuel (snd <$> records)
          (mkLoad (file s') (l_arrays s) (l_indices s)) = Done log s0 /\
        l_arrays s0 = l_arrays s' /\ l_indices s0 = l_indices s'.
Proof.
  induction items as [|items IH]; intros s s' log Hload; cbn [load_records] in Hload.
  - injection Hload as <- <-. exists []. cbn.
    split; [reflexivity|]. split; [reflexivity|]. split; [constructor|].
    eexists. split; [reflexivity|]. split; reflexivity.
  - unfold bind at 1 in Hload.
    destruct (read_record_cases s)
      as [(record & data & rest & Hfile & Hframe & _ & Hread)
         |(_ & e & rest & Hread)];
      rewrite Hread in Hload; [|discriminate].
    unfold bind at 1 in Hload. unfold with_decoder at 1 in Hload.
    cbn [file l_arrays l_indices] in Hload.
    destruct (decode_payload fuel data _) as [keys d|e d|] eqn:Hdec;
      [|discriminate..].
    unfold bind at 1 in Hload.
    destruct (load_records fuel items _) as [log' s2|e s2|] eqn:Hrest;
      [|discriminate..].
    injection Hload as <- <-.
    destruct (IH _ _ _ Hrest)
      as (records & Hlen & Hfile' & Hframes & s0 & Hall & Ha0 & Hi0).
    cbn [file l_arrays l_indices] in *.
    exists ((record, data) :: records).
    split; [cbn; lia|].
    split; [rewrite fmap_cons; cbn [concat fst]; rewrite <- app_assoc, <- Hfile';
            exact Hfile|].
    split; [constructor; assumption|].
    exists s0. split; [|split; assumption].
    rewrite fmap_cons. cbn [decode_all snd].
    unfold bind at 1. unfold with_decoder at 1. cbn [file l_arrays l_indices].
    rewrite Hdec. unfold bind at 1. rewrite Hall. reflexivity.
Qed.

Lemma le_decode_encode (n : nat) (v : Z) :
  0 <= v < 256 ^ Z.of_nat n -> le_decode (le_encode n v) = v.
Proof.
  revert v. induction n as [|n IH]; intros v Hv.
  - cbn in *. lia.
  - cbn [le_encode le_decode].
    assert (256 ^ Z.of_nat (S n) = 256 * 256 ^ Z.of_nat n) as Hp
      by (rewrite Nat2Z.inj_succ, Z.pow_succ_r by lia; reflexivity).
    rewrite IH.
    + pose proof (Z.div_mod v 256 ltac:(lia)). lia.
    + split; [apply Z.div_pos; lia|]. apply Z.div_lt_upper_bound; lia.
Qed.

Lemma len_le_encode (n : nat) (v : Z) : len (le_encode n v) = Z.of_nat n.
Proof.
  unfold len. f_equal. revert v.
  induction n as [|n IH]; intros v; cbn [le_encode length]; [reflexivity|].
  rewrite IH. reflexivity.
Qed.

Lemma read_record_framed {mem : Allocator} (data rest : bytes)
    (A : gmap str pyarray) (I : gmap str (list Z)) :
  len data < 2^63 ->
  read_record (mkLoad (frame data ++ rest) A I) = Done data (mkLoad rest A I).
Proof.
  intros Hlen. unfold frame. rewrite <- !app_assoc.
  apply read_record_frame;
    [apply (len_le_encode 8)|reflexivity|reflexivity| |exact Hlen].
  apply le_decode_encode. pose proof (len_nonneg data).
  change (256 ^ Z.of_nat 8) with (2^64). lia.
Qed.

(** ** The unsupported tag *)

Lemma store_value_unsupported (data : bytes) (key : str) (o b : Z) (np : bool)
    (A : gmap str pyarray) (I : gmap str (list Z)) :
  py_getitem data o = Some b ->
  b <> 0x0A -> b <> 0x1A -> b <> 0x12 ->
  store_value data key (mkState o np A I)
  = Raised (ValueError (UnsupportedDataTag b))
      (match A !! key with
       | Some _ => mkState o np A I
       | None => mkState o np (<[key := mkArray TC_B []]> A) (<[key := [0]]> I)
       end).
Proof.
  intros Hb H1 H2 H3.
  assert (store_branch data key b = raise (ValueError (UnsupportedDataTag b)))
    as Hbranch.
  { unfold store_branch.
    destruct (Z.eqb_spec b 10); [contradiction|].
    destruct (Z.eqb_spec b 26); [contradiction|].
    destruct (Z.eqb_spec b 18); [contradiction|]. reflexivity. }
  destruct (A !! key) as [a|] eqn:Hkey.
  - rewrite (store_value_present data key o b np A I a Hkey Hb).
    rewrite Hbranch. reflexivity.
  - rewrite (store_value_absent data key o b np A I Hkey Hb).
    rewrite Hbranch.
    assert (typecode_of_tag b = TC_B) as ->.
    { unfold typecode_of_tag.
      destruct (Z.eqb_spec b 10); [contradiction|].
      destruct (Z.eqb_spec b 26); [contradiction|].
      destruct (Z.eqb_spec b 18); [contradiction|]. reflexivity. }
    reflexivity.
Qed.

(** The entry with the unsupported tag, wherever it lies in a payload. *)
Lemma decode_entries_unsupported (fuel : nat) (kb : bytes) (key : str)
    (e u b : Z) (pre rest : bytes) (np : bool)
    (A : gmap str pyarray) (I : gmap str (list Z)) :
  utf8_decode kb = Some key ->
  0 <= e < 2^63 -> 0 <= u < 2^63 ->
  b <> 0x0A -> b <> 0x1A -> b <> 0x12 ->
  len (pre ++ 0x0A :: encode_varint e ++ tagged 0x0A kb
       ++ 0x12 :: encode_varint u ++ b :: rest) < 2^63 ->
  decode_entries (S fuel)
    (pre ++ 0x0A :: encode_varint e ++ tagged 0x0A kb
     ++ 0x12 :: encode_varint u ++ b :: rest) (mkState (len pre) np A I)
  = Raised (ValueError (UnsupportedDataTag b))
      (let o := len pre + (1 + len (encode_varint e)) + len (tagged 0x0A kb)
                + (1 + len (encode_varint u)) in
       match A !! key with
       | Some _ => mkState o true A I
       | None => mkState o true (<[key := mkArray TC_B []]> A) (<[key := [0]]> I)
       end).
Proof.
  intros Hkey He Hu H1 H2 H3 Hlen.
  pose proof (decode_entry_header kb key e u pre (b :: rest) np A I Hkey He Hu Hlen)
    as Hentry.
  set (data := pre ++ 0x0A :: encode_varint e ++ tagged 0x0A kb
               ++ 0x12 :: encode_varint u ++ b :: rest) in *.
  set (o := len pre + (1 + len (encode_varint e)) + len (tagged 0x0A kb)
            + (1 + len (encode_varint u))) in *.
  assert (py_getitem data o = Some b) as Hb.
  { subst data o.
    replace (pre ++ 10 :: encode_varint e ++ tagged 10 kb
             ++ 18 :: encode_varint u ++ b :: rest)
      with ((pre ++ 10 :: encode_varint e ++ tagged 10 kb
             ++ 18 :: encode_varint u) ++ b :: rest)
      by (repeat (rewrite <- app_assoc || rewrite <- app_comm_cons);
          reflexivity).
    apply py_getitem_at.
    repeat (rewrite len_app || rewrite len_cons). lia. }
  assert (len pre < len data) as Hin.
  { subst data. rewrite len_app, len_cons.
    pose proof (len_nonneg (encode_varint e ++ tagged 10 kb
                            ++ 18 :: encode_varint u ++ b :: rest)). lia. }
  cbn [decode_entries]. unfold bind at 1. unfold gets at 1. cbn [offset].
  destruct (Z.ltb_spec (len pre) (len data)); [|lia].
  unfold bind at 1. rewrite Hentry.
  unfold bind at 1.
  rewrite (store_value_unsupported data key o b true A I Hb H1 H2 H3).
  cbv zeta. reflexivity.
Qed.

(** The same entry at the head of a payload. *)
Lemma decode_payload_unsupported (fuel : nat) (kb : bytes) (key : str)
    (e u b : Z) (rest : bytes) (s : dstate) :
  utf8_decode kb = Some key ->
  0 <= e < 2^63 -> 0 <= u < 2^63 ->
  b <> 0x0A -> b <> 0x1A -> b <> 0x12 ->
  len (tagged 0x0A (0x0A :: encode_varint e ++ tagged 0x0A kb
                    ++ 0x12 :: encode_varint u ++ b :: rest)) < 2^63 ->
  exists o,
    decode_payload (S fuel)
      (tagged 0x0A (0x0A :: encode_varint e ++ tagged 0x0A kb
                    ++ 0x12 :: encode_varint u ++ b :: rest)) s
    = Raised (ValueError (UnsupportedDataTag b))
        (match arrays s !! key with
         | Some _ => mkState o true (arrays s) (indices s)
         | None => mkState o true (<[key := mkArray TC_B []]> (arrays s))
                     (<[key := [0]]> (indices s))
         end).
Proof.
  intros Hkey He Hu H1 H2 H3 Hlen.
  set (body := 0x0A :: encode_varint e ++ tagged 0x0A kb
               ++ 0x12 :: encode_varint u ++ b :: rest) in *.
  destruct s as [o0 np0 A I]. cbn [arrays indices].
  pose proof (len_nonneg body). pose proof (encode_varint_nonempty (len body)).
  pose proof (len_tagged 10 body) as Ht.
  unfold decode_payload. unfold bind at 1. unfold modify at 1, set_offset.
  cbn [arrays indices].
  pose proof (get_value_of_kind_encoded 10 (len body) false [] body A I
                ltac:(lia)) as G.
  cbn [app] in G. change (len []) with 0 in G. fold (tagged 10 body) in G.
  unfold bind at 1. rewrite G by exact Hlen.
  unfold bind at 1. unfold gets at 1. cbn [offset].
  replace (len (tagged 10 body) - (0 + 1 + len (encode_varint (len body)))
           =? len body) with true by (symmetry; apply Z.eqb_eq; lia).
  unfold bind at 1. unfold py_assert, ret at 1.
  pose proof (decode_entries_unsupported fuel kb key e u b
                (10 :: encode_varint (len body)) rest false A I Hkey He Hu
                H1 H2 H3) as D.
  replace ((10 :: encode_varint (len body)) ++ 10 :: encode_varint e
           ++ tagged 10 kb ++ 18 :: encode_varint u ++ b :: rest)
    with (tagged 10 body) in D by reflexivity.
  rewrite len_cons in D.
  replace (0 + 1 + len (encode_varint (len body)))
    with (1 + len (encode_varint (len body))) by lia.
  rewrite D by exact Hlen. cbv zeta.
  eexists. destruct (A !! key); reflexivity.
Qed.

(** ** The dataset *)

Lemma mapM_unit_lookup {A B} (f : A -> M unit B) (l : list A) (bs : list B) :
  mapM f l tt = Done bs tt ->
  length bs = length l /\
  forall (n : nat) (a : A),
    l !! n = Some a -> exists b, bs !! n = Some b /\ f a tt = Done b tt.
Proof.
  revert bs. induction l as [|a l IH]; intros bs H; cbn [mapM] in H.
  - injection H as <-. split; [reflexivity|]. intros n a Hn.
    rewrite lookup_nil in Hn. discriminate.
  - unfold bind at 1 in H. destruct (f a tt) as [b []|e []|] eqn:Hfa;
      [|discriminate..].
    unfold bind at 1 in H. destruct (mapM f l tt) as [bs' []|e []|] eqn:Hrest;
      [|discriminate..].
    injection H as <-. destruct (IH bs' eq_refl) as [Hlen Hall].
    split; [cbn; lia|]. intros [|n] a' Hn.
    + injection Hn as <-. exists b. split; [reflexivity|exact Hfa].
    + apply Hall. exact Hn.
Qed.

Section DatasetFacts.
Variable image : Type.
Variable decode_image : bytes -> exn + image.

(** What the constructor builds in each mode, from a finished load. *)
Lemma init_eager {mem : Allocator} (fuel : nat) (content : bytes) (size : Z) (De : Dataset image) :
  __init__ decode_image fuel content size false tt = Done De tt ->
  exists arrays indices s data,
    _load_data fuel content size = Done (arrays, indices) s /\
    mapM (_decode decode_image arrays indices) (seqZ 0 size) tt = Done data tt /\
    De = mkDataset size (Some data) None None.
Proof.
  unfold __init__. unfold bind at 1. unfold forget.
  destruct (_load_data fuel content size) as [[arrays indices] s|e s|];
    [|discriminate..].
  unfold bind at 1.
  destruct (mapM _ _ tt) as [data []|e []|] eqn:Hmap; [|discriminate..].
  intros [= <-]. exists arrays, indices, s, data. auto.
Qed.

Lemma init_lazy {mem : Allocator} (fuel : nat) (content : bytes) (size : Z)
    (arrays : gmap str pyarray) (indices : gmap str (list Z)) (s : lstate) :
  _load_data fuel content size = Done (arrays, indices) s ->
  __init__ decode_image fuel content size true tt
  = Done (mkDataset size None (Some arrays) (Some indices)) tt.
Proof.
  intros H. unfold __init__. unfold bind at 1. unfold forget. rewrite H.
  reflexivity.
Qed.
End DatasetFacts.

(** ** The metric *)

Lemma Qc_of_nat_add (a b : nat) :
  Qc_of_nat (a + b) = (Qc_of_nat a + Qc_of_nat b)%Qc.
Proof.
  unfold Qc_of_nat, Qcplus. apply Q2Qc_eq_iff. cbn [this Q2Qc].
  rewrite !Qred_correct. rewrite Nat2Z.inj_add, inject_Z_plus. reflexivity.
Qed.

Lemma Qc_of_nat_0 : Qc_of_nat 0 = 0%Qc.
Proof. apply Qc_is_canon. reflexivity. Qed.

Lemma Qc_of_nat_nonzero (n : nat) : n <> 0%nat -> Qc_of_nat n <> 0%Qc.
Proof.
  intros Hn H. apply (f_equal this) in H. unfold Qc_of_nat in H. cbn in H.
  assert (Qred (inject_Z (Z.of_nat n)) == 0)%Q as Hq by (rewrite H; reflexivity).
  rewrite Qred_correct in Hq. unfold Qeq, inject_Z in Hq. cbn in Hq. lia.
Qed.

Section MetricFacts.
Context {T : Type} `{EqDecision T}.

Lemma len_or_1_max (ys : list T) : len_or_1 ys = Nat.max (length ys) 1.
Proof. unfold len_or_1. destruct (length ys); cbn; lia. Qed.

Lemma edit_distances_length (ig : option T) (y_preds y_trues : list (list T)) :
  length (edit_distances ig y_preds y_trues)
  = Nat.min (length y_preds) (length y_trues).
Proof.
  revert y_trues. induction y_preds as [|p ps IH]; intros [|g gs];
    cbn [edit_distances length Nat.min]; try reflexivity.
  rewrite IH. reflexivity.
Qed.

Lemma edit_distances_take (ig : option T) (y_preds y_trues : list (list T)) :
  edit_distances ig y_preds y_trues
  = edit_distances ig
      (take (Nat.min (length y_preds) (length y_trues)) y_preds)
      (take (Nat.min (length y_preds) (length y_trues)) y_trues).
Proof.
  revert y_trues. induction y_preds as [|p ps IH]; intros [|g gs];
    cbn [edit_distances length Nat.min take]; try reflexivity.
  rewrite <- IH. reflexivity.
Qed.

(** The rows with an empty second sequence have one cell. *)
Lemma edit_rows_nil (seq1 : list T) (i d : nat) :
  edit_rows i seq1 [] [d] = [if seq1 is [] then d else (i + length seq1)%nat].
Proof.
  revert i d. induction seq1 as [|x seq1 IH]; intros i d; [reflexivity|].
  cbn [edit_rows edit_row]. rewrite IH.
  destruct seq1; cbn [length]; f_equal; lia.
Qed.

Lemma edit_distance_nil_r (seq1 : list T) : edit_distance seq1 [] = length seq1.
Proof.
  unfold edit_distance. cbn [length Nat.add seq]. rewrite edit_rows_nil.
  destruct seq1; reflexivity.
Qed.

Lemma update_spec (y_preds y_trues : list (list T)) (m : EditDistanceMetric) :
  update y_preds y_trues m
  = mkMetric (_ignore_index m)
      (mean_value m + Qc_sum (edit_distances (_ignore_index m) y_preds y_trues))
      (weight m
       + Qc_of_nat (length (edit_distances (_ignore_index m) y_preds y_trues))).
Proof. reflexivity. Qed.
End MetricFacts.

Lemma score_all_spec (gold predictions : list (list str))
    (m : EditDistanceMetric (T := str)) :
  score_all gold predictions m
  = mkMetric (_ignore_index m)
      (mean_value m + Qc_sum (edit_distances (_ignore_index m) predictions gold))
      (weight m
       + Qc_of_nat (length (edit_distances (_ignore_index m) predictions gold))).
Proof.
  revert predictions m. induction gold as [|g gold IH]; intros predictions m.
  - destruct m as [ig mv w]. destruct predictions;
      cbn [score_all edit_distances Qc_sum foldr length _ignore_index
           mean_value weight];
      rewrite Qc_of_nat_0; f_equal; ring.
  - destruct m as [ig mv w]. destruct predictions as [|p predictions].
    + cbn [score_all edit_distances Qc_sum foldr length _ignore_index
           mean_value weight].
      rewrite Qc_of_nat_0. f_equal; ring.
    + cbn [score_all]. rewrite IH. rewrite update_spec.
      cbn [_ignore_index mean_value weight edit_distances Qc_sum foldr length].
      change (S (length (edit_distances ig predictions gold)))
        with (1 + length (edit_distances ig predictions gold))%nat.
      fold (Qc_sum (edit_distances ig predictions gold)).
      rewrite Qc_of_nat_add. f_equal; ring.
Qed.

(** ** Iterating a dataset and evaluating *)

Lemma mapM_unit_length {A B} (f : A -> M unit B) (l : list A) (bs : list B) :
  mapM f l tt = Done bs tt -> length bs = length l.
Proof. intros H. apply (mapM_unit_lookup f l bs H). Qed.

Section EvaluateFacts.
Variable image : Type.
Variable decode_image : bytes -> exn + image.

(** An eager dataset yields its cached elements, in order, and stops. *)
Lemma iterate_eager (size : Z) (data : list (Element image)) (fuel : nat) :
  data <> [] ->
  forall k : nat,
    (k <= length data)%nat -> (length data - k < fuel)%nat ->
    iterate decode_image fuel (mkDataset size (Some data) None None)
      (Z.of_nat k) tt
    = Done (drop k data) tt.
Proof.
  intros Hne. induction fuel as [|fuel IH]; intros k Hk Hfuel; [lia|].
  cbn [iterate]. unfold __getitem__. cbn [_data].
  destruct data as [|e0 es] eqn:Hdata; [contradiction|]. rewrite <- Hdata in *.
  destruct (decide (k < length data)%nat) as [Hlt|Hge].
  - destruct (lookup_lt_is_Some_2 data k Hlt) as [e He].
    rewrite py_getitem_nonneg by (unfold len; lia).
    rewrite Nat2Z.id, He. cbn [lift_option ret].
    replace (Z.of_nat k + 1) with (Z.of_nat (S k)) by lia.
    unfold bind. rewrite IH by lia. unfold ret.
    rewrite (drop_S data e k He). reflexivity.
  - assert (py_getitem data (Z.of_nat k) = None) as ->.
    { unfold py_getitem.
      destruct (Z.ltb_spec (Z.of_nat k) (Z.of_nat (length data))); [lia|].
      rewrite andb_false_r.
      destruct (Z.ltb_spec (Z.of_nat k) 0); [lia|].
      rewrite andb_false_r. reflexivity. }
    cbn [lift_option raise]. rewrite drop_ge by lia. reflexivity.
Qed.

Lemma evaluate_spec (fuel : nat) (ds : Dataset image)
    (predictions : list (list str)) (examples : list (Element image))
    (gold : list (list str)) :
  iterate decode_image fuel ds 0 tt = Done examples tt ->
  mapM gold_sentence examples tt = Done gold tt ->
  evaluate decode_image fuel ds predictions tt
  = if negb (len predictions =? len gold) then Raised RuntimeError tt
    else Done ((fun m => Qc_of_nat 100 * m)%Qc
                 <$> compute (score_all gold predictions
                                (EditDistanceMetric_init None))) tt.
Proof.
  intros Hit Hgold. unfold evaluate. unfold bind at 1. rewrite Hit.
  unfold bind at 1. rewrite Hgold.
  destruct (negb (len predictions =? len gold)); reflexivity.
Qed.
End EvaluateFacts.

(** ** The two-row computation is the Levenshtein distance *)

Section Levenshtein.
Context {T : Type} `{EqDecision T}.

Lemma lev_nil_r (s : list T) : levenshtein s [] = length s.
Proof. destruct s; reflexivity. Qed.

Lemma lev_cons_cons (x y : T) (s t : list T) :
  levenshtein (x :: s) (y :: t)
  = if decide (x = y) then levenshtein s t
    else S (Nat.min (Nat.min (levenshtein s t) (levenshtein (x :: s) t))
                    (levenshtein s (y :: t))).
Proof. reflexivity. Qed.

(** One more element on either side changes the distance by at most one. *)
Lemma lev_lipschitz (n : nat) :
  forall s t : list T, (length s + length t < n)%nat ->
  forall x,
    (levenshtein s t <= 1 + levenshtein (x :: s) t)%nat /\
    (levenshtein s t <= 1 + levenshtein s (x :: t))%nat /\
    (levenshtein s (x :: t) <= 1 + levenshtein s t)%nat /\
    (levenshtein (x :: s) t <= 1 + levenshtein s t)%nat.
Proof.
  induction n as [|n IH]; intros s t Hlen x; [lia|].
  repeat split.
  - destruct t as [|y t'].
    + rewrite !lev_nil_r. cbn [length]. lia.
    + rewrite lev_cons_cons. cbn [length] in Hlen.
      pose proof (IH s t' ltac:(lia) y) as (_ & _ & HB & _).
      pose proof (IH s t' ltac:(lia) x) as (HA & _).
      destruct (decide (x = y)); lia.
  - destruct s as [|a s'].
    + cbn [levenshtein length]. lia.
    + rewrite lev_cons_cons. cbn [length] in Hlen.
      pose proof (IH s' t ltac:(lia) a) as (_ & _ & _ & HB').
      pose proof (IH s' t ltac:(lia) x) as (_ & HA' & _).
      destruct (decide (a = x)); lia.
  - destruct s as [|a s'].
    + cbn [levenshtein length]. lia.
    + rewrite lev_cons_cons. cbn [length] in Hlen.
      pose proof (IH s' t ltac:(lia) a) as (HA & _).
      destruct (decide (a = x)); lia.
  - destruct t as [|y t'].
    + rewrite !lev_nil_r. cbn [length]. lia.
    + rewrite lev_cons_cons. cbn [length] in Hlen.
      pose proof (IH s t' ltac:(lia) y) as (_ & HA' & _).
      destruct (decide (x = y)); lia.
Qed.

(** The three-way form of the recursion. *)
Lemma lev_three (x y : T) (s t : list T) :
  levenshtein (x :: s) (y :: t)
  = Nat.min (Nat.min (1 + levenshtein s (y :: t)) (1 + levenshtein (x :: s) t))
            (subst_cost x y + levenshtein s t).
Proof.
  rewrite lev_cons_cons. unfold subst_cost.
  pose proof (lev_lipschitz _ s t (Nat.lt_succ_diag_r _) x) as (HA & _).
  pose proof (lev_lipschitz _ s t (Nat.lt_succ_diag_r _) y) as (_ & HA' & _).
  destruct (decide (x = y)); lia.
Qed.

(** A minimum is below a bound when one of its operands is. *)
Ltac min_le :=
  match goal with
  | |- (Nat.min _ _ <= _)%nat =>
    apply Nat.min_le_iff; ((left; min_le) || (right; min_le))
  | |- _ => lia
  end.

(** The same recursion holds on the last elements of the two sequences. *)
Lemma lev_snoc_aux (n : nat) :
  forall s t : list T, (length s + length t < n)%nat ->
  forall x y,
    levenshtein (s ++ [x]) (t ++ [y])
    = Nat.min (Nat.min (1 + levenshtein s (t ++ [y]))
                       (1 + levenshtein (s ++ [x]) t))
              (subst_cost x y + levenshtein s t).
Proof.
  induction n as [|n IH]; intros s t Hlen x y; [lia|].
  destruct s as [|a s'], t as [|b t']; cbn [length] in Hlen; cbn [app].
  - rewrite lev_three. reflexivity.
  - pose proof (IH [] t' ltac:(cbn [length]; lia) x y) as H1. cbn [app] in H1.
    rewrite !lev_three, H1.
    cbn [levenshtein]. rewrite length_app. cbn [length]. lia.
  - pose proof (IH s' [] ltac:(cbn [length]; lia) x y) as H1. cbn [app] in H1.
    rewrite !lev_three, H1.
    rewrite !lev_nil_r, length_app. cbn [length]. lia.
  - pose proof (IH s' (b :: t') ltac:(cbn [length]; lia) x y) as H1.
    pose proof (IH (a :: s') t' ltac:(cbn [length]; lia) x y) as H2.
    pose proof (IH s' t' ltac:(lia) x y) as H3.
    cbn [app] in H1, H2.
    rewrite !lev_three, H1, H2, H3.
    rewrite <- !Nat.add_min_distr_l.
    apply Nat.le_antisymm; repeat apply Nat.min_glb; min_le.
Qed.

Lemma lev_snoc (s t : list T) (x y : T) :
  levenshtein (s ++ [x]) (t ++ [y])
  = Nat.min (Nat.min (1 + levenshtein s (t ++ [y]))
                     (1 + levenshtein (s ++ [x]) t))
            (subst_cost x y + levenshtein s t).
Proof. exact (lev_snoc_aux _ s t (Nat.lt_succ_diag_r _) x y). Qed.

Lemma lev_snoc_lipschitz (n : nat) :
  forall s t : list T, (length s + length t < n)%nat ->
  forall x,
    (levenshtein s t <= 1 + levenshtein s (t ++ [x]))%nat /\
    (levenshtein s t <= 1 + levenshtein (s ++ [x]) t)%nat.
Proof.
  induction n as [|n IH]; intros s t Hlen x; [lia|].
  destruct s as [|a s'], t as [|b t']; cbn [length] in Hlen; cbn [app].
  - cbn [levenshtein length]. lia.
  - split.
    + cbn [levenshtein length]. rewrite length_app. cbn [length]. lia.
    + apply (lev_lipschitz _ [] (b :: t') (Nat.lt_succ_diag_r _) x).
  - split.
    + apply (lev_lipschitz _ (a :: s') [] (Nat.lt_succ_diag_r _) x).
    + rewrite !lev_nil_r. cbn [length]. rewrite length_app. cbn [length]. lia.
  - pose proof (IH s' (b :: t') ltac:(cbn [length]; lia) x) as [H1 G1].
    pose proof (IH (a :: s') t' ltac:(cbn [length]; lia) x) as [H2 G2].
    pose proof (IH s' t' ltac:(lia) x) as [H3 G3].
    cbn [app] in H1, G2. rewrite !lev_three. lia.
Qed.

(** The two cases of a cell of the table, as [edit_row] computes them. *)
Lemma lev_snoc_same (s t : list T) (x : T) :
  levenshtein (s ++ [x]) (t ++ [x]) = levenshtein s t.
Proof.
  rewrite lev_snoc. unfold subst_cost. rewrite decide_True by reflexivity.
  pose proof (lev_snoc_lipschitz _ s t (Nat.lt_succ_diag_r _) x). lia.
Qed.

Lemma lev_snoc_diff (s t : list T) (x y : T) :
  x <> y ->
  levenshtein (s ++ [x]) (t ++ [y])
  = Nat.min (Nat.min (levenshtein s t + 1) (levenshtein (s ++ [x]) t + 1))
            (levenshtein s (t ++ [y]) + 1).
Proof.
  intros Hxy. rewrite lev_snoc. unfold subst_cost.
  rewrite decide_False by assumption. lia.
Qed.

Lemma lev_row_unfold (sp tp ts : list T) :
  lev_row sp tp ts
  = levenshtein sp tp ::
    match ts with
    | [] => []
    | y :: ts' => lev_row sp (tp ++ [y]) ts'
    end.
Proof. destruct ts; reflexivity. Qed.

(** From one row of the table to the next. *)
Lemma edit_row_spec (x : T) (sp : list T) :
  forall ts tp,
    edit_row x ts (lev_row sp tp ts) (levenshtein (sp ++ [x]) tp)
    = tail (lev_row (sp ++ [x]) tp ts).
Proof.
  induction ts as [|y ts' IH]; intros tp; [reflexivity|].
  cbn [lev_row tail]. rewrite (lev_row_unfold sp (tp ++ [y]) ts').
  cbn [edit_row]. rewrite <- (lev_row_unfold sp (tp ++ [y]) ts').
  assert (Hcell : (if decide (x = y) then levenshtein sp tp
                   else Nat.min (Nat.min (levenshtein sp tp + 1)
                                         (levenshtein (sp ++ [x]) tp + 1))
                                (levenshtein sp (tp ++ [y]) + 1))
                  = levenshtein (sp ++ [x]) (tp ++ [y])).
  { destruct (decide (x = y)) as [->|Hxy].
    - symmetry. apply lev_snoc_same.
    - symmetry. apply lev_snoc_diff, Hxy. }
  rewrite Hcell, IH. rewrite (lev_row_unfold (sp ++ [x]) (tp ++ [y]) ts').
  reflexivity.
Qed.

Lemma edit_rows_spec (t : list T) :
  forall s sp,
    edit_rows (length sp) s t (lev_row sp [] t) = lev_row (sp ++ s) [] t.
Proof.
  induction s as [|x s' IH]; intros sp; [rewrite app_nil_r; reflexivity|].
  cbn [edit_rows].
  assert (Hrow : S (length sp) :: edit_row x t (lev_row sp [] t) (S (length sp))
                 = lev_row (sp ++ [x]) [] t).
  { rewrite (lev_row_unfold (sp ++ [x]) [] t).
    assert (Hl : levenshtein (sp ++ [x]) [] = S (length sp))
      by (rewrite lev_nil_r, length_app; cbn [length]; lia).
    rewrite <- Hl at 2. rewrite edit_row_spec, Hl.
    rewrite (lev_row_unfold (sp ++ [x]) [] t), Hl. reflexivity. }
  rewrite Hrow.
  replace (S (length sp)) with (length (sp ++ [x]))
    by (rewrite length_app; cbn [length]; lia).
  rewrite IH, <- app_assoc. reflexivity.
Qed.

Lemma lev_row_first (ts tp : list T) :
  lev_row [] tp ts = seq (length tp) (S (length ts)).
Proof.
  revert tp. induction ts as [|y ts' IH]; intros tp; [reflexivity|].
  cbn [lev_row length seq levenshtein]. f_equal. rewrite IH.
  rewrite length_app. cbn [length]. rewrite Nat.add_1_r. reflexivity.
Qed.

Lemma lev_row_last (sp : list T) (d : nat) :
  forall ts tp, List.last (lev_row sp tp ts) d = levenshtein sp (tp ++ ts).
Proof.
  induction ts as [|y ts' IH]; intros tp.
  - cbn [lev_row List.last]. rewrite app_nil_r. reflexivity.
  - cbn [lev_row].
    transitivity (List.last (lev_row sp (tp ++ [y]) ts') d).
    { rewrite (lev_row_unfold sp (tp ++ [y]) ts'). reflexivity. }
    rewrite IH, <- app_assoc. reflexivity.
Qed.

(** [edit_distance] computes the Levenshtein distance. *)
Lemma edit_distance_levenshtein (seq1 seq2 : list T) :
  edit_distance seq1 seq2 = levenshtein seq1 seq2.
Proof.
  unfold edit_distance. rewrite Nat.add_1_r.
  change (seq 0 (S (length seq2))) with (seq (length (@nil T)) (S (length seq2))).
  rewrite <- (lev_row_first seq2 []).
  change 0%nat with (length (@nil T)) at 1.
  rewrite (edit_rows_spec seq2 seq1 []). cbn [app].
  apply (lev_row_last seq1 0%nat seq2 []).
Qed.
End Levenshtein.

(** ** The inner loops come to an end

    [get_value] and the loop over packed integers consume the bytes of the
    payload from left to right, so the fuel given to them suffices: only
    the loop over the entries of a payload can run forever. *)

Lemma py_getitem_valid {A} (l : list A) (i : Z) (x : A) :
  py_getitem l i = Some x -> - len l <= i < len l.
Proof.
  unfold py_getitem, len.
  destruct ((0 <=? i) && (i <? Z.of_nat (length l))) eqn:E1;
    [intros _; apply andb_true_iff in E1; lia|].
  destruct ((- Z.of_nat (length l) <=? i) && (i <? 0)) eqn:E2;
    [intros _; apply andb_true_iff in E2; lia|discriminate].
Qed.

Lemma finishes_bind {S A B} (m : M S A) (k : A -> M S B) s (Q : B -> S -> Prop) :
  finishes m s (fun a s' => finishes (k a) s' Q) -> finishes (bind m k) s Q.
Proof. unfold finishes, bind. destruct (m s); auto. Qed.

Lemma finishes_mono {S A} (m : M S A) s (Q Q' : A -> S -> Prop) :
  finishes m s Q -> (forall a s', Q a s' -> Q' a s') -> finishes m s Q'.
Proof. unfold finishes. destruct (m s); auto. Qed.

Lemma moved_on_refl data s : moved_on data s s.
Proof. unfold moved_on. lia. Qed.

Lemma moved_on_trans data s1 s2 s3 :
  moved_on data s1 s2 -> moved_on data s2 s3 -> moved_on data s1 s3.
Proof.
  unfold moved_on. lia.
Qed.

Lemma off_plus_next (data : bytes) s :
  len data < 2^63 -> - len data <= offset s < len data ->
  off_plus s 1 = offset s + 1.
Proof.
  intros Hn Ho. unfold off_plus. destruct (offset_np s); [|reflexivity].
  apply wrap64_id. lia.
Qed.

Lemma moved_on_advance (data : bytes) s :
  len data < 2^63 -> - len data <= offset s < len data ->
  moved_on data s (advance 1 s) /\ offset (advance 1 s) = offset s + 1.
Proof.
  intros Hn Ho. unfold moved_on, advance, set_offset.
  cbn [offset offset_np arrays indices]. rewrite (off_plus_next data s Hn Ho).
  split; [lia|reflexivity].
Qed.

(** One step of a computation written with [let*]. *)
Ltac fin :=
  apply finishes_bind;
  unfold finishes at 1, gets, modify, data_at, lift_option, py_assert.
Ltac fin_done := cbv beta iota delta [ret raise].

Lemma get_value_loop_finishes (fuel : nat) data start value s :
  len data < 2^63 -> (1 <= fuel)%nat ->
  (- len data <= offset s -> len data - offset s < Z.of_nat fuel) ->
  finishes (get_value_loop fuel data start value) s
           (fun _ s' => moved_on data s s').
Proof.
  intros Hn. revert start value s.
  induction fuel as [|f IH]; intros start value s Hf Hfuel; [lia|].
  cbn [get_value_loop]. fin. fin.
  destruct (py_getitem data (off_plus s (-1))) as [prev|]; fin_done; [|exact I].
  destruct (Z.land prev 128 =? 0).
  { apply moved_on_refl. }
  fin. fin. fin.
  destruct (py_getitem data (offset s)) as [b|] eqn:Eb; fin_done; [|exact I].
  apply py_getitem_valid in Eb.
  fin.
  destruct (or_shifted _ _ _ _) as [value'|]; fin_done; [|exact I].
  fin.
  destruct (moved_on_advance data s Hn Eb) as [Hm Ho].
  eapply finishes_mono.
  - apply IH; [lia|]. rewrite Ho. lia.
  - intros a s' Hm'. exact (moved_on_trans _ _ _ _ Hm Hm').
Qed.

Lemma get_value_finishes data s :
  len data < 2^63 ->
  finishes (get_value data) s
           (fun _ s' => - len data <= offset s < len data /\
                        offset s < offset s' <= len data).
Proof.
  intros Hn. unfold get_value. fin. fin.
  destruct (py_getitem data (offset s)) as [b|] eqn:Eb; fin_done; [|exact I].
  apply py_getitem_valid in Eb.
  fin.
  destruct (moved_on_advance data s Hn Eb) as [Hm Ho].
  eapply finishes_mono.
  - apply get_value_loop_finishes; [exact Hn|unfold varint_fuel; lia|].
    rewrite Ho. unfold varint_fuel, len in *. lia.
  - intros a s' Hm'. unfold moved_on in Hm'. rewrite Ho in Hm'. lia.
Qed.

Lemma total_bind {S A B} (m : M S A) (k : A -> M S B) :
  total m -> (forall a, total (k a)) -> total (bind m k).
Proof.
  intros Hm Hk s. apply finishes_bind.
  eapply finishes_mono; [apply Hm|]. intros a s' _. apply Hk.
Qed.

Lemma total_ret {S A} (a : A) : total (@ret S A a).
Proof. intros s. exact I. Qed.

Lemma total_raise {S A} e : total (@raise S A e).
Proof. intros s. exact I. Qed.

Lemma total_gets {S A} (f : S -> A) : total (gets f).
Proof. intros s. exact I. Qed.

Lemma total_modify {S} (f : S -> S) : total (modify f).
Proof. intros s. exact I. Qed.

Lemma total_lift_option {S A} e (o : option A) : total (@lift_option S A e o).
Proof. intros s. unfold finishes, lift_option. destruct o; exact I. Qed.

Lemma total_py_assert {S} b : total (@py_assert S b).
Proof. intros s. unfold finishes, py_assert. destruct b; exact I. Qed.

Lemma total_update_array key f e : total (update_array key f e).
Proof.
  intros s. unfold finishes, update_array.
  destruct (arrays s !! key) as [a|]; [|exact I]. destruct (f a); exact I.
Qed.

Lemma total_close_example key : total (close_example key).
Proof.
  intros s. unfold finishes, close_example.
  destruct (arrays s !! key); [|exact I]. destruct (indices s !! key); exact I.
Qed.

Lemma total_data_at data i : total (data_at data i).
Proof. apply total_lift_option. Qed.

Create HintDb total discriminated.
#[export] Hint Resolve total_ret total_raise total_gets total_modify
  total_lift_option total_py_assert total_update_array total_close_example
  total_data_at
  : total.

Ltac total_auto :=
  repeat first
    [ solve [auto with total]
    | apply total_bind; [|intros ?]
    | match goal with
      | |- total (if ?b then _ else _) => destruct b
      | |- total (match ?x with _ => _ end) => destruct x
      end ].

Section Bounded.
Variable data : bytes.
Hypothesis data_fits : len data < 2^63.

Lemma total_get_value : total (get_value data).
Proof.
  intros s. eapply finishes_mono; [apply get_value_finishes, data_fits|].
  auto.
Qed.

Lemma total_get_value_of_kind kind : total (get_value_of_kind data kind).
Proof. unfold get_value_of_kind. pose proof total_get_value. total_auto. Qed.

Lemma total_get_length kind : total (get_length data kind).
Proof. unfold get_length. pose proof total_get_value_of_kind. total_auto. Qed.

Lemma total_ensure_key key : total (ensure_key data key).
Proof. unfold ensure_key. total_auto. Qed.

Lemma append_values_finishes (fuel : nat) key target s :
  (1 <= fuel)%nat ->
  (- len data <= offset s -> len data - offset s < Z.of_nat fuel) ->
  finishes (append_values fuel data key target) s (fun _ _ => True).
Proof.
  revert s. induction fuel as [|f IH]; intros s Hf Hfuel; [lia|].
  cbn [append_values]. fin.
  destruct (offset s <? target); fin_done; [|exact I].
  apply finishes_bind.
  eapply finishes_mono; [apply get_value_finishes, data_fits|].
  intros v s1 [Ho Ho1]. cbv beta.
  apply finishes_bind. unfold finishes at 1, update_array.
  destruct (arrays s1 !! key) as [a|]; [|exact I].
  destruct (array_append a v); [|exact I].
  apply IH; cbn [offset]; lia.
Qed.

Lemma total_append_values key target :
  total (append_values (varint_fuel data) data key target).
Proof.
  intros s. apply append_values_finishes; unfold varint_fuel, len; lia.
Qed.

Lemma total_store_branch key b : total (store_branch data key b).
Proof.
  unfold store_branch.
  pose proof total_get_length. pose proof total_append_values.
  total_auto.
Qed.

Lemma total_store_value key : total (store_value data key).
Proof.
  unfold store_value.
  pose proof total_ensure_key. pose proof total_store_branch. total_auto.
Qed.

(** One pass over an entry always ends, with the entry stored or with an
    exception. *)
Lemma total_decode_entry : total (decode_entry data).
Proof.
  unfold decode_entry.
  pose proof total_get_value_of_kind. pose proof total_store_value.
  total_auto.
Qed.

End Bounded.

(** ** The loop over the entries need not end *)

Lemma looping_entry (np : bool) (A : gmap str pyarray) (I : gmap str (list Z)) :
  A !! ([97] : str) = None \/ (is_Some (A !! ([97] : str)) /\ is_Some (I !! ([97] : str))) ->
  exists A' I',
    decode_entry looping_payload (mkState 2 np A I)
    = Done [97] (mkState 2 true A' I') /\
    is_Some (A' !! ([97] : str)) /\ is_Some (I' !! ([97] : str)).
Proof.
  intros Hkey.
  assert (Hhead : decode_entry looping_payload (mkState 2 np A I)
                  = bind (store_value looping_payload [97]) (fun _ => ret [97])
                      (mkState 9 true A I)).
  { exact (decode_entry_header [97] [97] 18 13 [10; 20]
             (0x0A :: 11 :: 0x0A :: encode_varint (2^64 - 20)) np A I
             eq_refl ltac:(lia) ltac:(lia) eq_refl). }
  rewrite Hhead. clear Hhead.
  assert (Hbranch : forall A0 I0 a ix,
            A0 !! ([97] : str) = Some a -> I0 !! ([97] : str) = Some ix ->
            bind (store_branch looping_payload [97] 10)
                 (fun _ => close_example [97]) (mkState 9 true A0 I0)
            = Done tt (mkState 2 true
                         (<[ ([97] : str) := mkArray (tcode a) (raw a ++ []) ]> A0)
                         (<[ ([97] : str) := ix ++ [array_len (mkArray (tcode a) (raw a ++ []))] ]> I0))).
  { intros A0 I0 a ix Ha Hix.
    unfold store_branch. change (10 =? 10) with true. cbv iota.
    assert (Hlen : get_length looping_payload 10 (mkState 9 true A0 I0)
                   = Done (-20) (mkState 22 true A0 I0)) by reflexivity.
    unfold bind at 1 2. rewrite Hlen. run.
    change (py_slice looping_payload 22 (wrap64 (22 + -20))) with (@nil Z).
    unfold update_array; cbn [arrays offset offset_np indices]. rewrite Ha.
    unfold array_frombytes. change (len (@nil Z)) with 0.
    rewrite Z.mod_0_l by (destruct (tcode a); discriminate).
    change (0 =? 0) with true. cbv iota. run.
    unfold close_example; cbn [arrays offset offset_np indices].
    rewrite lookup_insert_eq, Hix.
    reflexivity. }
  destruct Hkey as [Hnone|[[a Ha] [ix Hix]]].
  - unfold bind at 1.
    rewrite (store_value_absent looping_payload [97] 9 10 true A I Hnone eq_refl).
    rewrite (Hbranch _ _ _ _ (lookup_insert_eq _ _ _) (lookup_insert_eq _ _ _)).
    run. do 2 eexists. split; [reflexivity|].
    rewrite !lookup_insert_eq. split; eexists; reflexivity.
  - unfold bind at 1.
    rewrite (store_value_present looping_payload [97] 9 10 true A I a Ha eq_refl).
    rewrite (Hbranch _ _ _ _ Ha Hix).
    run. do 2 eexists. split; [reflexivity|].
    rewrite !lookup_insert_eq. split; eexists; reflexivity.
Qed.

Lemma looping_entries (fuel : nat) :
  forall np A I,
    A !! ([97] : str) = None \/ (is_Some (A !! ([97] : str)) /\ is_Some (I !! ([97] : str))) ->
    decode_entries fuel looping_payload (mkState 2 np A I) = Timeout.
Proof.
  induction fuel as [|f IH]; intros np A I Hkey; [reflexivity|].
  cbn [decode_entries]. run. change (2 <? len looping_payload) with true.
  cbv beta iota.
  destruct (looping_entry np A I Hkey) as (A' & I' & -> & HA & HI).
  rewrite IH by (right; split; assumption). reflexivity.
Qed.

Lemma looping_decode_payload (fuel : nat) o np A I :
  A !! ([97] : str) = None \/
  (is_Some (A !! ([97] : str)) /\ is_Some (I !! ([97] : str))) ->
  decode_payload fuel looping_payload (mkState o np A I) = Timeout.
Proof.
  intros Hkey. unfold decode_payload.
  unfold bind at 1, modify, set_offset. cbn [arrays indices].
  assert (Henv : get_value_of_kind looping_payload 10 (mkState 0 false A I)
                 = Done 20 (mkState 2 false A I)) by reflexivity.
  unfold bind at 1. rewrite Henv.
  unfold bind at 1, gets. cbn [offset].
  unfold bind at 1, py_assert.
  change (len looping_payload - 2 =? 20) with true. cbv beta iota.
  unfold ret at 1. apply looping_entries, Hkey.
Qed.

(** Loading the one-record file with [looping_payload] does not come to an
    end, whatever the fuel. *)
Lemma load_data_loops {mem : Allocator} (fuel : nat) :
  _load_data fuel (frame looping_payload) 1 = Timeout.
Proof.
  unfold _load_data. change (Z.to_nat 1) with 1%nat. cbn [load_records].
  unfold bind at 1 2.
  assert (Hrec : read_record (mkLoad (frame looping_payload) ∅ ∅)
                 = Done looping_payload (mkLoad [] ∅ ∅)) by reflexivity.
  rewrite Hrec. unfold bind at 1, with_decoder. cbn [l_arrays l_indices].
  rewrite looping_decode_payload by (left; apply lookup_empty).
  reflexivity.
Qed.

(** ** C1: the shape of the indices *)

Lemma occurrences_concat_uniform key (log : list (list str)) :
  (forall keys, keys ∈ log -> occurrences key keys = 1%nat) ->
  occurrences key (concat log) = length log.
Proof.
  induction log as [|keys log IH]; intros H; [reflexivity|].
  cbn [concat length]. rewrite occurrences_app.
  rewrite (H keys) by (left; reflexivity).
  rewrite IH; [reflexivity|]. intros keys' Hin. apply H. right. exact Hin.
Qed.

Lemma store_ok_empty : store_ok ∅ ∅.
Proof. intros key. rewrite !lookup_empty. exact Logic.I. Qed.

(** C1 (amended). After a successful load of K records, every index in the
    store starts with 0, is non-decreasing, and has one entry per processed
    feature entry carrying its key, besides the initial 0: a zero-width
    entry still counts, a record without the key adds none, and a record
    with the key twice adds two. The index has K+1 entries when the key
    occurs exactly once in every record. *)
Theorem load_data_index_shape {mem : Allocator} (fuel : nat) (content : bytes) (items : Z)
    (A : gmap str pyarray) (I : gmap str (list Z)) (s : lstate) :
  _load_data fuel content items = Done (A, I) s ->
  exists log : list (list str),
    load_records fuel (Z.to_nat items) (mkLoad content ∅ ∅) = Done log s /\
    length log = Z.to_nat items /\
    forall key ix,
      I !! key = Some ix ->
      ix !! 0%nat = Some 0 /\
      Sorted Z.le ix /\
      length ix = S (occurrences key (concat log)) /\
      ((forall keys, keys ∈ log -> occurrences key keys = 1%nat) ->
       length ix = S (Z.to_nat items)).
Proof.
  unfold _load_data, bind, gets. intros Hload.
  pose proof (load_records_count fuel (Z.to_nat items) (mkLoad content ∅ ∅)
                store_ok_empty) as Hcount.
  pose proof (steps_load_records fuel (Z.to_nat items) (mkLoad content ∅ ∅))
    as Hgrows.
  unfold wp in Hcount, Hgrows.
  destruct (load_records fuel (Z.to_nat items) (mkLoad content ∅ ∅))
    as [log s'|e s'|]; [|discriminate..].
  injection Hload as HA HI Hs. subst s' A I.
  destruct Hcount as [Hlen Hcount].
  destruct (Hgrows store_ok_empty) as [_ Hok].
  exists log. split; [reflexivity|]. split; [exact Hlen|].
  intros key ix Hix. specialize (Hok key). rewrite Hix in Hok.
  destruct (l_arrays s !! key) as [a|]; [|contradiction].
  destruct Hok as (H0 & Hsorted & _).
  assert (length ix = S (occurrences key (concat log))) as Hn.
  { specialize (Hcount key). unfold index_length in Hcount.
    cbn [l_indices] in Hcount. rewrite Hix, lookup_empty in Hcount. lia. }
  repeat split; try assumption.
  intros Huniform. rewrite Hn, occurrences_concat_uniform by assumption. lia.
Qed.

Lemma two_keys_loaded {mem : Allocator} :
  _load_data 4 two_keys_file 2
  = Done (two_keys_arrays, two_keys_indices)
         (mkLoad [] two_keys_arrays two_keys_indices).
Proof. vm_compute. reflexivity. Qed.

Lemma load_data_index_shape_witness :
  exists log : list (list str),
    load_records 4 2 (mkLoad two_keys_file ∅ ∅)
    = Done log (mkLoad [] two_keys_arrays two_keys_indices) /\
    length log = 2%nat /\
    forall key ix,
      two_keys_indices !! key = Some ix ->
      ix !! 0%nat = Some 0 /\
      Sorted Z.le ix /\
      length ix = S (occurrences key (concat log)) /\
      ((forall keys, keys ∈ log -> occurrences key keys = 1%nat) ->
       length ix = 3%nat).
Proof.
  apply (load_data_index_shape 4 two_keys_file 2 two_keys_arrays
           two_keys_indices (mkLoad [] two_keys_arrays two_keys_indices)).
  vm_compute. reflexivity.
Defined.

(** C1 as stated fails on that file: each index has two entries, not
    three. *)
Lemma one_index_entry_per_record_two_keys :
  ~ one_index_entry_per_record 4 two_keys_file 2.
Proof.
  intros H.
  specialize (H two_keys_arrays two_keys_indices
                (mkLoad [] two_keys_arrays two_keys_indices)
                two_keys_loaded [97] [0; 0] ltac:(vm_compute; reflexivity)).
  destruct H as [H _]. cbn in H. discriminate H.
Qed.

(** ** C2: varint round trip *)

(** C2 (amended). Encoding an unsigned 64-bit value [v] with the base-128
    continuation-bit scheme and decoding it with [get_value] yields [v]
    exactly whenever [v < 2^63], that is for every encoding of one to nine
    bytes. The ten-byte encodings are those of [2^63 <= v < 2^64]: the
    reader's result is a signed [np.int64], so it returns [v - 2^64] when
    [offset] is an [np.int64], and raises [OverflowError] at the tenth byte
    while [offset] is still a Python integer. *)
Theorem get_value_roundtrip (v : Z) (np : bool) :
  0 <= v < 2^64 ->
  (v < 2^63 -> varint_roundtrip np v) /\
  (2^63 <= v ->
   forall (pre rest : bytes) (A : gmap str pyarray) (I : gmap str (list Z)),
     len (pre ++ encode_varint v ++ rest) < 2^63 ->
     get_value (pre ++ encode_varint v ++ rest) (mkState (len pre) np A I)
     = if np then Done (v - 2^64) (mkState (len pre + 10) true A I)
       else Raised OverflowError (mkState (len pre + 9) false A I)) /\
  (length (encode_varint v) = 10%nat <-> 2^63 <= v).
Proof.
  intros Hv. split; [|split].
  - intros Hlt pre rest A I Hlen.
    rewrite get_value_encoded by assumption. unfold decoded.
    destruct (Z.ltb_spec v (2^63)); [reflexivity|lia].
  - intros Hge pre rest A I Hlen.
    rewrite get_value_encoded by assumption. unfold decoded.
    destruct (Z.ltb_spec v (2^63)); [lia|].
    assert (len (encode_varint v) = 10) as ->
      by (unfold len; rewrite (proj2 (encode_varint_ten_bytes v ltac:(lia)) Hge);
          reflexivity).
    destruct np; reflexivity.
  - apply encode_varint_ten_bytes. lia.
Qed.

Lemma get_value_roundtrip_witness :
  0 <= 300 < 2^64 /\ 300 < 2^63 /\ varint_roundtrip true 300.
Proof.
  split; [lia|]. split; [lia|].
  apply (get_value_roundtrip 300 true); lia.
Defined.

(** The boundary encodings of one, two, five, nine and ten bytes. *)
Example encode_varint_boundaries :
  encode_varint 127 = [127] /\
  encode_varint 128 = [128; 1] /\
  length (encode_varint (2^35 - 1)) = 5%nat /\
  length (encode_varint (2^63 - 1)) = 9%nat /\
  length (encode_varint (2^64 - 1)) = 10%nat.
Proof. repeat split. Qed.

(** C2 as stated fails at the ten-byte boundary: the largest unsigned
    64-bit value does not come back, in either state of [offset]. *)
Lemma get_value_roundtrip_u64_max :
  ~ varint_roundtrip true (2^64 - 1) /\ ~ varint_roundtrip false (2^64 - 1).
Proof.
  split; intros H; specialize (H [] [] ∅ ∅ ltac:(vm_compute; reflexivity));
    vm_compute in H; discriminate H.
Qed.

(** ** C3: the kind of a key's buffer *)

(** Packed varints of which one does not fit the buffer: those before it
    are appended, and the [append] of that one raises. *)
Lemma append_values_overflow (key : str) (rest : bytes) (np : bool)
    (I : gmap str (list Z)) (v : Z) (vs2 : list Z) :
  forall (vs1 : list Z) (pre : bytes) (A : gmap str pyarray) (a a1 : pyarray)
         (fuel : nat),
    A !! key = Some a ->
    Forall (fun v => 0 <= v < 2^63) (vs1 ++ v :: vs2) ->
    array_extend a vs1 = Some a1 ->
    array_append a1 v = None ->
    (length vs1 < fuel)%nat ->
    len (pre ++ concat (encode_varint <$> (vs1 ++ v :: vs2)) ++ rest) < 2^63 ->
    append_values fuel (pre ++ concat (encode_varint <$> (vs1 ++ v :: vs2)) ++ rest)
      key (len pre + len (concat (encode_varint <$> (vs1 ++ v :: vs2))))
      (mkState (len pre) np A I)
    = Raised OverflowError
        (mkState (len pre + len (concat (encode_varint <$> vs1))
                  + len (encode_varint v)) np (<[key := a1]> A) I).
Proof.
  induction vs1 as [|w vs1 IH]; intros pre A a a1 fuel Hkey Hvs Hext Hfail Hfuel Hlen;
    (destruct fuel as [|fuel]; [cbn [length] in Hfuel; lia|]);
    cbn [append_values]; unfold bind at 1; unfold gets at 1; cbn [offset];
    cbn [app] in *; rewrite fmap_cons in *; cbn [concat] in *;
    inversion Hvs as [|? ? Hw Hvs']; subst;
    rewrite len_app;
    pose proof (len_nonneg (concat (encode_varint <$> vs2)));
    pose proof (len_nonneg pre); pose proof (len_nonneg rest).
  - injection Hext as <-.
    pose proof (encode_varint_nonempty v).
    destruct (Z.ltb_spec (len pre)
                (len pre + (len (encode_varint v)
                            + len (concat (encode_varint <$> vs2))))); [|lia].
    rewrite <- app_assoc in *.
    unfold bind at 1. rewrite get_value_small by assumption.
    unfold bind at 1. unfold update_array at 1. cbn [arrays indices offset offset_np].
    rewrite Hkey, Hfail, insert_id by exact Hkey.
    change (len (concat (encode_varint <$> []))) with 0. rewrite Z.add_0_r.
    reflexivity.
  - cbn [array_extend] in Hext.
    destruct (array_append a w) as [a2|] eqn:Ha2; [|discriminate].
    pose proof (encode_varint_nonempty w).
    pose proof (len_nonneg (concat (encode_varint <$> (vs1 ++ v :: vs2)))).
    destruct (Z.ltb_spec (len pre)
                (len pre + (len (encode_varint w)
                            + len (concat (encode_varint <$> (vs1 ++ v :: vs2))))));
      [|lia].
    rewrite <- app_assoc in *.
    unfold bind at 1. rewrite get_value_small by assumption.
    unfold bind at 1. unfold update_array at 1. cbn [arrays indices offset offset_np].
    rewrite Hkey, Ha2.
    replace (pre ++ encode_varint w
             ++ concat (encode_varint <$> (vs1 ++ v :: vs2)) ++ rest)
      with ((pre ++ encode_varint w)
            ++ concat (encode_varint <$> (vs1 ++ v :: vs2)) ++ rest) in *
      by (rewrite <- app_assoc; reflexivity).
    replace (len pre + len (encode_varint w)) with (len (pre ++ encode_varint w))
      by (rewrite len_app; reflexivity).
    replace (len pre + (len (encode_varint w)
                        + len (concat (encode_varint <$> (vs1 ++ v :: vs2)))))
      with (len (pre ++ encode_varint w)
            + len (concat (encode_varint <$> (vs1 ++ v :: vs2))))
      by (rewrite len_app; lia).
    rewrite (IH (pre ++ encode_varint w) (<[key := a2]> A) a2 a1 fuel);
      try assumption.
    + rewrite insert_insert_eq. do 2 f_equal.
      rewrite fmap_cons. cbn [concat]. rewrite !len_app. lia.
    + apply lookup_insert_eq.
    + cbn [length] in Hfuel. lia.
Qed.

(** The whole value: both headers are read, the integers that fit are
    appended, and the example is not closed. *)
Lemma store_value_overflow (key : str) (vs1 : list Z) (v : Z) (vs2 : list Z)
    (pre rest : bytes) (np : bool)
    (A : gmap str pyarray) (I : gmap str (list Z)) (a a1 : pyarray) :
  A !! key = Some a ->
  Forall (fun v => 0 <= v < 2^63) (vs1 ++ v :: vs2) ->
  array_extend a vs1 = Some a1 ->
  array_append a1 v = None ->
  len (pre ++ int64_value (vs1 ++ v :: vs2) ++ rest) < 2^63 ->
  exists o,
    store_value (pre ++ int64_value (vs1 ++ v :: vs2) ++ rest) key
      (mkState (len pre) np A I)
    = Raised OverflowError (mkState o np (<[key := a1]> A) I).
Proof.
  intros Hkey Hvs Hext Hfail Hlen.
  rewrite (store_value_present _ key _ 0x1A np A I a Hkey)
    by (unfold int64_value; rewrite tagged_app; apply py_getitem_middle).
  unfold bind at 1. unfold int64_value in *.
  set (packed := concat (encode_varint <$> (vs1 ++ v :: vs2))) in *.
  pose proof (length_concat_encode (vs1 ++ v :: vs2)) as Hn. fold packed in Hn.
  rewrite (tagged_app 0x1A (tagged 0x0A packed)) in *.
  rewrite (tagged_app 0x0A packed) in *.
  pose proof (len_nonneg pre). pose proof (len_nonneg packed).
  pose proof (len_nonneg rest).
  pose proof (encode_varint_nonempty (len (tagged 10 packed))).
  pose proof (encode_varint_nonempty (len packed)).
  pose proof (len_tagged 10 packed) as Ht.
  pose proof (len_tagged 26 (tagged 10 packed)) as Htt.
  assert (len pre + (1 + (len (encode_varint (len (tagged 10 packed)))
          + (1 + (len (encode_varint (len packed)) + (len packed + len rest)))))
          < 2^63)
    as Hlen' by (repeat (rewrite len_app in Hlen || rewrite len_cons in Hlen); exact Hlen).
  unfold store_branch. change (26 =? 10) with false. change (26 =? 26) with true.
  cbn iota.
  unfold bind at 1. rewrite get_length_two_headers by (assumption || lia).
  unfold bind at 1. unfold gets at 1. cbn [offset].
  set (p := len pre + 1 + len (encode_varint (len (tagged 10 packed))) + 1
            + len (encode_varint (len packed))).
  rewrite wrap64_id by (subst p; lia).
  set (pre' := pre ++ 26 :: encode_varint (len (tagged 10 packed))
               ++ 10 :: encode_varint (len packed)).
  assert (pre ++ 26 :: encode_varint (len (tagged 10 packed))
          ++ 10 :: encode_varint (len packed) ++ packed ++ rest
          = pre' ++ packed ++ rest) as Hdata
    by (subst pre'; rewrite <- !app_assoc; cbn [app]; rewrite <- !app_assoc;
        reflexivity).
  assert (p = len pre') as Hp
    by (subst p pre'; repeat (rewrite len_app || rewrite len_cons); lia).
  rewrite Hdata in *. rewrite Hp. subst packed.
  rewrite (append_values_overflow key rest np I v vs2 vs1 pre' A a a1);
    try assumption.
  - eexists. reflexivity.
  - unfold varint_fuel. rewrite !length_app in *. cbn [length] in *. lia.
Qed.

(** C3 (amended). The buffer of a key is created with the kind given by the
    first dispatch byte seen for the key and keeps that kind, and all it
    holds, to the end of the load. A later occurrence of the key is not
    compared with that kind: a byte string is appended to the buffer as it
    is, provided its length is a multiple of the buffer's item size
    ([ValueError] otherwise), and packed integers are appended one by one,
    each converted to the buffer's element type, as long as they fit
    ([array_extend]): at the first that does not, the load stops with
    [OverflowError], those before it appended and the example left
    open. *)
Theorem kind_fixed_not_checked {mem : Allocator} :
  (forall (data : bytes) (key : str) (o b : Z) (np : bool)
          (A : gmap str pyarray) (I : gmap str (list Z)) (s' : dstate),
     store_ok A I -> A !! key = None -> py_getitem data o = Some b ->
     ends_in (store_value data key (mkState o np A I)) s' ->
     exists a', arrays s' !! key = Some a' /\ tcode a' = typecode_of_tag b) /\
  (forall (fuel items : nat) (s s' : lstate),
     store_ok (l_arrays s) (l_indices s) ->
     ends_in (load_records fuel items s) s' ->
     forall key a,
       l_arrays s !! key = Some a ->
       exists a', l_arrays s' !! key = Some a' /\
                  tcode a' = tcode a /\ raw a `prefix_of` raw a') /\
  (forall (key : str) (bs pre rest : bytes) (np : bool)
          (A : gmap str pyarray) (I : gmap str (list Z))
          (a : pyarray) (ix : list Z),
     A !! key = Some a -> I !! key = Some ix ->
     len (pre ++ bytes_value bs ++ rest) < 2^63 ->
     store_value (pre ++ bytes_value bs ++ rest) key (mkState (len pre) np A I)
     = if len bs mod itemsize (tcode a) =? 0 then
         let a' := mkArray (tcode a) (raw a ++ bs) in
         Done tt (mkState (len pre + len (bytes_value bs)) true
                    (<[key := a']> A) (<[key := ix ++ [array_len a']]> I))
       else
         Raised (ValueError NotMultipleOfItemSize)
           (mkState (len pre + len (bytes_value bs) - len bs) np A I)) /\
  (forall (key : str) (vs : list Z) (pre rest : bytes) (np : bool)
          (A : gmap str pyarray) (I : gmap str (list Z))
          (a a' : pyarray) (ix : list Z),
     A !! key = Some a -> I !! key = Some ix ->
     Forall (fun v => 0 <= v < 2^63) vs ->
     array_extend a vs = Some a' ->
     len (pre ++ int64_value vs ++ rest) < 2^63 ->
     store_value (pre ++ int64_value vs ++ rest) key (mkState (len pre) np A I)
     = Done tt (mkState (len pre + len (int64_value vs)) np
                  (<[key := a']> A) (<[key := ix ++ [array_len a']]> I))) /\
  (forall (key : str) (vs1 : list Z) (v : Z) (vs2 : list Z) (pre rest : bytes)
          (np : bool) (A : gmap str pyarray) (I : gmap str (list Z))
          (a a1 : pyarray),
     A !! key = Some a ->
     Forall (fun v => 0 <= v < 2^63) (vs1 ++ v :: vs2) ->
     array_extend a vs1 = Some a1 ->
     array_append a1 v = None ->
     len (pre ++ int64_value (vs1 ++ v :: vs2) ++ rest) < 2^63 ->
     exists o,
       store_value (pre ++ int64_value (vs1 ++ v :: vs2) ++ rest) key
         (mkState (len pre) np A I)
       = Raised OverflowError (mkState o np (<[key := a1]> A) I)) /\
  (forall (a : pyarray) (v : Z),
     array_append a v = None <-> tcode a = TC_B /\ ~ (0 <= v <= 255)).
Proof.
  split; [|split; [|split; [|split; [|split]]]].
  - intros data key o b np A I s' Hok Hkey Hb Hend.
    rewrite (store_value_absent data key o b np A I Hkey Hb) in Hend.
    set (s1 := mkState o np (<[key := mkArray (typecode_of_tag b) []]> A)
                 (<[key := [0]]> I)) in *.
    assert (store_ok (arrays s1) (indices s1)) as Hok1.
    { subst s1. cbn [arrays indices]. apply store_ok_insert_new; assumption. }
    assert (steps grows (bind (store_branch data key b)
                           (fun _ => close_example key))) as Hsteps
      by (apply steps_bind;
          [apply _|apply steps_store_branch_grows
          |intros _; apply steps_close_example]).
    specialize (Hsteps s1). unfold wp in Hsteps.
    assert (grows s1 s') as Hg
      by (destruct (bind _ _ s1); cbn in Hend; [subst; exact Hsteps..|contradiction]).
    destruct (Hg Hok1) as [[Hext _] _].
    destruct (Hext key (mkArray (typecode_of_tag b) []))
      as (a' & Ha' & Hkind & _); [apply lookup_insert_eq|].
    exists a'. split; assumption.
  - intros fuel items s s' Hok Hend key a Hkey.
    pose proof (steps_load_records fuel items s) as Hsteps. unfold wp in Hsteps.
    assert (l_grows s s') as Hg
      by (destruct (load_records fuel items s); cbn in Hend;
          [subst; exact Hsteps..|contradiction]).
    destruct (Hg Hok) as [[Hext _] _].
    destruct (Hext key a Hkey) as (a' & Ha' & Hkind & Hraw).
    exists a'. auto.
  - intros key bs pre rest np A I a ix Hkey Hix Hlen.
    rewrite (store_value_bytes key bs pre rest np A I a ix Hkey Hix Hlen).
    unfold array_frombytes. destruct (_ =? 0); reflexivity.
  - intros. apply (store_value_ints key vs pre rest np A I a a' ix); assumption.
  - intros. apply (store_value_overflow key vs1 v vs2 pre rest np A I a a1);
      assumption.
  - intros a v. unfold array_append.
    destruct (tcode a); [|split; [discriminate|intros [? _]; discriminate]..].
    destruct (Z.leb_spec 0 v), (Z.leb_spec v 255); cbn [andb]; split;
      first [discriminate
            |intros [_ Hv]; exfalso; apply Hv; lia
            |intros _; split; [reflexivity|lia]
            |intros _; reflexivity].
Qed.

Lemma kind_fixed_not_checked_witness :
  store_value ([] ++ int64_value [3; 1; 4] ++ []) [97]
    (mkState (len (@nil Z)) true {[ [97] := mkArray TC_B [3; 1; 4] ]}
       {[ [97] := [0; 3] ]})
  = Done tt
      (mkState (len (@nil Z) + len (int64_value [3; 1; 4])) true
         (<[ [97] := mkArray TC_B [3; 1; 4; 3; 1; 4] ]>
            {[ [97] := mkArray TC_B [3; 1; 4] ]})
         (<[ [97] := [0; 3] ++ [array_len (mkArray TC_B [3; 1; 4; 3; 1; 4])] ]>
            {[ [97] := [0; 3] ]})).
Proof.
  apply (proj1 (proj2 (proj2 (proj2 kind_fixed_not_checked))) [97] [3; 1; 4] [] [] true
           {[ [97] := mkArray TC_B [3; 1; 4] ]} {[ [97] := [0; 3] ]}
           (mkArray TC_B [3; 1; 4]) (mkArray TC_B [3; 1; 4; 3; 1; 4]) [0; 3]).
  - reflexivity.
  - reflexivity.
  - repeat constructor; lia.
  - reflexivity.
  - vm_compute. reflexivity.
Defined.

(** The whole load of such a file: the integers of the second record end up
    as bytes in the buffer the first record created. *)
Example mixed_kinds_loaded {mem : Allocator} :
  _load_data 4
    (frame (payload [entry [97] (bytes_value [3; 1; 4])])
     ++ frame (payload [entry [97] (int64_value [3; 1; 4])])) 2
  = Done ({[ [97] := mkArray TC_B [3; 1; 4; 3; 1; 4] ]}, {[ [97] := [0; 3; 6] ]})
      (mkLoad [] {[ [97] := mkArray TC_B [3; 1; 4; 3; 1; 4] ]}
         {[ [97] := [0; 3; 6] ]}).
Proof. vm_compute. reflexivity. Qed.

(** C3 as stated fails on that file: the load succeeds. *)
Lemma mixed_kinds_rejected_bytes_then_ints :
  ~ mixed_kinds_rejected 4 [97] [3; 1; 4] [3; 1; 4].
Proof.
  intros (e & s & H). rewrite mixed_kinds_loaded in H. discriminate H.
Qed.

(** ** C4: the headers of a value *)

(** C4 (amended). Whatever the dispatch byte [t], the decoder reads the
    header that follows it; when that header's value is non-zero it reads a
    second header (tag [0x0A] and a varint) and takes its value as the
    length of the value data; when the first header's value is zero, no
    second header is read and the length is zero. In the bytes branch the
    raw bytes announced by the second header, all present in the payload,
    are appended to the key's Bytes buffer, exactly as many as declared. *)
Theorem value_headers (t : Z) (np : bool) (pre rest : bytes)
    (A : gmap str pyarray) (I : gmap str (list Z)) :
  (forall v1 v2,
     0 < v1 < 2^63 -> 0 <= v2 < 2^63 ->
     len (pre ++ t :: encode_varint v1 ++ 0x0A :: encode_varint v2 ++ rest) < 2^63 ->
     get_length (pre ++ t :: encode_varint v1 ++ 0x0A :: encode_varint v2 ++ rest)
       t (mkState (len pre) np A I)
     = Done v2 (mkState (len pre + 1 + len (encode_varint v1)
                         + 1 + len (encode_varint v2)) np A I)) /\
  (len (pre ++ t :: 0 :: rest) < 2^63 ->
   get_length (pre ++ t :: 0 :: rest) t (mkState (len pre) np A I)
   = Done 0 (mkState (len pre + 2) np A I)) /\
  (forall key bs a ix,
     A !! key = Some a -> tcode a = TC_B -> I !! key = Some ix ->
     len (pre ++ bytes_value bs ++ rest) < 2^63 ->
     store_value (pre ++ bytes_value bs ++ rest) key (mkState (len pre) np A I)
     = Done tt (mkState (len pre + len (bytes_value bs)) true
                  (<[key := mkArray TC_B (raw a ++ bs)]> A)
                  (<[key := ix ++ [len (raw a) + len bs]]> I))).
Proof.
  split; [|split].
  - intros v1 v2 Hv1 Hv2 Hlen. apply get_length_two_headers; assumption.
  - apply get_length_one_header.
  - intros key bs a ix Hkey Hkind Hix Hlen.
    rewrite (store_value_present _ key _ 0x0A np A I a Hkey)
      by (unfold bytes_value; rewrite tagged_app; apply py_getitem_middle).
    unfold bind. rewrite (store_branch_bytes key bs pre rest np A I a Hkey Hlen).
    unfold array_frombytes. rewrite Hkind. cbn [itemsize].
    rewrite Z.mod_1_r. cbn [Z.eqb].
    unfold close_example. cbn [arrays indices offset offset_np].
    rewrite lookup_insert_eq, Hix.
    unfold array_len. cbn [raw tcode itemsize].
    rewrite Z.div_1_r, len_app. reflexivity.
Qed.

Lemma value_headers_witness :
  (len [0x1A; 0] < 2^63 /\
   get_length [0x1A; 0] 0x1A (mkState 0 true ∅ ∅)
   = Done 0 (mkState 2 true ∅ ∅)) /\
  (0 < 5 < 2^63 /\ 0 <= 3 < 2^63 /\
   get_length [0x1A; 5; 0x0A; 3; 3; 1; 4] 0x1A (mkState 0 true ∅ ∅)
   = Done 3 (mkState 4 true ∅ ∅)).
Proof.
  split.
  - split; [vm_compute; reflexivity|].
    exact (proj1 (proj2 (value_headers 0x1A true [] [] ∅ ∅))
             ltac:(vm_compute; reflexivity)).
  - split; [lia|]. split; [lia|].
    exact (proj1 (value_headers 0x1A true [] [3; 1; 4] ∅ ∅) 5 3
             ltac:(lia) ltac:(lia) ltac:(vm_compute; reflexivity)).
Defined.

(** C4 as stated fails on the empty value [1A 00], the encoding of a record
    without marks: the one header is all that is read, and no second header
    follows it. *)
Lemma two_headers_consumed_empty_value :
  ~ two_headers_consumed (empty_value 0x1A) 0x1A (mkState 0 true ∅ ∅).
Proof.
  intros H.
  destruct (H 0 (mkState 2 true ∅ ∅) ltac:(vm_compute; reflexivity))
    as (v1 & s1 & H1 & H2).
  vm_compute in H1. injection H1 as <- <-.
  vm_compute in H2. discriminate H2.
Qed.

(** ** C5: the scores of the edit-distance metric *)

(** C5 (amended). When an ignore token is configured it is removed from the
    predicted and from the gold sequence before the distance is computed;
    the score of an example is the Levenshtein distance of the filtered
    sequences divided by max(length of the filtered gold, 1); [compute] returns the arithmetic
    mean of the recorded scores, and [evaluate] 100 times it. With a gold
    sequence that is empty after filtering, the score is the length of the
    filtered prediction: the prediction's own length when no ignore token
    is configured or the prediction does not contain it. The scores
    0, 0, 1, 1 give the mean 1/2, and 50 as a percentage. *)
Theorem edit_distance_scores {T : Type} `{EqDecision T}
    (ignore_index : option T) :
  (forall y_pred y_true,
     example_score ignore_index y_pred y_true
     = (Qc_of_nat (levenshtein (drop_ignored ignore_index y_pred)
                     (drop_ignored ignore_index y_true))
        / Qc_of_nat (Nat.max (length (drop_ignored ignore_index y_true)) 1))%Qc) /\
  (forall ig y, ignore_index = Some ig ->
     (ig ∉ drop_ignored ignore_index y) /\
     (forall x, x <> ig -> (x ∈ drop_ignored ignore_index y <-> x ∈ y))) /\
  (forall y_preds y_trues,
     let scores := edit_distances ignore_index y_preds y_trues in
     scores <> [] ->
     compute (update y_preds y_trues (EditDistanceMetric_init ignore_index))
     = Some (Qc_sum scores / Qc_of_nat (length scores))%Qc) /\
  (forall y_pred y_true,
     drop_ignored ignore_index y_true = [] ->
     example_score ignore_index y_pred y_true
     = Qc_of_nat (length (drop_ignored ignore_index y_pred))) /\
  (forall y_pred,
     (ignore_index = None \/
      exists ig, ignore_index = Some ig /\ (ig ∉ y_pred)) ->
     example_score ignore_index y_pred [] = Qc_of_nat (length y_pred)) /\
  (forall scores,
     scores = [Qc_of_nat 0; Qc_of_nat 0; Qc_of_nat 1; Qc_of_nat 1] ->
     compute (MeanMetric_update scores (EditDistanceMetric_init ignore_index))
     = Some (Qc_of_nat 1 / Qc_of_nat 2)%Qc /\
     (Qc_of_nat 100 * (Qc_of_nat 1 / Qc_of_nat 2))%Qc = Qc_of_nat 50).
Proof.
  assert (forall y_pred y_true,
            drop_ignored ignore_index y_true = [] ->
            example_score ignore_index y_pred y_true
            = Qc_of_nat (length (drop_ignored ignore_index y_pred))) as Hempty.
  { intros y_pred y_true Hnil. unfold example_score. rewrite Hnil.
    rewrite edit_distance_nil_r. cbn [len_or_1 length Nat.eqb].
    change (Qc_of_nat 1) with 1%Qc. unfold Qcdiv.
    change (/ 1)%Qc with 1%Qc. apply Qcmult_1_r. }
  split; [|split; [|split; [|split; [|split]]]].
  - intros y_pred y_true. unfold example_score.
    rewrite len_or_1_max, edit_distance_levenshtein. reflexivity.
  - intros ig y ->. cbn [drop_ignored]. split.
    + rewrite list_elem_of_In, filter_In. intros [_ Hig].
      rewrite bool_decide_eq_true_2 in Hig by reflexivity. discriminate.
    + intros x Hx. rewrite !list_elem_of_In, filter_In.
      rewrite bool_decide_eq_false_2 by assumption. tauto.
  - intros y_preds y_trues scores Hne. subst scores. rewrite update_spec.
    unfold compute.
    cbn [EditDistanceMetric_init _ignore_index mean_value weight].
    rewrite !Qcplus_0_l.
    destruct (decide (Qc_of_nat (length (edit_distances ignore_index y_preds y_trues))
                      = 0%Qc)) as [Hz|_]; [|reflexivity].
    apply Qc_of_nat_nonzero in Hz; [contradiction|].
    destruct (edit_distances ignore_index y_preds y_trues);
      [contradiction|discriminate].
  - exact Hempty.
  - intros y_pred Hig. rewrite Hempty.
    + destruct Hig as [->|(ig & -> & Hnotin)]; [reflexivity|].
      cbn [drop_ignored]. f_equal. f_equal.
      induction y_pred as [|y ys IH]; [reflexivity|].
      cbn [List.filter].
      rewrite bool_decide_eq_false_2 by (intros ->; apply Hnotin; left).
      cbn [negb]. f_equal. apply IH. intros Hin. apply Hnotin. right. exact Hin.
    + destruct ignore_index; reflexivity.
  - intros scores ->. split; [|apply Qc_is_canon; reflexivity].
    unfold compute, MeanMetric_update.
    cbn [EditDistanceMetric_init _ignore_index mean_value weight length].
    destruct (decide ((0 + Qc_of_nat 4)%Qc = 0%Qc)) as [Hz|_].
    + apply (f_equal this) in Hz. vm_compute in Hz. discriminate Hz.
    + f_equal. apply Qc_is_canon. reflexivity.
Qed.

Lemma edit_distance_scores_witness :
  edit_distances None [[1; 2]; [3]; [1]; []] [[1; 2]; [3]; [2]; [5]] <> [] /\
  compute (update [[1; 2]; [3]; [1]; []] [[1; 2]; [3]; [2]; [5]]
             (EditDistanceMetric_init None))
  = Some (Qcdiv
            (Qc_sum (edit_distances None [[1; 2]; [3]; [1]; []]
                       [[1; 2]; [3]; [2]; [5]]))
            (Qc_of_nat (length (edit_distances None [[1; 2]; [3]; [1]; []]
                                  [[1; 2]; [3]; [2]; [5]])))).
Proof.
  split; [cbn [edit_distances]; discriminate|].
  exact (proj1 (proj2 (proj2 (edit_distance_scores (T := Z) None)))
           [[1; 2]; [3]; [1]; []] [[1; 2]; [3]; [2]; [5]]
           ltac:(cbn [edit_distances]; discriminate)).
Defined.

(** The four scores of that example are 0, 0, 1 and 1. *)
Example edit_distance_scores_0011 :
  this <$> edit_distances None [[1; 2]; [3]; [1]; []] [[1; 2]; [3]; [2]; [5]]
  = [0; 0; 1; 1]%Q.
Proof. vm_compute. reflexivity. Qed.

(** C5 as stated fails where the prediction contains the ignore token: with
    token 0 ignored, the prediction [0; 1] scores 1 against an empty gold
    sequence, not its length 2. *)
Lemma empty_gold_scores_length_ignored :
  ~ empty_gold_scores_length (Some 0) [0; 1].
Proof.
  intros H. specialize (H ltac:(discriminate)).
  apply (f_equal this) in H. vm_compute in H. discriminate H.
Qed.

(** ** C6: an unsupported value tag *)

(** C6. When the byte at a value union is none of [0x0A], [0x1A], [0x12],
    decoding raises [ValueError("Unsupported data tag b")] with that byte,
    wherever the decoder stands in the payload and whatever the store holds;
    at the raise every buffer and index already in the store is as it was
    (a key seen for the first time has just received its empty buffer and
    its index [[0]]). The exception leaves the record loop unchanged, and
    no failed load ever shortens or rewrites what the store held. *)
Theorem unsupported_tag_raises {mem : Allocator} (fuel : nat) (kb : bytes) (key : str)
    (e u b : Z) (pre rest : bytes) (np : bool)
    (A : gmap str pyarray) (I : gmap str (list Z)) :
  utf8_decode kb = Some key ->
  0 <= e < 2^63 -> 0 <= u < 2^63 ->
  b <> 0x0A -> b <> 0x1A -> b <> 0x12 ->
  len (pre ++ 0x0A :: encode_varint e ++ tagged 0x0A kb
       ++ 0x12 :: encode_varint u ++ b :: rest) < 2^63 ->
  (forall data o, py_getitem data o = Some b ->
     exists s',
       store_value data key (mkState o np A I)
       = Raised (ValueError (UnsupportedDataTag b)) s' /\
       forall k, is_Some (A !! k) ->
                 arrays s' !! k = A !! k /\ indices s' !! k = I !! k) /\
  (exists s',
     decode_entries (S fuel)
       (pre ++ 0x0A :: encode_varint e ++ tagged 0x0A kb
        ++ 0x12 :: encode_varint u ++ b :: rest) (mkState (len pre) np A I)
     = Raised (ValueError (UnsupportedDataTag b)) s' /\
     forall k, is_Some (A !! k) ->
               arrays s' !! k = A !! k /\ indices s' !! k = I !! k) /\
  (forall items more,
     pre = 0x0A :: encode_varint
                     (len (0x0A :: encode_varint e ++ tagged 0x0A kb
                           ++ 0x12 :: encode_varint u ++ b :: rest)) ->
     exists s',
       _load_data (S fuel)
         (frame (pre ++ 0x0A :: encode_varint e ++ tagged 0x0A kb
                 ++ 0x12 :: encode_varint u ++ b :: rest) ++ more)
         (Z.of_nat (S items))
       = Raised (ValueError (UnsupportedDataTag b)) s' /\
       file s' = more /\
       l_arrays s' = {[ key := mkArray TC_B [] ]} /\
       l_indices s' = {[ key := [0] ]}) /\
  (forall items (s s' : lstate) (err : exn),
     store_ok (l_arrays s) (l_indices s) ->
     load_records fuel items s = Raised err s' ->
     store_extends (l_arrays s) (l_indices s) (l_arrays s') (l_indices s')).
Proof.
  intros Hkey He Hu H1 H2 H3 Hlen. split; [|split; [|split]].
  - intros data o Hb.
    rewrite (store_value_unsupported data key o b np A I Hb H1 H2 H3).
    eexists. split; [reflexivity|].
    intros k [a Hk]. destruct (A !! key) as [a0|] eqn:HA; cbn [arrays indices].
    + split; reflexivity.
    + assert (key <> k) by (intros ->; congruence).
      rewrite !lookup_insert_ne by assumption. split; reflexivity.
  - rewrite (decode_entries_unsupported fuel kb key e u b pre rest np A I)
      by assumption.
    cbv zeta.
    eexists. split; [reflexivity|].
    intros k [a Hk]. destruct (A !! key) as [a0|] eqn:HA; cbn [arrays indices].
    + split; reflexivity.
    + assert (key <> k) by (intros ->; congruence).
      rewrite !lookup_insert_ne by assumption. split; reflexivity.
  - intros items more ->.
    set (body := 0x0A :: encode_varint e ++ tagged 0x0A kb
                 ++ 0x12 :: encode_varint u ++ b :: rest) in *.
    change ((10 :: encode_varint (len body)) ++ body) with (tagged 10 body) in *.
    destruct (decode_payload_unsupported fuel kb key e u b rest
                (mkState 0 false ∅ ∅) Hkey He Hu H1 H2 H3 Hlen) as [o Hdec].
    fold body in Hdec. cbn [arrays indices] in Hdec.
    rewrite lookup_empty in Hdec.
    unfold _load_data. rewrite Nat2Z.id.
    unfold bind at 1.
    rewrite (load_records_raise_decode (S fuel) items
               (mkLoad (frame (tagged 10 body) ++ more) ∅ ∅)
               (mkLoad more ∅ ∅) (tagged 10 body) _ _
               (read_record_framed (tagged 10 body) more ∅ ∅ ltac:(lia)) Hdec).
    eexists. split; [reflexivity|]. cbn [file l_arrays l_indices arrays indices].
    repeat split; reflexivity.
  - intros items s s' err Hok Hload.
    pose proof (steps_load_records fuel items s) as Hg. unfold wp in Hg.
    rewrite Hload in Hg. destruct (Hg Hok) as [Hext _]. exact Hext.
Qed.

Lemma unsupported_tag_raises_witness :
  exists s',
    decode_entries 1 [0x0A; 9; 0x0A; 7; 0x0A; 1; 97; 0x12; 2; 0xFF; 0]
      (mkState 2 false {[ [98] := mkArray TC_B [1; 2] ]} {[ [98] := [0; 2] ]})
    = Raised (ValueError (UnsupportedDataTag 0xFF)) s' /\
    forall k, is_Some (({[ [98] := mkArray TC_B [1; 2] ]} : gmap str pyarray) !! k) ->
              arrays s' !! k
              = ({[ [98] := mkArray TC_B [1; 2] ]} : gmap str pyarray) !! k /\
              indices s' !! k = ({[ [98] := [0; 2] ]} : gmap str (list Z)) !! k.
Proof.
  exact (proj1 (proj2 (unsupported_tag_raises 0 [97] [97] 7 2 0xFF [0x0A; 9] [0] false
                  {[ [98] := mkArray TC_B [1; 2] ]} {[ [98] := [0; 2] ]}
                  eq_refl ltac:(lia) ltac:(lia) ltac:(lia) ltac:(lia) ltac:(lia)
                  ltac:(vm_compute; reflexivity)))).
Defined.

(** ** C7: the size check of the batch evaluation *)

(** C7. Let the gold dataset yield n examples whose marks all name a token.
    With m predictions, m different from n, [evaluate] raises
    [RuntimeError] (the size mismatch) before the metric exists, so nothing
    is scored. With m = n it scores every one of the n pairs, prediction
    against gold sentence in order, and returns 100 times their mean (NaN,
    here [None], when n = 0). An eager dataset of a positive size yields
    exactly its cached examples. *)
Theorem evaluate_checks_sizes (image : Type) (decode_image : bytes -> exn + image)
    (fuel : nat) (gold_dataset : Dataset image) (predictions : list (list str))
    (examples : list (Element image)) (gold : list (list str)) :
  iterate decode_image fuel gold_dataset 0 tt = Done examples tt ->
  mapM gold_sentence examples tt = Done gold tt ->
  length gold = length examples /\
  (length predictions <> length gold ->
   evaluate decode_image fuel gold_dataset predictions tt = Raised RuntimeError tt) /\
  (length predictions = length gold ->
   length (edit_distances None predictions gold) = length gold /\
   evaluate decode_image fuel gold_dataset predictions tt
   = Done (if decide (length gold = 0%nat) then None
           else Some (Qc_of_nat 100
                      * (Qc_sum (edit_distances None predictions gold)
                         / Qc_of_nat (length gold)))%Qc) tt) /\
  (forall size data,
     gold_dataset = mkDataset size (Some data) None None -> data <> [] ->
     (length data < fuel)%nat -> examples = data).
Proof.
  intros Hit Hgold.
  pose proof (evaluate_spec image decode_image fuel gold_dataset predictions
                examples gold Hit Hgold) as Hev.
  split; [apply (mapM_unit_length _ _ _ Hgold)|].
  split; [|split].
  - intros Hne. rewrite Hev.
    destruct (Z.eqb_spec (len predictions) (len gold)) as [Heq|_];
      [unfold len in Heq; lia|reflexivity].
  - intros Heq.
    assert (length (edit_distances None predictions gold) = length gold) as Hn
      by (rewrite edit_distances_length; lia).
    split; [exact Hn|]. rewrite Hev.
    destruct (Z.eqb_spec (len predictions) (len gold)) as [_|Hne];
      [|unfold len in Hne; lia].
    cbn [negb]. rewrite score_all_spec. unfold compute.
    cbn [EditDistanceMetric_init _ignore_index mean_value weight].
    rewrite Hn, !Qcplus_0_l.
    destruct (decide (length gold = 0%nat)) as [H0|H0].
    + rewrite H0, Qc_of_nat_0.
      destruct (decide (0%Qc = 0%Qc)); [reflexivity|contradiction].
    + destruct (decide (Qc_of_nat (length gold) = 0%Qc)) as [Hz|_];
        [apply Qc_of_nat_nonzero in Hz; [contradiction|exact H0]|reflexivity].
  - intros size data -> Hne Hfuel.
    pose proof (iterate_eager image decode_image size data fuel Hne 0
                  ltac:(lia) ltac:(lia)) as Hall.
    change (Z.of_nat 0) with 0 in Hall. rewrite Hall in Hit.
    injection Hit as <-. reflexivity.
Qed.

Lemma evaluate_checks_sizes_witness :
  length [str_of_string <$> ["clef-C1"; "barline"; "clef-C3"]%string; []]
  = length [mkElement [1; 2; 3] [2; 1; 4]; mkElement [9] ([] : list Z)] /\
  length [[str_of_string "clef-C1"]] <> 2%nat /\
  evaluate raw_image 3
    (mkDataset 2 (Some [mkElement [1; 2; 3] [2; 1; 4]; mkElement [9] []]) None None)
    [[str_of_string "clef-C1"]] tt
  = Raised RuntimeError tt.
Proof.
  pose proof (evaluate_checks_sizes bytes raw_image 3
                (mkDataset 2 (Some [mkElement [1; 2; 3] [2; 1; 4]; mkElement [9] []])
                   None None)
                [[str_of_string "clef-C1"]]
                [mkElement [1; 2; 3] [2; 1; 4]; mkElement [9] []]
                [str_of_string <$> ["clef-C1"; "barline"; "clef-C3"]%string; []]
                ltac:(vm_compute; reflexivity) ltac:(vm_compute; reflexivity))
    as (H1 & H2 & _).
  split; [exact H1|]. split; [cbn; lia|]. apply H2. cbn. lia.
Defined.

(** ** C8: the framing of the records *)

(** C8 (amended). The record loop makes exactly [items] passes. Each pass
    reads, from where the previous one stopped, an 8-byte little-endian
    length L, four bytes, L bytes of payload and four more bytes; a record
    is returned exactly when one lies at the head of what is left of the
    file, and everything else aborts the load. The exception is
    [AssertionError] when the length or the four bytes after it come back
    short, when the payload does and the read of L bytes was served, and
    when the last four bytes do. It is [OverflowError] when L is [2^63] or
    more, and the exception of the allocator ([MemoryError]) when L is more
    than 8, more than the file still holds, and the L bytes cannot be had:
    both are raised by the read, before any length is compared. A load that
    finishes has read [items] frames lying one behind the other, and
    decoded their payloads in that order; what follows them in the file is
    not looked at, and an end of file with records still due is an error,
    not the end of the loop. *)
Theorem framer_reads_exactly_items {mem : Allocator} (fuel items : nat) (s : lstate) :
  ((exists record data rest,
      file s = record ++ rest /\ is_frame record data /\ len data < 2^63 /\
      read_record s = Done data (mkLoad rest (l_arrays s) (l_indices s))) \/
   ((forall record data rest,
       file s = record ++ rest -> is_frame record data -> 2^63 <= len data) /\
    exists e rest,
      read_record s = Raised e (mkLoad rest (l_arrays s) (l_indices s)))) /\
  (len (file s) < 12 ->
   read_record s = Raised AssertionError (mkLoad [] (l_arrays s) (l_indices s))) /\
  (forall h c1 f2 : bytes,
     file s = h ++ c1 ++ f2 -> len h = 8 -> len c1 = 4 ->
     len f2 < le_decode h \/ 2^63 <= le_decode h ->
     read_record s
     = if 2^63 <=? le_decode h
       then Raised OverflowError (mkLoad f2 (l_arrays s) (l_indices s))
       else
         match (if le_decode h <=? 8 then None
                else alloc_failure (le_decode h)) with
         | Some e => Raised e (mkLoad f2 (l_arrays s) (l_indices s))
         | None => Raised AssertionError (mkLoad [] (l_arrays s) (l_indices s))
         end) /\
  (forall h c1 data c2 : bytes,
     file s = h ++ c1 ++ data ++ c2 -> len h = 8 -> len c1 = 4 ->
     le_decode h = len data -> len data < 2^63 -> len c2 < 4 ->
     read_record s = Raised AssertionError (mkLoad [] (l_arrays s) (l_indices s))) /\
  (forall e s1,
     read_record s = Raised e s1 ->
     load_records fuel (S items) s = Raised e s1) /\
  (forall s' log,
     load_records fuel items s = Done log s' ->
     exists records : list (bytes * bytes),
       length records = items /\
       file s = concat (fst <$> records) ++ file s' /\
       Forall (fun r => is_frame (fst r) (snd r)) records /\
       exists s0,
         decode_all fuel (snd <$> records)
           (mkLoad (file s') (l_arrays s) (l_indices s)) = Done log s0 /\
         l_arrays s0 = l_arrays s' /\ l_indices s0 = l_indices s') /\
  (file s = [] ->
   load_records fuel (S items) s = Raised AssertionError s).
Proof.
  split; [apply read_record_cases|].
  split; [destruct s as [f A I]; apply read_record_short_header|].
  split; [destruct s as [f A I]; cbn [file l_arrays l_indices];
          intros h c1 f2 ->; apply read_record_short_payload|].
  split; [destruct s as [f A I]; cbn [file l_arrays l_indices];
          intros h c1 data c2 ->; apply read_record_short_trailer|].
  split; [intros e s1; apply load_records_raise_read|].
  split; [intros s' log; apply load_records_frames|].
  intros Hfile. apply load_records_raise_read.
  destruct s as [f A I]. cbn [file] in Hfile. subst f.
  apply read_record_short_header. reflexivity.
Qed.

Lemma framer_reads_exactly_items_witness :
  exists records : list (bytes * bytes),
    length records = 2%nat /\
    two_keys_file = concat (fst <$> records) ++ [] /\
    Forall (fun r => is_frame (fst r) (snd r)) records /\
    exists s0,
      decode_all 4 (snd <$> records) (mkLoad [] ∅ ∅) = Done [[[97]]; [[98]]] s0 /\
      l_arrays s0 = two_keys_arrays /\ l_indices s0 = two_keys_indices.
Proof.
  apply (proj1 (proj2 (proj2 (proj2 (proj2 (proj2 (framer_reads_exactly_items 4 2
                                (mkLoad two_keys_file ∅ ∅)))))))
           (mkLoad [] two_keys_arrays two_keys_indices) [[[97]]; [[98]]]).
  vm_compute. reflexivity.
Defined.

(** The load of a header that declares [2^63] bytes: the read of the
    payload raises before any length is compared. *)
Example oversized_header_loaded {mem : Allocator} (fuel : nat) :
  _load_data fuel oversized_header_file 1
  = Raised OverflowError (mkLoad [] ∅ ∅).
Proof. reflexivity. Qed.

(** C8 as stated fails on that file: no record lies at its head, and the
    load does not fail with [AssertionError]. *)
Lemma truncated_stream_oversized_header :
  ~ truncated_stream_asserts 1 oversized_header_file 1.
Proof.
  intros Hclaim. destruct Hclaim as [s Hs]; [lia| |].
  - intros record data rest Hrec Hframe.
    destruct (frame_at_head _ _ _ _ Hrec Hframe) as (_ & _ & HL & Hd & _).
    change (drop 4 (drop 8 oversized_header_file)) with (@nil Z) in Hd.
    rewrite take_nil in Hd. subst data. discriminate HL.
  - rewrite oversized_header_loaded in Hs. discriminate Hs.
Qed.

(** A payload cut short, read where the allocator refuses the 100 bytes and
    where it serves them. *)
Example short_payload_refused_or_served :
  @read_record (fun _ => Some MemoryError)
    (mkLoad (le_encode 8 100 ++ [0; 0; 0; 0] ++ [1; 2; 3]) ∅ ∅)
  = Raised MemoryError (mkLoad [1; 2; 3] ∅ ∅) /\
  @read_record generous
    (mkLoad (le_encode 8 100 ++ [0; 0; 0; 0] ++ [1; 2; 3]) ∅ ∅)
  = Raised AssertionError (mkLoad [] ∅ ∅).
Proof. split; reflexivity. Qed.

(** ** C9: the two materialisation modes *)

(** C9. When the dataset can be built in eager mode, it can be built in
    on-demand mode from the same file and size, and at every index
    [0 <= i < size] the two return the same element: the one [_decode]
    computes from the loaded arrays and indices. *)
Theorem eager_and_lazy_agree {mem : Allocator} (image : Type) (decode_image : bytes -> exn + image)
    (fuel : nat) (content : bytes) (size : Z) (De : Dataset image) :
  __init__ decode_image fuel content size false tt = Done De tt ->
  exists Dl arrays indices s,
    __init__ decode_image fuel content size true tt = Done Dl tt /\
    _load_data fuel content size = Done (arrays, indices) s /\
    forall i, 0 <= i < size ->
      exists element,
        _decode decode_image arrays indices i tt = Done element tt /\
        __getitem__ decode_image De i tt = Done element tt /\
        __getitem__ decode_image Dl i tt = Done element tt.
Proof.
  intros Heager.
  destruct (init_eager image decode_image fuel content size De Heager)
    as (arrays & indices & s & data & Hload & Hmap & ->).
  exists (mkDataset size None (Some arrays) (Some indices)), arrays, indices, s.
  split; [apply (init_lazy image decode_image _ _ _ _ _ s); exact Hload|].
  split; [exact Hload|].
  intros i Hi. apply mapM_unit_lookup in Hmap as [Hlen Hall].
  destruct (Hall (Z.to_nat i) i) as (element & Helt & Hdec).
  { rewrite lookup_seqZ. split; lia. }
  exists element. split; [exact Hdec|]. split.
  - unfold __getitem__. cbn [_data].
    destruct data as [|e0 es]; [rewrite lookup_nil in Helt; discriminate|].
    rewrite py_getitem_nonneg.
    + rewrite Helt. reflexivity.
    + unfold len. rewrite Hlen, length_seqZ. lia.
  - unfold __getitem__. cbn [_data _arrays _indices]. exact Hdec.
Qed.

Lemma eager_and_lazy_agree_witness :
  exists Dl arrays indices s,
    __init__ raw_image 4 two_examples_file 2 true tt = Done Dl tt /\
    _load_data 4 two_examples_file 2 = Done (arrays, indices) s /\
    forall i, 0 <= i < 2 ->
      exists element,
        _decode raw_image arrays indices i tt = Done element tt /\
        __getitem__ raw_image two_examples_eager i tt = Done element tt /\
        __getitem__ raw_image Dl i tt = Done element tt.
Proof.
  apply (eager_and_lazy_agree bytes raw_image 4 two_examples_file 2
           two_examples_eager).
  vm_compute. reflexivity.
Defined.

(** ** C10: [update] on sequences of different lengths *)

(** C10. [update] pairs predictions and gold sequences with [zip]: with n
    predictions and m gold sequences it raises nothing, scores the first
    min(n, m) pairs and ignores what is left over on the longer side. *)
Theorem update_scores_common_prefix {T : Type} `{EqDecision T}
    (y_preds y_trues : list (list T)) (self : EditDistanceMetric) :
  let k := Nat.min (length y_preds) (length y_trues) in
  update y_preds y_trues self
  = update (take k y_preds) (take k y_trues) self /\
  length (edit_distances (_ignore_index self) y_preds y_trues) = k /\
  weight (update y_preds y_trues self) = (weight self + Qc_of_nat k)%Qc /\
  mean_value (update y_preds y_trues self)
  = (mean_value self
     + Qc_sum (edit_distances (_ignore_index self)
                 (take k y_preds) (take k y_trues)))%Qc.
Proof.
  cbv zeta. rewrite !update_spec. cbn [weight mean_value].
  rewrite <- edit_distances_take, edit_distances_length.
  repeat split; reflexivity.
Qed.

(** Three predictions against one gold sequence: one pair is scored. *)
Example update_three_against_one :
  update [[1]; [2]; [3]] [[1]] (EditDistanceMetric_init None)
  = update [[1]] [[1]] (EditDistanceMetric_init None).
Proof. reflexivity. Qed.


(** * Further properties

    ** Scores *)

Lemma Qc_of_nat_this (n : nat) : (Qc_of_nat n : Q) == inject_Z (Z.of_nat n).
Proof. unfold Qc_of_nat. cbn [this Q2Qc]. apply Qred_correct. Qed.

Lemma Qc_of_nat_le (a b : nat) : (a <= b)%nat -> (Qc_of_nat a <= Qc_of_nat b)%Qc.
Proof.
  intros Hab. unfold Qcle. rewrite !Qc_of_nat_this.
  rewrite <- Zle_Qle. lia.
Qed.

Lemma Qc_of_nat_inj (a b : nat) : Qc_of_nat a = Qc_of_nat b -> a = b.
Proof.
  unfold Qc_of_nat. rewrite Q2Qc_eq_iff, inject_Z_injective. lia.
Qed.

Lemma Qc_of_nat_pos (n : nat) : (0 < n)%nat -> (0 < Qc_of_nat n)%Qc.
Proof.
  intros Hn. unfold Qclt. rewrite Qc_of_nat_this.
  change (this 0%Qc) with (inject_Z 0). rewrite <- Zlt_Qlt. lia.
Qed.

Lemma Qcdiv_nonneg (x y : Qc) : (0 <= x)%Qc -> (0 < y)%Qc -> (0 <= x / y)%Qc.
Proof.
  intros Hx Hy. unfold Qcle, Qcdiv, Qcmult, Qcinv in *. unfold Qclt in Hy.
  cbn [this Q2Qc]. rewrite !Qred_correct.
  apply Qmult_le_0_compat; [exact Hx|].
  apply Qlt_le_weak, Qinv_lt_0_compat, Hy.
Qed.

Lemma Qcdiv_le_1 (x y : Qc) : (x <= y)%Qc -> (0 < y)%Qc -> (x / y <= 1)%Qc.
Proof.
  intros Hxy Hy. unfold Qcle, Qcdiv, Qcmult, Qcinv in *. unfold Qclt in Hy.
  cbn [this Q2Qc]. rewrite !Qred_correct.
  apply Qle_shift_div_r; [exact Hy|]. rewrite Qmult_1_l. exact Hxy.
Qed.

Lemma Qcdiv_zero_iff (x y : Qc) : y <> 0%Qc -> (x / y = 0)%Qc <-> x = 0%Qc.
Proof.
  intros Hy. split.
  - intros H. apply (f_equal (fun z => (y * z)%Qc)) in H.
    rewrite Qcmult_div_r, Qcmult_0_r in H by exact Hy. exact H.
  - intros ->. unfold Qcdiv. apply Qcmult_0_l.
Qed.

Lemma Qc_sum_app (l1 l2 : list Qc) :
  Qc_sum (l1 ++ l2) = (Qc_sum l1 + Qc_sum l2)%Qc.
Proof.
  induction l1 as [|q l1 IH]; cbn [Qc_sum foldr app].
  - symmetry. apply Qcplus_0_l.
  - fold (Qc_sum (l1 ++ l2)). fold (Qc_sum l1). rewrite IH. apply Qcplus_assoc.
Qed.

Lemma Qc_sum_nonneg (l : list Qc) :
  Forall (fun q => 0 <= q)%Qc l -> (0 <= Qc_sum l)%Qc.
Proof.
  induction 1 as [|q l Hq _ IH]; cbn [Qc_sum foldr]; [apply Qcle_refl|].
  fold (Qc_sum l). rewrite <- (Qcplus_0_l 0). apply Qcplus_le_compat; assumption.
Qed.

Lemma Qc_sum_zero (l : list Qc) :
  Forall (fun q => 0 <= q)%Qc l -> Qc_sum l = 0%Qc -> Forall (fun q => q = 0%Qc) l.
Proof.
  induction 1 as [|q l Hq Hl IH]; cbn [Qc_sum foldr]; [constructor|].
  fold (Qc_sum l). intros Hsum.
  pose proof (Qc_sum_nonneg l Hl) as Hs.
  assert (Hq0 : q = 0%Qc).
  { apply Qcle_antisym; [|exact Hq].
    rewrite <- Hsum, <- (Qcplus_0_r q) at 1.
    apply Qcplus_le_compat; [apply Qcle_refl|exact Hs]. }
  constructor; [exact Hq0|]. apply IH. rewrite Hq0, Qcplus_0_l in Hsum. exact Hsum.
Qed.

Lemma Qc_sum_le_length (l : list Qc) :
  Forall (fun q => q <= 1)%Qc l -> (Qc_sum l <= Qc_of_nat (length l))%Qc.
Proof.
  induction 1 as [|q l Hq _ IH]; cbn [Qc_sum foldr length].
  - rewrite Qc_of_nat_0. apply Qcle_refl.
  - fold (Qc_sum l). change (S (length l)) with (1 + length l)%nat.
    rewrite Qc_of_nat_add. apply Qcplus_le_compat; [exact Hq|exact IH].
Qed.

Section LevenshteinFacts.
Context {T : Type} `{EqDecision T}.

Lemma lev_refl (s : list T) : levenshtein s s = 0%nat.
Proof.
  induction s as [|x s IH]; [reflexivity|].
  rewrite lev_cons_cons, decide_True by reflexivity. exact IH.
Qed.

Lemma lev_zero (s t : list T) : levenshtein s t = 0%nat -> s = t.
Proof.
  revert t. induction s as [|x s IH]; intros [|y t] H.
  - reflexivity.
  - discriminate H.
  - discriminate H.
  - rewrite lev_cons_cons in H. destruct (decide (x = y)) as [->|]; [|discriminate H].
    f_equal. apply IH, H.
Qed.

(** The distance lies between the difference of the lengths and the
    greater length. *)
Lemma lev_bounds_aux (n : nat) :
  forall s t : list T, (length s + length t < n)%nat ->
    (length s - length t <= levenshtein s t)%nat /\
    (length t - length s <= levenshtein s t)%nat /\
    (levenshtein s t <= Nat.max (length s) (length t))%nat.
Proof.
  induction n as [|n IH]; intros s t Hlen; [lia|].
  destruct s as [|x s], t as [|y t]; cbn [length] in *.
  - cbn. lia.
  - cbn [levenshtein length]. lia.
  - rewrite lev_nil_r. cbn [length]. lia.
  - rewrite lev_three.
    pose proof (IH s (y :: t) ltac:(cbn [length]; lia)) as H1.
    pose proof (IH (x :: s) t ltac:(cbn [length]; lia)) as H2.
    pose proof (IH s t ltac:(lia)) as H3.
    cbn [length] in H1, H2. unfold subst_cost.
    destruct (decide (x = y)); lia.
Qed.

Lemma lev_bounds (s t : list T) :
  (length s - length t <= levenshtein s t)%nat /\
  (length t - length s <= levenshtein s t)%nat /\
  (levenshtein s t <= Nat.max (length s) (length t))%nat.
Proof. exact (lev_bounds_aux _ s t (Nat.lt_succ_diag_r _)). Qed.

Lemma len_or_1_pos (ys : list T) : (0 < len_or_1 ys)%nat.
Proof. rewrite len_or_1_max. lia. Qed.

Lemma example_score_nonneg (ig : option T) (p g : list T) :
  (0 <= example_score ig p g)%Qc.
Proof.
  unfold example_score. apply Qcdiv_nonneg.
  - rewrite <- Qc_of_nat_0. apply Qc_of_nat_le. lia.
  - apply Qc_of_nat_pos, len_or_1_pos.
Qed.

Lemma example_score_zero_iff (ig : option T) (p g : list T) :
  example_score ig p g = 0%Qc <-> drop_ignored ig p = drop_ignored ig g.
Proof.
  unfold example_score.
  rewrite Qcdiv_zero_iff
    by (apply Qc_of_nat_nonzero; pose proof (len_or_1_pos (drop_ignored ig g)); lia).
  rewrite edit_distance_levenshtein, <- Qc_of_nat_0. split.
  - intros H. apply Qc_of_nat_inj in H. apply lev_zero, H.
  - intros ->. rewrite lev_refl. reflexivity.
Qed.

Lemma edit_distances_nonneg (ig : option T) (ps gs : list (list T)) :
  Forall (fun q => 0 <= q)%Qc (edit_distances ig ps gs).
Proof.
  revert gs. induction ps as [|p ps IH]; intros [|g gs];
    cbn [edit_distances]; constructor; [apply example_score_nonneg|apply IH].
Qed.

Lemma edit_distances_app (ig : option T) (ps1 ps2 gs1 gs2 : list (list T)) :
  length ps1 = length gs1 ->
  edit_distances ig (ps1 ++ ps2) (gs1 ++ gs2)
  = edit_distances ig ps1 gs1 ++ edit_distances ig ps2 gs2.
Proof.
  revert gs1. induction ps1 as [|p ps1 IH]; intros [|g gs1] Hlen;
    try discriminate Hlen; [reflexivity|].
  cbn [app edit_distances]. f_equal. apply IH. injection Hlen as Hlen. exact Hlen.
Qed.

(** All scores of a batch are zero exactly when, pair by pair, the filtered
    sequences agree. *)
Lemma edit_distances_zero (ig : option T) (ps gs : list (list T)) :
  length ps = length gs ->
  Forall (fun q => q = 0%Qc) (edit_distances ig ps gs) <->
  drop_ignored ig <$> ps = drop_ignored ig <$> gs.
Proof.
  revert gs. induction ps as [|p ps IH]; intros [|g gs] Hlen;
    try discriminate Hlen.
  - cbn. split; [reflexivity|constructor].
  - injection Hlen as Hlen. cbn [edit_distances]. rewrite !fmap_cons. split.
    + intros HF. inversion HF as [|? ? H0 HF']; subst.
      apply example_score_zero_iff in H0. rewrite H0. f_equal.
      apply IH; assumption.
    + intros Heq. injection Heq as Hhd Htl. constructor.
      * apply example_score_zero_iff, Hhd.
      * apply IH; assumption.
Qed.
End LevenshteinFacts.

Lemma Qc_sum_all_zero (l : list Qc) :
  Forall (fun q => q = 0%Qc) l -> Qc_sum l = 0%Qc.
Proof.
  induction 1 as [|q l Hq _ IH]; [reflexivity|].
  cbn [Qc_sum foldr]. fold (Qc_sum l). rewrite Hq, IH. apply Qcplus_0_l.
Qed.

Lemma example_score_le_1 {T : Type} `{EqDecision T} (p g : list T) :
  (length p <= length g)%nat -> (example_score None p g <= 1)%Qc.
Proof.
  intros Hlen. unfold example_score. cbn [drop_ignored].
  apply Qcdiv_le_1; [|apply Qc_of_nat_pos, len_or_1_pos].
  apply Qc_of_nat_le. rewrite edit_distance_levenshtein, len_or_1_max.
  pose proof (lev_bounds p g). lia.
Qed.

Lemma edit_distances_le_1 {T : Type} `{EqDecision T} (ps gs : list (list T)) :
  Forall2 (fun p g => length p <= length g)%nat ps gs ->
  Forall (fun q => q <= 1)%Qc (edit_distances None ps gs).
Proof.
  induction 1 as [|p g ps gs Hpg _ IH]; cbn [edit_distances]; constructor;
    [apply example_score_le_1, Hpg|exact IH].
Qed.

(** What [evaluate] returns when the sizes agree and there is an example. *)
Lemma evaluate_mean (image : Type) (decode_image : bytes -> exn + image)
    (fuel : nat) (ds : Dataset image) (predictions : list (list str))
    (examples : list (Element image)) (gold : list (list str)) :
  iterate decode_image fuel ds 0 tt = Done examples tt ->
  mapM gold_sentence examples tt = Done gold tt ->
  gold <> [] -> length predictions = length gold ->
  evaluate decode_image fuel ds predictions tt
  = Done (Some (Qc_of_nat 100
                * (Qc_sum (edit_distances None predictions gold)
                   / Qc_of_nat (length gold)))%Qc) tt.
Proof.
  intros Hit Hgold Hne Hlen.
  rewrite (evaluate_spec image decode_image fuel ds predictions examples gold Hit Hgold).
  unfold len. rewrite Hlen, Z.eqb_refl. cbn [negb].
  rewrite score_all_spec.
  cbn [EditDistanceMetric_init _ignore_index mean_value weight].
  rewrite !Qcplus_0_l, edit_distances_length, Hlen, Nat.min_id.
  unfold compute. cbn [weight mean_value].
  destruct (decide (Qc_of_nat (length gold) = 0%Qc)) as [Hz|_]; [|reflexivity].
  apply Qc_of_nat_nonzero in Hz; [contradiction|].
  destruct gold; [contradiction|discriminate].
Qed.

(** ** [evaluate]: what the percentage says *)

(** X1. On a gold dataset with at least one example, [evaluate] returns 0
    exactly when the predictions are, one by one, the gold sentences. *)
Theorem evaluate_zero_iff_exact (image : Type)
    (decode_image : bytes -> exn + image) (fuel : nat) (ds : Dataset image)
    (predictions : list (list str)) (examples : list (Element image))
    (gold : list (list str)) :
  iterate decode_image fuel ds 0 tt = Done examples tt ->
  mapM gold_sentence examples tt = Done gold tt ->
  gold <> [] ->
  evaluate decode_image fuel ds predictions tt = Done (Some 0%Qc) tt
  <-> predictions = gold.
Proof.
  intros Hit Hgold Hne. split.
  - intros Hev.
    assert (Hlen : length predictions = length gold).
    { rewrite (evaluate_spec image decode_image fuel ds predictions examples gold
                 Hit Hgold) in Hev.
      destruct (len predictions =? len gold) eqn:E; [|discriminate Hev].
      apply Z.eqb_eq in E. unfold len in E. lia. }
    rewrite (evaluate_mean image decode_image fuel ds predictions examples gold
               Hit Hgold Hne Hlen) in Hev.
    apply (f_equal (fun o : outcome unit (option Qc) =>
                      match o with Done (Some r) _ => r | _ => 0%Qc end)) in Hev.
    cbv beta iota in Hev.
    apply Qcmult_integral in Hev as [H100|Hmean].
    { apply (f_equal this) in H100. vm_compute in H100. discriminate H100. }
    apply Qcdiv_zero_iff in Hmean;
      [|apply Qc_of_nat_nonzero; destruct gold; [contradiction|discriminate]].
    apply Qc_sum_zero in Hmean; [|apply edit_distances_nonneg].
    apply edit_distances_zero in Hmean; [|exact Hlen].
    cbn [drop_ignored] in Hmean. rewrite !list_fmap_id in Hmean. exact Hmean.
  - intros ->.
    rewrite (evaluate_mean image decode_image fuel ds gold examples gold
               Hit Hgold Hne eq_refl).
    rewrite Qc_sum_all_zero.
    + unfold Qcdiv. rewrite Qcmult_0_l, Qcmult_0_r. reflexivity.
    + apply edit_distances_zero; reflexivity.
Qed.

Lemma evaluate_zero_iff_exact_witness :
  evaluate raw_image 3 two_examples_eager
    [str_of_string <$> ["clef-C2"; "barline"; "clef-C3"]%string; []] tt
  = Done (Some 0%Qc) tt
  <-> [str_of_string <$> ["clef-C2"; "barline"; "clef-C3"]%string; []]
      = [str_of_string <$> ["clef-C2"; "barline"; "clef-C3"]%string; []].
Proof.
  refine (evaluate_zero_iff_exact bytes raw_image 3 two_examples_eager _
            [mkElement [1; 2; 3] [3; 1; 4]; mkElement [9] []] _
            eq_refl eq_refl _).
  discriminate.
Defined.

(** X2. With as many predictions as gold examples (at least one),
    [evaluate] returns a number that is never negative, and at most 100
    when no prediction is longer than its gold sentence. *)
Theorem evaluate_percentage_range (image : Type)
    (decode_image : bytes -> exn + image) (fuel : nat) (ds : Dataset image)
    (predictions : list (list str)) (examples : list (Element image))
    (gold : list (list str)) :
  iterate decode_image fuel ds 0 tt = Done examples tt ->
  mapM gold_sentence examples tt = Done gold tt ->
  gold <> [] -> length predictions = length gold ->
  exists r : Qc,
    evaluate decode_image fuel ds predictions tt = Done (Some r) tt /\
    (0 <= r)%Qc /\
    (Forall2 (fun p g => length p <= length g)%nat predictions gold ->
     (r <= Qc_of_nat 100)%Qc).
Proof.
  intros Hit Hgold Hne Hlen. eexists. split; [|split].
  - apply (evaluate_mean image decode_image fuel ds predictions examples gold
             Hit Hgold Hne Hlen).
  - assert (Hpos : (0 < Qc_of_nat (length gold))%Qc)
      by (apply Qc_of_nat_pos; destruct gold; [contradiction|cbn [length]; lia]).
    rewrite <- (Qcmult_0_l (Qc_sum (edit_distances None predictions gold)
                            / Qc_of_nat (length gold))).
    apply Qcmult_le_compat_r.
    + rewrite <- Qc_of_nat_0. apply Qc_of_nat_le. lia.
    + apply Qcdiv_nonneg; [|exact Hpos].
      apply Qc_sum_nonneg, edit_distances_nonneg.
  - intros Hshort.
    assert (Hpos : (0 < Qc_of_nat (length gold))%Qc)
      by (apply Qc_of_nat_pos; destruct gold; [contradiction|cbn [length]; lia]).
    rewrite <- (Qcmult_1_r (Qc_of_nat 100)) at 2.
    rewrite !(Qcmult_comm (Qc_of_nat 100)).
    apply Qcmult_le_compat_r; [|rewrite <- Qc_of_nat_0; apply Qc_of_nat_le; lia].
    apply Qcdiv_le_1; [|exact Hpos].
    pose proof (Qc_sum_le_length _ (edit_distances_le_1 _ _ Hshort)) as Hsum.
    rewrite edit_distances_length, Hlen, Nat.min_id in Hsum. exact Hsum.
Qed.

Lemma evaluate_percentage_range_witness :
  exists r : Qc,
    evaluate raw_image 3 two_examples_eager
      [[str_of_string "barline"]; []] tt = Done (Some r) tt /\
    (0 <= r)%Qc /\
    (Forall2 (fun p g => length p <= length g)%nat
       [[str_of_string "barline"]; []]
       [str_of_string <$> ["clef-C2"; "barline"; "clef-C3"]%string; []] ->
     (r <= Qc_of_nat 100)%Qc).
Proof.
  refine (evaluate_percentage_range bytes raw_image 3 two_examples_eager
            [[str_of_string "barline"]; []]
            [mkElement [1; 2; 3] [3; 1; 4]; mkElement [9] []] _
            eq_refl eq_refl _ eq_refl).
  discriminate.
Defined.

(** ** [EditDistanceMetric.update]: batches *)

Lemma edit_distances_short_predictions {T : Type} `{EqDecision T}
    (ignore_index : option T) (ps2 gs2 : list (list T)) :
  forall ps1 gs1 : list (list T),
    (length ps1 <= length gs1)%nat ->
    edit_distances ignore_index (ps1 ++ ps2) (gs1 ++ gs2)
    = edit_distances ignore_index ps1 gs1
      ++ edit_distances ignore_index ps2 (drop (length ps1) gs1 ++ gs2).
Proof.
  induction ps1 as [|p ps1 IH]; intros gs1 Hlen; [reflexivity|].
  destruct gs1 as [|g gs1]; [cbn [length] in Hlen; lia|].
  cbn [app edit_distances length drop]. rewrite IH by (cbn [length] in Hlen; lia).
  reflexivity.
Qed.

Lemma edit_distances_short_gold {T : Type} `{EqDecision T}
    (ignore_index : option T) (ps2 gs2 : list (list T)) :
  forall ps1 gs1 : list (list T),
    (length gs1 <= length ps1)%nat ->
    edit_distances ignore_index (ps1 ++ ps2) (gs1 ++ gs2)
    = edit_distances ignore_index ps1 gs1
      ++ edit_distances ignore_index (drop (length gs1) ps1 ++ ps2) gs2.
Proof.
  induction ps1 as [|p ps1 IH]; intros gs1 Hlen.
  - destruct gs1; [reflexivity|cbn [length] in Hlen; lia].
  - destruct gs1 as [|g gs1]; [reflexivity|].
    cbn [app edit_distances length drop]. rewrite IH by (cbn [length] in Hlen; lia).
    reflexivity.
Qed.

(** X3. The scores that an update hands to the mean are those of the pairs
    that [zip] makes, in order. For two batches joined they are the scores
    of the first batch followed by those of the second when the first batch
    has as many predictions as gold sequences. When it has fewer, the
    predictions of the second batch are scored against the gold sequences
    left over from the first and then its own; when it has more, the
    predictions left over are scored against the gold sequences of the
    second batch. (What the mean accumulates from the scores is not part of
    the statement.) *)
Theorem scores_in_batches {T : Type} `{EqDecision T} (ignore_index : option T)
    (ps1 ps2 gs1 gs2 : list (list T)) :
  (length ps1 = length gs1 ->
   edit_distances ignore_index (ps1 ++ ps2) (gs1 ++ gs2)
   = edit_distances ignore_index ps1 gs1 ++ edit_distances ignore_index ps2 gs2) /\
  ((length ps1 < length gs1)%nat ->
   edit_distances ignore_index (ps1 ++ ps2) (gs1 ++ gs2)
   = edit_distances ignore_index ps1 gs1
     ++ edit_distances ignore_index ps2 (drop (length ps1) gs1 ++ gs2)) /\
  ((length gs1 < length ps1)%nat ->
   edit_distances ignore_index (ps1 ++ ps2) (gs1 ++ gs2)
   = edit_distances ignore_index ps1 gs1
     ++ edit_distances ignore_index (drop (length gs1) ps1 ++ ps2) gs2).
Proof.
  split; [|split].
  - intros Hlen. rewrite edit_distances_short_predictions by lia.
    rewrite Hlen, drop_all. reflexivity.
  - intros Hlen. apply edit_distances_short_predictions. lia.
  - intros Hlen. apply edit_distances_short_gold. lia.
Qed.

Lemma scores_in_batches_witness :
  edit_distances None ([[1; 2]] ++ [[4]]) ([[1; 3]; [5]] ++ [[4]])
  = edit_distances None [[1; 2]] [[1; 3]; [5]]
    ++ edit_distances None [[4]] (drop (length [[1; 2]]) [[1; 3]; [5]] ++ [[4]]).
Proof.
  refine (proj1 (proj2 (scores_in_batches (T := Z) None
                          [[1; 2]] [[4]] [[1; 3]; [5]] [[4]])) _).
  cbn [length]. lia.
Defined.

(** ** The table of marks *)

Lemma MARKS_length : length MARKS = 938%nat.
Proof. vm_compute. reflexivity. Qed.

Lemma StronglySorted_lt_NoDup (l : list Z) : StronglySorted Z.lt l -> NoDup l.
Proof.
  induction 1 as [|x l _ IH Hx]; constructor; [|exact IH].
  intros Hin. rewrite Forall_forall in Hx. specialize (Hx x Hin). lia.
Qed.

(** The names are told apart by the numbers their characters spell in base
    256, which are sorted and then seen to increase strictly. *)
Lemma MARKS_NoDup : NoDup MARKS.
Proof.
  apply (NoDup_fmap_1 le_decode).
  rewrite <- (merge_sort_Permutation Z.le (le_decode <$> MARKS)).
  apply StronglySorted_lt_NoDup, Sorted_StronglySorted; [intros x y z; lia|].
  apply (bool_decide_unpack _). vm_compute. exact I.
Qed.

Lemma MARKS_tokens : Forall (fun name => is_token name = true) MARKS.
Proof.
  apply Forall_forall. intros name Hin.
  assert (H : forallb is_token MARKS = true) by (vm_compute; reflexivity).
  rewrite forallb_forall in H. apply H, list_elem_of_In, Hin.
Qed.

Lemma py_getitem_is_Some {A} (l : list A) (i : Z) :
  - len l <= i < len l -> is_Some (py_getitem l i).
Proof.
  unfold py_getitem, len. intros Hi.
  destruct ((0 <=? i) && (i <? Z.of_nat (length l))) eqn:E1.
  - apply lookup_lt_is_Some. apply andb_true_iff in E1. lia.
  - destruct ((- Z.of_nat (length l) <=? i) && (i <? 0)) eqn:E2.
    + apply lookup_lt_is_Some. apply andb_true_iff in E2. lia.
    + apply andb_false_iff in E1, E2. lia.
Qed.

Lemma py_getitem_None {A} (l : list A) (i : Z) :
  ~ (- len l <= i < len l) -> py_getitem l i = None.
Proof.
  intros Hi. destruct (py_getitem l i) eqn:E; [|reflexivity].
  apply py_getitem_valid in E. contradiction.
Qed.

Lemma py_getitem_lookup {A} (l : list A) (i : Z) :
  - len l <= i < len l ->
  py_getitem l i = l !! Z.to_nat (if i <? 0 then i + len l else i).
Proof.
  unfold py_getitem, len. intros Hi.
  destruct (Z.ltb_spec i 0), (Z.leb_spec 0 i), (Z.ltb_spec i (Z.of_nat (length l))),
    (Z.leb_spec (- Z.of_nat (length l)) i); cbn [andb]; try lia;
    f_equal; lia.
Qed.

(** The name of a mark, where there is one. *)
Lemma gold_sentence_names {image : Type} (example : Element image) :
  Forall (fun m => -938 <= m < 938) (elt_marks example) ->
  gold_sentence example tt
  = Done ((fun m => default [] (py_getitem MARKS m)) <$> elt_marks example) tt.
Proof.
  unfold gold_sentence. induction 1 as [|m marks Hm _ IH]; [reflexivity|].
  cbn [mapM]. unfold bind at 1.
  destruct (py_getitem_is_Some MARKS m) as [name Hname].
  { unfold len. rewrite MARKS_length. lia. }
  rewrite fmap_cons, Hname. cbn [lift_option default]. unfold ret at 1.
  unfold bind at 1. rewrite IH. reflexivity.
Qed.

Lemma gold_sentence_out_of_range {image : Type} (example : Element image) :
  Exists (fun m => ~ (-938 <= m < 938)) (elt_marks example) ->
  gold_sentence example tt = Raised IndexError tt.
Proof.
  unfold gold_sentence. induction (elt_marks example) as [|m marks IH];
    intros Hex; [inversion Hex|].
  cbn [mapM]. unfold bind at 1.
  destruct (decide (-938 <= m < 938)) as [Hm|Hm].
  - destruct (py_getitem_is_Some MARKS m) as [name Hname].
    { unfold len. rewrite MARKS_length. lia. }
    rewrite Hname. cbn [lift_option]. unfold ret at 1. unfold bind at 1.
    rewrite IH; [reflexivity|]. inversion Hex; subst; [contradiction|assumption].
  - rewrite py_getitem_None; [reflexivity|].
    unfold len. rewrite MARKS_length. exact Hm.
Qed.

(** The marks of the table have names of their own. *)
Lemma mark_name_inj (m1 m2 : Z) :
  0 <= m1 < 938 -> 0 <= m2 < 938 ->
  default [] (py_getitem MARKS m1) = default [] (py_getitem MARKS m2) ->
  m1 = m2.
Proof.
  intros H1 H2.
  rewrite !py_getitem_lookup by (unfold len; rewrite MARKS_length; lia).
  destruct (Z.ltb_spec m1 0); [lia|]. destruct (Z.ltb_spec m2 0); [lia|].
  destruct (lookup_lt_is_Some_2 MARKS (Z.to_nat m1)) as [n1 Hn1];
    [rewrite MARKS_length; lia|].
  destruct (lookup_lt_is_Some_2 MARKS (Z.to_nat m2)) as [n2 Hn2];
    [rewrite MARKS_length; lia|].
  rewrite Hn1, Hn2. simpl. intros <-.
  pose proof (NoDup_lookup _ _ _ _ MARKS_NoDup Hn1 Hn2). lia.
Qed.

Lemma lev_fmap_inj {A B : Type} `{EqDecision A} `{EqDecision B} (f : A -> B) :
  forall s t : list A,
    (forall x y, x ∈ s ++ t -> y ∈ s ++ t -> f x = f y -> x = y) ->
    levenshtein (f <$> s) (f <$> t) = levenshtein s t.
Proof.
  induction s as [|x s IHs]; intros t Hinj.
  - cbn [fmap list_fmap levenshtein]. apply length_fmap.
  - induction t as [|y t IHt].
    + rewrite fmap_nil, !lev_nil_r. apply length_fmap.
    + rewrite !fmap_cons, !lev_cons_cons.
      rewrite <- !fmap_cons.
      rewrite IHs
        by (intros a b Ha Hb; apply Hinj; rewrite elem_of_app, !elem_of_cons in *;
            tauto).
      rewrite IHs
        by (intros a b Ha Hb; apply Hinj; rewrite elem_of_app, !elem_of_cons in *;
            tauto).
      rewrite IHt
        by (intros a b Ha Hb; apply Hinj; rewrite elem_of_app, !elem_of_cons in *;
            tauto).
      destruct (decide (x = y)) as [->|Hxy].
      * rewrite decide_True by reflexivity. reflexivity.
      * rewrite decide_False; [reflexivity|].
        intros Hf. apply Hxy, Hinj; [| |exact Hf];
          rewrite elem_of_app, !elem_of_cons; tauto.
Qed.

(** X4. [evaluate] names each mark of an example by the table: it finds a
    name for the marks from -938 to 937, those below 0 counted from the end
    of the table, and raises [IndexError] when an example has any other
    mark. *)
Theorem gold_sentence_range {image : Type} (example : Element image) :
  (Forall (fun m => -938 <= m < 938) (elt_marks example) ->
   exists names,
     gold_sentence example tt = Done names tt /\
     length names = length (elt_marks example) /\
     forall (i : nat) (m : Z),
       elt_marks example !! i = Some m ->
       names !! i = MARKS !! Z.to_nat (if m <? 0 then m + 938 else m)) /\
  (~ Forall (fun m => -938 <= m < 938) (elt_marks example) ->
   gold_sentence example tt = Raised IndexError tt).
Proof.
  split.
  - intros Hrange. eexists. split; [apply gold_sentence_names, Hrange|].
    split; [apply length_fmap|].
    intros i m Hi. rewrite list_lookup_fmap, Hi. cbn [fmap option_fmap option_map].
    rewrite Forall_lookup in Hrange. specialize (Hrange i m Hi).
    rewrite py_getitem_lookup by (unfold len; rewrite MARKS_length; lia).
    unfold len. rewrite MARKS_length. change (Z.of_nat 938) with 938.
    destruct (lookup_lt_is_Some_2 MARKS
                (Z.to_nat (if m <? 0 then m + 938 else m))) as [n Hn].
    { rewrite MARKS_length. destruct (m <? 0) eqn:E; lia. }
    rewrite Hn. reflexivity.
  - intros Hnot. apply gold_sentence_out_of_range.
    apply not_Forall_Exists in Hnot; [exact Hnot|].
    intros m. apply _.
Qed.

Lemma gold_sentence_range_witness :
  exists names,
    gold_sentence (mkElement tt [1; -1]) tt = Done names tt /\
    length names = 2%nat /\
    forall (i : nat) (m : Z),
      [1; -1] !! i = Some m ->
      names !! i = MARKS !! Z.to_nat (if m <? 0 then m + 938 else m).
Proof.
  refine (proj1 (gold_sentence_range (mkElement tt [1; -1])) _).
  repeat constructor; lia.
Defined.

(** X5. The marks from 0 to 937 have names that differ from each other, so
    on sequences of such marks the distance between the sentences [evaluate]
    compares is the distance between the sequences of marks, and two
    sentences are the same only for the same marks. *)
Theorem marks_named_apart {image : Type} (example1 example2 : Element image)
    (names1 names2 : list str) :
  Forall (fun m => 0 <= m < 938) (elt_marks example1) ->
  Forall (fun m => 0 <= m < 938) (elt_marks example2) ->
  gold_sentence example1 tt = Done names1 tt ->
  gold_sentence example2 tt = Done names2 tt ->
  levenshtein names1 names2
  = levenshtein (elt_marks example1) (elt_marks example2) /\
  (names1 = names2 <-> elt_marks example1 = elt_marks example2).
Proof.
  intros H1 H2 Hn1 Hn2.
  rewrite gold_sentence_names in Hn1
    by (eapply Forall_impl; [exact H1|]; cbv beta; intros; lia).
  rewrite gold_sentence_names in Hn2
    by (eapply Forall_impl; [exact H2|]; cbv beta; intros; lia).
  injection Hn1 as <-. injection Hn2 as <-.
  assert (Hlev : levenshtein
                   ((fun m => default [] (py_getitem MARKS m)) <$> elt_marks example1)
                   ((fun m => default [] (py_getitem MARKS m)) <$> elt_marks example2)
                 = levenshtein (elt_marks example1) (elt_marks example2)).
  { apply lev_fmap_inj. intros x y Hx Hy.
    rewrite Forall_forall in H1, H2.
    apply mark_name_inj.
    - apply elem_of_app in Hx as [Hx|Hx]; [apply H1, Hx|apply H2, Hx].
    - apply elem_of_app in Hy as [Hy|Hy]; [apply H1, Hy|apply H2, Hy]. }
  split; [exact Hlev|]. split.
  - intros Heq. apply lev_zero. rewrite <- Hlev, Heq. apply lev_refl.
  - intros ->. reflexivity.
Qed.

Lemma marks_named_apart_witness :
  levenshtein (str_of_string <$> ["clef-C2"; "barline"]%string)
              (str_of_string <$> ["barline"]%string)
  = levenshtein [3; 1] [1] /\
  (str_of_string <$> ["clef-C2"; "barline"]%string
   = str_of_string <$> ["barline"]%string <-> [3; 1] = [1]).
Proof.
  refine (marks_named_apart (mkElement tt [3; 1]) (mkElement tt [1]) _ _
            _ _ eq_refl eq_refl); repeat constructor; lia.
Defined.

(** ** [evaluate_file]: the lines of a predictions file *)

Lemma no_whitespace_app (s1 s2 : str) :
  no_whitespace (s1 ++ s2) = no_whitespace s1 && no_whitespace s2.
Proof. apply forallb_app. Qed.

Lemma is_token_no_whitespace (t : str) : is_token t = true -> no_whitespace t = true.
Proof. destruct t; [discriminate|exact id]. Qed.

Lemma is_token_nonempty (t : str) : is_token t = true -> t <> [].
Proof. destruct t; [discriminate|discriminate]. Qed.

Lemma split_from_word (t : str) :
  forall (word rest : str),
    no_whitespace t = true ->
    split_from word (t ++ rest) = split_from (word ++ t) rest.
Proof.
  induction t as [|c t IH]; intros word rest Ht.
  - rewrite app_nil_r. reflexivity.
  - cbn [no_whitespace forallb] in Ht. apply andb_true_iff in Ht as [Hc Ht].
    cbn [app split_from]. apply negb_true_iff in Hc. rewrite Hc.
    rewrite (IH (word ++ [c]) rest Ht), <- app_assoc. reflexivity.
Qed.

Lemma split_from_spaces (ws : str) :
  forall word : str,
    forallb is_whitespace ws = true ->
    split_from word ws = match word with [] => [] | _ => [word] end.
Proof.
  induction ws as [|c ws IH]; intros word Hws; [reflexivity|].
  cbn [forallb] in Hws. apply andb_true_iff in Hws as [Hc Hws].
  cbn [split_from]. rewrite Hc, (IH [] Hws). destruct word; reflexivity.
Qed.

Lemma split_from_trailing (ws : str) :
  forallb is_whitespace ws = true ->
  forall line word : str,
    split_from word (line ++ ws) = split_from word line.
Proof.
  intros Hws. induction line as [|c line IH]; intros word.
  - cbn [app split_from]. apply split_from_spaces, Hws.
  - cbn [app split_from]. rewrite !IH. reflexivity.
Qed.

(** What [rstrip] takes off is a run of the given characters. *)
Lemma str_rstrip_decompose (chars : list Z) (line : str) :
  exists tail : str,
    line = str_rstrip chars line ++ tail /\
    forallb (fun c => existsb (Z.eqb c) chars) tail = true.
Proof.
  induction line as [|c line (tail & Hline & Htail)]; [exists []; split; reflexivity|].
  cbn [str_rstrip]. destruct (str_rstrip chars line) as [|r rest] eqn:E.
  - destruct (existsb (Z.eqb c) chars) eqn:Ec.
    + exists (c :: line). split; [reflexivity|].
      cbn [forallb]. rewrite Ec. cbn [app] in Hline. rewrite Hline. exact Htail.
    + exists tail. split; [|exact Htail]. cbn [app] in *. rewrite Hline at 1.
      reflexivity.
  - exists tail. split; [|exact Htail]. cbn [app]. rewrite Hline at 1. reflexivity.
Qed.

(** A line is split into the same words with its final newlines and
    without. *)
Lemma str_split_rstrip (line : str) :
  str_split (str_rstrip [10] line) = str_split line.
Proof.
  destruct (str_rstrip_decompose [10] line) as (tail & Hline & Htail).
  unfold str_split. rewrite Hline at 2. symmetry. apply split_from_trailing.
  rewrite forallb_forall in *. intros c Hc. specialize (Htail c Hc).
  cbn [existsb] in Htail. rewrite orb_false_r in Htail.
  apply Z.eqb_eq in Htail. subst c. reflexivity.
Qed.

Lemma split_from_tokens (line : str) :
  forall word : str,
    no_whitespace word = true ->
    Forall (fun t => is_token t = true) (split_from word line).
Proof.
  induction line as [|c line IH]; intros word Hword.
  - cbn [split_from]. destruct word; constructor; [exact Hword|constructor].
  - cbn [split_from]. destruct (is_whitespace c) eqn:Ec.
    + destruct word; [apply IH; reflexivity|].
      constructor; [exact Hword|apply IH; reflexivity].
    + apply IH. rewrite no_whitespace_app, Hword.
      cbn [no_whitespace forallb]. rewrite Ec. reflexivity.
Qed.

Lemma split_join_space (tokens : list str) (ws : str) :
  Forall (fun t => is_token t = true) tokens ->
  forallb is_whitespace ws = true ->
  split_from [] (join_space tokens ++ ws) = tokens.
Proof.
  intros Htok Hws. induction Htok as [|t tokens Ht Htok IH].
  - cbn [join_space app]. apply split_from_spaces, Hws.
  - pose proof (is_token_no_whitespace t Ht) as Hnw.
    pose proof (is_token_nonempty t Ht) as Hne.
    destruct tokens as [|t2 tokens].
    + cbn [join_space]. rewrite split_from_word by exact Hnw. cbn [app].
      rewrite split_from_spaces by exact Hws. destruct t; [contradiction|reflexivity].
    + change (join_space (t :: t2 :: tokens))
        with (t ++ 32 :: join_space (t2 :: tokens)).
      rewrite <- app_assoc, split_from_word by exact Hnw. cbn [app split_from].
      change (is_whitespace 32) with true. cbv iota.
      rewrite IH. destruct t; [contradiction|reflexivity].
Qed.

Lemma gold_sentence_tokens {image : Type} (example : Element image)
    (names : list str) :
  gold_sentence example tt = Done names tt ->
  Forall (fun t => is_token t = true) names.
Proof.
  unfold gold_sentence. intros Hnames.
  apply mapM_unit_lookup in Hnames as [Hlen Hnames].
  apply Forall_lookup. intros i name Hi.
  destruct (lookup_lt_is_Some_2 (elt_marks example) i) as [m Hm].
  { rewrite <- Hlen. apply lookup_lt_is_Some. eexists. exact Hi. }
  destruct (Hnames i m Hm) as (name' & Hi' & Hget).
  rewrite Hi in Hi'. injection Hi' as <-.
  unfold lift_option in Hget.
  destruct (py_getitem MARKS m) as [n|] eqn:E; [|discriminate Hget].
  injection Hget as ->.
  pose proof MARKS_tokens as Htok. rewrite Forall_forall in Htok. apply Htok.
  unfold py_getitem in E.
  destruct ((0 <=? m) && (m <? Z.of_nat (length MARKS)));
    [eapply list_elem_of_lookup_2; exact E|].
  destruct ((- Z.of_nat (length MARKS) <=? m) && (m <? 0));
    [eapply list_elem_of_lookup_2; exact E|discriminate E].
Qed.

Lemma gold_sentences_tokens {image : Type} (examples : list (Element image))
    (gold : list (list str)) :
  mapM gold_sentence examples tt = Done gold tt ->
  Forall (Forall (fun t => is_token t = true)) gold.
Proof.
  intros Hgold. apply mapM_unit_lookup in Hgold as [Hlen Hgold].
  apply Forall_lookup. intros i names Hi.
  destruct (lookup_lt_is_Some_2 examples i) as [e He].
  { rewrite <- Hlen. apply lookup_lt_is_Some. eexists. exact Hi. }
  destruct (Hgold i e He) as (names' & Hi' & Hget).
  rewrite Hi in Hi'. injection Hi' as <-.
  eapply gold_sentence_tokens, Hget.
Qed.

Lemma parse_prediction_lines (predictions : list (list str)) :
  Forall (Forall (fun t => is_token t = true)) predictions ->
  (fun line => str_split (str_rstrip [10] line)) <$> (prediction_line <$> predictions)
  = predictions.
Proof.
  induction 1 as [|tokens predictions Htok _ IH]; [reflexivity|].
  rewrite !fmap_cons, IH. f_equal.
  rewrite str_split_rstrip. unfold str_split, prediction_line.
  apply split_join_space; [exact Htok|reflexivity].
Qed.

(** X6. A line of a predictions file is read as its words, the maximal runs
    of characters that are not whitespace, so every word read is a token
    (not empty, free of whitespace) and the newlines at the end of the line
    make no difference; and a sequence of tokens written on a line, with
    single spaces between them and a newline behind, is read back as it
    was. *)
Theorem prediction_line_round_trip (line : str) (tokens : list str) :
  Forall (fun t => is_token t = true) (str_split (str_rstrip [10] line)) /\
  str_split (str_rstrip [10] line) = str_split line /\
  (Forall (fun t => is_token t = true) tokens ->
   str_split (str_rstrip [10] (prediction_line tokens)) = tokens).
Proof.
  split; [|split].
  - apply split_from_tokens. reflexivity.
  - apply str_split_rstrip.
  - intros Htok. rewrite str_split_rstrip. unfold str_split, prediction_line.
    apply split_join_space; [exact Htok|reflexivity].
Qed.

Lemma prediction_line_round_trip_witness :
  str_split (str_rstrip [10]
               (prediction_line (str_of_string <$> ["clef-G2"; "barline"]%string)))
  = str_of_string <$> ["clef-G2"; "barline"]%string.
Proof.
  refine (proj2 (proj2 (prediction_line_round_trip [] _)) _).
  repeat constructor.
Defined.

(** X7. [evaluate_file] takes one prediction from every line of the file, a
    blank line being the empty prediction. On a file that holds the gold
    sentences of the dataset, one per line, it returns 0; with a number of
    lines other than the number of examples it raises [RuntimeError]. *)
Theorem evaluate_file_of_gold (image : Type) (decode_image : bytes -> exn + image)
    (fuel : nat) (ds : Dataset image) (examples : list (Element image))
    (gold : list (list str)) :
  iterate decode_image fuel ds 0 tt = Done examples tt ->
  mapM gold_sentence examples tt = Done gold tt ->
  gold <> [] ->
  evaluate_file decode_image fuel ds (prediction_line <$> gold) tt
  = Done (Some 0%Qc) tt /\
  (forall predictions_file : list str,
     length predictions_file <> length gold ->
     evaluate_file decode_image fuel ds predictions_file tt
     = Raised RuntimeError tt) /\
  (forall lines1 lines2 : list str,
     evaluate_file decode_image fuel ds (lines1 ++ [10] :: lines2) tt
     = evaluate decode_image fuel ds
         (((fun line => str_split (str_rstrip [10] line)) <$> lines1)
          ++ [] :: ((fun line => str_split (str_rstrip [10] line)) <$> lines2)) tt).
Proof.
  intros Hit Hgold Hne. split; [|split].
  - unfold evaluate_file.
    rewrite parse_prediction_lines by (eapply gold_sentences_tokens, Hgold).
    rewrite (evaluate_mean image decode_image fuel ds gold examples gold
               Hit Hgold Hne eq_refl).
    rewrite Qc_sum_all_zero by (apply edit_distances_zero; reflexivity).
    unfold Qcdiv. rewrite Qcmult_0_l, Qcmult_0_r. reflexivity.
  - intros predictions_file Hlen. unfold evaluate_file.
    rewrite (evaluate_spec image decode_image fuel ds _ examples gold Hit Hgold).
    unfold len. rewrite length_fmap.
    destruct (Z.eqb_spec (Z.of_nat (length predictions_file))
                (Z.of_nat (length gold))); [lia|reflexivity].
  - intros lines1 lines2. unfold evaluate_file.
    rewrite fmap_app, fmap_cons. reflexivity.
Qed.

Lemma evaluate_file_of_gold_witness :
  evaluate_file raw_image 3 two_examples_eager
    (prediction_line
       <$> [str_of_string <$> ["clef-C2"; "barline"; "clef-C3"]%string; []]) tt
  = Done (Some 0%Qc) tt.
Proof.
  refine (proj1 (evaluate_file_of_gold bytes raw_image 3 two_examples_eager
                   [mkElement [1; 2; 3] [3; 1; 4]; mkElement [9] []] _
                   eq_refl eq_refl _)).
  discriminate.
Defined.

(** ** [Dataset]: the empty dataset and iteration *)

Lemma load_data_nothing {mem : Allocator} (fuel : nat) (content : bytes) (items : Z) :
  items <= 0 ->
  _load_data fuel content items = Done (∅, ∅) (mkLoad content ∅ ∅).
Proof.
  intros Hitems. unfold _load_data.
  replace (Z.to_nat items) with 0%nat by lia. reflexivity.
Qed.

(** X8. A dataset of size 0 (or less) is built without reading the file,
    in either mode, but it cannot be used: every [__getitem__] raises
    [AttributeError] in eager mode, where the empty cache sends the call to
    arrays that were not kept, and [KeyError] in on-demand mode; as neither
    is an [IndexError], iterating over the dataset, and with it [evaluate],
    raises the same exception, whatever the predictions. *)
Theorem empty_dataset_raises {mem : Allocator} (image : Type) (decode_image : bytes -> exn + image)
    (fuel : nat) (content : bytes) (size : Z) :
  size <= 0 ->
  __init__ decode_image fuel content size false tt
  = Done (mkDataset size (Some []) None None) tt /\
  __init__ decode_image fuel content size true tt
  = Done (mkDataset size None (Some ∅) (Some ∅)) tt /\
  (forall (S : Type) (index : Z) (s : S),
     __getitem__ decode_image (mkDataset size (Some []) None None) index s
     = Raised AttributeError s /\
     __getitem__ decode_image (mkDataset size None (Some ∅) (Some ∅)) index s
     = Raised KeyError s) /\
  (forall (fuel' : nat) (predictions : list (list str)),
     evaluate decode_image (S fuel') (mkDataset size (Some []) None None)
       predictions tt
     = Raised AttributeError tt /\
     evaluate decode_image (S fuel') (mkDataset size None (Some ∅) (Some ∅))
       predictions tt
     = Raised KeyError tt).
Proof.
  intros Hsize. split; [|split; [|split]].
  - unfold __init__, forget, bind. rewrite load_data_nothing by exact Hsize.
    replace (seqZ 0 size) with (@nil Z); [reflexivity|].
    unfold seqZ. replace (Z.to_nat size) with 0%nat by lia. reflexivity.
  - unfold __init__, forget, bind. rewrite load_data_nothing by exact Hsize.
    reflexivity.
  - intros S index s. split; reflexivity.
  - intros fuel' predictions. split; reflexivity.
Qed.

Lemma empty_dataset_raises_witness :
  __init__ raw_image 1 two_examples_file 0 false tt
  = Done (mkDataset 0 (Some []) None None) tt /\
  evaluate raw_image 1 (mkDataset 0 (Some []) None None) [] tt
  = Raised AttributeError tt.
Proof.
  pose proof (empty_dataset_raises bytes raw_image 1 two_examples_file 0
                ltac:(lia)) as (Hinit & _ & _ & Heval).
  split; [exact Hinit|exact (proj1 (Heval 0%nat []))].
Defined.

Lemma py_slice_init {A} (l : list A) :
  py_slice l 0 (-1) = take (length l - 1) l.
Proof.
  unfold py_slice, py_clamp. cbn [Z.ltb Z.compare].
  replace (Z.min 0 (Z.of_nat (length l))) with 0 by lia.
  cbn [Z.to_nat drop]. f_equal. lia.
Qed.

Section IterationFacts.
Variable image : Type.
Variable decode_image : bytes -> exn + image.

(** Past the last entry of the image index, [_decode] raises [IndexError]. *)
Lemma decode_past_the_end (arrays : gmap str pyarray)
    (indices : gmap str (list Z)) (buf : pyarray) (ix : list Z) (index : Z) :
  arrays !! str_of_string "image" = Some buf ->
  indices !! str_of_string "image" = Some ix ->
  len ix - 1 <= index ->
  _decode decode_image arrays indices index tt = Raised IndexError tt.
Proof.
  intros Hbuf Hix Hindex. unfold _decode.
  unfold bind at 1. rewrite Hbuf. cbn [lift_option]. unfold ret at 1.
  unfold bind at 1. rewrite Hix. cbn [lift_option]. unfold ret at 1.
  unfold bind at 1. rewrite py_getitem_None; [reflexivity|].
  rewrite py_slice_init. unfold len in *. rewrite length_take. lia.
Qed.

Lemma decode_has_image (arrays : gmap str pyarray)
    (indices : gmap str (list Z)) (index : Z) (element : Element image) :
  _decode decode_image arrays indices index tt = Done element tt ->
  is_Some (arrays !! str_of_string "image").
Proof.
  unfold _decode. unfold bind at 1.
  destruct (arrays !! str_of_string "image"); [eexists; reflexivity|discriminate].
Qed.

(** Iterating over an on-demand dataset whose first [n] elements decode and
    whose image index has [n + 1] entries. *)
Lemma iterate_on_demand (size : Z) (arrays : gmap str pyarray)
    (indices : gmap str (list Z)) (buf : pyarray) (ix : list Z)
    (data : list (Element image)) (fuel : nat) :
  arrays !! str_of_string "image" = Some buf ->
  indices !! str_of_string "image" = Some ix ->
  len ix = len data + 1 ->
  (forall (k : nat) (e : Element image),
     data !! k = Some e ->
     _decode decode_image arrays indices (Z.of_nat k) tt = Done e tt) ->
  forall k : nat,
    (k <= length data)%nat -> (length data - k < fuel)%nat ->
    iterate decode_image fuel (mkDataset size None (Some arrays) (Some indices))
      (Z.of_nat k) tt
    = Done (drop k data) tt.
Proof.
  intros Hbuf Hix Hlen Hdec. induction fuel as [|fuel IH]; intros k Hk Hfuel; [lia|].
  cbn [iterate]. unfold __getitem__. cbn [_data _arrays _indices lift_option].
  unfold bind at 1 2, ret at 1 2.
  destruct (data !! k) as [e|] eqn:Ek.
  - rewrite (Hdec k e Ek).
    apply lookup_lt_Some in Ek as Hlt.
    replace (Z.of_nat k + 1) with (Z.of_nat (S k)) by lia.
    unfold bind. rewrite IH by lia.
    rewrite (drop_S data e k Ek). reflexivity.
  - apply lookup_ge_None in Ek.
    rewrite (decode_past_the_end arrays indices buf ix (Z.of_nat k) Hbuf Hix)
      by (unfold len in *; lia).
    rewrite drop_ge by lia. reflexivity.
Qed.
End IterationFacts.

(** X9. Let a dataset be built from the same file in both modes, with a
    size of at least 1, and let the image index have [size + 1] entries (the
    image of every record, once). Iterating over the on-demand dataset then
    yields the [size] elements of the eager one and stops, so [evaluate]
    gives the same result on both. *)
Theorem on_demand_iteration {mem : Allocator} (image : Type) (decode_image : bytes -> exn + image)
    (fuel : nat) (content : bytes) (size : Z) (De : Dataset image)
    (arrays : gmap str pyarray) (indices : gmap str (list Z)) (s : lstate)
    (ix : list Z) (fuel' : nat) :
  _load_data fuel content size = Done (arrays, indices) s ->
  __init__ decode_image fuel content size false tt = Done De tt ->
  0 < size ->
  indices !! str_of_string "image" = Some ix -> len ix = size + 1 ->
  (Z.to_nat size < fuel')%nat ->
  exists data : list (Element image),
    De = mkDataset size (Some data) None None /\
    len data = size /\
    iterate decode_image fuel' De 0 tt = Done data tt /\
    iterate decode_image fuel'
      (mkDataset size None (Some arrays) (Some indices)) 0 tt = Done data tt /\
    forall predictions : list (list str),
      evaluate decode_image fuel'
        (mkDataset size None (Some arrays) (Some indices)) predictions tt
      = evaluate decode_image fuel' De predictions tt.
Proof.
  intros Hload Hinit Hsize Hix Hlen Hfuel.
  destruct (init_eager image decode_image fuel content size De Hinit)
    as (arrays' & indices' & s' & data & Hload' & Hdata & ->).
  rewrite Hload in Hload'. injection Hload' as <- <- <-.
  apply mapM_unit_lookup in Hdata as [Hdlen Hdata].
  rewrite length_seqZ in Hdlen.
  assert (Hne : data <> []) by (intros ->; cbn [length] in Hdlen; lia).
  assert (Hdec : forall (k : nat) (e : Element image),
            data !! k = Some e ->
            _decode decode_image arrays indices (Z.of_nat k) tt = Done e tt).
  { intros k e Hk. apply lookup_lt_Some in Hk as Hlt.
    destruct (Hdata k (Z.of_nat k)) as (e' & He' & Hd).
    - rewrite lookup_seqZ. split; lia.
    - rewrite Hk in He'. injection He' as <-. exact Hd. }
  assert (Hbuf : is_Some (arrays !! str_of_string "image")).
  { destruct data as [|e0 data']; [contradiction|].
    apply (decode_has_image image decode_image arrays indices 0 e0).
    apply (Hdec 0%nat e0). reflexivity. }
  destruct Hbuf as [buf Hbuf].
  assert (He : iterate decode_image fuel' (mkDataset size (Some data) None None)
                 0 tt = Done data tt).
  { apply (iterate_eager image decode_image size data fuel' Hne 0%nat); lia. }
  assert (Hl : iterate decode_image fuel'
                 (mkDataset size None (Some arrays) (Some indices)) 0 tt
               = Done data tt).
  { apply (iterate_on_demand image decode_image size arrays indices buf ix data
             fuel' Hbuf Hix ltac:(unfold len in *; lia) Hdec 0%nat); lia. }
  exists data. split; [reflexivity|]. split; [unfold len; lia|].
  split; [exact He|]. split; [exact Hl|].
  intros predictions. unfold evaluate, bind. rewrite He, Hl. reflexivity.
Qed.

Lemma on_demand_iteration_witness :
  exists data : list (Element bytes),
    two_examples_eager = mkDataset 2 (Some data) None None /\
    len data = 2 /\
    iterate raw_image 3 two_examples_eager 0 tt = Done data tt /\
    iterate raw_image 3
      (mkDataset 2 None (Some two_examples_arrays) (Some two_examples_indices))
      0 tt = Done data tt /\
    forall predictions : list (list str),
      evaluate raw_image 3
        (mkDataset 2 None (Some two_examples_arrays) (Some two_examples_indices))
        predictions tt
      = evaluate raw_image 3 two_examples_eager predictions tt.
Proof.
  refine (on_demand_iteration bytes raw_image 4 two_examples_file 2
            two_examples_eager two_examples_arrays two_examples_indices
            (mkLoad [] two_examples_arrays two_examples_indices) [0; 3; 4] 3
            _ _ _ eq_refl eq_refl _).
  - vm_compute. reflexivity.
  - vm_compute. reflexivity.
  - lia.
  - lia.
Defined.

(** ** [TransformedDataset]: chains of transforms *)

Section TransformedFacts.
Variable image : Type.
Variable decode_image : bytes -> exn + image.
Variable other : Type.
Variable S : Type.

Lemma call_transforms_snoc (transforms : list (callable image other S))
    (f : callable image other S) (value : item image other) (s : S) :
  call_transforms (transforms ++ [f]) value s
  = (let* value' := call_transforms transforms value in call_transform f value') s.
Proof.
  revert value s. induction transforms as [|g transforms IH]; intros value s.
  - cbn [app call_transforms]. unfold bind, ret.
    destruct (call_transform f value s); reflexivity.
  - cbn [app call_transforms]. unfold bind.
    destruct (call_transform g value s) as [value' s'| |]; [|reflexivity..].
    rewrite IH. reflexivity.
Qed.

Lemma py_len_idempotent (n m : Z) : py_len n = inr m -> py_len m = inr m.
Proof.
  unfold py_len. destruct (n <? 0) eqn:E0; [discriminate|].
  destruct (2^63 <=? n) eqn:E; [discriminate|]. intros H. injection H as <-.
  rewrite E0, E. reflexivity.
Qed.
End TransformedFacts.

(** X10. A dataset transformed by [f1], then [f2], and so on returns at an
    index what the transforms make, one after the other, of the element of
    the dataset at that index: each is called with the result of the one
    before, unpacked into arguments when it is a tuple; an exception of the
    dataset or of a transform ends the call, and the transforms after it
    are not called. Its length is the length of the dataset. *)
Theorem transform_chain (image : Type) (decode_image : bytes -> exn + image)
    (other S : Type) (transforms : list (callable image other S))
    (dataset : Dataset image) :
  (forall (index : Z) (s : S),
     getitem decode_image (fold_left transform transforms (Plain dataset)) index s
     = (let* element := __getitem__ decode_image dataset index in
        call_transforms transforms (Example element)) s) /\
  dataset_len (fold_left transform transforms (Plain (other := other) (S := S) dataset))
  = py_len (__len__ dataset).
Proof.
  induction transforms as [|f transforms [IHget IHlen]] using rev_ind.
  - split; [|reflexivity]. intros index s. cbn [fold_left getitem call_transforms].
    reflexivity.
  - rewrite fold_left_app. cbn [fold_left]. unfold transform at 1 3. split.
    + intros index s. cbn [getitem]. unfold bind at 1. rewrite IHget.
      unfold bind at 1 2.
      destruct (__getitem__ decode_image dataset index s) as [e s'| |];
        [|reflexivity..].
      rewrite call_transforms_snoc. reflexivity.
    + cbn [dataset_len]. rewrite IHlen.
      destruct (py_len (__len__ dataset)) as [e|n] eqn:E; [reflexivity|].
      apply (py_len_idempotent _ _ E).
Qed.

(** ** The loader: the loops inside an entry *)

(** X11. On a payload (of fewer than 2^63 bytes) the loops inside an entry
    always come to an end: [get_value] returns or raises, and when it
    returns it has read at least one byte and has not gone past the end of
    the payload; the loop over packed integers returns or raises; and so
    does one pass over an entry. *)
Theorem inner_loops_terminate (data : bytes) :
  len data < 2^63 ->
  (forall s : dstate,
     finishes (get_value data) s
              (fun _ s' => - len data <= offset s < len data /\
                           offset s < offset s' <= len data)) /\
  (forall (key : str) (target : Z) (s : dstate),
     append_values (varint_fuel data) data key target s <> Timeout) /\
  (forall s : dstate, decode_entry data s <> Timeout).
Proof.
  intros Hn. split; [|split].
  - intros s. apply get_value_finishes, Hn.
  - intros key target s H.
    pose proof (total_append_values data Hn key target s) as Ht.
    unfold finishes in Ht. rewrite H in Ht. exact Ht.
  - intros s H.
    pose proof (total_decode_entry data Hn s) as Ht.
    unfold finishes in Ht. rewrite H in Ht. exact Ht.
Qed.

Lemma inner_loops_terminate_witness :
  finishes (get_value [0x85; 0x01; 0xFF]) (mkState 0 false ∅ ∅)
           (fun _ s' => - len [0x85; 0x01; 0xFF] <= 0 < len [0x85; 0x01; 0xFF] /\
                        0 < offset s' <= len [0x85; 0x01; 0xFF]).
Proof.
  refine (proj1 (inner_loops_terminate [0x85; 0x01; 0xFF] _) (mkState 0 false ∅ ∅)).
  reflexivity.
Defined.

(** ** The loader: what a finished load leaves in the store *)

Global Instance elsewhere_preorder key : PreOrder (elsewhere key).
Proof.
  split.
  - intros s k _. split; reflexivity.
  - intros s1 s2 s3 H12 H23 k Hk.
    destruct (H12 k Hk) as [Ha Hi]. destruct (H23 k Hk) as [Ha' Hi'].
    split; congruence.
Qed.

Lemma same_store_elsewhere key s s' : same_store s s' -> elsewhere key s s'.
Proof. intros [Ha Hi] k _. rewrite Ha, Hi. split; reflexivity. Qed.

Lemma elsewhere_cursor key s o np : elsewhere key s (set_offset o np s).
Proof. apply same_store_elsewhere, same_store_cursor. Qed.

(** The steps of a computation that moves the cursor, for a relation that
    such moves respect. *)
Ltac steps_moves cursor :=
  repeat match goal with
    | |- PreOrder _ => apply _
    | |- forall s o np, _ s (set_offset o np s) => apply cursor
    | |- forall _, steps _ _ => intros ?
    | |- steps _ (bind _ _) => apply steps_bind
    | |- steps _ (ret _) => apply steps_ret
    | |- steps _ (raise _) => apply steps_raise
    | |- steps _ (gets _) => apply steps_gets
    | |- steps _ (lift_option _ _) => apply steps_lift_option
    | |- steps _ (py_assert _) => apply steps_py_assert
    | |- steps _ (fun _ => Timeout) => apply steps_timeout
    | |- steps _ (if _ then _ else _) => apply steps_if
    | |- steps _ (get_length _ _) => apply steps_get_length
    | |- steps _ (get_value_of_kind _ _) => apply steps_get_value_of_kind
    | |- steps _ (get_value _) => apply steps_get_value
    | |- steps _ (data_at _ _) => apply steps_data_at
    | |- steps _ (modify (advance _)) => apply steps_advance
    | |- steps _ (modify (add_length _)) => apply steps_add_length
    | |- steps _ (modify (set_offset _ _)) => apply steps_modify; intros ?
    | |- _ ?s (set_offset _ _ ?s) => apply cursor
    end.

Lemma steps_ensure_key_elsewhere data key : steps (elsewhere key) (ensure_key data key).
Proof.
  unfold ensure_key. steps_moves (elsewhere_cursor key).
  destruct a; steps_moves (elsewhere_cursor key).
  apply steps_modify. intros s k Hk. cbn [arrays indices].
  rewrite !lookup_insert_ne by congruence. split; reflexivity.
Qed.

Lemma steps_update_array_elsewhere key f e :
  steps (elsewhere key) (update_array key f e).
Proof.
  intros s. unfold wp, update_array.
  destruct (arrays s !! key) as [a|]; [|reflexivity].
  destruct (f a); [|reflexivity].
  intros k Hk. cbn [arrays indices].
  rewrite lookup_insert_ne by congruence. split; reflexivity.
Qed.

Lemma steps_close_example_elsewhere key : steps (elsewhere key) (close_example key).
Proof.
  intros s. unfold wp, close_example.
  destruct (arrays s !! key) as [a|]; [|reflexivity].
  destruct (indices s !! key) as [ix|]; [|reflexivity].
  intros k Hk. cbn [arrays indices].
  rewrite lookup_insert_ne by congruence. split; reflexivity.
Qed.

Lemma steps_append_values_elsewhere fuel data key target :
  steps (elsewhere key) (append_values fuel data key target).
Proof.
  induction fuel as [|fuel IH]; cbn [append_values];
    steps_moves (elsewhere_cursor key); [|exact IH].
  apply steps_update_array_elsewhere.
Qed.

Lemma steps_store_branch_elsewhere data key b :
  steps (elsewhere key) (store_branch data key b).
Proof.
  unfold store_branch. steps_moves (elsewhere_cursor key).
  - apply steps_update_array_elsewhere.
  - apply steps_append_values_elsewhere.
  - destruct (np_frombuffer_f4 _ _ _); steps_moves (elsewhere_cursor key).
    apply steps_update_array_elsewhere.
Qed.

Lemma steps_store_value_elsewhere data key :
  steps (elsewhere key) (store_value data key).
Proof.
  unfold store_value. steps_moves (elsewhere_cursor key).
  - apply steps_ensure_key_elsewhere.
  - apply steps_store_branch_elsewhere.
  - apply steps_close_example_elsewhere.
Qed.

Lemma wp_trivial {S A} (m : M S A) (s : S) :
  wp m s (fun _ _ => True) (fun _ _ => True).
Proof. unfold wp. destruct (m s); exact I. Qed.

(** The last step of [store_value] writes the end of the buffer into the
    index. *)
Lemma store_value_closes data key s :
  wp (store_value data key) s
    (fun _ s' => exists a ix,
       arrays s' !! key = Some a /\ indices s' !! key = Some ix /\
       last ix = Some (array_len a))
    (fun _ _ => True).
Proof.
  unfold store_value.
  apply wp_bind. eapply wp_mono; [apply wp_trivial| |auto]. cbn beta. intros _ s1 _.
  apply wp_bind. eapply wp_mono; [apply wp_trivial| |auto]. cbn beta. intros o s2 _.
  apply wp_bind. eapply wp_mono; [apply wp_trivial| |auto]. cbn beta. intros b s3 _.
  apply wp_bind. eapply wp_mono; [apply wp_trivial| |auto]. cbn beta. intros _ s4 _.
  unfold wp, close_example.
  destruct (arrays s4 !! key) as [a|] eqn:Ha; [|exact I].
  destruct (indices s4 !! key) as [ix|] eqn:Hix; [|exact I].
  cbn [arrays indices]. exists a, (ix ++ [array_len a]).
  rewrite lookup_insert_eq. split; [exact Ha|]. split; [reflexivity|].
  apply last_snoc.
Qed.

Lemma store_value_closed data key s :
  closed (arrays s) (indices s) ->
  wp (store_value data key) s
    (fun _ s' => closed (arrays s') (indices s')) (fun _ _ => True).
Proof.
  intros Hclosed.
  eapply wp_mono;
    [exact (wp_and _ _ _ _ _ _ (store_value_closes data key s)
              (steps_store_value_elsewhere data key s))| |auto].
  cbn beta. intros _ s' [(a & ix & Ha & Hix & Hlast) Helse] k a' ix' Ha' Hix'.
  destruct (decide (k = key)) as [->|Hk].
  - congruence.
  - destruct (Helse k Hk) as [Hak Hik]. apply (Hclosed k); congruence.
Qed.

Lemma decode_entry_closed data s :
  closed (arrays s) (indices s) ->
  wp (decode_entry data) s
    (fun _ s' => closed (arrays s') (indices s')) (fun _ _ => True).
Proof.
  intros Hclosed. unfold decode_entry.
  apply (wp_steps_bind same_store); [steps_cursor| |auto]. intros _ s1 [Ha1 Hi1].
  apply (wp_steps_bind same_store); [steps_cursor| |auto]. intros length s2 [Ha2 Hi2].
  apply (wp_steps_bind same_store); [steps_cursor| |auto]. intros o s3 [Ha3 Hi3].
  apply (wp_steps_bind same_store); [steps_cursor| |auto]. intros key s4 [Ha4 Hi4].
  apply (wp_steps_bind same_store); [steps_cursor| |auto]. intros _ s5 [Ha5 Hi5].
  apply (wp_steps_bind same_store); [steps_cursor| |auto]. intros _ s6 [Ha6 Hi6].
  apply wp_bind.
  eapply wp_mono; [apply store_value_closed| |auto].
  - rewrite Ha6, Ha5, Ha4, Ha3, Ha2, Ha1, Hi6, Hi5, Hi4, Hi3, Hi2, Hi1. exact Hclosed.
  - cbn beta. intros _ s7 H7. apply wp_ret. exact H7.
Qed.

Lemma decode_entries_closed fuel data :
  forall s, closed (arrays s) (indices s) ->
  wp (decode_entries fuel data) s
    (fun _ s' => closed (arrays s') (indices s')) (fun _ _ => True).
Proof.
  induction fuel as [|fuel IH]; intros s Hclosed; cbn [decode_entries];
    [exact I|].
  apply wp_bind, wp_gets. destruct (offset s <? len data).
  - apply wp_bind. eapply wp_mono; [apply decode_entry_closed, Hclosed| |auto].
    cbn beta. intros key s1 H1.
    apply wp_bind. eapply wp_mono; [apply IH, H1| |auto].
    cbn beta. intros keys s2 H2. apply wp_ret. exact H2.
  - apply wp_ret. exact Hclosed.
Qed.

Lemma decode_payload_closed fuel data s :
  closed (arrays s) (indices s) ->
  wp (decode_payload fuel data) s
    (fun _ s' => closed (arrays s') (indices s')) (fun _ _ => True).
Proof.
  intros Hclosed. unfold decode_payload.
  apply (wp_steps_bind same_store); [steps_cursor| |auto]. intros _ s1 [Ha1 Hi1].
  apply (wp_steps_bind same_store); [steps_cursor| |auto]. intros length s2 [Ha2 Hi2].
  apply (wp_steps_bind same_store); [steps_cursor| |auto]. intros o s3 [Ha3 Hi3].
  apply (wp_steps_bind same_store); [steps_cursor| |auto]. intros _ s4 [Ha4 Hi4].
  apply decode_entries_closed.
  rewrite Ha4, Ha3, Ha2, Ha1, Hi4, Hi3, Hi2, Hi1. exact Hclosed.
Qed.

Lemma load_records_closed {mem : Allocator} fuel items :
  forall s, closed (l_arrays s) (l_indices s) ->
  wp (load_records fuel items) s
    (fun _ s' => closed (l_arrays s') (l_indices s')) (fun _ _ => True).
Proof.
  induction items as [|items IH]; intros s Hclosed; cbn [load_records].
  - apply wp_ret. exact Hclosed.
  - apply wp_bind. eapply wp_mono; [apply read_record_store| |auto].
    cbn beta. intros data s1 [Ha1 Hi1]. apply wp_bind.
    pose proof (decode_payload_closed fuel data
                  (mkState 0 false (l_arrays s1) (l_indices s1))) as Hc.
    cbn [arrays indices] in Hc. rewrite Ha1, Hi1 in Hc. specialize (Hc Hclosed).
    unfold wp at 1. unfold with_decoder. unfold wp in Hc.
    rewrite Ha1, Hi1.
    destruct (decode_payload fuel data _) as [keys d|e d|]; [|exact I..].
    apply wp_bind. eapply wp_mono; [apply IH; exact Hc| |auto].
    cbn beta. intros log s3 H3. apply wp_ret. exact H3.
Qed.

Lemma index_ok_bounds a ix :
  index_ok a ix -> Forall (fun x => 0 <= x <= array_len a) ix.
Proof.
  intros (Hhead & Hsorted & Hle).
  destruct ix as [|x ix]; [constructor|]. injection Hhead as ->.
  apply Sorted_StronglySorted in Hsorted; [|intros ? ? ?; lia].
  apply StronglySorted_inv in Hsorted as [_ Hrest].
  rewrite Forall_forall in *. intros y Hy. split; [|apply Hle, Hy].
  apply elem_of_cons in Hy as [->|Hy]; [lia|apply Hrest, Hy].
Qed.

(** X12. After a load that finishes, buffers and indices have the same
    keys, and the index of every key holds positions within its buffer, the
    last of them the end of the buffer: the slices that the index marks
    leave out nothing that was stored under the key. *)
Theorem load_data_indices_cover {mem : Allocator} (fuel : nat) (content : bytes) (items : Z)
    (A : gmap str pyarray) (I : gmap str (list Z)) (s : lstate) :
  _load_data fuel content items = Done (A, I) s ->
  forall key,
    (is_Some (A !! key) <-> is_Some (I !! key)) /\
    forall a ix,
      A !! key = Some a -> I !! key = Some ix ->
      last ix = Some (array_len a) /\
      Forall (fun x => 0 <= x <= array_len a) ix.
Proof.
  unfold _load_data, bind, gets. intros Hload.
  pose proof (load_records_closed fuel (Z.to_nat items) (mkLoad content ∅ ∅)) as Hc.
  pose proof (steps_load_records fuel (Z.to_nat items) (mkLoad content ∅ ∅)) as Hg.
  unfold wp in Hc, Hg.
  destruct (load_records fuel (Z.to_nat items) (mkLoad content ∅ ∅))
    as [log s1|e s1|]; [|discriminate Hload..].
  injection Hload as <- <- <-.
  cbn [l_arrays l_indices] in Hc, Hg.
  assert (Hclosed : closed (l_arrays s1) (l_indices s1)).
  { apply Hc. intros k a ix Hk. rewrite lookup_empty in Hk. discriminate Hk. }
  destruct (Hg store_ok_empty) as [_ Hok].
  intros key. specialize (Hok key). split.
  - destruct (l_arrays s1 !! key), (l_indices s1 !! key);
      try contradiction; split; intros [? H]; try discriminate H; eexists; reflexivity.
  - intros a ix Ha Hix. rewrite Ha, Hix in Hok.
    split; [apply (Hclosed key); assumption|apply index_ok_bounds, Hok].
Qed.

Lemma load_data_indices_cover_witness :
  (is_Some (two_examples_arrays !! str_of_string "marks")
   <-> is_Some (two_examples_indices !! str_of_string "marks")) /\
  forall a ix,
    two_examples_arrays !! str_of_string "marks" = Some a ->
    two_examples_indices !! str_of_string "marks" = Some ix ->
    last ix = Some (array_len a) /\
    Forall (fun x => 0 <= x <= array_len a) ix.
Proof.
  refine (load_data_indices_cover 4 two_examples_file 2 two_examples_arrays
            two_examples_indices (mkLoad [] two_examples_arrays two_examples_indices)
            _ (str_of_string "marks")).
  vm_compute. reflexivity.
Defined.

(** ** The loader: values that are not as long as announced *)

Lemma py_slice_from {A} (pre tail : list A) (L : Z) :
  0 <= L ->
  py_slice (pre ++ tail) (len pre) (len pre + L) = take (Z.to_nat L) tail.
Proof.
  intros HL. unfold py_slice, py_clamp. fold (len (pre ++ tail)).
  rewrite len_app.
  pose proof (len_nonneg pre). pose proof (len_nonneg tail).
  destruct (Z.ltb_spec (len pre) 0); [lia|].
  destruct (Z.ltb_spec (len pre + L) 0); [lia|].
  rewrite (Z.min_l (len pre)) by lia. rewrite length_len, drop_app_length.
  destruct (Z.le_ge_cases L (len tail)).
  - rewrite Z.min_l by lia. f_equal. lia.
  - rewrite Z.min_r by lia.
    replace (len pre + len tail - len pre) with (len tail) by lia.
    rewrite length_len, !take_ge by (unfold len in *; lia). reflexivity.
Qed.

Section Headers.
Variables (t v1 L : Z) (pre tail : bytes) (key : str) (np : bool).
Variables (A : gmap str pyarray) (I : gmap str (list Z)) (a : pyarray) (ix : list Z).
Hypothesis first_header : 0 < v1 < 2^63.
Hypothesis second_header : 0 <= L < 2^63.
Hypothesis key_buffer : A !! key = Some a.
Hypothesis key_index : I !! key = Some ix.

(** The value: its tag and first header, the second header with the length
    [L], and what follows in the payload; [p] is where the headers end. *)
Variables (data : bytes) (p : Z).
Hypothesis data_eq :
  data = pre ++ t :: encode_varint v1 ++ 0x0A :: encode_varint L ++ tail.
Hypothesis p_eq :
  p = len pre + 1 + len (encode_varint v1) + 1 + len (encode_varint L).
Hypothesis data_fits : len data + L < 2^63.

Lemma headers_facts :
  len data = p + len tail /\ 0 <= len pre /\ 0 <= len tail /\ len pre < p /\
  data = (pre ++ t :: encode_varint v1 ++ 0x0A :: encode_varint L) ++ tail /\
  len (pre ++ t :: encode_varint v1 ++ 0x0A :: encode_varint L) = p.
Proof.
  pose proof (len_nonneg pre). pose proof (len_nonneg tail).
  pose proof (encode_varint_nonempty v1). pose proof (encode_varint_nonempty L).
  rewrite data_eq, p_eq.
  repeat (rewrite len_app || rewrite len_cons).
  repeat split; try lia.
  rewrite <- !app_assoc. cbn [app]. rewrite <- !app_assoc. reflexivity.
Qed.

Lemma headers_read :
  get_length data t (mkState (len pre) np A I) = Done L (mkState p np A I).
Proof.
  destruct headers_facts as (Hlen & ? & ? & ? & _).
  rewrite data_eq, p_eq.
  apply get_length_two_headers; [exact first_header|exact second_header|].
  rewrite <- data_eq. lia.
Qed.

Lemma py_getitem_tag : py_getitem data (len pre) = Some t.
Proof.
  rewrite data_eq. apply py_getitem_middle.
Qed.

Lemma store_value_bytes_tail :
  t = 0x0A ->
  store_value data key (mkState (len pre) np A I)
  = match array_frombytes a (take (Z.to_nat L) tail) with
    | Some a' =>
      Done tt (mkState (p + L) true (<[key := a']> A)
                 (<[key := ix ++ [array_len a']]> I))
    | None => Raised (ValueError NotMultipleOfItemSize) (mkState p np A I)
    end.
Proof.
  intros Ht. destruct headers_facts as (Hlen & ? & ? & ? & Hdata & Hp).
  rewrite (store_value_present data key (len pre) t np A I a key_buffer py_getitem_tag).
  pose proof headers_read as Hread. rewrite Ht in Hread |- *.
  unfold bind at 1. unfold store_branch.
  change (10 =? 10) with true. cbv iota.
  unfold bind at 1. rewrite Hread.
  unfold bind at 1, gets at 1. cbn [offset].
  rewrite wrap64_id by lia.
  assert (Hslice : py_slice data p (p + L) = take (Z.to_nat L) tail).
  { rewrite Hdata, <- Hp. apply py_slice_from. lia. }
  rewrite Hslice.
  unfold bind at 1, update_array. cbn [arrays indices offset offset_np].
  rewrite key_buffer.
  destruct (array_frombytes a (take (Z.to_nat L) tail)) as [a'|]; [|reflexivity].
  unfold modify, add_length, set_offset, close_example.
  cbn [arrays indices offset offset_np].
  rewrite lookup_insert_eq, key_index, wrap64_id by lia. reflexivity.
Qed.

Lemma store_value_floats_tail :
  t = 0x12 ->
  store_value data key (mkState (len pre) np A I)
  = if len tail <? 4 * (L / 4) then
      Raised (ValueError BufferTooSmall) (mkState p np A I)
    else
      match array_frombytes a (take (Z.to_nat (4 * (L / 4))) tail) with
      | Some a' =>
        Done tt (mkState (p + L) true (<[key := a']> A)
                   (<[key := ix ++ [array_len a']]> I))
      | None => Raised (ValueError NotMultipleOfItemSize) (mkState p np A I)
      end.
Proof.
  intros Ht. destruct headers_facts as (Hlen & ? & ? & ? & Hdata & Hp).
  rewrite (store_value_present data key (len pre) t np A I a key_buffer py_getitem_tag).
  pose proof headers_read as Hread. rewrite Ht in Hread |- *.
  unfold bind at 1. unfold store_branch.
  change (18 =? 10) with false. change (18 =? 26) with false.
  change (18 =? 18) with true. cbv iota.
  unfold bind at 1. rewrite Hread.
  unfold bind at 1, gets at 1. cbn [offset].
  unfold np_frombuffer_f4. rewrite Z.shiftr_div_pow2 by lia.
  change (2 ^ 2) with 4. rewrite Hlen.
  assert (0 <= L / 4) by (apply Z.div_pos; lia).
  destruct (Z.ltb_spec p 0); [lia|].
  destruct (Z.ltb_spec (p + len tail) p); [lia|]. cbn [orb].
  destruct (Z.ltb_spec (L / 4) 0); [lia|].
  replace (p + len tail - p) with (len tail) by lia.
  replace (L / 4 * 4) with (4 * (L / 4)) by lia.
  destruct (Z.ltb_spec (len tail) (4 * (L / 4))); [reflexivity|].
  assert (Hdrop : drop (Z.to_nat p) data = tail).
  { rewrite Hdata, <- Hp, length_len. apply drop_app_length. }
  rewrite Hdrop.
  unfold bind at 1, update_array. cbn [arrays indices offset offset_np].
  rewrite key_buffer.
  destruct (array_frombytes a (take (Z.to_nat (4 * (L / 4))) tail)) as [a'|];
    [|reflexivity].
  unfold modify, add_length, set_offset, close_example.
  cbn [arrays indices offset offset_np].
  rewrite lookup_insert_eq, key_index, wrap64_id by lia. reflexivity.
Qed.
End Headers.

Lemma len_take_min {A} (l : list A) (L : Z) :
  0 <= L -> len (take (Z.to_nat L) l) = Z.min L (len l).
Proof. intros HL. unfold len. rewrite length_take. lia. Qed.

(** X13. In the bytes branch the first header only has to be non-zero, and
    the second gives the length L: the bytes stored are those that the
    payload holds of the L bytes after the headers, all L of them when they
    are there and otherwise what is left, without an error; the cursor then
    stands L bytes after the headers, beyond the end of the payload when the
    value was cut short. *)
Theorem bytes_value_as_far_as_present (v1 L : Z) (pre tail : bytes) (key : str)
    (np : bool) (A : gmap str pyarray) (I : gmap str (list Z))
    (a : pyarray) (ix : list Z) :
  0 < v1 < 2^63 -> 0 <= L < 2^63 ->
  A !! key = Some a -> I !! key = Some ix -> tcode a = TC_B ->
  len (pre ++ 0x0A :: encode_varint v1 ++ 0x0A :: encode_varint L ++ tail) + L
  < 2^63 ->
  store_value (pre ++ 0x0A :: encode_varint v1 ++ 0x0A :: encode_varint L ++ tail)
    key (mkState (len pre) np A I)
  = Done tt
      (mkState (len pre + 1 + len (encode_varint v1) + 1 + len (encode_varint L) + L)
         true
         (<[key := mkArray TC_B (raw a ++ take (Z.to_nat L) tail)]> A)
         (<[key := ix ++ [len (raw a) + Z.min L (len tail)]]> I)) /\
  (len tail < L ->
   take (Z.to_nat L) tail = tail /\
   len (pre ++ 0x0A :: encode_varint v1 ++ 0x0A :: encode_varint L ++ tail)
   < len pre + 1 + len (encode_varint v1) + 1 + len (encode_varint L) + L).
Proof.
  intros Hv1 HL Ha Hix Htc Hfits. split.
  - rewrite (store_value_bytes_tail 0x0A v1 L pre tail key np A I a ix Hv1 HL Ha Hix
               _ _ eq_refl eq_refl Hfits eq_refl).
    unfold array_frombytes. rewrite Htc. cbn [itemsize].
    rewrite Z.mod_1_r. change (0 =? 0) with true. cbv iota.
    unfold array_len. cbn [tcode raw itemsize]. rewrite Z.div_1_r, len_app.
    rewrite len_take_min by lia. reflexivity.
  - intros Hshort. split; [apply take_ge; unfold len in *; lia|].
    repeat (rewrite len_app || rewrite len_cons). lia.
Qed.

Lemma bytes_value_as_far_as_present_witness :
  store_value ([] ++ 0x0A :: encode_varint 7 ++ 0x0A :: encode_varint 5 ++ [1; 2; 3])
    [97] (mkState (len (@nil Z)) true {[ [97] := mkArray TC_B [] ]} {[ [97] := [0] ]})
  = Done tt
      (mkState (len (@nil Z) + 1 + len (encode_varint 7) + 1 + len (encode_varint 5) + 5)
         true
         (<[ [97] := mkArray TC_B (raw (mkArray TC_B []) ++ take (Z.to_nat 5) [1; 2; 3]) ]>
            {[ [97] := mkArray TC_B [] ]})
         (<[ [97] := [0] ++ [len (raw (mkArray TC_B [])) + Z.min 5 (len [1; 2; 3])] ]>
            {[ [97] := [0] ]})).
Proof.
  refine (proj1 (bytes_value_as_far_as_present 7 5 [] [1; 2; 3] [97] true
                   {[ [97] := mkArray TC_B [] ]} {[ [97] := [0] ]}
                   (mkArray TC_B []) [0] _ _ _ _ eq_refl _)).
  - lia.
  - lia.
  - reflexivity.
  - reflexivity.
  - vm_compute. reflexivity.
Defined.

(** X14. In the float branch the second header gives the length L in bytes,
    and the whole floats among them are stored: 4 * (L / 4) bytes, as they
    are, so that L mod 4 bytes at the end are left out without an error;
    when the payload holds fewer bytes than that after the headers the
    branch raises [ValueError] and stores nothing. The cursor moves on by
    L. *)
Theorem float_value_whole_floats (v1 L : Z) (pre tail : bytes) (key : str)
    (np : bool) (A : gmap str pyarray) (I : gmap str (list Z))
    (a : pyarray) (ix : list Z) :
  0 < v1 < 2^63 -> 0 <= L < 2^63 ->
  A !! key = Some a -> I !! key = Some ix -> tcode a = TC_f ->
  len (pre ++ 0x12 :: encode_varint v1 ++ 0x0A :: encode_varint L ++ tail) + L
  < 2^63 ->
  store_value (pre ++ 0x12 :: encode_varint v1 ++ 0x0A :: encode_varint L ++ tail)
    key (mkState (len pre) np A I)
  = if len tail <? 4 * (L / 4) then
      Raised (ValueError BufferTooSmall)
        (mkState (len pre + 1 + len (encode_varint v1) + 1 + len (encode_varint L))
           np A I)
    else
      Done tt
        (mkState (len pre + 1 + len (encode_varint v1) + 1 + len (encode_varint L) + L)
           true
           (<[key := mkArray TC_f (raw a ++ take (Z.to_nat (4 * (L / 4))) tail)]> A)
           (<[key := ix ++ [(len (raw a) + 4 * (L / 4)) / 4]]> I)).
Proof.
  intros Hv1 HL Ha Hix Htc Hfits.
  rewrite (store_value_floats_tail 0x12 v1 L pre tail key np A I a ix Hv1 HL Ha Hix
             _ _ eq_refl eq_refl Hfits eq_refl).
  destruct (Z.ltb_spec (len tail) (4 * (L / 4))) as [|Hlong]; [reflexivity|].
  assert (0 <= L / 4) by (apply Z.div_pos; lia).
  assert (Hlen : len (take (Z.to_nat (4 * (L / 4))) tail) = 4 * (L / 4))
    by (rewrite len_take_min by lia; lia).
  assert (Hmod : (4 * (L / 4)) mod 4 = 0)
    by (rewrite Z.mul_comm; apply Z.mod_mul; lia).
  unfold array_frombytes. rewrite Htc. cbn [itemsize]. rewrite Hlen, Hmod.
  change (0 =? 0) with true. cbv iota.
  unfold array_len. cbn [tcode raw itemsize]. rewrite len_app, Hlen.
  reflexivity.
Qed.

Lemma float_value_whole_floats_witness :
  store_value
    ([] ++ 0x12 :: encode_varint 8 ++ 0x0A :: encode_varint 6
        ++ [0; 0; 128; 63; 7; 7])
    [97] (mkState (len (@nil Z)) true {[ [97] := mkArray TC_f [] ]} {[ [97] := [0] ]})
  = if len [0; 0; 128; 63; 7; 7] <? 4 * (6 / 4) then
      Raised (ValueError BufferTooSmall)
        (mkState (len (@nil Z) + 1 + len (encode_varint 8) + 1 + len (encode_varint 6))
           true {[ [97] := mkArray TC_f [] ]} {[ [97] := [0] ]})
    else
      Done tt
        (mkState (len (@nil Z) + 1 + len (encode_varint 8) + 1 + len (encode_varint 6) + 6)
           true
           (<[ [97] := mkArray TC_f (raw (mkArray TC_f [])
                                       ++ take (Z.to_nat (4 * (6 / 4)))
                                            [0; 0; 128; 63; 7; 7]) ]>
              {[ [97] := mkArray TC_f [] ]})
           (<[ [97] := [0] ++ [(len (raw (mkArray TC_f [])) + 4 * (6 / 4)) / 4] ]>
              {[ [97] := [0] ]})).
Proof.
  refine (float_value_whole_floats 8 6 [] [0; 0; 128; 63; 7; 7] [97] true
            {[ [97] := mkArray TC_f [] ]} {[ [97] := [0] ]}
            (mkArray TC_f []) [0] _ _ _ _ eq_refl _).
  - lia.
  - lia.
  - reflexivity.
  - reflexivity.
  - vm_compute. reflexivity.
Defined.

(** ** The loader: a length with bit 63 set *)

Lemma encode_varint_ten (V : Z) :
  2^63 <= V < 2^64 -> len (encode_varint V) = 10.
Proof.
  intros HV. unfold len.
  rewrite (proj2 (encode_varint_ten_bytes V ltac:(lia))) by lia. reflexivity.
Qed.

Lemma get_value_of_kind_negative (t V : Z) (pre rest : bytes)
    (A : gmap str pyarray) (I : gmap str (list Z)) :
  2^63 <= V < 2^64 ->
  len (pre ++ t :: encode_varint V ++ rest) < 2^63 ->
  get_value_of_kind (pre ++ t :: encode_varint V ++ rest) t
    (mkState (len pre) true A I)
  = Done (V - 2^64) (mkState (len pre + 11) true A I).
Proof.
  intros HV Hlen.
  pose proof (py_getitem_middle pre t (encode_varint V ++ rest)) as Hget.
  pose proof (len_nonneg pre). pose proof (encode_varint_ten V HV) as Hten.
  pose proof (len_nonneg rest).
  unfold get_value_of_kind. run. rewrite Hget. run.
  rewrite Z.eqb_refl. run.
  rewrite !len_app, !len_cons, !len_app in Hlen.
  rewrite (off_plus_1 (len pre) true) by lia.
  replace (pre ++ t :: encode_varint V ++ rest)
    with ((pre ++ [t]) ++ encode_varint V ++ rest)
    by (rewrite <- app_assoc; reflexivity).
  replace (len pre + 1) with (len (pre ++ [t]))
    by (rewrite len_app, len_cons; reflexivity).
  rewrite get_value_encoded.
  - unfold decoded. destruct (Z.ltb_spec V (2^63)); [lia|].
    rewrite Hten, len_app, len_cons. do 2 f_equal. change (len (@nil Z)) with 0. lia.
  - lia.
  - rewrite <- app_assoc. cbn [app].
    repeat (rewrite len_app || rewrite len_cons). lia.
Qed.

Lemma py_slice_backwards {A} (l : list A) (lo hi : Z) :
  0 <= hi <= lo -> py_slice l lo hi = [].
Proof.
  intros H. unfold py_slice, py_clamp.
  destruct (Z.ltb_spec lo 0); [lia|]. destruct (Z.ltb_spec hi 0); [lia|].
  replace (Z.to_nat (Z.min hi (Z.of_nat (length l)) - Z.min lo (Z.of_nat (length l))))
    with 0%nat by lia.
  reflexivity.
Qed.

Lemma array_frombytes_nil (a : pyarray) : array_frombytes a [] = Some a.
Proof.
  unfold array_frombytes. change (len (@nil Z)) with 0.
  rewrite Z.mod_0_l by (destruct (tcode a); discriminate).
  rewrite app_nil_r. destruct a; reflexivity.
Qed.

(** A value of the bytes branch whose length is read as [V - 2^64]. *)
Lemma store_value_rewinds (v1 V : Z) (pre tail : bytes) (key : str)
    (A : gmap str pyarray) (I : gmap str (list Z)) (a : pyarray) (ix : list Z) :
  0 < v1 < 2^63 -> 2^63 <= V < 2^64 ->
  A !! key = Some a -> I !! key = Some ix ->
  len (pre ++ 0x0A :: encode_varint v1 ++ 0x0A :: encode_varint V ++ tail) < 2^63 ->
  2^64 - V <= len pre + 1 + len (encode_varint v1) + 11 ->
  store_value (pre ++ 0x0A :: encode_varint v1 ++ 0x0A :: encode_varint V ++ tail)
    key (mkState (len pre) true A I)
  = Done tt
      (mkState (len pre + 1 + len (encode_varint v1) + 11 - (2^64 - V)) true A
         (<[key := ix ++ [array_len a]]> I)).
Proof.
  intros Hv1 HV Ha Hix Hlen Hback.
  set (data := pre ++ 0x0A :: encode_varint v1 ++ 0x0A :: encode_varint V ++ tail)
    in *.
  pose proof (len_nonneg pre). pose proof (len_nonneg tail).
  pose proof (encode_varint_nonempty v1). pose proof (encode_varint_ten V HV) as Hten.
  assert (Hdata : len data = len pre + 1 + len (encode_varint v1) + 11 + len tail)
    by (subst data; repeat (rewrite len_app || rewrite len_cons); lia).
  rewrite (store_value_present data key (len pre) 0x0A true A I a Ha)
    by (subst data; apply py_getitem_middle).
  unfold bind at 1. unfold store_branch. change (10 =? 10) with true. cbv iota.
  unfold bind at 1. unfold get_length. unfold bind at 1.
  assert (G1 : get_value_of_kind data 10 (mkState (len pre) true A I)
               = Done v1 (mkState (len pre + 1 + len (encode_varint v1)) true A I)).
  { subst data. apply get_value_of_kind_encoded; [lia|exact Hlen]. }
  rewrite G1. destruct (Z.eqb_spec v1 0); [lia|].
  assert (G2 : get_value_of_kind data 10
                 (mkState (len pre + 1 + len (encode_varint v1)) true A I)
               = Done (V - 2^64)
                   (mkState (len pre + 1 + len (encode_varint v1) + 11) true A I)).
  { subst data.
    replace (pre ++ 10 :: encode_varint v1 ++ 10 :: encode_varint V ++ tail)
      with ((pre ++ 10 :: encode_varint v1) ++ 10 :: encode_varint V ++ tail)
      in * by (rewrite <- app_assoc; reflexivity).
    replace (len pre + 1 + len (encode_varint v1))
      with (len (pre ++ 10 :: encode_varint v1))
      by (rewrite len_app, len_cons; lia).
    apply get_value_of_kind_negative; [exact HV|exact Hlen]. }
  rewrite G2.
  unfold bind at 1, gets at 1. cbn [offset].
  rewrite wrap64_id by lia.
  rewrite py_slice_backwards by lia.
  unfold bind at 1, update_array. cbn [arrays indices offset offset_np].
  rewrite Ha, array_frombytes_nil.
  unfold modify, add_length, set_offset, close_example.
  cbn [arrays indices offset offset_np].
  rewrite lookup_insert_eq, Hix, wrap64_id by lia.
  rewrite insert_id by exact Ha. do 2 f_equal. lia.
Qed.

(** The slice [data[p : -k]], taken behind a prefix of [p] elements. *)
Lemma py_slice_from_the_end {A} (pre tail : list A) (k : Z) :
  0 < k ->
  py_slice (pre ++ tail) (len pre) (- k) = take (Z.to_nat (len tail - k)) tail.
Proof.
  intros Hk. unfold py_slice, py_clamp. fold (len (pre ++ tail)).
  rewrite len_app. pose proof (len_nonneg pre). pose proof (len_nonneg tail).
  destruct (Z.ltb_spec (len pre) 0); [lia|]. destruct (Z.ltb_spec (- k) 0); [|lia].
  rewrite (Z.min_l (len pre)) by lia. rewrite length_len, drop_app_length.
  f_equal. lia.
Qed.

(** The same value when the length reaches back beyond the start of the
    payload: the end of the slice is then counted from the end. *)
Lemma store_value_rewinds_past_start (v1 V : Z) (pre tail : bytes) (key : str)
    (A : gmap str pyarray) (I : gmap str (list Z)) (a : pyarray) (ix : list Z) :
  0 < v1 < 2^63 -> 2^63 <= V < 2^64 ->
  A !! key = Some a -> I !! key = Some ix ->
  len (pre ++ 0x0A :: encode_varint v1 ++ 0x0A :: encode_varint V ++ tail) < 2^63 ->
  len pre + 1 + len (encode_varint v1) + 11 < 2^64 - V ->
  store_value (pre ++ 0x0A :: encode_varint v1 ++ 0x0A :: encode_varint V ++ tail)
    key (mkState (len pre) true A I)
  = match array_frombytes a
            (take (Z.to_nat (len tail
                             - (2^64 - V - (len pre + 1 + len (encode_varint v1) + 11))))
               tail) with
    | Some a' =>
      Done tt
        (mkState (len pre + 1 + len (encode_varint v1) + 11 - (2^64 - V)) true
           (<[key := a']> A) (<[key := ix ++ [array_len a']]> I))
    | None =>
      Raised (ValueError NotMultipleOfItemSize)
        (mkState (len pre + 1 + len (encode_varint v1) + 11) true A I)
    end.
Proof.
  intros Hv1 HV Ha Hix Hlen Hback.
  set (data := pre ++ 0x0A :: encode_varint v1 ++ 0x0A :: encode_varint V ++ tail)
    in *.
  pose proof (len_nonneg pre). pose proof (len_nonneg tail).
  pose proof (encode_varint_nonempty v1). pose proof (encode_varint_ten V HV) as Hten.
  set (p := len pre + 1 + len (encode_varint v1) + 11) in *.
  set (pre' := pre ++ 0x0A :: encode_varint v1 ++ 0x0A :: encode_varint V).
  assert (Hpre' : data = pre' ++ tail)
    by (subst data pre'; rewrite <- !app_assoc; cbn [app]; rewrite <- !app_assoc;
        reflexivity).
  assert (Hp : len pre' = p)
    by (subst pre' p; repeat (rewrite len_app || rewrite len_cons); lia).
  assert (Hdata : len data = p + len tail)
    by (rewrite Hpre', len_app, Hp; reflexivity).
  rewrite (store_value_present data key (len pre) 0x0A true A I a Ha)
    by (subst data; apply py_getitem_middle).
  unfold bind at 1. unfold store_branch. change (10 =? 10) with true. cbv iota.
  unfold bind at 1. unfold get_length. unfold bind at 1.
  assert (G1 : get_value_of_kind data 10 (mkState (len pre) true A I)
               = Done v1 (mkState (len pre + 1 + len (encode_varint v1)) true A I)).
  { subst data. apply get_value_of_kind_encoded; [lia|exact Hlen]. }
  rewrite G1. destruct (Z.eqb_spec v1 0); [lia|].
  assert (G2 : get_value_of_kind data 10
                 (mkState (len pre + 1 + len (encode_varint v1)) true A I)
               = Done (V - 2^64) (mkState p true A I)).
  { subst data p.
    replace (pre ++ 10 :: encode_varint v1 ++ 10 :: encode_varint V ++ tail)
      with ((pre ++ 10 :: encode_varint v1) ++ 10 :: encode_varint V ++ tail)
      in * by (rewrite <- app_assoc; reflexivity).
    replace (len pre + 1 + len (encode_varint v1))
      with (len (pre ++ 10 :: encode_varint v1))
      by (rewrite len_app, len_cons; lia).
    apply get_value_of_kind_negative; [exact HV|exact Hlen]. }
  rewrite G2.
  unfold bind at 1, gets at 1. cbn [offset].
  rewrite wrap64_id by lia.
  replace (p + (V - 2^64)) with (- (2^64 - V - p)) by lia.
  replace (py_slice data p (- (2^64 - V - p)))
    with (take (Z.to_nat (len tail - (2^64 - V - p))) tail)
    by (symmetry; rewrite Hpre', <- Hp; apply py_slice_from_the_end; lia).
  unfold bind at 1, update_array. cbn [arrays indices offset offset_np].
  rewrite Ha.
  destruct (array_frombytes a _) as [a'|]; [|reflexivity].
  unfold modify, add_length, set_offset, close_example.
  cbn [arrays indices offset offset_np].
  rewrite lookup_insert_eq, Hix, wrap64_id by lia.
  do 2 f_equal. lia.
Qed.

(** X15. When the second header of a value of the bytes branch has bit 63
    set, its value V is taken as the negative length V - 2^64, and the
    cursor moves backwards by 2^64 - V. When that leaves it within the
    payload, no byte is stored and an example without bytes is closed in
    the index. When it takes the cursor k bytes before the start of the
    payload, the end of the slice is counted from the end of the payload:
    the bytes behind the headers except the last k are stored ([ValueError]
    when their number is not a multiple of the item size), and the cursor
    ends at -k. *)
Theorem negative_length_moves_back (v1 V : Z) (pre tail : bytes) (key : str)
    (A : gmap str pyarray) (I : gmap str (list Z)) (a : pyarray) (ix : list Z) :
  0 < v1 < 2^63 -> 2^63 <= V < 2^64 ->
  A !! key = Some a -> I !! key = Some ix ->
  len (pre ++ 0x0A :: encode_varint v1 ++ 0x0A :: encode_varint V ++ tail) < 2^63 ->
  (2^64 - V <= len pre + 1 + len (encode_varint v1) + 11 ->
   exists s',
     store_value (pre ++ 0x0A :: encode_varint v1 ++ 0x0A :: encode_varint V ++ tail)
       key (mkState (len pre) true A I) = Done tt s' /\
     arrays s' = A /\
     indices s' = <[key := ix ++ [array_len a]]> I /\
     offset s' = len pre + 1 + len (encode_varint v1) + 11 - (2^64 - V) /\
     0 <= offset s' < len pre + 1 + len (encode_varint v1) + 11) /\
  (len pre + 1 + len (encode_varint v1) + 11 < 2^64 - V ->
   store_value (pre ++ 0x0A :: encode_varint v1 ++ 0x0A :: encode_varint V ++ tail)
     key (mkState (len pre) true A I)
   = match array_frombytes a
             (take (Z.to_nat (len tail
                              - (2^64 - V
                                 - (len pre + 1 + len (encode_varint v1) + 11))))
                tail) with
     | Some a' =>
       Done tt
         (mkState (len pre + 1 + len (encode_varint v1) + 11 - (2^64 - V)) true
            (<[key := a']> A) (<[key := ix ++ [array_len a']]> I))
     | None =>
       Raised (ValueError NotMultipleOfItemSize)
         (mkState (len pre + 1 + len (encode_varint v1) + 11) true A I)
     end).
Proof.
  intros Hv1 HV Ha Hix Hlen. split.
  - intros Hback. eexists. split.
    + apply store_value_rewinds; eassumption.
    + cbn [arrays indices offset]. repeat split; lia.
  - intros Hback. apply store_value_rewinds_past_start; assumption.
Qed.

Lemma negative_length_moves_back_witness :
  (exists s',
     store_value ([] ++ 0x0A :: encode_varint 11 ++ 0x0A :: encode_varint (2^64 - 5) ++ [])
       [97] (mkState (len (@nil Z)) true {[ [97] := mkArray TC_B [7] ]}
               {[ [97] := [0; 1] ]}) = Done tt s' /\
     arrays s' = {[ [97] := mkArray TC_B [7] ]} /\
     indices s' = <[ [97] := [0; 1] ++ [array_len (mkArray TC_B [7])] ]>
                    {[ [97] := [0; 1] ]} /\
     offset s' = len (@nil Z) + 1 + len (encode_varint 11) + 11 - (2^64 - (2^64 - 5)) /\
     0 <= offset s' < len (@nil Z) + 1 + len (encode_varint 11) + 11) /\
  store_value
    ([1; 2; 3; 4; 5; 6; 7; 8; 9]
     ++ 0x0A :: encode_varint 11 ++ 0x0A :: encode_varint (2^64 - 24)
     ++ [21; 22; 23; 24; 25; 26])
    [97] (mkState (len [1; 2; 3; 4; 5; 6; 7; 8; 9]) true
            {[ [97] := mkArray TC_B [7] ]} {[ [97] := [0; 1] ]})
  = Done tt
      (mkState (-2) true
         (<[ [97] := mkArray TC_B [7; 21; 22; 23; 24] ]> {[ [97] := mkArray TC_B [7] ]})
         (<[ [97] := [0; 1] ++ [5] ]> {[ [97] := [0; 1] ]})).
Proof.
  split.
  - refine (proj1 (negative_length_moves_back 11 (2^64 - 5) [] [] [97]
                     {[ [97] := mkArray TC_B [7] ]} {[ [97] := [0; 1] ]}
                     (mkArray TC_B [7]) [0; 1] _ _ _ _ _) _).
    + lia.
    + lia.
    + reflexivity.
    + reflexivity.
    + vm_compute. reflexivity.
    + vm_compute. discriminate.
  - refine (proj2 (negative_length_moves_back 11 (2^64 - 24)
                     [1; 2; 3; 4; 5; 6; 7; 8; 9] [21; 22; 23; 24; 25; 26] [97]
                     {[ [97] := mkArray TC_B [7] ]} {[ [97] := [0; 1] ]}
                     (mkArray TC_B [7]) [0; 1] _ _ _ _ _) _).
    + lia.
    + lia.
    + reflexivity.
    + reflexivity.
    + vm_compute. reflexivity.
    + vm_compute. reflexivity.
Defined.

(** ** The loader: a payload that is read forever *)

Lemma len_rewinding_value (m : Z) : 1 <= m <= 2^63 -> len (rewinding_value m) = 13.
Proof.
  intros Hm. unfold rewinding_value. rewrite len_tagged, len_cons.
  rewrite (encode_varint_ten (2^64 - m)) by lia. reflexivity.
Qed.

Lemma len_entry (kb value : bytes) :
  len (entry kb value)
  = 1 + len (encode_varint (len (tagged 0x0A kb) + len (tagged 0x12 value)))
    + (len (tagged 0x0A kb) + len (tagged 0x12 value)).
Proof. unfold entry. rewrite len_tagged, len_app. reflexivity. Qed.

Lemma len_rewinding_entry (kb : bytes) :
  len (entry kb (rewinding_value 1)) <= 2^63 ->
  len (rewinding_entry kb) = len (entry kb (rewinding_value 1)).
Proof.
  intros Hsmall. unfold rewinding_entry.
  assert (1 <= len (entry kb (rewinding_value 1))).
  { rewrite len_entry.
    pose proof (len_nonneg (tagged 10 kb)).
    pose proof (len_nonneg (tagged 18 (rewinding_value 1))).
    pose proof (len_nonneg (encode_varint (len (tagged 10 kb)
                                           + len (tagged 18 (rewinding_value 1))))).
    lia. }
  set (n := len (entry kb (rewinding_value 1))) in *.
  rewrite (len_entry kb (rewinding_value n)), (len_tagged 18 (rewinding_value n)).
  rewrite (len_rewinding_value n) by lia.
  subst n. rewrite len_entry, (len_tagged 18 (rewinding_value 1)).
  rewrite (len_rewinding_value 1) by lia. reflexivity.
Qed.

Lemma len_encode_varint_le (v : Z) : len (encode_varint v) <= 10.
Proof.
  unfold len, encode_varint. pose proof (encode_varint_aux_length_le 10 v). lia.
Qed.

Lemma len_rewinding_bound (kb : bytes) :
  len kb < 2^32 -> len (entry kb (rewinding_value 1)) < 2^33.
Proof.
  intros Hkb. rewrite len_entry, !len_tagged, len_rewinding_value by lia.
  pose proof (len_encode_varint_le (len kb)).
  pose proof (len_encode_varint_le 13).
  pose proof (len_encode_varint_le
                (1 + len (encode_varint (len kb)) + len kb
                 + (1 + len (encode_varint 13) + 13))).
  lia.
Qed.

Section Rewinding.
Variables (kb : bytes) (key : str) (pre rest : bytes).
Hypothesis key_decodes : utf8_decode kb = Some key.
Hypothesis key_short : len kb < 2^32.
Hypothesis data_fits : len (pre ++ rewinding_entry kb ++ rest) < 2^63.

(** One pass over the entry leaves the cursor where it was. *)
Lemma decode_entry_rewinds (np : bool) (A : gmap str pyarray)
    (I : gmap str (list Z)) :
  A !! key = None \/ (is_Some (A !! key) /\ is_Some (I !! key)) ->
  exists A' I',
    decode_entry (pre ++ rewinding_entry kb ++ rest) (mkState (len pre) np A I)
    = Done key (mkState (len pre) true A' I') /\
    is_Some (A' !! key) /\ is_Some (I' !! key).
Proof.
  intros Hkey.
  pose proof (len_rewinding_bound kb key_short) as Hbound.
  pose proof (len_rewinding_entry kb ltac:(lia)) as Hn.
  set (n := len (entry kb (rewinding_value 1))) in *.
  assert (Hn1 : 1 <= n).
  { subst n. rewrite len_entry. pose proof (len_nonneg (tagged 10 kb)).
    pose proof (len_nonneg (tagged 18 (rewinding_value 1))).
    pose proof (encode_varint_nonempty
                  (len (tagged 10 kb) + len (tagged 18 (rewinding_value 1)))).
    lia. }
  pose proof (len_rewinding_value n ltac:(lia)) as Hv.
  pose proof (len_nonneg pre). pose proof (len_nonneg rest). pose proof (len_nonneg kb).
  set (e := len (tagged 10 kb) + len (tagged 18 (rewinding_value n))).
  assert (Hentry : rewinding_entry kb ++ rest
                   = 10 :: encode_varint e ++ tagged 10 kb
                     ++ 18 :: encode_varint 13
                     ++ (10 :: encode_varint 11
                         ++ 10 :: encode_varint (2^64 - n) ++ rest)).
  { unfold rewinding_entry. fold n. unfold entry.
    rewrite (tagged_app 10 (tagged 10 kb ++ tagged 18 (rewinding_value n)) rest).
    rewrite len_app. fold e. rewrite <- !app_assoc.
    rewrite (tagged_app 18 (rewinding_value n) rest), Hv.
    unfold rewinding_value.
    rewrite (tagged_app 10 (10 :: encode_varint (2^64 - n)) rest).
    rewrite len_cons, (encode_varint_ten (2^64 - n)) by lia. reflexivity. }
  assert (Hlen_entry : n = 1 + len (encode_varint e) + len (tagged 10 kb)
                           + (1 + len (encode_varint 13)) + 13).
  { rewrite <- Hn. unfold rewinding_entry. fold n.
    rewrite len_entry. fold e. subst e. rewrite (len_tagged 18), Hv. lia. }
  assert (He : 0 <= e < 2^63).
  { pose proof (len_nonneg (tagged 10 kb)).
    pose proof (encode_varint_nonempty e).
    assert (e = len (tagged 10 kb) + 15)
      by (subst e; rewrite (len_tagged 18), Hv; reflexivity).
    change (len (encode_varint 13)) with 1 in Hlen_entry. lia. }
  pose proof data_fits as Hfits. rewrite Hentry in Hfits |- *.
  rewrite (decode_entry_header kb key e 13 pre _ np A I key_decodes He
             ltac:(lia) Hfits).
  set (o1 := len pre + (1 + len (encode_varint e)) + len (tagged 10 kb)
             + (1 + len (encode_varint 13))).
  set (pre1 := pre ++ 10 :: encode_varint e ++ tagged 10 kb
               ++ 18 :: encode_varint 13).
  assert (Hdata : pre ++ 10 :: encode_varint e ++ tagged 10 kb
                  ++ 18 :: encode_varint 13
                  ++ 10 :: encode_varint 11 ++ 10 :: encode_varint (2^64 - n) ++ rest
                  = pre1 ++ 10 :: encode_varint 11
                    ++ 10 :: encode_varint (2^64 - n) ++ rest).
  { subst pre1. repeat (rewrite <- app_assoc; cbn [app]). reflexivity. }
  assert (Ho1 : o1 = len pre1).
  { subst o1 pre1. repeat (rewrite len_app || rewrite len_cons). lia. }
  rewrite Hdata in Hfits |- *. rewrite Ho1.
  assert (Hback : 2^64 - (2^64 - n) <= len pre1 + 1 + len (encode_varint 11) + 11).
  { rewrite <- Ho1. subst o1. change (len (encode_varint 11)) with 1. lia. }
  assert (Hend : len pre1 + 1 + len (encode_varint 11) + 11 - (2^64 - (2^64 - n))
                 = len pre).
  { rewrite <- Ho1. subst o1. change (len (encode_varint 11)) with 1. lia. }
  assert (Hpresent : forall A0 I0 a ix,
            A0 !! key = Some a -> I0 !! key = Some ix ->
            store_value
              (pre1 ++ 10 :: encode_varint 11 ++ 10 :: encode_varint (2^64 - n) ++ rest)
              key (mkState (len pre1) true A0 I0)
            = Done tt (mkState (len pre) true A0 (<[key := ix ++ [array_len a]]> I0))).
  { intros A0 I0 a ix Ha Hix.
    rewrite (store_value_rewinds 11 (2^64 - n) pre1 rest key A0 I0 a ix
               ltac:(lia) ltac:(lia) Ha Hix Hfits Hback).
    rewrite Hend. reflexivity. }
  assert (Htag : py_getitem
                   (pre1 ++ 10 :: encode_varint 11
                    ++ 10 :: encode_varint (2^64 - n) ++ rest) (len pre1)
                 = Some 10) by apply py_getitem_middle.
  destruct Hkey as [Hnone|[[a Ha] [ix Hix]]].
  - unfold bind at 1.
    rewrite (store_value_absent _ key (len pre1) 10 true A I Hnone Htag).
    rewrite <- (store_value_present _ key (len pre1) 10 true
                  (<[key := mkArray (typecode_of_tag 10) []]> A)
                  (<[key := [0]]> I) (mkArray (typecode_of_tag 10) [])
                  (lookup_insert_eq _ _ _) Htag).
    rewrite (Hpresent _ _ _ _ (lookup_insert_eq _ _ _) (lookup_insert_eq _ _ _)).
    do 2 eexists. split; [reflexivity|].
    rewrite !lookup_insert_eq. split; eexists; reflexivity.
  - unfold bind at 1. rewrite (Hpresent _ _ _ _ Ha Hix).
    do 2 eexists. split; [reflexivity|].
    rewrite lookup_insert_eq, Ha. split; eexists; reflexivity.
Qed.

Lemma decode_entries_rewinds (fuel : nat) :
  forall (np : bool) (A : gmap str pyarray) (I : gmap str (list Z)),
    A !! key = None \/ (is_Some (A !! key) /\ is_Some (I !! key)) ->
    decode_entries fuel (pre ++ rewinding_entry kb ++ rest) (mkState (len pre) np A I)
    = Timeout.
Proof.
  induction fuel as [|fuel IH]; intros np A I Hkey; [reflexivity|].
  cbn [decode_entries]. unfold bind at 1, gets at 1. cbn [offset].
  assert (Hlt : (len pre <? len (pre ++ rewinding_entry kb ++ rest)) = true).
  { apply Z.ltb_lt. rewrite !len_app.
    pose proof (len_rewinding_bound kb key_short).
    rewrite len_rewinding_entry by lia. pose proof (len_nonneg rest).
    rewrite len_entry.
    pose proof (len_nonneg (tagged 10 kb)).
    pose proof (len_nonneg (tagged 18 (rewinding_value 1))).
    pose proof (encode_varint_nonempty
                  (len (tagged 10 kb) + len (tagged 18 (rewinding_value 1)))).
    lia. }
  rewrite Hlt. unfold bind at 1.
  destruct (decode_entry_rewinds np A I Hkey) as (A' & I' & -> & HA & HI).
  unfold bind at 1. rewrite IH by (right; split; assumption). reflexivity.
Qed.
End Rewinding.

Lemma decode_payload_rewinds (kb : bytes) (key : str) (fuel : nat) (s : dstate) :
  utf8_decode kb = Some key -> len kb < 2^32 ->
  arrays s !! key = None \/ (is_Some (arrays s !! key) /\ is_Some (indices s !! key)) ->
  decode_payload fuel (payload [rewinding_entry kb]) s = Timeout.
Proof.
  intros Hkey Hshort Hstore.
  pose proof (len_rewinding_bound kb Hshort) as Hbound.
  pose proof (len_rewinding_entry kb ltac:(lia)) as Hn.
  pose proof (len_nonneg (rewinding_entry kb)).
  pose proof (len_encode_varint_le (len (rewinding_entry kb ++ []))).
  pose proof (encode_varint_nonempty (len (rewinding_entry kb ++ []))).
  unfold payload. cbn [concat].
  assert (Hbody : len (rewinding_entry kb ++ []) = len (rewinding_entry kb))
    by (rewrite app_nil_r; reflexivity).
  set (pre := 10 :: encode_varint (len (rewinding_entry kb ++ []))).
  assert (Hdata : tagged 10 (rewinding_entry kb ++ [])
                  = pre ++ rewinding_entry kb ++ []) by reflexivity.
  assert (Hpre : len pre = 1 + len (encode_varint (len (rewinding_entry kb ++ []))))
    by (subst pre; rewrite len_cons; reflexivity).
  assert (Hfits : len (pre ++ rewinding_entry kb ++ []) < 2^63)
    by (rewrite len_app, Hpre; lia).
  unfold decode_payload.
  unfold bind at 1, modify at 1, set_offset. 
  assert (Henv : get_value_of_kind (tagged 10 (rewinding_entry kb ++ [])) 10
                   (mkState 0 false (arrays s) (indices s))
                 = Done (len (rewinding_entry kb ++ []))
                     (mkState (len pre) false (arrays s) (indices s))).
  { rewrite Hpre.
    apply (get_value_of_kind_encoded 10 (len (rewinding_entry kb ++ [])) false []
             (rewinding_entry kb ++ []) (arrays s) (indices s)); [lia|].
    cbn [app]. fold pre. change (pre ++ rewinding_entry kb ++ [])
      with (pre ++ rewinding_entry kb ++ []). 
    rewrite <- Hdata in Hfits. exact Hfits. }
  unfold bind at 1. rewrite Henv.
  unfold bind at 1, gets at 1. cbn [offset].
  unfold bind at 1, py_assert.
  replace (len (tagged 10 (rewinding_entry kb ++ [])) - len pre
           =? len (rewinding_entry kb ++ [])) with true
    by (symmetry; apply Z.eqb_eq; rewrite Hdata, len_app; lia).
  unfold ret at 1. rewrite Hdata.
  apply (decode_entries_rewinds kb key pre [] Hkey Hshort Hfits fuel false
           (arrays s) (indices s) Hstore).
Qed.

(** X16. For every key there is a payload on which the loader does not come
    to an end: its one entry has a value of the bytes branch whose second
    header is read as minus the length of the entry, so that every pass
    over the entry puts the cursor back at its start. A file that begins
    with such a record is never loaded, whatever follows it. *)
Theorem rewinding_entry_never_ends {mem : Allocator} (kb : bytes) (key : str) (fuel items : nat)
    (rest : bytes) :
  utf8_decode kb = Some key -> len kb < 2^32 ->
  _load_data fuel (frame (payload [rewinding_entry kb]) ++ rest)
    (Z.of_nat (S items))
  = Timeout.
Proof.
  intros Hkey Hshort.
  pose proof (len_rewinding_bound kb Hshort) as Hbound.
  pose proof (len_rewinding_entry kb ltac:(lia)) as Hn.
  unfold _load_data. rewrite Nat2Z.id. cbn [load_records].
  unfold bind at 1 2.
  rewrite read_record_framed.
  - unfold bind at 1, with_decoder. cbn [l_arrays l_indices].
    rewrite (decode_payload_rewinds kb key fuel (mkState 0 false ∅ ∅) Hkey Hshort)
      by (left; apply lookup_empty).
    reflexivity.
  - unfold payload. rewrite len_tagged. cbn [concat]. rewrite app_nil_r.
    pose proof (len_encode_varint_le (len (rewinding_entry kb))). lia.
Qed.

Lemma rewinding_entry_never_ends_witness :
  _load_data 1000 (frame (payload [rewinding_entry [97]]) ++ [1; 2; 3])
    (Z.of_nat 2)
  = Timeout.
Proof.
  refine (rewinding_entry_never_ends [97] [97] 1000 1 [1; 2; 3] eq_refl _).
  reflexivity.
Defined.

(** ** From a dataset file to the elements of the dataset *)

(** *** Integers in a buffer *)

Lemma wrap64_mod (v : Z) : - 2^63 <= v < 2^63 -> wrap64 (v mod 2^64) = v.
Proof.
  intros Hv. unfold wrap64. rewrite Zplus_mod_idemp_l.
  rewrite Z.mod_small by lia. lia.
Qed.

Lemma len_int64_bytes (vs : list Z) : len (int64_bytes vs) = 8 * len vs.
Proof.
  unfold int64_bytes. induction vs as [|v vs IH]; [reflexivity|].
  rewrite fmap_cons. cbn [concat]. rewrite len_app, len_cons, IH.
  rewrite (len_le_encode 8). lia.
Qed.

Lemma int64_bytes_app (vs1 vs2 : list Z) :
  int64_bytes (vs1 ++ vs2) = int64_bytes vs1 ++ int64_bytes vs2.
Proof. unfold int64_bytes. rewrite fmap_app, concat_app. reflexivity. Qed.

Lemma int64_elements_bytes (vs : list Z) (rest : bytes) :
  Forall (fun v => - 2^63 <= v < 2^63) vs ->
  int64_elements (length vs) (int64_bytes vs ++ rest) = vs.
Proof.
  induction 1 as [|v vs Hv _ IH]; [reflexivity|].
  cbn [length int64_elements]. unfold int64_bytes. rewrite fmap_cons.
  cbn [concat]. fold (int64_bytes vs). rewrite <- app_assoc.
  assert (Hlen : length (le_encode 8 (v mod 2^64)) = 8%nat).
  { pose proof (len_le_encode 8 (v mod 2^64)) as H. unfold len in H. lia. }
  rewrite (take_app_length' _ _ 8) by (symmetry; exact Hlen).
  rewrite (drop_app_length' _ _ 8) by (symmetry; exact Hlen).
  rewrite le_decode_encode
    by (change (256 ^ Z.of_nat 8) with (2^64); apply Z.mod_pos_bound; lia).
  rewrite wrap64_mod by exact Hv. f_equal. exact IH.
Qed.

Lemma array_extend_q (vs : list Z) :
  forall a : pyarray,
    tcode a = TC_q ->
    array_extend a vs = Some (mkArray TC_q (raw a ++ int64_bytes vs)).
Proof.
  induction vs as [|v vs IH]; intros a Ha; cbn [array_extend].
  - unfold int64_bytes. cbn. rewrite app_nil_r. destruct a; cbn in *; congruence.
  - unfold array_append. rewrite Ha. rewrite IH by reflexivity.
    cbn [raw]. unfold int64_bytes. rewrite fmap_cons. cbn [concat].
    rewrite <- app_assoc. reflexivity.
Qed.

(** *** One entry *)

Section Entry.
Variables (kb : bytes) (key : str) (value pre rest : bytes) (b0 : Z).
Variables (tc : typecode) (F : pyarray -> pyarray).
Hypothesis key_decodes : utf8_decode kb = Some key.
Hypothesis data_fits : len (pre ++ entry kb value ++ rest) < 2^63.
Hypothesis value_tag : exists value', value = b0 :: value'.
Hypothesis tag_type : typecode_of_tag b0 = tc.

(** What [store_value] does with the value, once the key has a buffer. *)
Hypothesis value_stored :
  forall (pre1 : bytes) (A0 : gmap str pyarray) (I0 : gmap str (list Z))
         (a : pyarray) (ix : list Z),
    A0 !! key = Some a -> I0 !! key = Some ix -> tcode a = tc ->
    len (pre1 ++ value ++ rest) < 2^63 ->
    store_value (pre1 ++ value ++ rest) key (mkState (len pre1) true A0 I0)
    = Done tt (mkState (len pre1 + len value) true
                 (<[key := F a]> A0) (<[key := ix ++ [array_len (F a)]]> I0)).

Lemma decode_entry_value (np : bool) (A : gmap str pyarray)
    (I : gmap str (list Z)) :
  (A !! key = None <-> I !! key = None) ->
  tcode (default (mkArray tc []) (A !! key)) = tc ->
  decode_entry (pre ++ entry kb value ++ rest) (mkState (len pre) np A I)
  = Done key
      (mkState (len pre + len (entry kb value)) true
         (<[key := F (default (mkArray tc []) (A !! key))]> A)
         (<[key := default [0] (I !! key)
                   ++ [array_len (F (default (mkArray tc []) (A !! key)))]]> I)).
Proof.
  intros Hpair Htc.
  set (e := len (tagged 10 kb) + len (tagged 18 value)).
  pose proof (len_nonneg pre). pose proof (len_nonneg rest).
  pose proof (len_nonneg value). pose proof (len_nonneg (tagged 10 kb)).
  pose proof (encode_varint_nonempty e).
  pose proof (encode_varint_nonempty (len value)).
  assert (Hentry : entry kb value ++ rest
                   = 10 :: encode_varint e ++ tagged 10 kb
                     ++ 18 :: encode_varint (len value) ++ value ++ rest).
  { unfold entry.
    rewrite (tagged_app 10 (tagged 10 kb ++ tagged 18 value) rest).
    rewrite len_app. fold e. rewrite <- !app_assoc.
    rewrite (tagged_app 18 value rest). reflexivity. }
  assert (Hlen_entry : len (entry kb value)
                       = 1 + len (encode_varint e) + len (tagged 10 kb)
                         + (1 + len (encode_varint (len value))) + len value).
  { rewrite len_entry. fold e. subst e. rewrite (len_tagged 18). lia. }
  pose proof data_fits as Hfits. rewrite !len_app in Hfits.
  assert (He : 0 <= e < 2^63).
  { subst e. rewrite (len_tagged 18) in *. lia. }
  pose proof data_fits as Hfits'. rewrite Hentry in Hfits' |- *.
  rewrite (decode_entry_header kb key e (len value) pre _ np A I key_decodes He
             ltac:(lia) Hfits').
  set (pre1 := pre ++ 10 :: encode_varint e ++ tagged 10 kb
               ++ 18 :: encode_varint (len value)).
  assert (Hdata : pre ++ 10 :: encode_varint e ++ tagged 10 kb
                  ++ 18 :: encode_varint (len value) ++ value ++ rest
                  = pre1 ++ value ++ rest).
  { subst pre1. repeat (rewrite <- app_assoc; cbn [app]). reflexivity. }
  assert (Ho1 : len pre + (1 + len (encode_varint e)) + len (tagged 10 kb)
                + (1 + len (encode_varint (len value))) = len pre1).
  { subst pre1. repeat (rewrite len_app || rewrite len_cons). lia. }
  rewrite Hdata in Hfits' |- *. rewrite Ho1.
  destruct value_tag as [value' Hvalue].
  assert (Htag : py_getitem (pre1 ++ value ++ rest) (len pre1) = Some b0)
    by (rewrite Hvalue; apply py_getitem_middle).
  assert (Hend : len pre1 + len value = len pre + len (entry kb value)) by lia.
  unfold bind.
  destruct (A !! key) as [a|] eqn:Ha.
  - destruct (I !! key) as [ix|] eqn:Hix;
      [|destruct Hpair as [_ Hp]; specialize (Hp eq_refl); discriminate Hp].
    cbn [default] in *.
    rewrite (value_stored pre1 A I a ix Ha Hix Htc Hfits'), Hend. reflexivity.
  - destruct (I !! key) as [ix|] eqn:Hix;
      [destruct Hpair as [Hp _]; specialize (Hp eq_refl); discriminate Hp|].
    cbn [default] in *.
    rewrite (store_value_absent _ key (len pre1) b0 true A I Ha Htag).
    rewrite <- (store_value_present _ key (len pre1) b0 true
                  (<[key := mkArray (typecode_of_tag b0) []]> A)
                  (<[key := [0]]> I) (mkArray (typecode_of_tag b0) [])
                  (lookup_insert_eq _ _ _) Htag).
    rewrite tag_type.
    rewrite (value_stored pre1 _ _ (mkArray tc []) [0]
               (lookup_insert_eq _ _ _) (lookup_insert_eq _ _ _) eq_refl Hfits').
    rewrite !insert_insert_eq, Hend. reflexivity.
Qed.
End Entry.

Lemma decode_entry_bytes_value (kb : bytes) (key : str) (bs pre rest : bytes)
    (np : bool) (A : gmap str pyarray) (I : gmap str (list Z)) :
  utf8_decode kb = Some key ->
  len (pre ++ entry kb (bytes_value bs) ++ rest) < 2^63 ->
  (A !! key = None <-> I !! key = None) ->
  tcode (default (mkArray TC_B []) (A !! key)) = TC_B ->
  decode_entry (pre ++ entry kb (bytes_value bs) ++ rest) (mkState (len pre) np A I)
  = Done key
      (mkState (len pre + len (entry kb (bytes_value bs))) true
         (<[key := mkArray TC_B (raw (default (mkArray TC_B []) (A !! key)) ++ bs)]> A)
         (<[key := default [0] (I !! key)
                   ++ [len (raw (default (mkArray TC_B []) (A !! key)) ++ bs)]]> I)).
Proof.
  intros Hkey Hfits Hpair Htc.
  rewrite (decode_entry_value kb key (bytes_value bs) pre rest 10 TC_B
             (fun a => mkArray TC_B (raw a ++ bs)) Hkey Hfits
             ltac:(eexists; reflexivity) eq_refl); [| |exact Hpair|exact Htc].
  - unfold array_len. cbn [tcode raw itemsize]. rewrite Z.div_1_r. reflexivity.
  - intros pre1 A0 I0 a ix Ha Hix Hta Hfits1.
    rewrite (store_value_bytes key bs pre1 rest true A0 I0 a ix Ha Hix Hfits1).
    unfold array_frombytes. rewrite Hta. cbn [itemsize]. rewrite Z.mod_1_r.
    reflexivity.
Qed.

Lemma decode_entry_int64_value (kb : bytes) (key : str) (vs : list Z)
    (pre rest : bytes) (np : bool) (A : gmap str pyarray) (I : gmap str (list Z)) :
  utf8_decode kb = Some key ->
  Forall (fun v => 0 <= v < 2^63) vs ->
  len (pre ++ entry kb (int64_value vs) ++ rest) < 2^63 ->
  (A !! key = None <-> I !! key = None) ->
  tcode (default (mkArray TC_q []) (A !! key)) = TC_q ->
  decode_entry (pre ++ entry kb (int64_value vs) ++ rest) (mkState (len pre) np A I)
  = Done key
      (mkState (len pre + len (entry kb (int64_value vs))) true
         (<[key := mkArray TC_q (raw (default (mkArray TC_q []) (A !! key))
                                 ++ int64_bytes vs)]> A)
         (<[key := default [0] (I !! key)
                   ++ [len (raw (default (mkArray TC_q []) (A !! key))
                            ++ int64_bytes vs) / 8]]> I)).
Proof.
  intros Hkey Hvs Hfits Hpair Htc.
  rewrite (decode_entry_value kb key (int64_value vs) pre rest 26 TC_q
             (fun a => mkArray TC_q (raw a ++ int64_bytes vs)) Hkey Hfits
             ltac:(eexists; reflexivity) eq_refl); [| |exact Hpair|exact Htc].
  - reflexivity.
  - intros pre1 A0 I0 a ix Ha Hix Hta Hfits1.
    apply (store_value_ints key vs pre1 rest true A0 I0 a _ ix Ha Hix Hvs
             (array_extend_q vs a Hta) Hfits1).
Qed.

(** *** The running totals *)

Lemma running_totals_unfold (start : Z) (sizes : list Z) :
  running_totals start sizes
  = start :: match sizes with
             | [] => []
             | n :: sizes' => running_totals (start + n) sizes'
             end.
Proof. destruct sizes; reflexivity. Qed.

Lemma length_running_totals (sizes : list Z) :
  forall start, length (running_totals start sizes) = S (length sizes).
Proof.
  induction sizes as [|n sizes IH]; intros start; [reflexivity|].
  cbn [running_totals length]. rewrite IH. reflexivity.
Qed.

Lemma running_totals_snoc {A} (ls : list (list A)) (l : list A) :
  forall start,
    running_totals start (len <$> (ls ++ [l]))
    = running_totals start (len <$> ls) ++ [start + len (concat (ls ++ [l]))].
Proof.
  induction ls as [|x ls IH]; intros start.
  - cbn [app fmap list_fmap running_totals concat]. rewrite app_nil_r. reflexivity.
  - cbn [app]. rewrite !fmap_cons. cbn [running_totals concat].
    rewrite IH, len_app, Z.add_assoc. reflexivity.
Qed.

Lemma running_totals_lookup {A} (ls : list (list A)) :
  forall (start : Z) (i : nat),
    (i <= length ls)%nat ->
    running_totals start (len <$> ls) !! i = Some (start + len (concat (take i ls))).
Proof.
  induction ls as [|x ls IH]; intros start i Hi.
  - cbn [length] in Hi. replace i with 0%nat by lia.
    change (Some start = Some (start + 0)). rewrite Z.add_0_r. reflexivity.
  - destruct i as [|i].
    + change (Some start = Some (start + 0)). rewrite Z.add_0_r. reflexivity.
    + rewrite fmap_cons. cbn [running_totals lookup list_lookup take concat].
      rewrite IH by (cbn [length] in Hi; lia). rewrite len_app. f_equal. lia.
Qed.

(** *** One record *)

Lemma image_marks_differ : str_of_string "image" <> str_of_string "marks".
Proof. intros H. vm_compute in H. discriminate H. Qed.

Lemma array_len_B (bs : bytes) : array_len (mkArray TC_B bs) = len bs.
Proof. unfold array_len. cbn [tcode raw itemsize]. apply Z.div_1_r. Qed.

Lemma decode_payload_example (done : list (bytes * list Z)) (img : bytes)
    (marks : list Z) (fuel : nat) (s : dstate) :
  holds_examples done (arrays s) (indices s) ->
  Forall (fun v => 0 <= v < 2^63) marks ->
  len (payload [entry (str_of_string "image") (bytes_value img);
                entry (str_of_string "marks") (int64_value marks)]) < 2^63 ->
  (3 <= fuel)%nat ->
  exists A' I',
    decode_payload fuel
      (payload [entry (str_of_string "image") (bytes_value img);
                entry (str_of_string "marks") (int64_value marks)]) s
    = Done [str_of_string "image"; str_of_string "marks"]
        (mkState (len (payload [entry (str_of_string "image") (bytes_value img);
                                entry (str_of_string "marks") (int64_value marks)]))
           true A' I') /\
    holds_examples (done ++ [(img, marks)]) A' I'.
Proof.
  intros (HAi & HIi & HAm & HIm & Hpi & Hpm & Hsome) Hmarks Hfits Hfuel.
  destruct s as [o np A I]. cbn [arrays indices] in *.
  set (kI := str_of_string "image") in *. set (kM := str_of_string "marks") in *.
  set (e1 := entry kI (bytes_value img)) in *.
  set (e2 := entry kM (int64_value marks)) in *.
  unfold payload in *. cbn [concat] in *.
  set (body := e1 ++ e2 ++ []) in *.
  set (pre0 := 10 :: encode_varint (len body)).
  assert (Hdata : tagged 10 body = pre0 ++ e1 ++ e2 ++ []) by reflexivity.
  assert (Hdata2 : tagged 10 body = (pre0 ++ e1) ++ e2 ++ [])
    by (rewrite Hdata, <- app_assoc; reflexivity).
  pose proof (len_nonneg e1). pose proof (len_nonneg e2).
  pose proof (encode_varint_nonempty (len body)).
  assert (He1 : 1 <= len e1).
  { subst e1. rewrite len_entry.
    pose proof (len_nonneg (tagged 10 kI)).
    pose proof (len_nonneg (tagged 18 (bytes_value img))).
    pose proof (encode_varint_nonempty
                  (len (tagged 10 kI) + len (tagged 18 (bytes_value img)))). lia. }
  assert (He2 : 1 <= len e2).
  { subst e2. rewrite len_entry.
    pose proof (len_nonneg (tagged 10 kM)).
    pose proof (len_nonneg (tagged 18 (int64_value marks))).
    pose proof (encode_varint_nonempty
                  (len (tagged 10 kM) + len (tagged 18 (int64_value marks)))). lia. }
  assert (Hbody : len body = len e1 + len e2)
    by (subst body; rewrite !len_app; change (len (@nil Z)) with 0; lia).
  assert (Hpre0 : len pre0 = 1 + len (encode_varint (len body)))
    by (subst pre0; rewrite len_cons; reflexivity).
  assert (Hlen : len (tagged 10 body) = len pre0 + len e1 + len e2)
    by (rewrite len_tagged; lia).
  (* the envelope *)
  unfold decode_payload.
  unfold bind at 1, modify at 1, set_offset. cbn [arrays indices].
  assert (Henv : get_value_of_kind (tagged 10 body) 10 (mkState 0 false A I)
                 = Done (len body) (mkState (len pre0) false A I)).
  { rewrite Hpre0.
    apply (get_value_of_kind_encoded 10 (len body) false [] body A I); [lia|].
    exact Hfits. }
  unfold bind at 1. rewrite Henv.
  unfold bind at 1, gets at 1. cbn [offset].
  unfold bind at 1, py_assert.
  replace (len (tagged 10 body) - len pre0 =? len body) with true
    by (symmetry; apply Z.eqb_eq; lia).
  unfold ret at 1.
  (* the two entries *)
  destruct fuel as [|[|[|fuel]]]; try lia.
  cbn [decode_entries]. unfold bind, gets, ret. cbn [offset].
  replace (len pre0 <? len (tagged 10 body)) with true
    by (symmetry; apply Z.ltb_lt; lia).
  assert (Htci : tcode (default (mkArray TC_B []) (A !! kI)) = TC_B)
    by (rewrite HAi; reflexivity).
  pose proof (decode_entry_bytes_value kI kI img pre0 (e2 ++ []) false A I eq_refl
                ltac:(fold e1; rewrite <- Hdata; exact Hfits) Hpi Htci) as Hent1.
  fold e1 in Hent1. rewrite <- Hdata in Hent1. rewrite Hent1.
  rewrite HAi, HIi. cbn [raw offset].
  set (A1 := <[kI := mkArray TC_B (concat done.*1 ++ img)]> A).
  set (I1 := <[kI := running_totals 0 (len <$> done.*1)
                     ++ [len (concat done.*1 ++ img)]]> I).
  replace (len pre0 + len e1 <? len (tagged 10 body)) with true
    by (symmetry; apply Z.ltb_lt; lia).
  assert (HA1m : A1 !! kM = A !! kM)
    by (subst A1; apply lookup_insert_ne, image_marks_differ).
  assert (HI1m : I1 !! kM = I !! kM)
    by (subst I1; apply lookup_insert_ne, image_marks_differ).
  assert (Htcm : tcode (default (mkArray TC_q []) (A1 !! kM)) = TC_q)
    by (rewrite HA1m, HAm; reflexivity).
  assert (Hpm1 : A1 !! kM = None <-> I1 !! kM = None)
    by (rewrite HA1m, HI1m; exact Hpm).
  pose proof (decode_entry_int64_value kM kM marks (pre0 ++ e1) [] true A1 I1 eq_refl
                Hmarks ltac:(fold e2; rewrite <- Hdata2; exact Hfits) Hpm1 Htcm)
    as Hent2.
  fold e2 in Hent2. rewrite <- Hdata2 in Hent2.
  replace (len (pre0 ++ e1)) with (len pre0 + len e1) in Hent2
    by (rewrite len_app; lia).
  rewrite Hent2.
  rewrite HA1m, HI1m, HAm, HIm. cbn [raw offset].
  replace (len pre0 + len e1 + len e2 <? len (tagged 10 body)) with false
    by (symmetry; apply Z.ltb_ge; lia).
  do 2 eexists. split.
  { do 2 f_equal. lia. }
  (* the store *)
  rewrite <- int64_bytes_app, len_int64_bytes.
  replace (8 * len (concat done.*2 ++ marks) / 8)
    with (len (concat done.*2 ++ marks))
    by (rewrite Z.mul_comm, Z.div_mul by lia; reflexivity).
  assert (Hf1 : (done ++ [(img, marks)]).*1 = done.*1 ++ [img])
    by (rewrite fmap_app; reflexivity).
  assert (Hf2 : (done ++ [(img, marks)]).*2 = done.*2 ++ [marks])
    by (rewrite fmap_app; reflexivity).
  unfold holds_examples. fold kI kM.
  rewrite !lookup_insert_eq.
  rewrite !(lookup_insert_ne _ kM kI) by (apply not_eq_sym, image_marks_differ).
  subst A1 I1. rewrite !lookup_insert_eq. cbn [default]. unfold id.
  rewrite Hf1, Hf2, (running_totals_snoc done.*1 img),
    (running_totals_snoc done.*2 marks), !Z.add_0_l, !concat_app.
  cbn [concat]. rewrite !app_nil_r.
  repeat split; try discriminate; eexists; reflexivity.
Qed.

(** *** The records of a dataset file *)

Lemma len_frame (data : bytes) : len (frame data) = 16 + len data.
Proof.
  unfold frame. rewrite !len_app, (len_le_encode 8), !len_cons.
  change (len (@nil Z)) with 0. lia.
Qed.

Lemma holds_examples_nil : holds_examples [] ∅ ∅.
Proof.
  unfold holds_examples. rewrite !lookup_empty.
  repeat split; try reflexivity; try (intros _; reflexivity).
  all: contradiction.
Qed.

Lemma load_records_dataset_file {mem : Allocator} (fuel : nat) (todo : list (bytes * list Z)) :
  forall (done : list (bytes * list Z))
         (A : gmap str pyarray) (I : gmap str (list Z)),
    holds_examples done A I ->
    Forall storable todo ->
    len (dataset_file todo) < 2^63 ->
    (3 <= fuel)%nat ->
    exists A' I',
      holds_examples (done ++ todo) A' I' /\
      forall rest : bytes,
        load_records fuel (length todo) (mkLoad (dataset_file todo ++ rest) A I)
        = Done (replicate (length todo) [str_of_string "image"; str_of_string "marks"])
            (mkLoad rest A' I').
Proof.
  induction todo as [|[img marks] todo IH]; intros done A I Hdone Hst Hfits Hfuel.
  - exists A, I. split; [rewrite app_nil_r; exact Hdone|]. reflexivity.
  - apply Forall_cons in Hst as [[_ Hmarks] Hst]. cbn [snd] in Hmarks.
    unfold dataset_file in Hfits |- *. rewrite fmap_cons in Hfits |- *.
    cbn [concat] in Hfits |- *. fold (dataset_file todo) in Hfits |- *.
    unfold example_record at 1 in Hfits. unfold example_record at 1.
    cbn [fst snd] in Hfits |- *.
    set (data := payload [entry (str_of_string "image") (bytes_value img);
                          entry (str_of_string "marks") (int64_value marks)]) in *.
    rewrite len_app, len_frame in Hfits.
    pose proof (len_nonneg data). pose proof (len_nonneg (dataset_file todo)).
    destruct (decode_payload_example done img marks fuel (mkState 0 false A I)
                Hdone Hmarks ltac:(fold data; lia) Hfuel)
      as (A1 & I1 & Hdec & Hdone1).
    fold data in Hdec.
    destruct (IH (done ++ [(img, marks)]) A1 I1 Hdone1 Hst ltac:(lia) Hfuel)
      as (A' & I' & Hall & Hload).
    exists A', I'. split; [rewrite <- app_assoc in Hall; exact Hall|].
    intros rest.
    cbn [length load_records replicate]. rewrite <- app_assoc.
    unfold bind at 1. rewrite read_record_framed by lia.
    unfold bind at 1, with_decoder at 1. cbn [l_arrays l_indices file].
    rewrite Hdec. cbn [arrays indices].
    unfold bind at 1. rewrite Hload. reflexivity.
Qed.

(** *** Reading an example back *)

Lemma py_slice_tail {A} (l : list A) : py_slice l 1 (len l) = drop 1 l.
Proof.
  unfold py_slice, py_clamp, len. cbn [Z.ltb Z.compare].
  destruct (Z.ltb_spec (Z.of_nat (length l)) 0); [lia|].
  rewrite Z.min_id.
  destruct l as [|x l]; [reflexivity|].
  replace (Z.min 1 (Z.of_nat (length (x :: l)))) with 1 by (cbn [length]; lia).
  change (Z.to_nat 1) with 1%nat. apply take_ge. rewrite length_drop.
  cbn [length]. lia.
Qed.

(** The two bounds that [_decode] reads from an index, at an index of either
    sign. *)
Lemma index_bounds {A} (ls : list (list A)) (index : Z) (j : nat) (l : list A) :
  - len ls <= index < len ls ->
  j = Z.to_nat (if index <? 0 then index + len ls else index) ->
  ls !! j = Some l ->
  py_getitem (py_slice (running_totals 0 (len <$> ls)) 0 (-1)) index
  = Some (len (concat (take j ls))) /\
  py_getitem (py_slice (running_totals 0 (len <$> ls)) 1
                (len (running_totals 0 (len <$> ls)))) index
  = Some (len (concat (take j ls)) + len l).
Proof.
  intros Hindex Hj Hl.
  pose proof (lookup_lt_Some _ _ _ Hl) as Hlt.
  assert (Hlen : length (running_totals 0 (len <$> ls)) = S (length ls))
    by (rewrite length_running_totals, length_fmap; reflexivity).
  pose proof (running_totals_lookup ls 0) as Hlook.
  set (ix := running_totals 0 (len <$> ls)) in *.
  assert (Htake : len (take (length ls) ix) = len ls)
    by (unfold len; rewrite length_take, Hlen; lia).
  assert (Hdrop : len (drop 1 ix) = len ls)
    by (unfold len; rewrite length_drop, Hlen; lia).
  split.
  - rewrite py_slice_init, Hlen.
    replace (S (length ls) - 1)%nat with (length ls) by lia.
    rewrite py_getitem_lookup by (rewrite Htake; exact Hindex).
    rewrite Htake, <- Hj, lookup_take_lt by lia.
    rewrite Hlook by lia. rewrite Z.add_0_l. reflexivity.
  - rewrite py_slice_tail.
    rewrite py_getitem_lookup by (rewrite Hdrop; exact Hindex).
    rewrite Hdrop, <- Hj, lookup_drop.
    rewrite Hlook by lia. rewrite Z.add_0_l.
    change (1 + j)%nat with (S j). rewrite (take_S_r _ _ _ Hl), concat_app, len_app.
    cbn [concat]. rewrite app_nil_r. reflexivity.
Qed.

Lemma torch_frombuffer_middle (pre mid post : bytes) (elsize count : Z) :
  0 < elsize -> 0 < count -> len mid = count * elsize ->
  torch_frombuffer (pre ++ mid ++ post) elsize (len pre) count = inr mid.
Proof.
  intros Hel Hcount Hmid. unfold torch_frombuffer. rewrite !len_app.
  pose proof (len_nonneg pre). pose proof (len_nonneg post).
  assert (0 < len mid) by nia.
  destruct (Z.leb_spec (len pre + (len mid + len post)) 0); [lia|].
  destruct (Z.eqb_spec count 0); [lia|]. cbn [orb].
  destruct (Z.ltb_spec (len pre) 0); [lia|].
  destruct (Z.leb_spec (len pre + (len mid + len post)) (len pre)); [lia|].
  cbn [orb]. destruct (Z.ltb_spec count 0); [lia|]. cbn [andb].
  destruct (Z.ltb_spec (len pre + (len mid + len post)) (len pre + count * elsize));
    [lia|].
  f_equal. unfold len at 1. rewrite Nat2Z.id, drop_app_length.
  rewrite <- Hmid. unfold len. rewrite Nat2Z.id. apply take_app_length.
Qed.

Lemma concat_middle {A} (ls : list (list A)) (j : nat) (l : list A) :
  ls !! j = Some l ->
  concat ls = concat (take j ls) ++ l ++ concat (drop (S j) ls).
Proof.
  intros Hl. rewrite <- (take_drop_middle _ _ _ Hl) at 1.
  rewrite concat_app. reflexivity.
Qed.

Section ReadBack.
Variable image : Type.
Variable decode_image : bytes -> exn + image.

Lemma decode_holds_examples {S : Type} (examples : list (bytes * list Z))
    (A : gmap str pyarray) (I : gmap str (list Z)) (index : Z) (j : nat)
    (img : bytes) (marks : list Z) (s : S) :
  holds_examples examples A I ->
  Forall storable examples ->
  - len examples <= index < len examples ->
  j = Z.to_nat (if index <? 0 then index + len examples else index) ->
  examples !! j = Some (img, marks) ->
  _decode decode_image A I index s
  = match decode_image img with
    | inl e => Raised e s
    | inr im => Done (mkElement im marks) s
    end.
Proof.
  intros (HAi & HIi & HAm & HIm & Hpi & Hpm & Hsome) Hst Hindex Hj Hex.
  assert (Hne : examples <> []) by (intros ->; rewrite lookup_nil in Hex; discriminate).
  destruct (Hsome Hne) as [[a Ha] [m Hm]].
  destruct (I !! str_of_string "image") as [ix|] eqn:EIi;
    [|pose proof (proj2 Hpi eq_refl) as Hc; rewrite Ha in Hc; discriminate].
  destruct (I !! str_of_string "marks") as [mix|] eqn:EIm;
    [|pose proof (proj2 Hpm eq_refl) as Hc; rewrite Hm in Hc; discriminate].
  rewrite Ha in HAi. rewrite Hm in HAm. cbn [default] in *. unfold id in *.
  subst a m ix mix.
  rewrite Forall_lookup in Hst. destruct (Hst j _ Hex) as [Himg Hmarks].
  cbn [fst snd] in Himg, Hmarks.
  assert (Hex1 : examples.*1 !! j = Some img)
    by (rewrite list_lookup_fmap, Hex; reflexivity).
  assert (Hex2 : examples.*2 !! j = Some marks)
    by (rewrite list_lookup_fmap, Hex; reflexivity).
  destruct (index_bounds examples.*1 index j img
              ltac:(unfold len in *; rewrite length_fmap; exact Hindex)
              ltac:(unfold len in *; rewrite length_fmap; exact Hj) Hex1)
    as [Hlo Hhi].
  destruct (index_bounds examples.*2 index j marks
              ltac:(unfold len in *; rewrite length_fmap; exact Hindex)
              ltac:(unfold len in *; rewrite length_fmap; exact Hj) Hex2)
    as [Hmlo Hmhi].
  assert (Hlenimg : 0 < len img)
    by (destruct img; [contradiction|rewrite len_cons; pose proof (len_nonneg img); lia]).
  unfold _decode, bind, lift_option, from_sum, ret, raise.
  rewrite Ha, EIi, EIm, Hm, Hlo, Hhi, Hmlo, Hmhi. cbn [raw].
  replace (len (concat (take j examples.*1)) + len img
           - len (concat (take j examples.*1))) with (len img) by lia.
  replace (len (concat (take j examples.*2)) + len marks
           - len (concat (take j examples.*2))) with (len marks) by lia.
  rewrite (concat_middle _ _ _ Hex1).
  rewrite torch_frombuffer_middle by lia.
  destruct (decode_image img) as [e|im]; [reflexivity|].
  destruct (Z.eqb_spec (len marks) 0) as [Hz|Hnz].
  - destruct marks; [reflexivity|rewrite len_cons in Hz; pose proof (len_nonneg marks); lia].
  - rewrite (concat_middle _ _ _ Hex2), !int64_bytes_app.
    replace (Z.shiftl (len (concat (take j examples.*2))) 3)
      with (len (int64_bytes (concat (take j examples.*2))))
      by (rewrite len_int64_bytes, Z.shiftl_mul_pow2 by lia; lia).
    pose proof (len_nonneg marks).
    rewrite torch_frombuffer_middle by (try rewrite len_int64_bytes; lia).
    unfold len at 1. rewrite Nat2Z.id.
    rewrite <- (app_nil_r (int64_bytes marks)), int64_elements_bytes; [reflexivity|].
    eapply Forall_impl; [exact Hmarks|]. cbn beta. intros v Hv. lia.
Qed.
End ReadBack.

Lemma index_mod (index n : Z) :
  - n <= index < n ->
  index mod n = if index <? 0 then index + n else index.
Proof.
  intros Hindex. destruct (Z.ltb_spec index 0).
  - rewrite <- (Z_mod_plus_full index 1 n), Z.mul_1_l. apply Z.mod_small. lia.
  - apply Z.mod_small. lia.
Qed.

Lemma load_dataset_file {mem : Allocator} (fuel : nat) (examples : list (bytes * list Z)) :
  Forall storable examples ->
  len (dataset_file examples) < 2^63 ->
  (3 <= fuel)%nat ->
  exists A I,
    _load_data fuel (dataset_file examples) (len examples) = Done (A, I) (mkLoad [] A I) /\
    holds_examples examples A I.
Proof.
  intros Hst Hfits Hfuel.
  destruct (load_records_dataset_file fuel examples [] ∅ ∅ holds_examples_nil
              Hst Hfits Hfuel) as (A & I & Hholds & Hload).
  specialize (Hload []). rewrite app_nil_r in Hload. cbn [app] in Hholds.
  exists A, I. split; [|exact Hholds].
  unfold _load_data, bind at 1. unfold len at 1. rewrite Nat2Z.id, Hload. reflexivity.
Qed.

Lemma decode_out_of_range {image : Type} (decode_image : bytes -> exn + image)
    {S : Type} (examples : list (bytes * list Z))
    (A : gmap str pyarray) (I : gmap str (list Z)) (index : Z) (s : S) :
  holds_examples examples A I ->
  examples <> [] ->
  ~ (- len examples <= index < len examples) ->
  _decode decode_image A I index s = Raised IndexError s.
Proof.
  intros (HAi & HIi & _ & _ & Hpi & _ & Hsome) Hne Hindex.
  destruct (Hsome Hne) as [[a Ha] _].
  destruct (I !! str_of_string "image") as [ix|] eqn:EIi;
    [|pose proof (proj2 Hpi eq_refl) as Hc; rewrite Ha in Hc; discriminate].
  cbn [default] in HIi. unfold id in HIi. subst ix.
  unfold _decode. rewrite Ha, EIi. cbn [lift_option].
  unfold bind at 1 2, ret at 1 2.
  rewrite py_getitem_None; [reflexivity|].
  rewrite py_slice_init. unfold len in *.
  rewrite length_take, length_running_totals, !length_fmap. lia.
Qed.

(** X17. A file written example by example, each a record with the encoded
    image under "image" and the marks under "marks", is read back as it was
    written: the on-demand dataset of its examples has their number as its
    length, returns at an index from minus the length up to the length the
    example of that position counted from the front or from the back, the
    image decoded and the marks as they were, or raises what decoding the
    image raises, and raises [IndexError] at every other index. This holds
    for images that are not empty and marks from 0 below 2^63. *)
Theorem dataset_file_round_trip {mem : Allocator} (image : Type) (decode_image : bytes -> exn + image)
    (fuel : nat) (examples : list (bytes * list Z)) :
  examples <> [] ->
  Forall storable examples ->
  len (dataset_file examples) < 2^63 ->
  (3 <= fuel)%nat ->
  exists ds : Dataset image,
    __init__ decode_image fuel (dataset_file examples) (len examples) true tt
    = Done ds tt /\
    __len__ ds = len examples /\
    (forall (S : Type) (s : S) (index : Z) (img : bytes) (marks : list Z),
       - len examples <= index < len examples ->
       examples !! Z.to_nat (index mod len examples) = Some (img, marks) ->
       __getitem__ decode_image ds index s
       = match decode_image img with
         | inl e => Raised e s
         | inr im => Done (mkElement im marks) s
         end) /\
    (forall (S : Type) (s : S) (index : Z),
       ~ (- len examples <= index < len examples) ->
       __getitem__ decode_image ds index s = Raised IndexError s).
Proof.
  intros Hne Hst Hfits Hfuel.
  destruct (load_dataset_file fuel examples Hst Hfits Hfuel)
    as (A & I & Hload & Hholds).
  exists (mkDataset (len examples) None (Some A) (Some I)).
  split; [|split; [reflexivity|split]].
  - unfold __init__, bind at 1, forget. rewrite Hload. reflexivity.
  - intros S s index img marks Hindex Hex.
    unfold __getitem__. cbn [_data _arrays _indices lift_option].
    unfold bind, ret.
    apply (decode_holds_examples image decode_image examples A I index _ img marks s
             Hholds Hst Hindex eq_refl).
    rewrite <- index_mod by exact Hindex. exact Hex.
  - intros S s index Hindex.
    unfold __getitem__. cbn [_data _arrays _indices lift_option].
    unfold bind at 1 2, ret at 1 2.
    apply (decode_out_of_range decode_image examples A I index s Hholds Hne Hindex).
Qed.

Lemma dataset_file_round_trip_witness :
  exists ds : Dataset bytes,
    __init__ raw_image 3 (dataset_file [([1; 2; 3], [3; 1; 4]); ([9], [])])
      (len [([1; 2; 3], [3; 1; 4]); ([9], @nil Z)]) true tt
    = Done ds tt /\
    __len__ ds = 2 /\
    __getitem__ raw_image ds (-1) tt = Done (mkElement [9] []) tt /\
    __getitem__ raw_image ds 2 tt = Raised IndexError tt.
Proof.
  destruct (dataset_file_round_trip bytes raw_image 3
              [([1; 2; 3], [3; 1; 4]); ([9], [])])
    as (ds & Hinit & Hlen & Hget & Hout).
  - discriminate.
  - repeat constructor; cbn; try discriminate; lia.
  - vm_compute. reflexivity.
  - lia.
  - exists ds. split; [exact Hinit|]. split; [exact Hlen|]. split.
    + apply (Hget unit tt (-1) [9] []); [|reflexivity].
      vm_compute. split; [intros H; discriminate H|reflexivity].
    + apply (Hout unit tt 2). vm_compute. intros [_ H]. discriminate H.
Defined.

(** ** The eager dataset *)

Lemma mapM_done_lookup {St A B : Type} (f : A -> M St B) (s : St) (l : list A) :
  forall bs : list B,
    length bs = length l ->
    (forall (i : nat) (a : A) (b : B),
       l !! i = Some a -> bs !! i = Some b -> f a s = Done b s) ->
    mapM f l s = Done bs s.
Proof.
  induction l as [|a l IH]; intros bs Hlen Hf.
  - destruct bs; [reflexivity|discriminate Hlen].
  - destruct bs as [|b bs]; [discriminate Hlen|].
    cbn [mapM]. unfold bind at 1. rewrite (Hf 0%nat a b eq_refl eq_refl).
    unfold bind at 1. rewrite (IH bs); [reflexivity| |].
    + cbn [length] in Hlen. lia.
    + intros i a' b' Ha' Hb'. apply (Hf (S i) a' b' Ha' Hb').
Qed.

Lemma mapM_raise_at {St A B : Type} (f : A -> M St B) (s : St) (e : exn) (l : list A) :
  forall (k : nat) (a : A),
    l !! k = Some a ->
    f a s = Raised e s ->
    (forall (i : nat) (a' : A),
       (i < k)%nat -> l !! i = Some a' -> exists b, f a' s = Done b s) ->
    mapM f l s = Raised e s.
Proof.
  induction l as [|x l IH]; intros k a Hk Hraise Hbefore.
  - rewrite lookup_nil in Hk. discriminate.
  - cbn [mapM]. unfold bind at 1. destruct k as [|k].
    + injection Hk as ->. rewrite Hraise. reflexivity.
    + destruct (Hbefore 0%nat x ltac:(lia) eq_refl) as [b Hb]. rewrite Hb.
      unfold bind at 1. rewrite (IH k a Hk Hraise); [reflexivity|].
      intros i a' Hi Ha'. apply (Hbefore (S i) a' ltac:(lia) Ha').
Qed.

Section Eager.
Variable image : Type.
Variable decode_image : bytes -> exn + image.

Lemma eager_elements (examples : list (bytes * list Z)) :
  Forall (fun ex => exists im, decode_image ex.1 = inr im) examples ->
  exists elements : list (Element image),
    Forall2 (fun ex el => decode_image ex.1 = inr (elt_image el) /\ elt_marks el = ex.2)
      examples elements.
Proof.
  induction 1 as [|ex examples [im Him] _ [elements IH]].
  - exists []. constructor.
  - exists (mkElement im ex.2 :: elements). constructor; [|exact IH].
    split; [exact Him|reflexivity].
Qed.

Lemma seqZ_lookup_index (n : Z) (i : nat) (a : Z) :
  seqZ 0 n !! i = Some a -> a = Z.of_nat i /\ Z.of_nat i < n.
Proof. intros H. apply lookup_seqZ in H as [-> H]. split; [lia|exact H]. Qed.

Lemma decode_at_position {S : Type} (examples : list (bytes * list Z))
    (A : gmap str pyarray) (I : gmap str (list Z)) (i : nat)
    (img : bytes) (marks : list Z) (s : S) :
  holds_examples examples A I ->
  Forall storable examples ->
  examples !! i = Some (img, marks) ->
  _decode decode_image A I (Z.of_nat i) s
  = match decode_image img with
    | inl e => Raised e s
    | inr im => Done (mkElement im marks) s
    end.
Proof.
  intros Hholds Hst Hex. pose proof (lookup_lt_Some _ _ _ Hex) as Hlt.
  apply (decode_holds_examples image decode_image examples A I (Z.of_nat i) i
           img marks s Hholds Hst).
  - unfold len. lia.
  - destruct (Z.ltb_spec (Z.of_nat i) 0); [lia|]. rewrite Nat2Z.id. reflexivity.
  - exact Hex.
Qed.
End Eager.

(** X18. On the file of a list of examples, the eager dataset decodes every
    example when it is made. If all the images decode, it is made, and it
    returns or raises at every index what the on-demand dataset of the same
    file does; if one does not, making the dataset raises what decoding the
    first such image raises, where the on-demand dataset is made and raises
    it at that example only. *)
Theorem eager_as_on_demand {mem : Allocator} (image : Type) (decode_image : bytes -> exn + image)
    (fuel : nat) (examples : list (bytes * list Z)) :
  examples <> [] ->
  Forall storable examples ->
  len (dataset_file examples) < 2^63 ->
  (3 <= fuel)%nat ->
  (Forall (fun ex => exists im, decode_image ex.1 = inr im) examples ->
   exists eager on_demand : Dataset image,
     __init__ decode_image fuel (dataset_file examples) (len examples) false tt
     = Done eager tt /\
     __init__ decode_image fuel (dataset_file examples) (len examples) true tt
     = Done on_demand tt /\
     forall (S : Type) (s : S) (index : Z),
       __getitem__ decode_image eager index s
       = __getitem__ decode_image on_demand index s) /\
  (forall (k : nat) (img : bytes) (marks : list Z) (e : exn),
     examples !! k = Some (img, marks) ->
     decode_image img = inl e ->
     Forall (fun ex => exists im, decode_image ex.1 = inr im) (take k examples) ->
     __init__ decode_image fuel (dataset_file examples) (len examples) false tt
     = Raised e tt).
Proof.
  intros Hne Hst Hfits Hfuel.
  destruct (load_dataset_file fuel examples Hst Hfits Hfuel)
    as (A & I & Hload & Hholds).
  split.
  - intros Hall. destruct (eager_elements image decode_image examples Hall)
      as [elements Hel].
    pose proof (Forall2_length _ _ _ Hel) as Hlen.
    exists (mkDataset (len examples) (Some elements) None None),
           (mkDataset (len examples) None (Some A) (Some I)).
    split; [|split].
    + unfold __init__, bind at 1, forget. rewrite Hload.
      unfold bind at 1.
      rewrite (mapM_done_lookup _ tt _ elements); [reflexivity| |].
      * rewrite length_seqZ. unfold len. lia.
      * intros i a el Ha Hi. apply seqZ_lookup_index in Ha as [-> Hlt].
        destruct (Forall2_lookup_r _ _ _ _ _ Hel Hi) as ([img marks] & Hex & Him & Hmarks).
        cbn [fst snd] in Him, Hmarks.
        rewrite (decode_at_position image decode_image examples A I i img marks tt
                   Hholds Hst Hex), Him.
        destruct el as [im ms]. cbn [elt_image elt_marks] in *. subst ms.
        reflexivity.
    + unfold __init__, bind at 1, forget. rewrite Hload. reflexivity.
    + intros S s index.
      destruct elements as [|el0 els];
        [destruct examples; [contradiction|discriminate Hlen]|].
      unfold __getitem__. cbn [_data _arrays _indices lift_option].
      unfold bind at 1 2, ret at 1 2.
      assert (Hlen' : len (el0 :: els) = len examples) by (unfold len; lia).
      destruct (decide (- len examples <= index < len examples)) as [Hindex|Hindex].
      * rewrite py_getitem_lookup by (rewrite Hlen'; exact Hindex).
        rewrite Hlen'.
        set (j := Z.to_nat (if index <? 0 then index + len examples else index)).
        assert (Hj : (j < length examples)%nat).
        { subst j. unfold len in *. destruct (Z.ltb_spec index 0); lia. }
        destruct (lookup_lt_is_Some_2 examples j Hj) as [[img marks] Hex].
        destruct (Forall2_lookup_l _ _ _ _ _ Hel Hex) as (el & Hi & Him & Hmarks).
        cbn [fst snd] in Him, Hmarks.
        rewrite Hi. cbn [lift_option]. unfold ret.
        rewrite (decode_holds_examples image decode_image examples A I index j
                   img marks s Hholds Hst Hindex eq_refl Hex), Him.
        destruct el as [im ms]. cbn [elt_image elt_marks] in *. subst ms.
        reflexivity.
      * rewrite py_getitem_None by (rewrite Hlen'; exact Hindex).
        rewrite (decode_out_of_range decode_image examples A I index s
                   Hholds Hne Hindex).
        reflexivity.
  - intros k img marks e Hex Hfail Hbefore.
    pose proof (lookup_lt_Some _ _ _ Hex) as Hlt.
    unfold __init__, bind at 1, forget. rewrite Hload.
    unfold bind at 1.
    rewrite (mapM_raise_at _ tt e _ k (Z.of_nat k)); [reflexivity| | |].
    + apply lookup_seqZ. unfold len. split; lia.
    + rewrite (decode_at_position image decode_image examples A I k img marks tt
                 Hholds Hst Hex), Hfail. reflexivity.
    + intros i a Hi Ha. apply seqZ_lookup_index in Ha as [-> _].
      destruct (lookup_lt_is_Some_2 examples i ltac:(lia)) as [[img' marks'] Hex'].
      rewrite Forall_lookup in Hbefore.
      destruct (Hbefore i (img', marks')) as [im Him].
      { rewrite lookup_take_lt by lia. exact Hex'. }
      cbn [fst] in Him. exists (mkElement im marks').
      rewrite (decode_at_position image decode_image examples A I i img' marks' tt
                 Hholds Hst Hex'), Him. reflexivity.
Qed.

Lemma eager_as_on_demand_witness :
  exists eager on_demand : Dataset bytes,
    __init__ raw_image 3 (dataset_file [([1; 2; 3], [3; 1; 4]); ([9], [])])
      (len [([1; 2; 3], [3; 1; 4]); ([9], @nil Z)]) false tt
    = Done eager tt /\
    __init__ raw_image 3 (dataset_file [([1; 2; 3], [3; 1; 4]); ([9], [])])
      (len [([1; 2; 3], [3; 1; 4]); ([9], @nil Z)]) true tt
    = Done on_demand tt /\
    forall (S : Type) (s : S) (index : Z),
      __getitem__ raw_image eager index s = __getitem__ raw_image on_demand index s.
Proof.
  refine (proj1 (eager_as_on_demand bytes raw_image 3
                   [([1; 2; 3], [3; 1; 4]); ([9], [])] _ _ _ _) _).
  - discriminate.
  - repeat constructor; cbn; try discriminate; lia.
  - vm_compute. reflexivity.
  - lia.
  - repeat constructor; eexists; reflexivity.
Defined.

(** ** The size given against the records of the file *)

Lemma dataset_file_app (examples1 examples2 : list (bytes * list Z)) :
  dataset_file (examples1 ++ examples2)
  = dataset_file examples1 ++ dataset_file examples2.
Proof. unfold dataset_file. rewrite fmap_app, concat_app. reflexivity. Qed.

Lemma load_records_add {mem : Allocator} (fuel n m : nat) :
  forall s : lstate,
    load_records fuel (n + m) s
    = match load_records fuel n s with
      | Done log s1 =>
        match load_records fuel m s1 with
        | Done log' s2 => Done (log ++ log') s2
        | Raised e s2 => Raised e s2
        | Timeout => Timeout
        end
      | Raised e s1 => Raised e s1
      | Timeout => Timeout
      end.
Proof.
  induction n as [|n IH]; intros s.
  - cbn [Nat.add load_records]. unfold ret.
    destruct (load_records fuel m s); reflexivity.
  - cbn [Nat.add load_records]. unfold bind.
    destruct (read_record s) as [data s1| |]; [|reflexivity..].
    destruct (with_decoder (decode_payload fuel data) s1) as [keys s2| |];
      [|reflexivity..].
    rewrite IH.
    destruct (load_records fuel n s2) as [log s3| |]; [|reflexivity..].
    unfold ret. destruct (load_records fuel m s3); reflexivity.
Qed.

Lemma load_records_end_of_file {mem : Allocator} (fuel m : nat)
    (A : gmap str pyarray) (I : gmap str (list Z)) :
  load_records fuel (S m) (mkLoad [] A I) = Raised AssertionError (mkLoad [] A I).
Proof. reflexivity. Qed.

(** X19. The size given to a dataset is not checked against the file. On
    the file of a list of examples, a size from 0 up to their number makes
    the dataset of the first [size] examples, the records behind them left
    unread; a size above their number raises [AssertionError], in either
    mode. *)
Theorem size_against_file {mem : Allocator} (image : Type) (decode_image : bytes -> exn + image)
    (fuel : nat) (examples : list (bytes * list Z)) (size : Z)
    (decode_on_demand : bool) :
  Forall storable examples ->
  len (dataset_file examples) < 2^63 ->
  (3 <= fuel)%nat ->
  (0 <= size <= len examples ->
   __init__ decode_image fuel (dataset_file examples) size decode_on_demand tt
   = __init__ decode_image fuel (dataset_file (take (Z.to_nat size) examples))
       size decode_on_demand tt) /\
  (len examples < size ->
   __init__ decode_image fuel (dataset_file examples) size decode_on_demand tt
   = Raised AssertionError tt).
Proof.
  intros Hst Hfits Hfuel. split.
  - intros Hsize. set (n := Z.to_nat size).
    assert (Hn : (n <= length examples)%nat) by (unfold len in Hsize; lia).
    assert (Htake : length (take n examples) = n) by (rewrite length_take; lia).
    pose proof (dataset_file_app (take n examples) (drop n examples)) as Hfile.
    rewrite take_drop in Hfile.
    pose proof (len_nonneg (dataset_file (drop n examples))).
    destruct (load_records_dataset_file fuel (take n examples) [] ∅ ∅
                holds_examples_nil (Forall_take _ n _ Hst)
                ltac:(rewrite Hfile, len_app in Hfits; lia) Hfuel)
      as (A & I & _ & Hload).
    rewrite Htake in Hload.
    assert (H1 : _load_data fuel (dataset_file examples) size
                 = Done (A, I) (mkLoad (dataset_file (drop n examples)) A I)).
    { unfold _load_data, bind. fold n. rewrite Hfile, Hload. reflexivity. }
    assert (H2 : _load_data fuel (dataset_file (take n examples)) size
                 = Done (A, I) (mkLoad [] A I)).
    { unfold _load_data, bind. fold n. specialize (Hload []).
      rewrite app_nil_r in Hload. rewrite Hload. reflexivity. }
    unfold __init__, bind, forget. rewrite H1, H2. reflexivity.
  - intros Hsize.
    destruct (load_records_dataset_file fuel examples [] ∅ ∅
                holds_examples_nil Hst Hfits Hfuel) as (A & I & _ & Hload).
    specialize (Hload []). rewrite app_nil_r in Hload.
    unfold __init__, bind at 1, forget, _load_data, bind at 1.
    replace (Z.to_nat size)
      with (length examples + S (Z.to_nat size - length examples - 1))%nat
      by (unfold len in Hsize; lia).
    rewrite load_records_add, Hload, load_records_end_of_file. reflexivity.
Qed.

Lemma size_against_file_witness :
  __init__ raw_image 3 (dataset_file [([1; 2; 3], [3; 1; 4]); ([9], [])]) 1 true tt
  = __init__ raw_image 3
      (dataset_file (take (Z.to_nat 1) [([1; 2; 3], [3; 1; 4]); ([9], [])])) 1 true tt /\
  __init__ raw_image 3 (dataset_file [([1; 2; 3], [3; 1; 4]); ([9], [])]) 3 false tt
  = Raised AssertionError tt.
Proof.
  split.
  - refine (proj1 (size_against_file bytes raw_image 3
                     [([1; 2; 3], [3; 1; 4]); ([9], [])] 1 true _ _ _) _).
    + repeat constructor; cbn; try discriminate; lia.
    + vm_compute. reflexivity.
    + lia.
    + vm_compute. split; intros H; discriminate H.
  - refine (proj2 (size_against_file bytes raw_image 3
                     [([1; 2; 3], [3; 1; 4]); ([9], [])] 3 false _ _ _) _).
    + repeat constructor; cbn; try discriminate; lia.
    + vm_compute. reflexivity.
    + lia.
    + vm_compute. reflexivity.
Defined.
